(** * pygui: the fiber reconciler, its work loop and its committer

    A shallow embedding of [pygui/__init__.py] (class [PyGui]) and the
    properties its specification states about it.

    Python objects live in a store: a fiber is a record in [heap], a
    reference to a fiber is its index, [None] is [None].  Every method of
    [PyGui] is a function in a state-and-exception monad over the engine
    record; [while] loops and recursion take fuel. *)

From Stdlib Require Import ZArith String Ascii List Lia Bool.
From stdpp Require Import base tactics option list strings.

Set Default Proof Using "Type".
Open Scope string_scope.
Open Scope list_scope.

(** ** Python values and dictionaries *)

(** The values a property can hold ([Dict[str, Any]]): [None], numbers,
    strings, and function objects (handlers), the latter compared by
    identity. *)
Inductive Value :=
| VNone
| VInt (z : Z)
| VStr (s : string)
| VFn (id : nat).

#[global] Instance Value_eq_dec : EqDecision Value.
Proof. solve_decision. Defined.

(** A [dict] keeps insertion order; its keys are distinct ([dict_wf]). *)
Definition Dict := list (string * Value).

Definition keys (d : Dict) : list string := map fst d.

Definition dict_wf (d : Dict) : Prop := List.NoDup (keys d).

(** [d[key]], [None] standing for [KeyError]. *)
Fixpoint dict_lookup (d : Dict) (key : string) : option Value :=
  match d with
  | [] => None
  | (k, v) :: d' => if String.eqb k key then Some v else dict_lookup d' key
  end.

(** [key in d] *)
Definition dict_contains (d : Dict) (key : string) : bool :=
  match dict_lookup d key with Some _ => true | None => false end.

(** [d.get(key)] *)
Definition dict_get (d : Dict) (key : string) : Value :=
  match dict_lookup d key with Some v => v | None => VNone end.

(** ** Strings *)

(** A Python string is the sequence of its characters, and a character
    is its code point, below 256: the strings of the model are those
    of the Latin-1 range, and a character beyond ASCII is written by
    its code ([ascii_of_nat 201] is the capital E with an acute
    accent, [ascii_of_nat 233] the small one). *)

(** [s.startswith(p)] *)
Definition startswith (s p : string) : bool := String.prefix p s.

(** [c.lower()]: below 256 the capital letters are [A] to [Z] (65 to
    90) and [À] to [Þ] (192 to 222) without the sign [×] (215), and the
    small letter of each is 32 further. *)
Definition lower_char (c : ascii) : ascii :=
  let n := nat_of_ascii c in
  if ((65 <=? n)%nat && (n <=? 90)%nat)
     || ((192 <=? n)%nat && (n <=? 222)%nat && negb (n =? 215)%nat)
  then ascii_of_nat (n + 32) else c.

(** [s.lower()] *)
Fixpoint lower (s : string) : string :=
  match s with
  | EmptyString => EmptyString
  | String c s' => String (lower_char c) (lower s')
  end.

(** [s[n:]] *)
Fixpoint slice_from (n : nat) (s : string) : string :=
  match n, s with
  | O, _ => s
  | S n', String _ s' => slice_from n' s'
  | S _, EmptyString => EmptyString
  end.

(** ** The backend (renderer) interface *)

Definition Dom := nat.

(** The type of a node: a backend type tag, or a function component.  A
    component is named by the identity of its function object; what it
    computes is looked up in the component table of the engine. *)
Inductive NodeType :=
| Host (tag : string)
| Component (id : nat).

#[global] Instance NodeType_eq_dec : EqDecision NodeType.
Proof. solve_decision. Defined.

(** [callable(type)], for the type of a fiber (which may be [None]) *)
Definition callable (t : option NodeType) : bool :=
  match t with Some (Component _) => true | _ => false end.

Module Renderer.
(** One constructor per method of the [Renderer] interface, with the
    arguments of the call ([create_element] also carries the node it
    returned). *)
Inductive Call :=
| create_element (type : option NodeType) (result : Dom)
| insert (el parent : Dom)
| remove (el parent : Dom)
| set_attribute (el : Dom) (attr : string) (value : Value)
| clear_attribute (el : Dom) (attr : string) (value : Value)
| add_event_listener (el : Dom) (event_type : string) (value : Value)
| remove_event_listener (el : Dom) (event_type : string) (value : Value).
End Renderer.

#[global] Instance Call_eq_dec : EqDecision Renderer.Call.
Proof. solve_decision. Defined.

(** ** [PyGui.update_dom] *)

Definition is_event (key : string) : bool := startswith key "on".

Definition is_property (key : string) : bool := negb (is_event key).

Definition is_new (val : Value) (other : Dict) (key : string) : bool :=
  bool_decide (val <> dict_get other key).

Definition event_type_of (name : string) : string := slice_from 2 (lower name).

(** Body of the loop "Remove old event listeners". *)
Definition remove_old_listener (dom : Dom) (next_props : Dict)
    (item : string * Value) : list Renderer.Call :=
  let '(name, val) := item in
  if negb (is_event name) then []
  else if negb (dict_contains next_props name) || negb (is_new val next_props name)
  then []
  else [Renderer.remove_event_listener dom (event_type_of name) val].

(** Body of the loop "Remove old properties". *)
Definition remove_old_property (dom : Dom) (prev_props next_props : Dict)
    (key : string) : list Renderer.Call :=
  if negb (is_property key) then []
  else if dict_contains next_props key then []
  else match dict_lookup prev_props key with
       | Some v => [Renderer.clear_attribute dom key v]
       | None => []
       end.

(** Body of the loop "Set new or changed properties". *)
Definition set_new_property (dom : Dom) (prev_props : Dict)
    (item : string * Value) : list Renderer.Call :=
  let '(key, val) := item in
  if negb (is_property key) then []
  else if negb (is_new val prev_props key) then []
  else [Renderer.set_attribute dom key val].

(** Body of the loop "Add new event listeners". *)
Definition add_new_listener (dom : Dom) (prev_props next_props : Dict)
    (name : string) : list Renderer.Call :=
  if negb (is_event name) then []
  else if negb (is_new (dict_get prev_props name) next_props name) then []
  else match dict_lookup next_props name with
       | Some v => [Renderer.add_event_listener dom (event_type_of name) v]
       | None => []
       end.

(** The backend calls of [update_dom(dom, prev_props, next_props)], in
    order: the four loops one after the other. *)
Definition update_dom (dom : Dom) (prev_props next_props : Dict)
  : list Renderer.Call :=
  flat_map (remove_old_listener dom next_props) prev_props
  ++ flat_map (remove_old_property dom prev_props next_props) (keys prev_props)
  ++ flat_map (set_new_property dom prev_props) next_props
  ++ flat_map (add_new_listener dom prev_props next_props) (keys next_props).

(** ** Descriptors and fibers ([types.py]) *)

(** The declarations of [types.py] are not among the sources; the types
    below have the members and fields that [PyGui] uses. *)

Inductive EffectTag := UPDATE | PLACEMENT | DELETION.

#[global] Instance EffectTag_eq_dec : EqDecision EffectTag.
Proof. solve_decision. Defined.

Inductive EventLoopType := DEFAULT | QT | SYNC.

#[global] Instance EventLoopType_eq_dec : EqDecision EventLoopType.
Proof. solve_decision. Defined.

(** [VNode(type, props, children, key)] *)
#[warnings="-register-all"]
Inductive VNode :=
| mkVNode (type : NodeType) (props : Dict) (children : list VNode)
          (key : option Value).

Definition vn_type (e : VNode) : NodeType :=
  let '(mkVNode t _ _ _) := e in t.
Definition vn_props (e : VNode) : Dict :=
  let '(mkVNode _ p _ _) := e in p.
Definition vn_children (e : VNode) : list VNode :=
  let '(mkVNode _ _ c _) := e in c.
Definition vn_key (e : VNode) : option Value :=
  let '(mkVNode _ _ _ k) := e in k.

(** [create_element(type, props, *children)]: [key] is popped out of
    [props]. *)
Definition create_element (type : NodeType) (props : option Dict)
    (children : list VNode) : VNode :=
  match props with
  | Some p =>
      mkVNode type (List.filter (fun kv => negb (String.eqb (fst kv) "key")) p)
              children (dict_lookup p "key")
  | None => mkVNode type [] children None
  end.

(** A reference to a fiber: its index in the store. *)
Abbreviation ref := nat (only parsing).

(** The object returned by [watch(fn, cb, deep=..., sync=...)]: the fiber
    whose [props] it observes and which it reports to [state_updated]. *)
Record Watcher := mkWatcher {
  watched : ref;
  deep : bool;
  sync : bool;
}.

Record Fiber := mkFiber {
  type : option NodeType;
  props : option Dict;
  props_snapshot : option Dict;
  children : option (list VNode);
  dom : option Dom;
  parent : option ref;
  child : option ref;
  sibling : option ref;
  alternate : option ref;
  effect_tag : option EffectTag;
  watcher : option Watcher;
}.

(** [Fiber()] *)
Definition Fiber_default : Fiber :=
  mkFiber None None None None None None None None None None None.

Definition set_dom (v : option Dom) (f : Fiber) : Fiber :=
  mkFiber (type f) (props f) (props_snapshot f) (children f) v (parent f)
          (child f) (sibling f) (alternate f) (effect_tag f) (watcher f).
Definition set_props (v : option Dict) (f : Fiber) : Fiber :=
  mkFiber (type f) v (props_snapshot f) (children f) (dom f) (parent f)
          (child f) (sibling f) (alternate f) (effect_tag f) (watcher f).
Definition set_children (v : option (list VNode)) (f : Fiber) : Fiber :=
  mkFiber (type f) (props f) (props_snapshot f) v (dom f) (parent f)
          (child f) (sibling f) (alternate f) (effect_tag f) (watcher f).
Definition set_child (v : option ref) (f : Fiber) : Fiber :=
  mkFiber (type f) (props f) (props_snapshot f) (children f) (dom f) (parent f)
          v (sibling f) (alternate f) (effect_tag f) (watcher f).
Definition set_sibling (v : option ref) (f : Fiber) : Fiber :=
  mkFiber (type f) (props f) (props_snapshot f) (children f) (dom f) (parent f)
          (child f) v (alternate f) (effect_tag f) (watcher f).
Definition set_alternate (v : option ref) (f : Fiber) : Fiber :=
  mkFiber (type f) (props f) (props_snapshot f) (children f) (dom f) (parent f)
          (child f) (sibling f) v (effect_tag f) (watcher f).
Definition set_effect_tag (v : option EffectTag) (f : Fiber) : Fiber :=
  mkFiber (type f) (props f) (props_snapshot f) (children f) (dom f) (parent f)
          (child f) (sibling f) (alternate f) v (watcher f).
Definition set_watcher (v : option Watcher) (f : Fiber) : Fiber :=
  mkFiber (type f) (props f) (props_snapshot f) (children f) (dom f) (parent f)
          (child f) (sibling f) (alternate f) (effect_tag f) v.

(** Truth value of [props]: [None] and the empty dict are false. *)
Definition props_truthy (p : option Dict) : bool :=
  match p with Some (_ :: _) => true | _ => false end.

(** ** The engine *)

(** What the engine does to the world outside it, in order. *)
Inductive Effect :=
| Backend (c : Renderer.Call)
| Watch (w : Watcher)
| CallSoon (deadline : Z)
| QtTimerStart (deadline : Z)
| RenderCallback (callback : nat).

(** The attributes of a [PyGui] instance, and the part of the Python
    process it works on: the store of fibers ([heap]), the renderer's
    supply of nodes ([next_dom]), the number of clock readings taken
    ([ticks]), the number of calls of component functions made
    ([calls]) and the effects so far ([effects], oldest first). *)
Record PyGui := mkPyGui {
  event_loop_type : EventLoopType;
  _current_root : option ref;
  _wip_root : option ref;
  _next_unit_of_work : option ref;
  _deletions : option (list ref);
  _render_callback : option nat;
  _request : bool;
  _qt_first_run : bool;
  _qt_connections : list Z;
  _work : list (option ref);
  heap : list Fiber;
  next_dom : Dom;
  ticks : nat;
  calls : nat;
  effects : list Effect;
}.

(** [PyGui(renderer, event_loop_type=...)] with a renderer whose next
    node is [first_dom]. *)
Definition PyGui_init (m : EventLoopType) (first_dom : Dom) : PyGui :=
  mkPyGui m None None None None None false false [] [] [] first_dom 0 0 [].

Definition with_current_root (v : option ref) (g : PyGui) : PyGui :=
  mkPyGui (event_loop_type g) v (_wip_root g) (_next_unit_of_work g)
          (_deletions g) (_render_callback g) (_request g) (_qt_first_run g)
          (_qt_connections g) (_work g) (heap g) (next_dom g) (ticks g) (calls g)
          (effects g).
Definition with_wip_root (v : option ref) (g : PyGui) : PyGui :=
  mkPyGui (event_loop_type g) (_current_root g) v (_next_unit_of_work g)
          (_deletions g) (_render_callback g) (_request g) (_qt_first_run g)
          (_qt_connections g) (_work g) (heap g) (next_dom g) (ticks g) (calls g)
          (effects g).
Definition with_next_unit_of_work (v : option ref) (g : PyGui) : PyGui :=
  mkPyGui (event_loop_type g) (_current_root g) (_wip_root g) v
          (_deletions g) (_render_callback g) (_request g) (_qt_first_run g)
          (_qt_connections g) (_work g) (heap g) (next_dom g) (ticks g) (calls g)
          (effects g).
Definition with_deletions (v : option (list ref)) (g : PyGui) : PyGui :=
  mkPyGui (event_loop_type g) (_current_root g) (_wip_root g)
          (_next_unit_of_work g) v (_render_callback g) (_request g)
          (_qt_first_run g) (_qt_connections g) (_work g) (heap g)
          (next_dom g) (ticks g) (calls g) (effects g).
Definition with_render_callback (v : option nat) (g : PyGui) : PyGui :=
  mkPyGui (event_loop_type g) (_current_root g) (_wip_root g)
          (_next_unit_of_work g) (_deletions g) v (_request g)
          (_qt_first_run g) (_qt_connections g) (_work g) (heap g)
          (next_dom g) (ticks g) (calls g) (effects g).
Definition with_request (v : bool) (g : PyGui) : PyGui :=
  mkPyGui (event_loop_type g) (_current_root g) (_wip_root g)
          (_next_unit_of_work g) (_deletions g) (_render_callback g) v
          (_qt_first_run g) (_qt_connections g) (_work g) (heap g)
          (next_dom g) (ticks g) (calls g) (effects g).
Definition with_qt (first_run : bool) (connections : list Z) (g : PyGui)
  : PyGui :=
  mkPyGui (event_loop_type g) (_current_root g) (_wip_root g)
          (_next_unit_of_work g) (_deletions g) (_render_callback g)
          (_request g) first_run connections (_work g) (heap g)
          (next_dom g) (ticks g) (calls g) (effects g).
Definition with_work (v : list (option ref)) (g : PyGui) : PyGui :=
  mkPyGui (event_loop_type g) (_current_root g) (_wip_root g)
          (_next_unit_of_work g) (_deletions g) (_render_callback g)
          (_request g) (_qt_first_run g) (_qt_connections g) v (heap g)
          (next_dom g) (ticks g) (calls g) (effects g).
Definition with_heap (v : list Fiber) (g : PyGui) : PyGui :=
  mkPyGui (event_loop_type g) (_current_root g) (_wip_root g)
          (_next_unit_of_work g) (_deletions g) (_render_callback g)
          (_request g) (_qt_first_run g) (_qt_connections g) (_work g) v
          (next_dom g) (ticks g) (calls g) (effects g).
Definition with_next_dom (v : Dom) (g : PyGui) : PyGui :=
  mkPyGui (event_loop_type g) (_current_root g) (_wip_root g)
          (_next_unit_of_work g) (_deletions g) (_render_callback g)
          (_request g) (_qt_first_run g) (_qt_connections g) (_work g)
          (heap g) v (ticks g) (calls g) (effects g).
Definition with_ticks (v : nat) (g : PyGui) : PyGui :=
  mkPyGui (event_loop_type g) (_current_root g) (_wip_root g)
          (_next_unit_of_work g) (_deletions g) (_render_callback g)
          (_request g) (_qt_first_run g) (_qt_connections g) (_work g)
          (heap g) (next_dom g) v (calls g) (effects g).
Definition with_effects (v : list Effect) (g : PyGui) : PyGui :=
  mkPyGui (event_loop_type g) (_current_root g) (_wip_root g)
          (_next_unit_of_work g) (_deletions g) (_render_callback g)
          (_request g) (_qt_first_run g) (_qt_connections g) (_work g)
          (heap g) (next_dom g) (ticks g) (calls g) v.

Definition with_calls (v : nat) (g : PyGui) : PyGui :=
  mkPyGui (event_loop_type g) (_current_root g) (_wip_root g)
          (_next_unit_of_work g) (_deletions g) (_render_callback g)
          (_request g) (_qt_first_run g) (_qt_connections g) (_work g)
          (heap g) (next_dom g) (ticks g) v (effects g).

(** *** The monad: state, exceptions, fuel *)

Inductive Exception :=
| NoneError      (* [None] used as an object: AttributeError or TypeError *)
| DanglingRef.   (* a reference outside the store: no Python counterpart *)

Inductive Outcome (A : Type) :=
| Ok (a : A) (g : PyGui)
| Raise (e : Exception)
| OutOfFuel.
Arguments Ok {A} a g.
Arguments Raise {A} e.
Arguments OutOfFuel {A}.

Definition M (A : Type) : Type := PyGui -> Outcome A.

Definition ret {A} (a : A) : M A := fun g => Ok a g.

Definition bind {A B} (m : M A) (k : A -> M B) : M B :=
  fun g => match m g with
           | Ok a g' => k a g'
           | Raise e => Raise e
           | OutOfFuel => OutOfFuel
           end.

Notation "'let*' x := m 'in' k" := (bind m (fun x => k))
  (at level 10, x name, m at level 100, k at level 200).

Definition raise {A} (e : Exception) : M A := fun _ => Raise e.
Definition out_of_fuel {A} : M A := fun _ => OutOfFuel.
Definition gets {A} (proj : PyGui -> A) : M A := fun g => Ok (proj g) g.
Definition modify (upd : PyGui -> PyGui) : M unit := fun g => Ok tt (upd g).
Definition when (b : bool) (m : M unit) : M unit := if b then m else ret tt.

(** Reading an object through a reference. *)
Definition get_fiber (r : ref) : M Fiber :=
  fun g => match heap g !! r with
           | Some f => Ok f g
           | None => Raise DanglingRef
           end.

(** [o.attr] where [o] may be [None]. *)
Definition attr {A} (o : option ref) (proj : Fiber -> A) : M A :=
  match o with
  | Some r => let* f := get_fiber r in ret (proj f)
  | None => raise NoneError
  end.

(** [o.attr = v], as the update [upd] of the record. *)
Definition assign (o : option ref) (upd : Fiber -> Fiber) : M unit :=
  match o with
  | Some r =>
      let* f := get_fiber r in
      modify (fun g => with_heap (<[r := upd f]> (heap g)) g)
  | None => raise NoneError
  end.

(** A new object in the store. *)
Definition alloc (f : Fiber) : M ref :=
  fun g => Ok (length (heap g)) (with_heap (heap g ++ [f]) g).

Definition emit (e : Effect) : M unit :=
  modify (fun g => with_effects (effects g ++ [e]) g).

Definition is_some {A} (o : option A) : bool :=
  match o with Some _ => true | None => false end.

Arguments bind : simpl never.
Arguments ret : simpl never.
Arguments get_fiber : simpl never.
Arguments attr : simpl never.
Arguments assign : simpl never.
Arguments alloc : simpl never.
Arguments emit : simpl never.
Arguments gets : simpl never.
Arguments modify : simpl never.

(** [a and b] on references: [b] is evaluated only when [a] is an object. *)
Definition and_then (a : option ref) (b : M (option ref)) : M (option ref) :=
  match a with Some _ => b | None => ret None end.

(** The renderer hands out its nodes in sequence. *)
Definition renderer_create_element (t : option NodeType) : M Dom :=
  fun g =>
    let d := next_dom g in
    Ok d (with_effects (effects g ++ [Backend (Renderer.create_element t d)])
                       (with_next_dom (S d) g)).

Definition renderer_calls (cs : list Renderer.Call) : M unit :=
  modify (fun g => with_effects (effects g ++ map Backend cs) g).

(** [self.update_dom(dom, prev_props, next_props)] on attribute values
    that may be [None]. *)
Definition update_dom_call (dom : Dom) (prev_props next_props : option Dict)
  : M unit :=
  match prev_props, next_props with
  | Some p, Some n => renderer_calls (update_dom dom p n)
  | _, _ => raise NoneError
  end.

(** [PyGui.create_dom] *)
Definition create_dom (fiber : ref) : M Dom :=
  let* f := get_fiber fiber in
  let* dom := renderer_create_element (type f) in
  let* _ := update_dom_call dom (Some []) (props f) in
  ret dom.

(** *** [PyGui.reconcile_children] *)

(** The fiber configured "for updating a DOM element": every attribute
    is assigned. *)
Definition update_fiber (element : VNode) (old_fiber : ref) (old : Fiber)
    (wip_fiber : ref) : Fiber :=
  {| type := Some (vn_type element);
     props := Some (vn_props element);
     props_snapshot := Some (vn_props element);
     children := Some (vn_children element);
     dom := dom old;
     parent := Some wip_fiber;
     alternate := Some old_fiber;
     child := None;
     sibling := None;
     effect_tag := Some UPDATE;
     watcher := None |}.

(** The fiber configured "for creating a new DOM element". *)
Definition placement_fiber (element : VNode) (wip_fiber : ref) : Fiber :=
  {| type := Some (vn_type element);
     props := Some (vn_props element);
     props_snapshot := Some (vn_props element);
     children := Some (vn_children element);
     dom := None;
     parent := Some wip_fiber;
     alternate := None;
     child := None;
     sibling := None;
     effect_tag := Some PLACEMENT;
     watcher := None |}.

(** [o or Fiber()] *)
Definition or_Fiber (o : option ref) : M ref :=
  match o with
  | Some r => ret r
  | None => alloc Fiber_default
  end.

(** [same_type = old_fiber and element and element.type == old_fiber.type] *)
Definition same_type_of (old : option Fiber) (element : option VNode) : bool :=
  match old, element with
  | Some o, Some e => bool_decide (Some (vn_type e) = type o)
  | _, _ => false
  end.

(** The [while] loop of [reconcile_children]; its variables [index],
    [old_fiber] and [prev_sibling] are the arguments. *)
Fixpoint reconcile_loop (fuel : nat) (wip_fiber : ref) (elements : list VNode)
    (index : nat) (old_fiber prev_sibling : option ref) : M unit :=
  match fuel with
  | O => out_of_fuel
  | S fuel' =>
    if negb ((index <? length elements)%nat || is_some old_fiber) then ret tt
    else
      let element := elements !! index in
      let* old :=
        match old_fiber with
        | Some r => let* o := get_fiber r in ret (Some o)
        | None => ret None
        end in
      let same_type := same_type_of old element in
      let* new_fiber :=
        match old_fiber, old, element with
        | Some r, Some o, Some e =>
            if same_type then
              let* n := or_Fiber (alternate o) in
              let* _ := assign (Some n) (fun _ => update_fiber e r o wip_fiber) in
              ret (Some n)
            else ret None
        | _, _, _ => ret None
        end in
      let* new_fiber :=
        match element with
        | Some e =>
            if negb same_type then
              let* n := or_Fiber (match old with
                                  | Some o => alternate o
                                  | None => None
                                  end) in
              let* _ := assign (Some n) (fun _ => placement_fiber e wip_fiber) in
              ret (Some n)
            else ret new_fiber
        | None => ret new_fiber
        end in
      let* _ :=
        match old_fiber with
        | Some r =>
            if negb same_type then
              let* _ := assign (Some r) (set_effect_tag (Some DELETION)) in
              let* ds := gets _deletions in
              match ds with
              | Some l => modify (with_deletions (Some (l ++ [r])))
              | None => raise NoneError
              end
            else ret tt
        | None => ret tt
        end in
      let* old_fiber' :=
        match old_fiber with
        | Some _ => attr old_fiber sibling
        | None => ret None
        end in
      let* _ :=
        if (index =? 0)%nat then assign (Some wip_fiber) (set_child new_fiber)
        else if is_some element then assign prev_sibling (set_sibling new_fiber)
        else ret tt in
      reconcile_loop fuel' wip_fiber elements (S index) old_fiber' new_fiber
  end.

Definition reconcile_children (fuel : nat) (wip_fiber : ref)
    (elements : option (list VNode)) : M unit :=
  let* wip := get_fiber wip_fiber in
  let* old_fiber := and_then (alternate wip) (attr (alternate wip) child) in
  let* _ :=
    when (props_truthy (props wip))
      (when (is_some (dom wip) && negb (is_some (watcher wip)))
         (let* mode := gets event_loop_type in
          let w := mkWatcher wip_fiber true (bool_decide (mode = SYNC)) in
          let* _ := emit (Watch w) in
          assign (Some wip_fiber) (set_watcher (Some w)))) in
  let* _ :=
    match old_fiber with
    | Some _ =>
        let* p := attr old_fiber props in
        when (props_truthy p) (assign old_fiber (set_watcher None))
    | None => ret tt
    end in
  match elements with
  | Some es => reconcile_loop fuel wip_fiber es 0 old_fiber None
  | None =>
      (* [len(None)]; with nothing to walk the condition is still evaluated *)
      raise NoneError
  end.

(** *** The committer *)

(** [PyGui.commit_deletion]; the recursion follows [child] links. *)
Fixpoint commit_deletion (fuel : nat) (fiber : option ref) (dom_parent : Dom)
  : M unit :=
  match fuel with
  | O => out_of_fuel
  | S fuel' =>
      let* d := attr fiber dom in
      let* _ :=
        match d with
        | Some d =>
            let* _ := renderer_calls [Renderer.remove d dom_parent] in
            assign fiber (set_dom None)
        | None =>
            let* c := attr fiber child in
            commit_deletion fuel' c dom_parent
        end in
      assign fiber (set_child None)
  end.

(** The loop of [commit_work] that looks for the nearest ancestor with a
    backend node; it returns that node. *)
Fixpoint find_dom_parent (fuel : nat) (dom_parent_fiber : option ref) : M Dom :=
  match fuel with
  | O => out_of_fuel
  | S fuel' =>
      let* d := attr dom_parent_fiber dom in
      match d with
      | Some d => ret d
      | None =>
          let* p := attr dom_parent_fiber parent in
          find_dom_parent fuel' p
      end
  end.

Definition work_put (item : option ref) : M unit :=
  modify (fun g => with_work (_work g ++ [item]) g).

(** [PyGui.commit_work] *)
Definition commit_work (fuel : nat) (fiber : option ref) : M unit :=
  match fiber with
  | None => ret tt
  | Some r =>
      let* p := attr fiber parent in
      let* dom_parent := find_dom_parent fuel p in
      let* f := get_fiber r in
      let* _ :=
        match effect_tag f, dom f with
        | Some PLACEMENT, Some d => renderer_calls [Renderer.insert d dom_parent]
        | Some UPDATE, Some d =>
            let* a := attr (alternate f) props_snapshot in
            update_dom_call d a (props_snapshot f)
        | Some DELETION, _ => commit_deletion fuel fiber dom_parent
        | _, _ => ret tt
        end in
      let* c := attr fiber child in
      let* _ := work_put c in
      let* s := attr fiber sibling in
      work_put s
  end.

(** The loop [while not self._work.empty()] of [commit_root]. *)
Fixpoint commit_queue (fuel : nat) : M unit :=
  match fuel with
  | O => out_of_fuel
  | S fuel' =>
      let* q := gets _work in
      match q with
      | [] => ret tt
      | work :: rest =>
          let* _ := modify (with_work rest) in
          let* _ := commit_work fuel' work in
          commit_queue fuel'
      end
  end.

(** [PyGui.commit_root] *)
Definition commit_root (fuel : nat) : M unit :=
  let* ds := gets _deletions in
  match ds with
  | None => raise NoneError
  | Some ds =>
      let* _ := modify (fun g => with_work (_work g ++ map Some ds) g) in
      let* _ := modify (with_deletions (Some [])) in
      let* wip := gets _wip_root in
      let* c := attr wip child in
      let* _ := work_put c in
      let* _ := commit_queue fuel in
      let* wip := gets _wip_root in
      let* _ := modify (with_current_root wip) in
      modify (with_wip_root None)
  end.

Section Engine.

(** The function objects used as component types: [component n id props]
    is what component [id] returns when it is called on [props] and
    this is the n-th call of a component that the engine makes.  A
    Python function may return another object each time it is called
    (the closures made in its body are new function objects). *)
Variable component : nat -> nat -> Dict -> VNode.

(** The truth value of a member of [EventLoopType], as tested by
    [not self.event_loop_type]. *)
Variable mode_truth : EventLoopType -> bool.

(** [time.perf_counter_ns()]: the reading it returns at its n-th call. *)
Variable perf_counter_ns : nat -> Z.

Definition read_clock : M Z :=
  fun g => Ok (perf_counter_ns (ticks g)) (with_ticks (S (ticks g)) g).

(** [fiber.type(fiber.props)] for the component [id] *)
Definition call_component (id : nat) (p : Dict) : M VNode :=
  fun g => Ok (component (calls g) id p) (with_calls (S (calls g)) g).

(** *** Units of work *)

(** [PyGui.update_function_component]; the type of [fiber] is callable.
    Every fiber with a callable type was given the [props] of its
    descriptor. *)
Definition update_function_component (fuel : nat) (fiber : ref) : M unit :=
  let* f := get_fiber fiber in
  match type f, props f with
  | Some (Component id), Some p =>
      let* e := call_component id p in
      reconcile_children fuel fiber (Some [e])
  | _, _ => raise NoneError
  end.

(** [PyGui.update_host_component] *)
Definition update_host_component (fuel : nat) (fiber : ref) : M unit :=
  let* f := get_fiber fiber in
  let* _ :=
    when (negb (is_some (dom f)))
      (let* d := create_dom fiber in
       assign (Some fiber) (set_dom (Some d))) in
  let* f := get_fiber fiber in
  reconcile_children fuel fiber (children f).

(** The loop of [perform_unit_of_work] that walks up the parents until
    one has a sibling. *)
Fixpoint next_sibling_up (fuel : nat) (next_fiber : option ref)
  : M (option ref) :=
  match next_fiber with
  | None => ret None
  | Some _ =>
      match fuel with
      | O => out_of_fuel
      | S fuel' =>
          let* s := attr next_fiber sibling in
          match s with
          | Some s => ret (Some s)
          | None =>
              let* p := attr next_fiber parent in
              next_sibling_up fuel' p
          end
      end
  end.

(** [PyGui.perform_unit_of_work] *)
Definition perform_unit_of_work (fuel : nat) (fiber : ref)
  : M (option ref) :=
  let* f := get_fiber fiber in
  let* _ :=
    if callable (type f) then update_function_component fuel fiber
    else update_host_component fuel fiber in
  let* c := attr (Some fiber) child in
  match c with
  | Some c => ret (Some c)
  | None => next_sibling_up fuel (Some fiber)
  end.

(** *** The scheduler *)

(** [should_yield = not self.event_loop_type and (deadline - now) < 1 * 1000000] *)
Definition compute_should_yield (deadline : option Z) (now : Z) : M bool :=
  let* mode := gets event_loop_type in
  if negb (mode_truth mode) then
    match deadline with
    | Some d => ret (d - now <? 1 * 1000000)%Z
    | None => raise NoneError
    end
  else ret false.

(** The [while] loop of [work_loop]. *)
Fixpoint work_loop_while (fuel : nat) (deadline : option Z)
    (should_yield : bool) : M unit :=
  match fuel with
  | O => out_of_fuel
  | S fuel' =>
      let* next := gets _next_unit_of_work in
      match next with
      | Some unit_of_work =>
          if negb should_yield then
            let* next' := perform_unit_of_work fuel' unit_of_work in
            let* _ := modify (with_next_unit_of_work next') in
            let* now := read_clock in
            let* should_yield' := compute_should_yield deadline now in
            work_loop_while fuel' deadline should_yield'
          else ret tt
      | None => ret tt
      end
  end.

(** The request handed to the host loop: [self._request(deadline)]. *)
Definition call_request (deadline : Z) : M unit :=
  let* mode := gets event_loop_type in
  match mode with
  | DEFAULT => emit (CallSoon deadline)
  | QT =>
      let* first_run := gets _qt_first_run in
      let* _ :=
        when (negb first_run) (modify (with_qt false [])) in
      let* _ :=
        modify (fun g => with_qt (_qt_first_run g)
                                 (_qt_connections g ++ [deadline]) g) in
      emit (QtTimerStart deadline)
  | SYNC => raise NoneError
  end.

(** [PyGui.request_idle_work], with the [work_loop] it calls in
    synchronous mode as an argument. *)
Definition request_idle_work_with (work_loop : option Z -> M unit)
    (deadline : option Z) : M unit :=
  let* deadline :=
    match deadline with
    | Some d =>
        if (d =? 0)%Z then
          let* now := read_clock in ret (now + 16 * 1000000)%Z
        else ret d
    | None => let* now := read_clock in ret (now + 16 * 1000000)%Z
    end in
  let* mode := gets event_loop_type in
  if bool_decide (mode = SYNC) then work_loop None
  else
    let* request := gets _request in
    let* _ :=
      when (negb request)
        (let* _ :=
           when (bool_decide (mode = DEFAULT)) (modify (with_request true)) in
         when (bool_decide (mode = QT))
           (let* _ := modify (with_qt true []) in
            modify (with_request true))) in
    call_request deadline.

(** [PyGui.work_loop] *)
Fixpoint work_loop (fuel : nat) (deadline : option Z) : M unit :=
  match fuel with
  | O => out_of_fuel
  | S fuel' =>
      let* _ := work_loop_while fuel' deadline false in
      let* next := gets _next_unit_of_work in
      let* wip := gets _wip_root in
      let* _ :=
        when (negb (is_some next) && is_some wip) (commit_root fuel') in
      let* next := gets _next_unit_of_work in
      match next with
      | Some _ => request_idle_work_with (work_loop fuel') None
      | None =>
          let* callback := gets _render_callback in
          match callback with
          | Some cb => emit (RenderCallback cb)
          | None => ret tt
          end
      end
  end.

(** [PyGui.request_idle_work] *)
Definition request_idle_work (fuel : nat) (deadline : option Z) : M unit :=
  request_idle_work_with (work_loop fuel) deadline.

(** [PyGui.render] *)
Definition render (fuel : nat) (element : VNode) (container : Dom)
    (callback : option nat) : M unit :=
  let* current := gets _current_root in
  let* wip :=
    alloc {| type := None; props := Some []; props_snapshot := None;
             children := Some [element]; dom := Some container;
             parent := None; child := None; sibling := None;
             alternate := current; effect_tag := None; watcher := None |} in
  let* _ := modify (with_wip_root (Some wip)) in
  let* _ := modify (with_deletions (Some [])) in
  let* _ := modify (with_next_unit_of_work (Some wip)) in
  let* _ := modify (with_render_callback callback) in
  request_idle_work fuel None.

(** The assignments of [PyGui.state_updated], up to its final call of
    [request_idle_work]. *)
Definition state_updated_prepare (fiber : ref) : M unit :=
  let* _ := assign (Some fiber) (set_watcher None) in
  let* current := gets _current_root in
  let* alt := and_then current (attr current alternate) in
  let* wip := or_Fiber alt in
  let* _ := modify (with_wip_root (Some wip)) in
  let* d := attr current dom in
  let* _ := assign (Some wip) (set_dom d) in
  let* p := attr current props in
  let* _ := assign (Some wip) (set_props p) in
  let* c := attr current children in
  let* _ := assign (Some wip) (set_children c) in
  let* _ := assign (Some wip) (set_alternate current) in
  let* _ := modify (with_next_unit_of_work (Some wip)) in
  modify (with_deletions (Some [])).

(** [PyGui.state_updated] *)
Definition state_updated (fuel : nat) (fiber : ref) : M unit :=
  let* _ := state_updated_prepare fiber in
  request_idle_work fuel None.

End Engine.

(** Members of a Python [Enum] class are all true. *)
Definition enum_truth (m : EventLoopType) : bool := true.

(** ** Observations on the backend calls *)

(** The attribute a [set_attribute] or [clear_attribute] call is about. *)
Definition call_attr (c : Renderer.Call) : option string :=
  match c with
  | Renderer.set_attribute _ k _ | Renderer.clear_attribute _ k _ => Some k
  | _ => None
  end.

(** The calls of a log that set or clear attribute [key]. *)
Definition attribute_calls (key : string) (log : list Renderer.Call)
  : list Renderer.Call :=
  List.filter (fun c => bool_decide (call_attr c = Some key)) log.

(** The event type a listener call is about. *)
Definition call_event (c : Renderer.Call) : option string :=
  match c with
  | Renderer.add_event_listener _ e _
  | Renderer.remove_event_listener _ e _ => Some e
  | _ => None
  end.

(** The calls of a log that add or remove a listener of event type [e]. *)
Definition listener_calls (e : string) (log : list Renderer.Call)
  : list Renderer.Call :=
  List.filter (fun c => bool_decide (call_event c = Some e)) log.

(** No other listener-shaped key of [d] has the event type of [name]:
    ["onClick"] and ["onclick"] would both be listeners of ["click"]. *)
Definition sole_listener (name : string) (d : Dict) : Prop :=
  forall k, In k (keys d) -> is_event k = true ->
            event_type_of k = event_type_of name -> k = name.

(** The delta rule for a newly present property, as the specification
    words it: one [set_attribute] call, whatever the value. *)
Definition new_property_is_always_set : Prop :=
  forall dom prev_props next_props key val,
    dict_wf prev_props -> dict_wf next_props ->
    is_property key = true ->
    dict_lookup prev_props key = None ->
    dict_lookup next_props key = Some val ->
    attribute_calls key (update_dom dom prev_props next_props)
    = [Renderer.set_attribute dom key val].

(** The backend calls among the effects, in order. *)
Definition backend_calls (es : list Effect) : list Renderer.Call :=
  flat_map (fun e => match e with Backend c => [c] | _ => [] end) es.

(** A request to the host loop to run [work_loop] later. *)
Definition is_host_request (e : Effect) : bool :=
  match e with
  | CallSoon _ | QtTimerStart _ => true
  | _ => false
  end.

(** ** The scenario of the specification: a box with two children *)

(** No function components. *)
Definition no_components : nat -> nat -> Dict -> VNode :=
  fun _ _ _ => mkVNode (Host "") [] [] None.

Definition box_descriptor : VNode :=
  create_element (Host "box") None
    [create_element (Host "a") None []; create_element (Host "b") None []].

(** The container is node 100; the renderer hands out 0 for the box, 1
    for [a] and 2 for [b]. *)
Definition box_container : Dom := 100.

(** The root fiber that [render] makes for the box, and the engine
    holding only that fiber, about to perform its first unit of work. *)
Definition box_root_fiber : Fiber :=
  mkFiber None (Some []) None (Some [box_descriptor]) (Some box_container)
          None None None None None None.

Definition box_start : PyGui :=
  with_next_unit_of_work (Some 0)
    (with_wip_root (Some 0)
       (with_deletions (Some [])
          (with_heap [box_root_fiber] (PyGui_init SYNC 0)))).

(** The calls at commit, in the order the specification gives them. *)
Definition box_commit_calls_as_claimed : list Renderer.Call :=
  [Renderer.create_element (Some (Host "a")) 1;
   Renderer.create_element (Some (Host "b")) 2;
   Renderer.insert 1 0; Renderer.insert 2 0;
   Renderer.insert 0 box_container].

(** ** Pre-order successor, in the words of the specification *)

(** [first_sibling_up h o next]: walking from [o] up the [parent] links,
    [next] is the sibling of the first fiber that has one, or none when
    the walk passes the root. *)
Inductive first_sibling_up (h : list Fiber) : option ref -> option ref -> Prop :=
| fsu_root : first_sibling_up h None None
| fsu_sibling r f s :
    h !! r = Some f -> sibling f = Some s ->
    first_sibling_up h (Some r) (Some s)
| fsu_parent r f next :
    h !! r = Some f -> sibling f = None ->
    first_sibling_up h (parent f) next ->
    first_sibling_up h (Some r) next.

(** The next unit after [r]: its child if it has one, otherwise the
    first sibling found walking up from [r]. *)
Inductive preorder_next (h : list Fiber) (r : ref) : option ref -> Prop :=
| pn_child f c :
    h !! r = Some f -> child f = Some c -> preorder_next h r (Some c)
| pn_up f next :
    h !! r = Some f -> child f = None ->
    first_sibling_up h (Some r) next -> preorder_next h r next.

(** The state in which a host fiber without a backend node has been
    given one: [create_dom] and the assignment of [fiber.dom]. *)
Definition realized (fiber : ref) (f : Fiber) (p : Dict) (g : PyGui) : PyGui :=
  with_heap (<[fiber := set_dom (Some (next_dom g)) f]> (heap g))
    (with_effects
       ((effects g
         ++ [Backend (Renderer.create_element (type f) (next_dom g))])
        ++ map Backend (update_dom (next_dom g) [] p))
       (with_next_dom (S (next_dom g)) g)).

(** The work on one fiber [f], from state [g] to state [g']: a callable
    type is invoked on the props and the one descriptor it returns is
    reconciled; otherwise the backend node is realized when absent and
    the stored child descriptors are reconciled. *)
Definition unit_work (component : nat -> nat -> Dict -> VNode) (fuel : nat)
    (fiber : ref) (f : Fiber) (g g' : PyGui) : Prop :=
  match type f with
  | Some (Component id) =>
      exists p, props f = Some p /\
        reconcile_children fuel fiber (Some [component (calls g) id p])
          (with_calls (S (calls g)) g) = Ok tt g'
  | _ =>
      match dom f with
      | Some _ => reconcile_children fuel fiber (children f) g = Ok tt g'
      | None =>
          exists p, props f = Some p /\
            reconcile_children fuel fiber (children f) (realized fiber f p g)
            = Ok tt g'
      end
  end.

(** ** Relations between runs *)

(** [m'] returns what [m] returns, whenever [m] returns. *)
Definition le_M {A} (m m' : M A) : Prop :=
  forall g a g', m g = Ok a g' -> m' g = Ok a g'.

(** Every state that [m] returns is related by [R] to the state it
    started from. *)
Definition preserves (R : PyGui -> PyGui -> Prop) {A} (m : M A) : Prop :=
  forall g a g', m g = Ok a g' -> R g g'.

(** The effects of a unit of work or of a commit step: backend calls
    and subscriptions. *)
Definition is_inner_effect (e : Effect) : bool :=
  match e with
  | Backend _ | Watch _ => true
  | _ => false
  end.

(** What a unit of work and a commit step leave alone: the scheduler's
    attributes of the engine and the clock; the store only grows and the
    effects are extended by backend calls and subscriptions. *)
Record inner_frame (g g' : PyGui) : Prop := mk_inner_frame {
  fr_mode : event_loop_type g' = event_loop_type g;
  fr_current : _current_root g' = _current_root g;
  fr_wip : _wip_root g' = _wip_root g;
  fr_next : _next_unit_of_work g' = _next_unit_of_work g;
  fr_callback : _render_callback g' = _render_callback g;
  fr_request : _request g' = _request g;
  fr_qt_first_run : _qt_first_run g' = _qt_first_run g;
  fr_qt_connections : _qt_connections g' = _qt_connections g;
  fr_ticks : ticks g' = ticks g;
  fr_heap : length (heap g) <= length (heap g');
  fr_effects : exists es, effects g' = effects g ++ es /\
                          forallb is_inner_effect es = true;
}.

(** What the [while] loop of [work_loop] and [commit_root] leave alone:
    the mode, the callback and what was requested of the host loop; the
    effects are extended by backend calls and subscriptions. *)
Record pass_frame (g g' : PyGui) : Prop := mk_pass_frame {
  pf_mode : event_loop_type g' = event_loop_type g;
  pf_callback : _render_callback g' = _render_callback g;
  pf_request : _request g' = _request g;
  pf_qt_first_run : _qt_first_run g' = _qt_first_run g;
  pf_qt_connections : _qt_connections g' = _qt_connections g;
  pf_heap : length (heap g) <= length (heap g');
  pf_effects : exists es, effects g' = effects g ++ es /\
                          forallb is_inner_effect es = true;
}.

(** The effect of calling the render callback, if there is one. *)
Definition callback_effect (callback : option nat) : list Effect :=
  match callback with
  | Some cb => [RenderCallback cb]
  | None => []
  end.

(** The state a run ends in ([g] itself when it does not return). *)
Definition final_state (g : PyGui) (run : M unit) : PyGui :=
  match run g with
  | Ok _ g' => g'
  | _ => g
  end.

(** The box scenario, a second pass: the box with [a] and [b] has been
    rendered and committed in synchronous mode (fibers 0 to 3); [render]
    has made a new root (fiber 4) and the first unit of work has given it
    the child 5, a fiber for the box whose alternate is the committed
    box, fiber 1, with children 2 and 3. *)
Definition box_second_pass : PyGui :=
  Eval vm_compute in
    let g1 := final_state (PyGui_init SYNC 0)
                (render no_components enum_truth (fun _ => 0%Z) 20
                   box_descriptor box_container None) in
    let g2 := final_state g1
                (let* _ :=
                   alloc (mkFiber None (Some []) None (Some [box_descriptor])
                            (Some box_container) None None None (Some 0)
                            None None) in
                 ret tt) in
    final_state (with_deletions (Some []) g2)
      (let* _ := perform_unit_of_work no_components 20 4 in ret tt).

(** ** The scenario of a label whose text is observed *)

Definition label_descriptor : VNode :=
  create_element (Host "label") (Some [("text", VStr "a")]) [].

(** The engine after the label has been rendered into container 100 and
    committed, in synchronous mode: one call of [render]. *)
Definition label_committed_sync : PyGui :=
  Eval vm_compute in
    final_state (PyGui_init SYNC 0)
      (render no_components enum_truth (fun _ => 0%Z) 20
         label_descriptor 100 None).

(** The same in default mode: [render], then the call of [work_loop]
    that the host loop makes. *)
Definition label_committed_default : PyGui :=
  Eval vm_compute in
    final_state
      (final_state (PyGui_init DEFAULT 0)
         (render no_components enum_truth (fun _ => 0%Z) 20
            label_descriptor 100 None))
      (work_loop no_components enum_truth (fun _ => 0%Z) 20
         (Some 16000000%Z)).

(** What C9 says of [state_updated], read of the state in which it
    returns: a work-in-progress root is there and is the next unit of
    work. *)
Definition state_updated_leaves_wip_root
    (component : nat -> nat -> Dict -> VNode)
    (mode_truth : EventLoopType -> bool) (perf_counter_ns : nat -> Z) : Prop :=
  forall fuel fiber g g' current,
    _current_root g = Some current ->
    is_Some (heap g !! fiber) ->
    state_updated component mode_truth perf_counter_ns fuel fiber g = Ok tt g' ->
    exists wip, _wip_root g' = Some wip /\ _next_unit_of_work g' = Some wip.

(** ** Reconciliation: what the loop starts from and what it leaves *)

(** The fibers reached from [o] along the [sibling] links. *)
Inductive sibling_chain (h : list Fiber) : option ref -> list ref -> Prop :=
| chain_nil : sibling_chain h None []
| chain_cons r f rs :
    h !! r = Some f -> sibling_chain h (sibling f) rs ->
    sibling_chain h (Some r) (r :: rs).

(** [old_fiber = wip_fiber.alternate and wip_fiber.alternate.child] *)
Definition old_child (h : list Fiber) (wip : Fiber) : option ref :=
  match alternate wip with
  | Some a =>
      match h !! a with
      | Some fa => child fa
      | None => None
      end
  | None => None
  end.

Definition tag_of (h : list Fiber) (r : ref) : option EffectTag :=
  match h !! r with
  | Some f => effect_tag f
  | None => None
  end.

(** How many of the fibers [rs] carry the tag [t]. *)
Definition count_tag (h : list Fiber) (t : EffectTag) (rs : list ref) : nat :=
  length (List.filter (fun r => bool_decide (tag_of h r = Some t)) rs).

(** The fiber that the iteration at position [j] configures for the
    descriptor [e]: an update of the old fiber at that position when
    there is one, a placement otherwise. *)
Definition new_fiber_record (h : list Fiber) (wip : ref) (os : list ref)
    (j : nat) (e : VNode) : Fiber :=
  match os !! j with
  | Some o =>
      match h !! o with
      | Some fo => update_fiber e o fo wip
      | None => placement_fiber e wip
      end
  | None => placement_fiber e wip
  end.

(** Whether [r] is the fiber that the loop, entered at index [i], links
    its first new fiber to: the parent at index 0, the previous sibling
    later. *)
Definition is_link_holder (i : nat) (wip : ref) (prev : option ref) (r : ref)
  : bool :=
  if (i =? 0)%nat then bool_decide (r = wip) else bool_decide (prev = Some r).

(** The link written in the holder by a loop that has the descriptors
    [es] and the old fibers [os] before it and makes the fibers [news]. *)
Definition link_first (i : nat) (es : list VNode) (os news : list ref)
    (f : Fiber) : Fiber :=
  if (i =? 0)%nat then
    match es, os with
    | [], [] => f
    | _, _ => set_child (head news) f
    end
  else
    match es with
    | [] => f
    | _ => set_sibling (head news) f
    end.

(** What the loop needs of the store [h] when it is entered at index
    [i] with the descriptors [es] still to do, [o] as old fiber and
    [prev] as previous sibling: the old fibers [os] are the sibling chain
    from [o], with the types of the descriptors facing them; the
    alternates that will be reused are fibers of their own: in the store,
    distinct, and none of them an old fiber, the parent or the previous
    sibling. *)
Record reconcile_pre (h : list Fiber) (wip : ref) (i : nat)
    (prev : option ref) (es : list VNode) (o : option ref) (os : list ref)
  : Prop := mk_reconcile_pre {
  pre_chain : sibling_chain h o os;
  pre_nodup : NoDup os;
  pre_wip : wip < length h;
  pre_wip_old : wip ∉ os;
  pre_types : forall j e r f,
      es !! j = Some e -> os !! j = Some r -> h !! r = Some f ->
      type f = Some (vn_type e);
  pre_alt : forall j e r f n,
      es !! j = Some e -> os !! j = Some r -> h !! r = Some f ->
      alternate f = Some n ->
      n < length h /\ (n ∉ os) /\ n <> wip /\ prev <> Some n;
  pre_alt_inj : forall j j' e e' r r' f f' n,
      es !! j = Some e -> es !! j' = Some e' ->
      os !! j = Some r -> os !! j' = Some r' ->
      h !! r = Some f -> h !! r' = Some f' ->
      alternate f = Some n -> alternate f' = Some n -> j = j';
  pre_prev_valid : forall p,
      prev = Some p -> p < length h /\ (p ∉ os) /\ p <> wip;
  pre_prev : i <> 0 -> es <> [] -> is_Some prev;
}.

(** What the loop leaves: the store [h'] and the new fibers [news], one
    per descriptor, each configured and linked to the next; the old
    fibers past the descriptors tagged for deletion; the first new fiber
    linked from its holder; every other fiber as it was. *)
Record reconcile_post (h h' : list Fiber) (wip : ref) (i : nat)
    (prev : option ref) (es : list VNode) (os news : list ref)
  : Prop := mk_reconcile_post {
  post_length : length news = length es;
  post_grow : length h <= length h';
  post_nodup : NoDup news;
  post_source : forall j n,
      news !! j = Some n ->
      n <> wip /\ prev <> Some n /\ (n ∉ os) /\
      ((exists r f, os !! j = Some r /\ h !! r = Some f /\
                    alternate f = Some n)
       \/ length h <= n);
  post_new : forall j n e,
      news !! j = Some n -> es !! j = Some e ->
      h' !! n = Some (set_sibling (news !! S j)
                        (new_fiber_record h wip os j e));
  post_deleted : forall j r f,
      length es <= j -> os !! j = Some r -> h !! r = Some f ->
      h' !! r = Some (set_effect_tag (Some DELETION) f);
  post_frame : forall r f,
      h !! r = Some f -> r ∉ news -> r ∉ drop (length es) os ->
      h' !! r = Some (if is_link_holder i wip prev r
                      then link_first i es os news f else f);
}.

(** The subscription that [reconcile_children] makes for the parent:
    when it has props, a backend node and no watcher yet. *)
Definition watch_of (mode : EventLoopType) (wip : ref) (fw : Fiber)
  : option Watcher :=
  if props_truthy (props fw) && (is_some (dom fw) && negb (is_some (watcher fw)))
  then Some (mkWatcher wip true (bool_decide (mode = SYNC)))
  else None.

Definition watch_effect (w : option Watcher) : list Effect :=
  match w with
  | Some w => [Watch w]
  | None => []
  end.

(** [h0] is [h] with some watchers changed. *)
Definition same_but_watcher (h h0 : list Fiber) : Prop :=
  length h0 = length h /\
  forall r f, h !! r = Some f -> exists w, h0 !! r = Some (set_watcher w f).

(** The loop entered with the descriptors [es_r] left: it returns, and
    leaves what [reconcile_post] says. *)
Definition reconcile_loop_statement (es_r : list VNode) : Prop :=
  forall os wip es i prev o g ds,
    drop i es = es_r ->
    reconcile_pre (heap g) wip i prev es_r o os ->
    _deletions g = Some ds ->
    exists h' news,
      reconcile_post (heap g) h' wip i prev es_r os news /\
      forall fuel,
        Nat.max (length es_r) (length os) < fuel ->
        reconcile_loop fuel wip es i o prev g
        = Ok tt (with_deletions (Some (ds ++ drop (length es_r) os))
                   (with_heap h' g)).

(** ** A pass over a committed tree *)

(** The descriptors below a fiber made for [e]: the children of a host
    descriptor, the one descriptor that a component returns. *)
Definition expand (body : nat -> Dict -> VNode) (e : VNode)
  : list VNode :=
  match vn_type e with
  | Host _ => vn_children e
  | Component id => [body id (vn_props e)]
  end.

(** [old_forest h os es rs]: in the store [h] the fibers [os], linked as
    siblings in this order, are the committed fibers of the descriptors
    [es], and so are, below each of them, the fibers of the descriptors
    it expands to; [rs] lists all these fibers, parents first.  A
    committed fiber has the type and the snapshot of the props of its
    descriptor, and a backend node unless it is a component. *)
Inductive old_forest (body : nat -> Dict -> VNode) (h : list Fiber)
  : list ref -> list VNode -> list ref -> Prop :=
| old_nil : old_forest body h [] [] []
| old_cons o fo e os es cs rs_child rs_sibling :
    h !! o = Some fo ->
    type fo = Some (vn_type e) ->
    props_snapshot fo = Some (vn_props e) ->
    dict_wf (vn_props e) ->
    (callable (type fo) = false -> is_Some (dom fo)) ->
    child fo = head cs ->
    old_forest body h cs (expand body e) rs_child ->
    sibling fo = head os ->
    old_forest body h os es rs_sibling ->
    old_forest body h (o :: os) (e :: es)
      (o :: rs_child ++ rs_sibling).

(** A fiber of the work-in-progress tree, configured by the
    reconciliation of its parent [wpar] as the update of the committed
    fiber [o] for the descriptor [e], and not yet performed. *)
Definition ready (h : list Fiber) (wpar w : ref) (e : VNode) (o : ref)
    (next_sibling : option ref) : Prop :=
  exists fw fo,
    h !! w = Some fw /\ h !! o = Some fo /\
    type fw = Some (vn_type e) /\
    props fw = Some (vn_props e) /\
    props_snapshot fw = Some (vn_props e) /\
    children fw = Some (vn_children e) /\
    dom fw = dom fo /\
    parent fw = Some wpar /\
    alternate fw = Some o /\
    child fw = None /\
    sibling fw = next_sibling /\
    effect_tag fw = Some UPDATE.

(** [built h p c ns rs]: the fibers [ns] reached from [c] along [child]
    and [sibling] links, parents first, form a forest below [p]; each is
    tagged UPDATE and is paired with a committed fiber (they are [rs], in
    the same order) that has the same snapshot of props. *)
Inductive built (h : list Fiber) (p : ref)
  : option ref -> list ref -> list ref -> Prop :=
| built_nil : built h p None [] []
| built_cons r f o fo pr ns_child rs_child ns_sibling rs_sibling :
    h !! r = Some f ->
    parent f = Some p ->
    effect_tag f = Some UPDATE ->
    alternate f = Some o ->
    h !! o = Some fo ->
    props_snapshot f = Some pr ->
    props_snapshot fo = Some pr ->
    dict_wf pr ->
    built h r (child f) ns_child rs_child ->
    built h p (sibling f) ns_sibling rs_sibling ->
    built h p (Some r) (r :: ns_child ++ ns_sibling)
      (o :: rs_child ++ rs_sibling).

(** [first_sibling_up] with the fibers that the walk visits. *)
Inductive up_path (h : list Fiber)
  : option ref -> option ref -> list ref -> Prop :=
| up_root : up_path h None None []
| up_sibling r f s :
    h !! r = Some f -> sibling f = Some s ->
    up_path h (Some r) (Some s) [r]
| up_parent r f next path :
    h !! r = Some f -> sibling f = None ->
    up_path h (parent f) next path ->
    up_path h (Some r) next (r :: path).

(** One turn of the [while] loop of [work_loop] when it does not yield:
    the next unit of work is performed, what it returns becomes the next
    unit of work, and the clock is read. *)
Definition unit_step (component : nat -> nat -> Dict -> VNode)
    (g g' : PyGui)
  : Prop :=
  exists u fuel next g1,
    _next_unit_of_work g = Some u /\
    perform_unit_of_work component fuel u g = Ok next g1 /\
    g' = with_ticks (S (ticks g1)) (with_next_unit_of_work next g1).

(** Any number of turns. *)
Inductive unit_steps (component : nat -> nat -> Dict -> VNode)
  : PyGui -> PyGui -> Prop :=
| steps_refl g : unit_steps component g g
| steps_step g g1 g' :
    unit_step component g g1 -> unit_steps component g1 g' ->
    unit_steps component g g'.

(** The next unit of work before a forest of ready fibers [ws] is
    performed: its first fiber, or what follows when it is empty. *)
Definition next_or (ws : list ref) (res : option ref) : option ref :=
  match ws with
  | w :: _ => Some w
  | [] => res
  end.

(** The components are functions of their props: every call of the
    component [id] on [props] returns the descriptor [body id props],
    equal to what the calls before returned. *)
Definition stable (component : nat -> nat -> Dict -> VNode)
    (body : nat -> Dict -> VNode) : Prop :=
  forall n id props, component n id props = body id props.

(** The engine after the type of the fiber, when it is a component,
    has been called. *)
Definition called (fw : Fiber) (g : PyGui) : PyGui :=
  if callable (type fw) then with_calls (S (calls g)) g else g.

(** What a fiber gives [reconcile_children] when it is performed:
    what its component returns, or its stored children when it is not a
    component and has its backend node. *)
Definition unit_children (body : nat -> Dict -> VNode) (fw : Fiber)
    (es : list VNode) : Prop :=
  match type fw with
  | Some (Component id) =>
      exists p, props fw = Some p /\ es = [body id p]
  | _ => children fw = Some es /\ is_Some (dom fw)
  end.

(** The alternates of the committed fibers [rs] are fibers apart: in
    the store, not committed fibers, not among [avoid], and no two
    committed fibers share one. *)
Record spare_alternates (h : list Fiber) (rs avoid : list ref) : Prop :=
  mk_spare_alternates {
  spare_apart : forall r f n,
      r ∈ rs -> h !! r = Some f -> alternate f = Some n ->
      n < length h /\ (n ∉ rs) /\ (n ∉ avoid);
  spare_inj : forall r r' f f' n,
      r ∈ rs -> r' ∈ rs -> h !! r = Some f -> h !! r' = Some f' ->
      alternate f = Some n -> alternate f' = Some n -> r = r';
}.

(** What a unit of work on [w] leaves when the committed fibers below
    the alternate of [w] are those of the descriptors it reconciles: the
    children [ws] of [w], ready; every other fiber as it was, but for
    the watchers and the child of [w]. *)
Record unit_post (h h1 : list Fiber) (w : ref) (ws cs : list ref)
    (es : list VNode) : Prop := mk_unit_post {
  up_grow : length h <= length h1;
  up_length : length ws = length es;
  up_nodup : NoDup ws;
  up_ready : forall j wc,
      ws !! j = Some wc ->
      exists e o, es !! j = Some e /\ cs !! j = Some o /\
                  ready h1 w wc e o (ws !! S j);
  up_source : forall j wc,
      ws !! j = Some wc ->
      wc <> w /\
      ((exists o fo, cs !! j = Some o /\ h !! o = Some fo /\
                     alternate fo = Some wc)
       \/ length h <= wc);
  up_frame : forall r f,
      h !! r = Some f -> r ∉ ws ->
      exists wt,
        h1 !! r = Some (if decide (r = w)
                        then set_child (head ws) (set_watcher wt f)
                        else set_watcher wt f);
}.

(** What the units of work of such a pass leave alone in the engine:
    all but the store, the next unit of work, the clock and the number
    of calls of components; they make no backend call. *)
Record quiet (g g' : PyGui) : Prop := mk_quiet {
  q_deletions : _deletions g' = _deletions g;
  q_backend : backend_calls (effects g') = backend_calls (effects g);
  q_mode : event_loop_type g' = event_loop_type g;
  q_current : _current_root g' = _current_root g;
  q_wip : _wip_root g' = _wip_root g;
  q_callback : _render_callback g' = _render_callback g;
  q_request : _request g' = _request g;
  q_qt_connections : _qt_connections g' = _qt_connections g;
  q_work : _work g' = _work g;
  q_host : List.filter is_host_request (effects g')
           = List.filter is_host_request (effects g);
}.

(** [r] is in [h'] as in [h], but for its watcher. *)
Definition keeps (h h' : list Fiber) (r : ref) : Prop :=
  forall f, h !! r = Some f -> exists wt, h' !! r = Some (set_watcher wt f).

(** [r] is the alternate of one of the committed fibers [rs]. *)
Definition is_alternate (h : list Fiber) (rs : list ref) (r : ref) : Prop :=
  exists o fo, o ∈ rs /\ h !! o = Some fo /\ alternate fo = Some r.

(** What a forest of ready fibers [ws], children of [wpar], starts
    from: they face, in order, the roots [os] of a committed forest for
    the descriptors [es]; the alternates of the committed fibers are
    fibers apart, those of the roots being the ready fibers themselves;
    [res] is what follows the forest, found by walking up from [wpar]
    along [path]. *)
Record forest_pre (body : nat -> Dict -> VNode) (h : list Fiber)
    (wpar : ref) (ws os : list ref) (es : list VNode) (rs : list ref)
    (res : option ref) (path : list ref) : Prop := mk_forest_pre {
  fp_old : old_forest body h os es rs;
  fp_old_nodup : NoDup rs;
  fp_length : length ws = length es;
  fp_ready : forall j w,
      ws !! j = Some w ->
      exists e o, es !! j = Some e /\ os !! j = Some o /\
                  ready h wpar w e o (ws !! S j);
  fp_ws_nodup : NoDup ws;
  fp_ws_old : forall w, w ∈ ws -> w ∉ rs;
  fp_apart : forall r f n,
      r ∈ rs -> h !! r = Some f -> alternate f = Some n ->
      n < length h /\ (n ∉ rs) /\ (n ∉ path) /\
      (n ∈ ws -> exists j, os !! j = Some r /\ ws !! j = Some n);
  fp_inj : forall r r' f f' n,
      r ∈ rs -> r' ∈ rs -> h !! r = Some f -> h !! r' = Some f' ->
      alternate f = Some n -> alternate f' = Some n -> r = r';
  fp_up : up_path h (Some wpar) res path;
  fp_path_ws : forall p, p ∈ path -> p ∉ ws;
}.

(** What the units of work of the forest leave: the forest built below
    [wpar], its fibers [ns] being the ready fibers, alternates of
    committed fibers, or new; every fiber that is none of these as it
    was, but for its watcher. *)
Record forest_post (h h' : list Fiber) (wpar : ref) (ws rs ns : list ref)
  : Prop := mk_forest_post {
  fq_grow : length h <= length h';
  fq_frame : forall r,
      r ∉ ws -> ~ is_alternate h rs r -> keeps h h' r;
  fq_built : built h' wpar (head ws) ns rs;
  fq_source : forall n,
      n ∈ ns -> n ∈ ws \/ is_alternate h rs n \/ length h <= n;
}.

(** The pass over a committed forest of at most [n] fibers. *)
Definition forest_pass_statement (component : nat -> nat -> Dict -> VNode)
    (body : nat -> Dict -> VNode) (n : nat) : Prop :=
  forall rs, length rs <= n ->
  forall g wpar ws os es res path,
    forest_pre body (heap g) wpar ws os es rs res path ->
    _deletions g = Some [] ->
    _next_unit_of_work g = next_or ws res ->
    exists g' ns,
      unit_steps component g g' /\
      _next_unit_of_work g' = res /\
      forest_post (heap g) (heap g') wpar ws rs ns /\
      quiet g g'.

(** [dom_above h p k d]: walking up from [p] along the [parent] links,
    [k] fibers have no backend node and the next one has the node [d]:
    what the loop [while not dom_parent_fiber.dom] of [commit_work]
    finds. *)
Inductive dom_above (h : list Fiber) : ref -> nat -> Dom -> Prop :=
| dom_here p f d :
    h !! p = Some f -> dom f = Some d -> dom_above h p 0 d
| dom_up p f q k d :
    h !! p = Some f -> dom f = None -> parent f = Some q ->
    dom_above h q k d -> dom_above h p (S k) d.

(** The work queue of a commit of built forests: every entry is the
    first fiber of a forest built below a fiber from which a backend node
    is found at most [K] fibers up, counting the forest; [m] bounds the
    entries still to come. *)
Inductive queue_built (h : list Fiber) (K : nat)
  : list (option ref) -> nat -> Prop :=
| qb_nil : queue_built h K [] 0
| qb_cons p c ns rs k d q m m' :
    built h p c ns rs -> dom_above h p k d -> k + length ns <= K ->
    queue_built h K q m -> m' = 2 * length ns + 1 + m ->
    queue_built h K (c :: q) m'.

(** A committed tree: the current root [cur] has below it the committed
    fibers [rs] of the descriptor [e]; the alternates of these fibers,
    left by earlier passes, are fibers apart; no commit is under way. *)
Record committed (body : nat -> Dict -> VNode) (g : PyGui) (e : VNode)
    (cur : ref) (rs : list ref) : Prop := mk_committed {
  cm_current : _current_root g = Some cur;
  cm_root : exists fcur cs,
      heap g !! cur = Some fcur /\ child fcur = head cs /\
      old_forest body (heap g) cs [e] rs;
  cm_nodup : NoDup rs;
  cm_alternates : spare_alternates (heap g) rs [];
  cm_work : _work g = [];
}.

(** The box scenario, committed: the engine after the box with [a] and
    [b] has been rendered into the container in synchronous mode, one
    call of [render] (fiber 0 is the root, 1 the box, 2 and 3 its
    children). *)
Definition box_committed : PyGui :=
  Eval vm_compute in
    final_state (PyGui_init SYNC 0)
      (render no_components enum_truth (fun _ => 0%Z) 20
         box_descriptor box_container None).

(** The engine when [render], in synchronous mode, enters [work_loop]:
    the root it has made is the work-in-progress root and the next unit
    of work, and [request_idle_work] has read the clock once. *)
Definition render_entered (element : VNode) (container : Dom)
    (callback : option nat) (g : PyGui) : PyGui :=
  with_ticks (S (ticks g))
    (with_render_callback callback
       (with_next_unit_of_work (Some (length (heap g)))
          (with_deletions (Some [])
             (with_wip_root (Some (length (heap g)))
                (with_heap
                   (heap g
                    ++ [mkFiber None (Some []) None (Some [element])
                          (Some container) None None None
                          (_current_root g) None None]) g))))).

(** The same after a second call of [render] with the box: fiber 4 is
    the current root, 5 the box, 6 and 7 its children; their alternates
    are the fibers 1, 2 and 3 of the first pass. *)
Definition box_committed_twice : PyGui :=
  Eval vm_compute in
    final_state box_committed
      (render no_components enum_truth (fun _ => 0%Z) 20
         box_descriptor box_container None).

(** ** Observations used beyond the claims *)

(** A call that [update_dom] can make on the node [dom]: one of the four
    attribute and listener methods, on that node. *)
Definition is_update_call (dom : Dom) (c : Renderer.Call) : bool :=
  match c with
  | Renderer.set_attribute el _ _ | Renderer.clear_attribute el _ _
  | Renderer.add_event_listener el _ _
  | Renderer.remove_event_listener el _ _ => bool_decide (el = dom)
  | _ => false
  end.

(** [fades h h']: the store [h'] is [h] but for backend nodes and child
    links that have been cleared, which is all the committer does to the
    store. *)
Definition fades (h h' : list Fiber) : Prop :=
  length h' = length h /\
  forall r f,
    h !! r = Some f ->
    exists d c,
      h' !! r = Some (set_child c (set_dom d f)) /\
      (d = dom f \/ d = None) /\ (c = child f \/ c = None).

(** What [commit_deletion] leaves of a fiber marked for deletion: no
    backend node and no child. *)
Definition dead (h : list Fiber) (b : ref) : Prop :=
  exists f, h !! b = Some f /\ effect_tag f = Some DELETION /\
            dom f = None /\ child f = None.

(** How many times the fiber [b] is in the work queue. *)
Definition occurrences (b : ref) (q : list (option ref)) : nat :=
  length (List.filter (fun x => bool_decide (x = Some b)) q).

(** The engine when the units of work are done and the commit is about
    to start, in the box scenario: after the box with [a] and [b] was
    committed, [render] is called with the box without children. *)
Definition box_children_removed : PyGui :=
  Eval vm_compute in
    final_state
      (render_entered (create_element (Host "box") None []) box_container
         None box_committed)
      (work_loop_while no_components enum_truth (fun _ => 0%Z) 20 None false).

(** The engine when the units of work of the first pass are done and
    the commit is about to start, in the box scenario. *)
Definition box_units_done : PyGui :=
  Eval vm_compute in
    final_state
      (render_entered box_descriptor box_container None (PyGui_init SYNC 0))
      (work_loop_while no_components enum_truth (fun _ => 0%Z) 20 None false).

(** What the committer leaves alone besides what [inner_frame] says: the
    deletions and the renderer's supply of nodes. *)
Definition commit_keeps (g g' : PyGui) : Prop :=
  _deletions g' = _deletions g /\ next_dom g' = next_dom g /\
  fades (heap g) (heap g').

(** What the loop of the reconciler leaves alone: it has no effect
    outside the store and the deletions, takes no node from the renderer
    and does not touch the work queue. *)
Definition silent (g g' : PyGui) : Prop :=
  effects g' = effects g /\ next_dom g' = next_dom g /\
  _work g' = _work g.

(** [node_below h r l x d]: from [r] down the [child] links, the fibers
    [l] (starting with [r]) have no backend node and the next one, [x],
    has the node [d]: the way [commit_deletion] goes. *)
Inductive node_below (h : list Fiber) : ref -> list ref -> ref -> Dom -> Prop :=
| nb_here r f d :
    h !! r = Some f -> dom f = Some d -> node_below h r [] r d
| nb_down r f c l x d :
    h !! r = Some f -> dom f = None -> child f = Some c ->
    node_below h c l x d -> node_below h r (r :: l) x d.

(** A component fiber marked for deletion above a host fiber: fiber 1
    is the component, without a node, and its child, fiber 2, has node
    7; fiber 0 is the parent, with node 5. *)
Definition component_deleted : PyGui :=
  with_heap
    [mkFiber (Some (Host "box")) (Some []) (Some []) (Some []) (Some 5)
       None (Some 1) None None (Some UPDATE) None;
     mkFiber (Some (Component 0)) (Some []) (Some []) (Some []) None
       (Some 0) (Some 2) None None (Some DELETION) None;
     mkFiber (Some (Host "a")) (Some []) (Some []) (Some []) (Some 7)
       (Some 1) None None None (Some PLACEMENT) None]
    (PyGui_init SYNC 8).

(** The label scenario, a second pass: after the label was committed in
    synchronous mode, [render] is called with it again and the unit of
    work of the new root (fiber 2) is done; fiber 3 is the new fiber of
    the label, with the node and the props of the committed one and no
    watcher. *)
Definition label_second_pass : PyGui :=
  Eval vm_compute in
    final_state
      (render_entered label_descriptor 100 None label_committed_sync)
      (let* _ := perform_unit_of_work no_components 20 2 in ret tt).

(** ** Components that define handlers *)

(** [h(Dialog, {})], for a component [Dialog] that returns one button
    with a handler, in the manner of [LayoutExample] in
    [examples/layout-example.py]. *)
Definition dialog_descriptor : VNode :=
  create_element (Component 0) (Some []) [].

Definition dialog_button (handler : Value) : VNode :=
  create_element (Host "Button")
    (Some [("text", VStr "Select all"); ("on_clicked", handler)]) [].

(** The handler is defined in the body of the component ([def
    select_all(): ...] inside [def Dialog(props)]): every call makes a
    new function object, [VFn n] at the n-th call. *)
Definition dialog_with_closure : nat -> nat -> Dict -> VNode :=
  fun n _ _ => dialog_button (VFn n).

(** The handler is defined beside the component, once: every call
    returns the button with the same function object. *)
Definition dialog_with_function : nat -> nat -> Dict -> VNode :=
  fun _ _ _ => dialog_button (VFn 7).

(** The engine after [render(h(Dialog, {}), container)] in synchronous
    mode (fiber 0 is the root, 1 the component, 2 the button with the
    backend node 0). *)
Definition dialog_committed (component : nat -> nat -> Dict -> VNode)
  : PyGui :=
  final_state (PyGui_init SYNC 0)
    (render component enum_truth (fun _ => 0%Z) 20 dialog_descriptor 100
       None).

Definition closure_committed : PyGui :=
  Eval vm_compute in dialog_committed dialog_with_closure.

Definition function_committed : PyGui :=
  Eval vm_compute in dialog_committed dialog_with_function.

(** * CGX templates

    A shallow embedding of the conversion of a parsed template into
    elements in [collagraph/cgx/cgx.py].  The conversion is pure: it
    raises or returns. *)

Module CGX.

Inductive Exception :=
| KeyError        (* a name that is neither in [state] nor in [props] *)
| AttributeError  (* [control_flow.result] where [control_flow] is [None] *)
| IndexError.     (* [key_parts[1]] where the split has one part *)

Inductive Result (A : Type) :=
| Return (a : A)
| Raised (e : Exception).
Arguments Return {A} a.
Arguments Raised {A} e.

Definition bindR {A B : Type} (m : Result A) (k : A -> Result B) : Result B :=
  match m with
  | Return a => k a
  | Raised e => Raised e
  end.

(** [s.split(sep)], for a separator of one character *)
Fixpoint split (sep : ascii) (s : string) : list string :=
  match s with
  | EmptyString => [EmptyString]
  | String c s' =>
      if Ascii.eqb c sep then EmptyString :: split sep s'
      else match split sep s' with
           | p :: ps => String c p :: ps
           | [] => [String c EmptyString]
           end
  end.

(** [d[key] = v]: the value of an existing key is replaced where the key
    is, a new key goes to the end. *)
Fixpoint dict_set {A : Type} (d : list (string * A)) (key : string) (v : A)
  : list (string * A) :=
  match d with
  | [] => [(key, v)]
  | (k, x) :: d' =>
      if String.eqb k key then (k, v) :: d' else (k, x) :: dict_set d' key v
  end.

(** [d[key]] for a dictionary of any values, [None] standing for
    [key not in d]. *)
Fixpoint dict_find {A : Type} (d : list (string * A)) (key : string)
  : option A :=
  match d with
  | [] => None
  | (k, x) :: d' => if String.eqb k key then Some x else dict_find d' key
  end.

(** [bool(v)] *)
Definition truth (v : Value) : bool :=
  match v with
  | VNone => false
  | VInt z => negb (Z.eqb z 0)
  | VStr s => negb (String.eqb s EmptyString)
  | VFn _ => true
  end.

(** [class Node]: an element of a CGX file.  The value of an attribute is
    a string, or [None] for an attribute written without a value. *)
#[warnings="-register-all"]
Inductive Node :=
| mkNode (tag : string) (attrs : Dict) (data : option string)
         (children : list Node).

Definition tag (node : Node) : string :=
  let '(mkNode t _ _ _) := node in t.
Definition attrs (node : Node) : Dict :=
  let '(mkNode _ a _ _) := node in a.
Definition children (node : Node) : list Node :=
  let '(mkNode _ _ _ c) := node in c.

(** What the conversion reads of a component: its [state] and its
    [props], dictionaries with strings as keys. *)
Record Component := mkComponent {
  state : Dict;
  props : Dict;
}.

(** [class ControlFlow] *)
Record ControlFlow := mkControlFlow {
  result : bool;
}.

(** The values of the [directives] dictionary: what [query_component]
    returned, or [True]. *)
Inductive Directive :=
| Queried (v : Value)
| PyTrue.

Definition directive_truth (d : Directive) : bool :=
  match d with
  | Queried v => truth v
  | PyTrue => true
  end.

(** [query_component(component, attr)]; [attr] is the value of an
    attribute, and only a string is a key of [state] or [props]. *)
Definition query_component (component : Component) (attr : Value)
  : Result Value :=
  match attr with
  | VStr a =>
      if dict_contains (state component) a
      then match dict_lookup (state component) a with
           | Some v => Return v
           | None => Raised KeyError
           end
      else match dict_lookup (props component) a with
           | Some v => Return v
           | None => Raised KeyError
           end
  | _ => Raised KeyError
  end.

(** The body of the [for] loop of [convert_attributes], on the pair
    [(attributes, directives)]. *)
Definition convert_attribute (component : Component)
    (acc : Dict * list (string * Directive)) (item : string * Value)
  : Result (Dict * list (string * Directive)) :=
  let attributes := fst acc in
  let directives := snd acc in
  let key := fst item in
  let val := snd item in
  let attributes :=
    if negb (startswith key "v-" || startswith key ":")
    then dict_set attributes key val
    else attributes in
  bindR
    (if startswith key "v-bind:" || startswith key ":"
     then bindR (query_component component val) (fun v =>
            match split ":"%char key !! 1 with
            | Some name => Return (dict_set attributes name v)
            | None => Raised IndexError
            end)
     else Return attributes)
    (fun attributes =>
  bindR
    (if String.eqb key "v-if" || String.eqb key "v-else-if"
     then bindR (query_component component val) (fun v =>
            Return (dict_set directives key (Queried v)))
     else if String.eqb key "v-else"
     then Return (dict_set directives key PyTrue)
     else Return directives)
    (fun directives => Return (attributes, directives))).

Fixpoint convert_attributes_loop (component : Component)
    (items : Dict) (acc : Dict * list (string * Directive))
  : Result (Dict * list (string * Directive)) :=
  match items with
  | [] => Return acc
  | item :: items' =>
      bindR (convert_attribute component acc item)
            (convert_attributes_loop component items')
  end.

(** [convert_attributes(attrs, component)] *)
Definition convert_attributes (attrs : Dict) (component : Component)
  : Result (Dict * list (string * Directive)) :=
  convert_attributes_loop component attrs ([], []).

Section Convert.

(** The elements: [create_element] is imported from the package, and
    [if converted_child:] tests the truth of what it returned. *)
Variable Element : Type.
Variable create_element : string -> Dict -> list Element -> Element.
Variable element_truth : Element -> bool.

Variable component : Component.

(** The [if ... elif ... elif] on the directives at the head of
    [_convert_node]: [inl r] is [return r], [inr cf] goes on to the
    children with [control_flow] being [cf]. *)
Definition control_flow_of (directives : list (string * Directive))
    (control_flow : option ControlFlow)
  : Result (option Element * option ControlFlow + option ControlFlow) :=
  match dict_find directives "v-if" with
  | Some d =>
      let control_flow := mkControlFlow (directive_truth d) in
      if negb (result control_flow)
      then Return (inl (None, Some control_flow))
      else Return (inr (Some control_flow))
  | None =>
  match dict_find directives "v-else-if" with
  | Some d =>
      match control_flow with
      | None => Raised AttributeError
      | Some cf =>
          if result cf then Return (inl (None, Some cf))
          else
            let cf := mkControlFlow (directive_truth d) in
            if negb (result cf) then Return (inl (None, Some cf))
            else Return (inr (Some cf))
      end
  | None =>
  match dict_find directives "v-else" with
  | Some _ =>
      match control_flow with
      | None => Raised AttributeError
      | Some cf =>
          if result cf then Return (inl (None, None))
          else Return (inr (Some cf))
      end
  | None => Return (inr control_flow)
  end end end.

(** [if converted_child: children.append(converted_child)] *)
Definition append_child (children : list Element)
    (converted_child : option Element) : list Element :=
  match converted_child with
  | Some e => if element_truth e then children ++ [e] else children
  | None => children
  end.

(** The [for] loop of [_convert_node] over [node.children], for the
    conversion [convert] of a child; [children] and
    [children_control_flow] are the arguments. *)
Definition convert_children
    (convert : Node -> option ControlFlow ->
               Result (option Element * option ControlFlow))
  : list Node -> list Element -> option ControlFlow -> Result (list Element) :=
  fix loop (nodes : list Node) (children : list Element)
      (children_control_flow : option ControlFlow) : Result (list Element) :=
    match nodes with
    | [] => Return children
    | child :: nodes' =>
        bindR (convert child children_control_flow) (fun r =>
          loop nodes' (append_child children (fst r)) (snd r))
    end.

(** [_convert_node(node, component, control_flow)] *)
Fixpoint _convert_node (node : Node) (control_flow : option ControlFlow)
  : Result (option Element * option ControlFlow) :=
  match node with
  | mkNode tag attrs _ node_children =>
      bindR (convert_attributes attrs component) (fun ad =>
      bindR (control_flow_of (snd ad) control_flow) (fun c =>
      match c with
      | inl r => Return r
      | inr control_flow =>
          bindR (convert_children _convert_node node_children [] None)
            (fun children =>
               Return (Some (create_element tag (fst ad) children),
                       control_flow))
      end))
  end.

(** [convert_node(node, component)] *)
Definition convert_node (node : Node) : Result (option Element) :=
  bindR (_convert_node node None) (fun r => Return (fst r)).

(** The element a node stands for when it is read as it is written:
    its tag, its attributes, the elements of its children. *)
Fixpoint element_of (node : Node) : Element :=
  match node with
  | mkNode tag attrs _ node_children =>
      create_element tag attrs (map element_of node_children)
  end.

End Convert.

(** *** Observations on templates *)

(** A key that [convert_attributes] copies: it starts neither with
    [v-] nor with a colon. *)
Definition plain_key (key : string) : bool :=
  negb (startswith key "v-" || startswith key ":").

(** A template without directives and bindings: in every node the
    attributes are a dictionary and their keys are plain. *)
Fixpoint plain (node : Node) : Prop :=
  match node with
  | mkNode _ attrs _ node_children =>
      dict_wf attrs /\ forallb plain_key (keys attrs) = true /\
      fold_right (fun child rest => plain child /\ rest) True node_children
  end.

(** The branch of the [if ... elif ... elif] of [_convert_node] a node
    takes: the first of [v-if], [v-else-if], [v-else] among its
    attributes. *)
Definition is_if (node : Node) : bool :=
  dict_contains (attrs node) "v-if".
Definition is_else_if (node : Node) : bool :=
  negb (dict_contains (attrs node) "v-if")
  && dict_contains (attrs node) "v-else-if".
Definition is_else (node : Node) : bool :=
  negb (dict_contains (attrs node) "v-if")
  && negb (dict_contains (attrs node) "v-else-if")
  && dict_contains (attrs node) "v-else".

End CGX.

(** *** Templates *)

(** The elements of [pygui] as the elements of a template; an element,
    a named tuple of four fields, is true. *)
Definition host_element (tag : string) (props : Dict)
    (children : list VNode) : VNode :=
  create_element (Host tag) (Some props) children.

Definition element_truth (e : VNode) : bool := true.

(** [<item foo="bar"><item baz="bla"/></item>] *)
Definition item_template : CGX.Node :=
  CGX.mkNode "item" [("foo", VStr "bar")] None
    [CGX.mkNode "item" [("baz", VStr "bla")] None []].

(** A component whose state has [first] and whose props have [second]
    and [title]. *)
Definition two_flags (first second : Value) : CGX.Component :=
  CGX.mkComponent [("first", first)]
    [("second", second); ("title", VStr "Hello")].


(** * Properties *)

(** ** Dictionaries *)

Lemma dict_lookup_In d key v :
  dict_lookup d key = Some v -> In (key, v) d.
Proof.
  induction d as [|[k w] d IH]; simpl; [discriminate|].
  destruct (String.eqb_spec k key) as [->|Hne].
  - intros [= ->]. now left.
  - intros H. right. auto.
Qed.

Lemma dict_lookup_None d key :
  dict_lookup d key = None <-> ~ In key (keys d).
Proof.
  induction d as [|[k w] d IH]; simpl.
  - tauto.
  - destruct (String.eqb_spec k key) as [->|Hne].
    + split; [discriminate|]. intros H. exfalso. apply H. now left.
    + rewrite IH. split.
      * intros H [Hk|Hk]; [congruence|auto].
      * intros H Hk. apply H. now right.
Qed.

Lemma In_keys d k v : In (k, v) d -> In k (keys d).
Proof. intros H. unfold keys. apply in_map_iff. now exists (k, v). Qed.

Lemma dict_In_lookup d key v :
  dict_wf d -> In (key, v) d -> dict_lookup d key = Some v.
Proof.
  unfold dict_wf. induction d as [|[k w] d IH]; simpl; [tauto|].
  intros Hnd [H|H].
  - injection H as -> ->. now rewrite String.eqb_refl.
  - inversion Hnd as [|? ? Hk Hnd']; subst.
    destruct (String.eqb_spec k key) as [->|Hne].
    + exfalso. apply Hk. eapply In_keys; eauto.
    + auto.
Qed.

Lemma dict_wf_items d : dict_wf d -> List.NoDup d.
Proof.
  unfold dict_wf. induction d as [|[k w] d IH]; simpl; intros H.
  - constructor.
  - inversion H as [|? ? Hk Hnd]; subst. constructor; [|auto].
    intros Hin. apply Hk. eapply In_keys; eauto.
Qed.

(** ** Filtering the calls of a loop *)

Section FilterLoop.
Context {A : Type} (P : Renderer.Call -> bool) (body : A -> list Renderer.Call).

Lemma filter_none (cs : list Renderer.Call) :
  (forall c, In c cs -> P c = false) -> List.filter P cs = [].
Proof.
  induction cs as [|c cs IH]; simpl; intros H; [reflexivity|].
  rewrite (H c) by now left. apply IH. intros. apply H. now right.
Qed.

Lemma filter_all (cs : list Renderer.Call) :
  (forall c, In c cs -> P c = true) -> List.filter P cs = cs.
Proof.
  induction cs as [|c cs IH]; simpl; intros H; [reflexivity|].
  rewrite (H c) by now left. f_equal. apply IH. intros. apply H. now right.
Qed.

Lemma filter_loop_none (l : list A) :
  (forall b c, In b l -> In c (body b) -> P c = false) ->
  List.filter P (flat_map body l) = [].
Proof.
  intros H. apply filter_none. intros c Hc.
  apply in_flat_map in Hc as (b & Hb & Hc). eauto.
Qed.

Lemma filter_loop_one (l : list A) (a : A) :
  List.NoDup l -> In a l ->
  (forall b c, In b l -> b <> a -> In c (body b) -> P c = false) ->
  (forall c, In c (body a) -> P c = true) ->
  List.filter P (flat_map body l) = body a.
Proof.
  induction l as [|b l IH]; simpl; intros Hnd Hin Hother Hown; [tauto|].
  inversion Hnd as [|? ? Hb Hnd']; subst.
  rewrite List.filter_app. destruct Hin as [->|Hin].
  - rewrite (filter_all _ Hown).
    rewrite filter_loop_none, app_nil_r; [reflexivity|].
    intros b c Hbl Hc. apply (Hother b c); auto. congruence.
  - rewrite IH; auto.
    + rewrite filter_none; [reflexivity|].
      intros c Hc. apply (Hother b c); auto. congruence.
    + intros b' c Hb' Hne Hc. apply (Hother b' c); auto.
Qed.
End FilterLoop.

(** ** [update_dom]: which loop makes which call *)

Lemma remove_old_listener_calls dom next_props item c :
  In c (remove_old_listener dom next_props item) ->
  is_event (fst item) = true /\
  dict_contains next_props (fst item) = true /\
  snd item <> dict_get next_props (fst item) /\
  c = Renderer.remove_event_listener dom (event_type_of (fst item)) (snd item).
Proof.
  destruct item as [name val]. unfold remove_old_listener, is_new. simpl.
  destruct (is_event name); simpl; [|tauto].
  destruct (dict_contains next_props name); simpl; [|tauto].
  case_bool_decide; simpl; [|tauto].
  intros [<-|[]]. auto.
Qed.

Lemma remove_old_property_calls dom prev_props next_props key c :
  In c (remove_old_property dom prev_props next_props key) ->
  is_property key = true /\ dict_contains next_props key = false /\
  exists v, dict_lookup prev_props key = Some v /\
            c = Renderer.clear_attribute dom key v.
Proof.
  unfold remove_old_property.
  destruct (is_property key); simpl; [|tauto].
  destruct (dict_contains next_props key); simpl; [tauto|].
  destruct (dict_lookup prev_props key) as [v|]; simpl; [|tauto].
  intros [<-|[]]. eauto.
Qed.

Lemma set_new_property_calls dom prev_props item c :
  In c (set_new_property dom prev_props item) ->
  is_property (fst item) = true /\
  snd item <> dict_get prev_props (fst item) /\
  c = Renderer.set_attribute dom (fst item) (snd item).
Proof.
  destruct item as [key val]. unfold set_new_property, is_new. simpl.
  destruct (is_property key); simpl; [|tauto].
  case_bool_decide; simpl; [|tauto].
  intros [<-|[]]. auto.
Qed.

Lemma add_new_listener_calls dom prev_props next_props name c :
  In c (add_new_listener dom prev_props next_props name) ->
  is_event name = true /\
  dict_get prev_props name <> dict_get next_props name /\
  exists v, dict_lookup next_props name = Some v /\
            c = Renderer.add_event_listener dom (event_type_of name) v.
Proof.
  unfold add_new_listener, is_new.
  destruct (is_event name); simpl; [|tauto].
  case_bool_decide; simpl; [|tauto].
  destruct (dict_lookup next_props name) as [v|]; simpl; [|tauto].
  intros [<-|[]]. eauto.
Qed.

Lemma is_property_event key : is_property key = negb (is_event key).
Proof. reflexivity. Qed.

(** ** C4: the delta of the non-listener properties *)

Lemma attribute_calls_app key l1 l2 :
  attribute_calls key (l1 ++ l2) = attribute_calls key l1 ++ attribute_calls key l2.
Proof. apply List.filter_app. Qed.

Lemma attribute_calls_old_listeners dom next_props prev_props key :
  attribute_calls key (flat_map (remove_old_listener dom next_props) prev_props) = [].
Proof.
  apply filter_loop_none. intros b c _ Hc.
  apply remove_old_listener_calls in Hc as (_ & _ & _ & ->). reflexivity.
Qed.

Lemma attribute_calls_new_listeners dom prev_props next_props l key :
  attribute_calls key (flat_map (add_new_listener dom prev_props next_props) l) = [].
Proof.
  apply filter_loop_none. intros b c _ Hc.
  apply add_new_listener_calls in Hc as (_ & _ & v & _ & ->). reflexivity.
Qed.

Lemma attribute_calls_old_properties dom prev_props next_props key :
  dict_wf prev_props -> is_property key = true ->
  attribute_calls key
    (flat_map (remove_old_property dom prev_props next_props) (keys prev_props))
  = match dict_lookup prev_props key, dict_lookup next_props key with
    | Some old, None => [Renderer.clear_attribute dom key old]
    | _, _ => []
    end.
Proof.
  intros Hwf Hprop. unfold attribute_calls.
  destruct (dict_lookup prev_props key) as [old|] eqn:Hprev.
  - rewrite (filter_loop_one _ _ _ key).
    + unfold remove_old_property, dict_contains. rewrite Hprop, Hprev. simpl.
      now destruct (dict_lookup next_props key).
    + exact Hwf.
    + eapply In_keys, dict_lookup_In; eauto.
    + intros b c _ Hne Hc.
      apply remove_old_property_calls in Hc as (_ & _ & v & _ & ->). simpl.
      apply bool_decide_eq_false. congruence.
    + intros c Hc.
      apply remove_old_property_calls in Hc as (_ & _ & v & _ & ->). simpl.
      now apply bool_decide_eq_true.
  - apply filter_loop_none. intros b c Hb Hc.
    apply remove_old_property_calls in Hc as (_ & _ & v & _ & ->). simpl.
    apply bool_decide_eq_false. intros [= ->].
    apply dict_lookup_None in Hprev. contradiction.
Qed.

Lemma attribute_calls_new_properties dom prev_props next_props key :
  dict_wf next_props -> is_property key = true ->
  attribute_calls key (flat_map (set_new_property dom prev_props) next_props)
  = match dict_lookup next_props key with
    | Some new =>
        if decide (new = dict_get prev_props key) then []
        else [Renderer.set_attribute dom key new]
    | None => []
    end.
Proof.
  intros Hwf Hprop. unfold attribute_calls.
  destruct (dict_lookup next_props key) as [new|] eqn:Hnext.
  - rewrite (filter_loop_one _ _ _ (key, new)).
    + unfold set_new_property, is_new. rewrite Hprop. simpl.
      case_bool_decide; destruct (decide _); simpl; congruence.
    + now apply dict_wf_items.
    + now apply dict_lookup_In.
    + intros [k v] c Hb Hne Hc.
      apply set_new_property_calls in Hc as (_ & _ & ->). simpl.
      apply bool_decide_eq_false. intros [= ->]. apply Hne. f_equal.
      apply dict_In_lookup in Hb; congruence.
    + intros c Hc.
      apply set_new_property_calls in Hc as (_ & _ & ->). simpl.
      now apply bool_decide_eq_true.
  - apply filter_loop_none. intros [k v] c Hb Hc.
    apply set_new_property_calls in Hc as (_ & _ & ->). simpl.
    apply bool_decide_eq_false. intros [= ->].
    apply dict_lookup_None in Hnext. apply Hnext. eapply In_keys; eauto.
Qed.

(** The calls about one non-listener key, for any two snapshots. *)
Lemma attribute_calls_update_dom dom prev_props next_props key :
  dict_wf prev_props -> dict_wf next_props -> is_property key = true ->
  attribute_calls key (update_dom dom prev_props next_props)
  = match dict_lookup prev_props key, dict_lookup next_props key with
    | Some old, Some new =>
        if decide (new = old) then []
        else [Renderer.set_attribute dom key new]
    | Some old, None => [Renderer.clear_attribute dom key old]
    | None, Some new =>
        if decide (new = VNone) then []
        else [Renderer.set_attribute dom key new]
    | None, None => []
    end.
Proof.
  intros Hp Hn Hprop. unfold update_dom.
  rewrite !attribute_calls_app, attribute_calls_old_listeners,
    attribute_calls_new_listeners, attribute_calls_old_properties,
    attribute_calls_new_properties by assumption.
  unfold dict_get. simpl. rewrite app_nil_r.
  destruct (dict_lookup prev_props key), (dict_lookup next_props key);
    reflexivity.
Qed.

Lemma update_dom_In dom prev_props next_props c :
  In c (update_dom dom prev_props next_props) ->
  (exists item, In item prev_props /\
                In c (remove_old_listener dom next_props item)) \/
  (exists key, In key (keys prev_props) /\
               In c (remove_old_property dom prev_props next_props key)) \/
  (exists item, In item next_props /\
                In c (set_new_property dom prev_props item)) \/
  (exists name, In name (keys next_props) /\
                In c (add_new_listener dom prev_props next_props name)).
Proof.
  unfold update_dom. rewrite !in_app_iff, !in_flat_map. tauto.
Qed.

(** X25.  For two snapshots without listener-shaped keys,
    [update_dom] makes attribute calls only, and for every key: a changed
    value gives exactly one [set_attribute] call; a key that is gone gives
    exactly one [clear_attribute] call and no [set_attribute] call; a new
    key whose value is not [None] gives exactly one [set_attribute] call;
    an unchanged value gives no call. *)
Theorem update_dom_property_delta dom prev_props next_props key :
  dict_wf prev_props -> dict_wf next_props ->
  (forall k, In k (keys prev_props) \/ In k (keys next_props) ->
             is_property k = true) ->
  let log := update_dom dom prev_props next_props in
  (forall c, In c log -> call_attr c <> None) /\
  (forall old new,
      dict_lookup prev_props key = Some old ->
      dict_lookup next_props key = Some new -> new <> old ->
      attribute_calls key log = [Renderer.set_attribute dom key new]) /\
  (forall old,
      dict_lookup prev_props key = Some old ->
      dict_lookup next_props key = None ->
      attribute_calls key log = [Renderer.clear_attribute dom key old]) /\
  (forall new,
      dict_lookup prev_props key = None ->
      dict_lookup next_props key = Some new -> new <> VNone ->
      attribute_calls key log = [Renderer.set_attribute dom key new]) /\
  (forall v,
      dict_lookup prev_props key = Some v ->
      dict_lookup next_props key = Some v ->
      attribute_calls key log = []).
Proof.
  intros Hp Hn Hprops log.
  assert (Hk : forall d v, dict_lookup d key = Some v -> In key (keys d))
    by (intros; eapply In_keys, dict_lookup_In; eauto).
  split; [|repeat split].
  - intros c Hc. apply update_dom_In in Hc as [H|[H|[H|H]]].
    + destruct H as ([k v] & Hin & Hc).
      apply remove_old_listener_calls in Hc as (He & _). simpl in He.
      rewrite (proj1 (negb_true_iff _)
                 (Hprops k (or_introl (In_keys _ _ _ Hin)))) in He.
      discriminate.
    + destruct H as (k & _ & Hc).
      apply remove_old_property_calls in Hc as (_ & _ & v & _ & ->).
      discriminate.
    + destruct H as (item & _ & Hc).
      apply set_new_property_calls in Hc as (_ & _ & ->). discriminate.
    + destruct H as (k & Hin & Hc).
      apply add_new_listener_calls in Hc as (He & _).
      rewrite (proj1 (negb_true_iff _) (Hprops k (or_intror Hin))) in He.
      discriminate.
  - intros old new Ho Hnw Hne. subst log.
    rewrite attribute_calls_update_dom, Ho, Hnw by eauto.
    now destruct (decide (new = old)).
  - intros old Ho Hnw. subst log.
    now rewrite attribute_calls_update_dom, Ho, Hnw by eauto.
  - intros new Ho Hnw Hne. subst log.
    rewrite attribute_calls_update_dom, Ho, Hnw by eauto.
    now destruct (decide (new = VNone)).
  - intros v Ho Hnw. subst log.
    rewrite attribute_calls_update_dom, Ho, Hnw by eauto.
    now destruct (decide (v = v)).
Qed.

Lemma update_dom_property_delta_witness :
  let prev := [("text", VStr "a"); ("width", VInt 3); ("gone", VInt 1)] in
  let next := [("text", VStr "b"); ("width", VInt 3); ("fresh", VInt 2)] in
  attribute_calls "text" (update_dom 0 prev next)
  = [Renderer.set_attribute 0 "text" (VStr "b")] /\
  attribute_calls "gone" (update_dom 0 prev next)
  = [Renderer.clear_attribute 0 "gone" (VInt 1)] /\
  attribute_calls "fresh" (update_dom 0 prev next)
  = [Renderer.set_attribute 0 "fresh" (VInt 2)] /\
  attribute_calls "width" (update_dom 0 prev next) = [].
Proof.
  intros prev next.
  assert (Hp : dict_wf prev).
  { repeat constructor; simpl; intuition discriminate. }
  assert (Hn : dict_wf next).
  { repeat constructor; simpl; intuition discriminate. }
  assert (Hprops : forall k, In k (keys prev) \/ In k (keys next) ->
                             is_property k = true).
  { simpl. intros k H. repeat destruct H as [H|H]; subst; try reflexivity;
      contradiction. }
  split; [|split; [|split]].
  - apply (update_dom_property_delta 0 prev next "text" Hp Hn Hprops)
      with (old := VStr "a"); [reflexivity|reflexivity|discriminate].
  - apply (update_dom_property_delta 0 prev next "gone" Hp Hn Hprops);
      reflexivity.
  - apply (update_dom_property_delta 0 prev next "fresh" Hp Hn Hprops);
      [reflexivity|reflexivity|discriminate].
  - apply (update_dom_property_delta 0 prev next "width" Hp Hn Hprops)
      with (v := VInt 3); reflexivity.
Defined.

(** C4: the code at the failing input.  A new key whose value is
    [None] is compared with what [prev_props.get(key)] returns for a
    missing key, [None]: the loop that sets the new or changed
    properties takes it for unchanged and makes no [set_attribute] call,
    so the delta rule as the specification words it does not hold.  The
    loop that removes the old properties tests membership instead: when
    the key is dropped again it clears the attribute that was never
    set. *)
Theorem new_property_None_not_set :
  update_dom 0 [] [("text", VNone)] = [] /\
  update_dom 0 [("text", VNone)] []
  = [Renderer.clear_attribute 0 "text" VNone] /\
  ~ new_property_is_always_set.
Proof.
  split; [reflexivity|]. split; [reflexivity|].
  intros H.
  specialize (H 0 [] [("text", VNone)] "text" VNone).
  assert (Hn : dict_wf [("text", VNone)]).
  { repeat constructor; simpl; intuition discriminate. }
  specialize (H (List.NoDup_nil _) Hn eq_refl eq_refl eq_refl).
  discriminate H.
Qed.

(** ** C5 and C10: listeners *)

Lemma listener_calls_app e l1 l2 :
  listener_calls e (l1 ++ l2) = listener_calls e l1 ++ listener_calls e l2.
Proof. apply List.filter_app. Qed.

Lemma listener_calls_old_properties dom prev_props next_props l e :
  listener_calls e (flat_map (remove_old_property dom prev_props next_props) l) = [].
Proof.
  apply filter_loop_none. intros b c _ Hc.
  apply remove_old_property_calls in Hc as (_ & _ & v & _ & ->). reflexivity.
Qed.

Lemma listener_calls_new_properties dom prev_props next_props e :
  listener_calls e (flat_map (set_new_property dom prev_props) next_props) = [].
Proof.
  apply filter_loop_none. intros b c _ Hc.
  apply set_new_property_calls in Hc as (_ & _ & ->). reflexivity.
Qed.

Lemma listener_calls_old_listeners dom prev_props next_props name old :
  dict_wf prev_props -> is_event name = true ->
  dict_lookup prev_props name = Some old ->
  sole_listener name prev_props ->
  listener_calls (event_type_of name)
    (flat_map (remove_old_listener dom next_props) prev_props)
  = remove_old_listener dom next_props (name, old).
Proof.
  intros Hwf Hev Hprev Hsole. unfold listener_calls.
  apply filter_loop_one.
  - now apply dict_wf_items.
  - now apply dict_lookup_In.
  - intros [k v] c Hb Hne Hc.
    apply remove_old_listener_calls in Hc as (He & _ & _ & ->). simpl in *.
    apply bool_decide_eq_false. intros [= Heq]. apply Hne.
    assert (k = name) as -> by (apply Hsole; eauto using In_keys).
    f_equal. apply dict_In_lookup in Hb; congruence.
  - intros c Hc.
    apply remove_old_listener_calls in Hc as (_ & _ & _ & ->). simpl.
    now apply bool_decide_eq_true.
Qed.

Lemma listener_calls_new_listeners dom prev_props next_props name new :
  dict_wf next_props -> is_event name = true ->
  dict_lookup next_props name = Some new ->
  sole_listener name next_props ->
  listener_calls (event_type_of name)
    (flat_map (add_new_listener dom prev_props next_props) (keys next_props))
  = add_new_listener dom prev_props next_props name.
Proof.
  intros Hwf Hev Hnext Hsole. unfold listener_calls.
  apply filter_loop_one.
  - exact Hwf.
  - eapply In_keys, dict_lookup_In; eauto.
  - intros k c Hb Hne Hc.
    apply add_new_listener_calls in Hc as (He & _ & v & _ & ->). simpl.
    apply bool_decide_eq_false. intros [= Heq]. apply Hne. now apply Hsole.
  - intros c Hc.
    apply add_new_listener_calls in Hc as (_ & _ & v & _ & ->). simpl.
    now apply bool_decide_eq_true.
Qed.

(** C5.  A listener-shaped property present in both snapshots, the only
    listener of its event type in each: when its value differs, the calls
    about that event type are exactly one [remove_event_listener] with
    the old value followed by one [add_event_listener] with the new value;
    when the value is the same, there is no such call. *)
Theorem update_dom_listener_replaced dom prev_props next_props name old new :
  dict_wf prev_props -> dict_wf next_props ->
  is_event name = true ->
  dict_lookup prev_props name = Some old ->
  dict_lookup next_props name = Some new ->
  sole_listener name prev_props -> sole_listener name next_props ->
  listener_calls (event_type_of name) (update_dom dom prev_props next_props)
  = if decide (old = new) then []
    else [Renderer.remove_event_listener dom (event_type_of name) old;
          Renderer.add_event_listener dom (event_type_of name) new].
Proof.
  intros Hp Hn Hev Hprev Hnext Hsp Hsn. unfold update_dom.
  rewrite !listener_calls_app, listener_calls_old_properties,
    listener_calls_new_properties.
  rewrite (listener_calls_old_listeners _ _ _ _ old),
    (listener_calls_new_listeners _ _ _ _ new) by assumption.
  unfold remove_old_listener, add_new_listener, is_new, dict_contains,
    dict_get.
  rewrite Hev, Hprev, Hnext. simpl.
  destruct (decide (old = new)); repeat case_bool_decide; simpl;
    congruence.
Qed.

Lemma update_dom_listener_replaced_witness :
  listener_calls "click"
    (update_dom 0 [("text", VStr "a"); ("onClick", VFn 1)]
                  [("text", VStr "a"); ("onClick", VFn 2)])
  = [Renderer.remove_event_listener 0 "click" (VFn 1);
     Renderer.add_event_listener 0 "click" (VFn 2)].
Proof.
  apply (update_dom_listener_replaced 0
           [("text", VStr "a"); ("onClick", VFn 1)]
           [("text", VStr "a"); ("onClick", VFn 2)] "onClick" (VFn 1) (VFn 2)).
  - repeat constructor; simpl; intuition discriminate.
  - repeat constructor; simpl; intuition discriminate.
  - reflexivity.
  - reflexivity.
  - reflexivity.
  - intros k [<-|[<-|[]]]; [discriminate|reflexivity].
  - intros k [<-|[<-|[]]]; [discriminate|reflexivity].
Defined.

(** C10.  A listener-shaped property of the previous snapshot that is
    absent from the next one: every [remove_event_listener] call of
    [update_dom] is made for another key, one present in both snapshots
    with a different value; so, when the property is the only listener of
    its event type, no handler of that event type is removed. *)
Theorem update_dom_dropped_listener_stays dom prev_props next_props name old :
  is_event name = true ->
  dict_lookup prev_props name = Some old ->
  dict_lookup next_props name = None ->
  let log := update_dom dom prev_props next_props in
  (forall d e v,
      In (Renderer.remove_event_listener d e v) log ->
      exists k new,
        k <> name /\ In (k, v) prev_props /\
        dict_lookup next_props k = Some new /\ v <> new /\
        e = event_type_of k /\ d = dom) /\
  (sole_listener name prev_props ->
   forall d v,
     ~ In (Renderer.remove_event_listener d (event_type_of name) v) log).
Proof.
  intros Hev Hprev Hnext log.
  assert (H1 : forall d e v,
      In (Renderer.remove_event_listener d e v) log ->
      exists k new,
        k <> name /\ In (k, v) prev_props /\
        dict_lookup next_props k = Some new /\ v <> new /\
        e = event_type_of k /\ d = dom /\ is_event k = true).
  { intros d e v Hc. apply update_dom_In in Hc as [H|[H|[H|H]]].
    - destruct H as ([k w] & Hin & Hc).
      apply remove_old_listener_calls in Hc as (He & Hcont & Hne & Heq).
      simpl in *. injection Heq as -> -> ->.
      unfold dict_contains, dict_get in *.
      destruct (dict_lookup next_props k) as [new|] eqn:Hk; [|discriminate].
      exists k, new. repeat split; auto. congruence.
    - destruct H as (k & _ & Hc).
      apply remove_old_property_calls in Hc as (_ & _ & w & _ & Heq).
      discriminate.
    - destruct H as (item & _ & Hc).
      apply set_new_property_calls in Hc as (_ & _ & Heq). discriminate.
    - destruct H as (k & _ & Hc).
      apply add_new_listener_calls in Hc as (_ & _ & w & _ & Heq).
      discriminate. }
  split.
  - intros d e v Hc.
    destruct (H1 d e v Hc) as (k & new & ? & ? & ? & ? & ? & ? & ?).
    exists k, new. repeat split; assumption.
  - intros Hsole d v Hc.
    destruct (H1 d _ v Hc) as (k & new & Hne & Hin & _ & _ & He & _ & Hk).
    apply Hne, Hsole; eauto using In_keys.
Qed.

Lemma update_dom_dropped_listener_stays_witness :
  ~ In (Renderer.remove_event_listener 0 "click" (VFn 1))
       (update_dom 0 [("text", VStr "a"); ("onClick", VFn 1)]
                     [("text", VStr "b")]).
Proof.
  apply (update_dom_dropped_listener_stays 0
           [("text", VStr "a"); ("onClick", VFn 1)] [("text", VStr "b")]
           "onClick" (VFn 1) eq_refl eq_refl eq_refl).
  intros k [<-|[<-|[]]]; [discriminate|reflexivity].
Defined.

(** ** The monad *)

Lemma bind_Ok {A B} (m : M A) (k : A -> M B) g b g' :
  bind m k g = Ok b g' <->
  exists a g1, m g = Ok a g1 /\ k a g1 = Ok b g'.
Proof.
  unfold bind. split.
  - destruct (m g) as [a g1| |]; try discriminate. eauto.
  - intros (a & g1 & -> & H). exact H.
Qed.

Lemma bind_eq {A B} (m : M A) (k : A -> M B) g a g1 :
  m g = Ok a g1 -> bind m k g = k a g1.
Proof. unfold bind. now intros ->. Qed.

Lemma bind_call_component {B} component id p (k : VNode -> M B) g :
  bind (call_component component id p) k g
  = k (component (calls g) id p) (with_calls (S (calls g)) g).
Proof. reflexivity. Qed.

Lemma get_fiber_Ok r g f g' :
  get_fiber r g = Ok f g' <-> heap g !! r = Some f /\ g' = g.
Proof.
  unfold get_fiber. destruct (heap g !! r); split.
  - intros [= -> ->]. auto.
  - intros [[= ->] ->]. reflexivity.
  - discriminate.
  - intros [[=] _].
Qed.

Lemma get_fiber_eq r g f :
  heap g !! r = Some f -> get_fiber r g = Ok f g.
Proof. intros. now apply get_fiber_Ok. Qed.

Lemma attr_Ok {A} o (proj : Fiber -> A) g a g' :
  attr o proj g = Ok a g' <->
  exists r f, o = Some r /\ heap g !! r = Some f /\ a = proj f /\ g' = g.
Proof.
  unfold attr. destruct o as [r|]; split.
  - intros H. apply bind_Ok in H as (f & g1 & H1 & H2).
    apply get_fiber_Ok in H1 as [H1 ->]. injection H2 as <- <-. eauto 6.
  - intros (r' & f & [= <-] & Hf & -> & ->).
    erewrite bind_eq by (apply get_fiber_eq; eauto). reflexivity.
  - discriminate.
  - intros (r' & f & [=] & _).
Qed.

Lemma attr_eq {A} r (proj : Fiber -> A) g f :
  heap g !! r = Some f -> attr (Some r) proj g = Ok (proj f) g.
Proof. intros. apply attr_Ok. eauto 6. Qed.

Lemma assign_Ok o upd g u g' :
  assign o upd g = Ok u g' <->
  exists r f, o = Some r /\ heap g !! r = Some f /\
              g' = with_heap (<[r := upd f]> (heap g)) g.
Proof.
  unfold assign. destruct o as [r|]; split.
  - intros H. apply bind_Ok in H as (f & g1 & H1 & H2).
    apply get_fiber_Ok in H1 as [H1 ->]. injection H2 as <-. eauto 6.
  - intros (r' & f & [= <-] & Hf & ->). destruct u.
    erewrite bind_eq by (apply get_fiber_eq; eauto). reflexivity.
  - discriminate.
  - intros (r' & f & [=] & _).
Qed.

Lemma assign_eq r upd g f :
  heap g !! r = Some f ->
  assign (Some r) upd g = Ok tt (with_heap (<[r := upd f]> (heap g)) g).
Proof. intros. apply assign_Ok. eauto 6. Qed.

(** ** C3: the box scenario *)

(** C3 (amended).  Rendering the box with children [a] and [b] into an
    empty container: the units of work create the box, [a] and [b], in
    that order; the commit then inserts the box into the container, [a]
    into the box and [b] into the box, each parent before its children.
    The synchronous engine makes the same six calls in one [render]. *)
Theorem box_scenario_calls :
  exists g1 g2 g3 g4,
    render no_components enum_truth (fun _ => 0%Z) 20 box_descriptor
      box_container None (PyGui_init DEFAULT 0) = Ok tt g1 /\
    backend_calls (effects g1) = [] /\
    work_loop_while no_components enum_truth (fun _ => 0%Z) 20
      (Some 16000000%Z) false g1 = Ok tt g2 /\
    _next_unit_of_work g2 = None /\
    backend_calls (effects g2)
    = [Renderer.create_element (Some (Host "box")) 0;
       Renderer.create_element (Some (Host "a")) 1;
       Renderer.create_element (Some (Host "b")) 2] /\
    commit_root 20 g2 = Ok tt g3 /\
    backend_calls (effects g3)
    = backend_calls (effects g2)
      ++ [Renderer.insert 0 box_container; Renderer.insert 1 0;
          Renderer.insert 2 0] /\
    render no_components enum_truth (fun _ => 0%Z) 20 box_descriptor
      box_container None (PyGui_init SYNC 0) = Ok tt g4 /\
    backend_calls (effects g4) = backend_calls (effects g3).
Proof.
  do 4 eexists.
  split; [vm_compute; reflexivity|].
  split; [reflexivity|].
  split; [vm_compute; reflexivity|].
  split; [reflexivity|].
  split; [reflexivity|].
  split; [vm_compute; reflexivity|].
  split; [reflexivity|].
  split; [vm_compute; reflexivity|].
  reflexivity.
Qed.

(** C3 as stated fails: the commit makes no [create_element] call, and
    its first call inserts the box into the container, before [a] and
    [b] are inserted into the box. *)
Lemma box_scenario_not_children_first :
  exists g1 g2 g3,
    render no_components enum_truth (fun _ => 0%Z) 20 box_descriptor
      box_container None (PyGui_init DEFAULT 0) = Ok tt g1 /\
    work_loop_while no_components enum_truth (fun _ => 0%Z) 20
      (Some 16000000%Z) false g1 = Ok tt g2 /\
    commit_root 20 g2 = Ok tt g3 /\
    backend_calls (effects g3)
    = backend_calls (effects g2)
      ++ [Renderer.insert 0 box_container; Renderer.insert 1 0;
          Renderer.insert 2 0] /\
    backend_calls (effects g3)
    <> backend_calls (effects g2) ++ box_commit_calls_as_claimed /\
    backend_calls (effects g3) <> box_commit_calls_as_claimed.
Proof.
  do 3 eexists.
  split; [vm_compute; reflexivity|].
  split; [vm_compute; reflexivity|].
  split; [vm_compute; reflexivity|].
  split; [reflexivity|].
  split; vm_compute; discriminate.
Qed.

(** ** More fuel *)

Lemma le_M_refl {A} (m : M A) : le_M m m.
Proof. intros g a g' H. exact H. Qed.

Lemma le_M_bind {A B} (m m' : M A) (k k' : A -> M B) :
  le_M m m' -> (forall a, le_M (k a) (k' a)) -> le_M (bind m k) (bind m' k').
Proof.
  intros Hm Hk g b g' H. apply bind_Ok in H as (a & g1 & H1 & H2).
  apply bind_Ok. exists a, g1. split; [now apply Hm|now apply Hk].
Qed.

Lemma le_M_out_of_fuel {A} (m : M A) : le_M out_of_fuel m.
Proof. intros g a g' H. discriminate. Qed.

Ltac le_M_step :=
  match goal with
  | |- le_M out_of_fuel _ => apply le_M_out_of_fuel
  | |- le_M (bind _ _) (bind _ _) => apply le_M_bind; [|intros ?]
  | |- le_M (match ?x with _ => _ end) (match ?x with _ => _ end) =>
      destruct x
  | |- le_M (when ?b _) (when ?b _) => destruct b; simpl
  | |- le_M ?m ?m => apply le_M_refl
  | H : forall _, _ -> le_M _ _ |- le_M _ _ => apply H; lia
  | H : forall _, _ -> forall _, le_M _ _ |- le_M _ _ => apply H; lia
  end.

Lemma reconcile_loop_fuel fuel fuel' wip_fiber elements :
  fuel <= fuel' ->
  forall index old_fiber prev_sibling,
    le_M (reconcile_loop fuel wip_fiber elements index old_fiber prev_sibling)
         (reconcile_loop fuel' wip_fiber elements index old_fiber prev_sibling).
Proof.
  revert fuel'. induction fuel as [|fuel IH]; intros fuel' Hle index old prev.
  - apply le_M_out_of_fuel.
  - destruct fuel' as [|fuel']; [lia|]. simpl.
    destruct (negb _); [apply le_M_refl|].
    repeat (apply le_M_bind; [apply le_M_refl|intros ?]).
    apply IH. lia.
Qed.

Lemma reconcile_children_fuel fuel fuel' wip_fiber elements :
  fuel <= fuel' ->
  le_M (reconcile_children fuel wip_fiber elements)
       (reconcile_children fuel' wip_fiber elements).
Proof.
  intros Hle. unfold reconcile_children.
  repeat (apply le_M_bind; [apply le_M_refl|intros ?]).
  destruct elements; [|apply le_M_refl].
  now apply reconcile_loop_fuel.
Qed.

Lemma next_sibling_up_fuel fuel fuel' :
  fuel <= fuel' ->
  forall o, le_M (next_sibling_up fuel o) (next_sibling_up fuel' o).
Proof.
  revert fuel'. induction fuel as [|fuel IH]; intros fuel' Hle o.
  - destruct o; simpl; [apply le_M_out_of_fuel|].
    destruct fuel'; apply le_M_refl.
  - destruct fuel' as [|fuel']; [lia|]. simpl.
    destruct o; [|apply le_M_refl].
    apply le_M_bind; [apply le_M_refl|intros s].
    destruct s; [apply le_M_refl|].
    apply le_M_bind; [apply le_M_refl|intros p].
    apply IH. lia.
Qed.

Lemma perform_unit_of_work_fuel component fuel fuel' fiber :
  fuel <= fuel' ->
  le_M (perform_unit_of_work component fuel fiber)
       (perform_unit_of_work component fuel' fiber).
Proof.
  intros Hle. unfold perform_unit_of_work.
  apply le_M_bind; [apply le_M_refl|intros f].
  apply le_M_bind.
  - destruct (callable (type f)).
    + unfold update_function_component.
      apply le_M_bind; [apply le_M_refl|intros f'].
      destruct (type f') as [[|]|]; try apply le_M_refl.
      destruct (props f'); try apply le_M_refl.
      apply le_M_bind; [apply le_M_refl|intros e].
      now apply reconcile_children_fuel.
    + unfold update_host_component.
      do 3 (apply le_M_bind; [apply le_M_refl|intros ?]).
      now apply reconcile_children_fuel.
  - intros _. apply le_M_bind; [apply le_M_refl|intros c].
    destruct c; [apply le_M_refl|]. now apply next_sibling_up_fuel.
Qed.

(** ** C6: one unit of work and its successor *)

Lemma next_sibling_up_sound fuel o g next g' :
  next_sibling_up fuel o g = Ok next g' ->
  g' = g /\ first_sibling_up (heap g) o next.
Proof.
  revert o. induction fuel as [|fuel IH]; intros o H.
  - destruct o; [discriminate|]. injection H as <- <-.
    split; [reflexivity|constructor].
  - destruct o as [r|]; simpl in H.
    + apply bind_Ok in H as (s & g1 & H1 & H2).
      apply attr_Ok in H1 as (r' & f & [= <-] & Hf & -> & ->).
      destruct (sibling f) as [s|] eqn:Hs.
      * injection H2 as <- <-. split; [reflexivity|].
        eapply fsu_sibling; eauto.
      * apply bind_Ok in H2 as (p & g1 & H1 & H2).
        apply attr_Ok in H1 as (r' & f' & [= <-] & Hf' & -> & ->).
        assert (f' = f) as -> by congruence.
        apply IH in H2 as [-> H2]. split; [reflexivity|].
        eapply fsu_parent; eauto.
    + injection H as <- <-. split; [reflexivity|constructor].
Qed.

Lemma next_sibling_up_complete g o next :
  first_sibling_up (heap g) o next ->
  exists fuel, next_sibling_up fuel o g = Ok next g.
Proof.
  induction 1 as [|r f s Hf Hs|r f next Hf Hs _ [fuel IH]].
  - exists 0. reflexivity.
  - exists 1. simpl. erewrite bind_eq by (apply attr_eq; eauto).
    now rewrite Hs.
  - exists (S fuel). simpl. erewrite bind_eq by (apply attr_eq; eauto).
    rewrite Hs. erewrite bind_eq by (apply attr_eq; eauto). exact IH.
Qed.

Lemma update_function_component_work component fuel fiber f g g' :
  heap g !! fiber = Some f -> callable (type f) = true ->
  update_function_component component fuel fiber g = Ok tt g' <->
  unit_work component fuel fiber f g g'.
Proof.
  intros Hf Hc. unfold update_function_component, unit_work.
  erewrite bind_eq by (apply get_fiber_eq; eauto).
  destruct (type f) as [[tag|id]|]; try discriminate.
  destruct (props f) as [p|].
  - rewrite bind_call_component.
    split; [eauto|]. intros (p' & [= <-] & H). exact H.
  - split; [discriminate|]. intros (p' & [=] & _).
Qed.

Lemma update_host_component_work component fuel fiber f g g' :
  heap g !! fiber = Some f -> callable (type f) = false ->
  update_host_component fuel fiber g = Ok tt g' <->
  unit_work component fuel fiber f g g'.
Proof.
  intros Hf Hc. unfold update_host_component, unit_work.
  erewrite bind_eq by (apply get_fiber_eq; eauto).
  assert (Hlt : fiber < length (heap g)) by (eapply lookup_lt_Some; eauto).
  replace (match type f with
           | Some (Component id) =>
               exists p, props f = Some p /\
                 reconcile_children fuel fiber
                   (Some [component (calls g) id p])
                   (with_calls (S (calls g)) g) = Ok tt g'
           | _ =>
               match dom f with
               | Some _ =>
                   reconcile_children fuel fiber (children f) g = Ok tt g'
               | None =>
                   exists p, props f = Some p /\
                     reconcile_children fuel fiber (children f)
                       (realized fiber f p g) = Ok tt g'
               end
           end)
    with (match dom f with
          | Some _ => reconcile_children fuel fiber (children f) g = Ok tt g'
          | None =>
              exists p, props f = Some p /\
                reconcile_children fuel fiber (children f)
                  (realized fiber f p g) = Ok tt g'
          end)
    by (destruct (type f) as [[|]|]; [reflexivity|discriminate|reflexivity]).
  destruct (dom f) as [d|] eqn:Hd; simpl.
  - unfold bind at 1. simpl.
    erewrite bind_eq by (apply get_fiber_eq; eauto). reflexivity.
  - unfold create_dom.
    unfold bind at 1. unfold bind at 1. unfold bind at 1.
    rewrite (get_fiber_eq _ _ _ Hf). unfold bind at 1. simpl.
    destruct (props f) as [p|]; simpl.
    + rewrite (assign_eq fiber _ _ f) by exact Hf.
      erewrite bind_eq
        by (apply get_fiber_eq; simpl; apply list_lookup_insert_eq;
            exact Hlt).
      split.
      * intros H. exists p. split; [reflexivity|exact H].
      * intros (p' & [= <-] & H). exact H.
    + split; [discriminate|]. intros (p' & [=] & _).
Qed.

Lemma unit_work_fuel component fuel fuel' fiber f g g' :
  fuel <= fuel' ->
  unit_work component fuel fiber f g g' ->
  unit_work component fuel' fiber f g g'.
Proof.
  intros Hle. unfold unit_work.
  pose proof (reconcile_children_fuel fuel fuel' fiber) as Hm.
  destruct (type f) as [[tag|id]|]; [| |].
  - destruct (dom f).
    + apply Hm, Hle.
    + intros (p & Hp & H). exists p. split; [exact Hp|]. now apply Hm.
  - intros (p & Hp & H). exists p. split; [exact Hp|]. now apply Hm.
  - destruct (dom f).
    + apply Hm, Hle.
    + intros (p & Hp & H). exists p. split; [exact Hp|]. now apply Hm.
Qed.

(** C6.  [perform_unit_of_work] on a fiber returns, with enough fuel,
    exactly when the work on that one fiber ([unit_work]) is done, and
    what it returns is the next fiber in pre-order in the resulting
    store: the child of the fiber if it has one, otherwise the first
    sibling found walking up the parent links, otherwise none. *)
Theorem perform_unit_of_work_preorder component fiber g f next g' :
  heap g !! fiber = Some f ->
  (exists fuel, perform_unit_of_work component fuel fiber g = Ok next g') <->
  (exists fuel, unit_work component fuel fiber f g g') /\
  preorder_next (heap g') fiber next.
Proof.
  intros Hf. split.
  - intros [fuel H]. unfold perform_unit_of_work in H.
    erewrite bind_eq in H by (apply get_fiber_eq; eauto).
    apply bind_Ok in H as ([] & g1 & Hwork & H).
    assert (Hw : unit_work component fuel fiber f g g1).
    { destruct (callable (type f)) eqn:Hc.
      - now apply update_function_component_work.
      - now apply update_host_component_work. }
    apply bind_Ok in H as (c & g2 & H1 & H).
    apply attr_Ok in H1 as (r' & f1 & [= <-] & Hf1 & -> & ->).
    destruct (child f1) as [c|] eqn:Hchild.
    + injection H as <- <-. split; [eauto|]. eapply pn_child; eauto.
    + apply next_sibling_up_sound in H as [-> H]. split; [eauto|].
      eapply pn_up; eauto.
  - intros [[fuel Hw] Hnext].
    assert (Hup : exists fuel1,
               forall fuel2, fuel1 <= fuel2 ->
               (let* c := attr (Some fiber) child in
                match c with
                | Some c => ret (Some c)
                | None => next_sibling_up fuel2 (Some fiber)
                end) g' = Ok next g').
    { destruct Hnext as [f1 c Hf1 Hc|f1 next Hf1 Hc Hup].
      - exists 0. intros fuel2 _.
        erewrite bind_eq by (apply attr_eq; eauto). now rewrite Hc.
      - apply next_sibling_up_complete in Hup as [fuel1 Hup].
        exists fuel1. intros fuel2 Hle.
        erewrite bind_eq by (apply attr_eq; eauto). rewrite Hc.
        now apply (next_sibling_up_fuel fuel1). }
    destruct Hup as [fuel1 Hup].
    exists (Nat.max fuel fuel1).
    apply (unit_work_fuel _ _ (Nat.max fuel fuel1)) in Hw; [|lia].
    unfold perform_unit_of_work.
    erewrite bind_eq by (apply get_fiber_eq; eauto).
    rewrite (bind_eq _ _ _ tt g'); [apply Hup; lia|].
    destruct (callable (type f)) eqn:Hc.
    + now apply (update_function_component_work component _ fiber f).
    + now apply (update_host_component_work component _ fiber f).
Qed.

Lemma perform_unit_of_work_preorder_witness :
  exists g',
    perform_unit_of_work no_components 5 0 box_start = Ok (Some 1) g' /\
    preorder_next (heap g') 0 (Some 1).
Proof.
  eexists. split; [vm_compute; reflexivity|].
  apply (proj1 (perform_unit_of_work_preorder no_components 0 box_start
                  box_root_fiber (Some 1) _ eq_refl)).
  exists 5. vm_compute. reflexivity.
Defined.

(** ** What units of work and commit steps leave alone *)

Lemma inner_frame_refl g : inner_frame g g.
Proof.
  constructor; try reflexivity. exists []. now rewrite app_nil_r.
Qed.

Lemma inner_frame_trans g1 g2 g3 :
  inner_frame g1 g2 -> inner_frame g2 g3 -> inner_frame g1 g3.
Proof.
  intros [] []. constructor; try congruence; try lia.
  destruct fr_effects0 as (es1 & He1 & Hf1).
  destruct fr_effects1 as (es2 & He2 & Hf2).
  exists (es1 ++ es2). rewrite He2, He1, app_assoc. split; [reflexivity|].
  rewrite forallb_app, Hf1, Hf2. reflexivity.
Qed.

Lemma preserves_ret {A} (a : A) : preserves inner_frame (ret a).
Proof. intros g a' g' [= <- <-]. apply inner_frame_refl. Qed.

Lemma preserves_bind {A B} (m : M A) (k : A -> M B) :
  preserves inner_frame m -> (forall a, preserves inner_frame (k a)) ->
  preserves inner_frame (bind m k).
Proof.
  intros Hm Hk g b g' H. apply bind_Ok in H as (a & g1 & H1 & H2).
  eapply inner_frame_trans; [eapply Hm|eapply Hk]; eauto.
Qed.

Lemma preserves_raise {A} e : preserves inner_frame (@raise A e).
Proof. intros g a g' H. discriminate. Qed.

Lemma preserves_out_of_fuel {A} : preserves inner_frame (@out_of_fuel A).
Proof. intros g a g' H. discriminate. Qed.

Lemma preserves_gets {A} (proj : PyGui -> A) : preserves inner_frame (gets proj).
Proof. intros g a g' [= <- <-]. apply inner_frame_refl. Qed.

Lemma preserves_get_fiber r : preserves inner_frame (get_fiber r).
Proof.
  intros g a g' H. apply get_fiber_Ok in H as [_ ->]. apply inner_frame_refl.
Qed.

Lemma preserves_attr {A} o (proj : Fiber -> A) : preserves inner_frame (attr o proj).
Proof.
  intros g a g' H. apply attr_Ok in H as (r & f & _ & _ & _ & ->).
  apply inner_frame_refl.
Qed.

Lemma preserves_assign o upd : preserves inner_frame (assign o upd).
Proof.
  intros g a g' H. apply assign_Ok in H as (r & f & _ & _ & ->).
  constructor; try reflexivity.
  - simpl. now rewrite length_insert.
  - exists []. now rewrite app_nil_r.
Qed.

Lemma preserves_alloc f : preserves inner_frame (alloc f).
Proof.
  intros g a g' [= <- <-]. constructor; try reflexivity.
  - simpl. rewrite length_app. lia.
  - exists []. now rewrite app_nil_r.
Qed.

Lemma preserves_with_deletions ds : preserves inner_frame (modify (with_deletions ds)).
Proof.
  intros g a g' [= <- <-]. constructor; try reflexivity.
  exists []. now rewrite app_nil_r.
Qed.

Lemma preserves_with_work (upd : PyGui -> list (option ref)) :
  preserves inner_frame (modify (fun g => with_work (upd g) g)).
Proof.
  intros g a g' [= <- <-]. constructor; try reflexivity.
  exists []. now rewrite app_nil_r.
Qed.

Lemma preserves_emit e :
  is_inner_effect e = true -> preserves inner_frame (emit e).
Proof.
  intros He g a g' [= <- <-]. constructor; try reflexivity.
  exists [e]. simpl. now rewrite He.
Qed.

Lemma preserves_renderer_calls cs : preserves inner_frame (renderer_calls cs).
Proof.
  intros g a g' [= <- <-]. constructor; try reflexivity.
  exists (map Backend cs). split; [reflexivity|].
  induction cs; simpl; auto.
Qed.

Lemma preserves_renderer_create_element t :
  preserves inner_frame (renderer_create_element t).
Proof.
  intros g a g' [= <- <-]. constructor; try reflexivity.
  exists [Backend (Renderer.create_element t (next_dom g))]. now split.
Qed.

Lemma preserves_call_component component id p :
  preserves inner_frame (call_component component id p).
Proof.
  intros g a g' [= <- <-]. constructor; try reflexivity.
  exists []. now rewrite app_nil_r.
Qed.

Ltac preserves_step :=
  match goal with
  | |- preserves _ (bind _ _) => apply preserves_bind; [|intros ?]
  | |- preserves _ (call_component _ _ _) => apply preserves_call_component
  | |- preserves _ (ret _) => apply preserves_ret
  | |- preserves _ (raise _) => apply preserves_raise
  | |- preserves _ out_of_fuel => apply preserves_out_of_fuel
  | |- preserves _ (gets _) => apply preserves_gets
  | |- preserves _ (get_fiber _) => apply preserves_get_fiber
  | |- preserves _ (attr _ _) => apply preserves_attr
  | |- preserves _ (assign _ _) => apply preserves_assign
  | |- preserves _ (alloc _) => apply preserves_alloc
  | |- preserves _ (modify (with_deletions _)) => apply preserves_with_deletions
  | |- preserves _ (modify (fun g => with_work _ g)) => apply preserves_with_work
  | |- preserves _ (work_put _) =>
      apply (preserves_with_work (fun g => _work g ++ [_]))
  | |- preserves _ (emit (Watch _)) => now apply preserves_emit
  | |- preserves _ (renderer_calls _) => apply preserves_renderer_calls
  | |- preserves _ (renderer_create_element _) =>
      apply preserves_renderer_create_element
  | |- preserves _ (when ?b _) => destruct b; unfold when
  | |- preserves _ (and_then ?a _) => destruct a; unfold and_then
  | |- preserves _ (or_Fiber ?a) => destruct a; unfold or_Fiber
  | |- preserves _ (update_dom_call _ ?p ?n) =>
      destruct p, n; unfold update_dom_call
  | |- preserves _ (match ?x with _ => _ end) => destruct x
  | H : forall _, preserves _ _ |- preserves _ _ => apply H
  | H : forall _ _, preserves _ _ |- preserves _ _ => apply H
  | H : forall _ _ _, preserves _ _ |- preserves _ _ => apply H
  end.

Lemma preserves_reconcile_loop fuel wip_fiber elements :
  forall index old_fiber prev_sibling,
    preserves inner_frame
      (reconcile_loop fuel wip_fiber elements index old_fiber prev_sibling).
Proof.
  induction fuel as [|fuel IH]; intros index old prev; simpl.
  - apply preserves_out_of_fuel.
  - repeat preserves_step.
Qed.

Lemma preserves_reconcile_children fuel wip_fiber elements :
  preserves inner_frame (reconcile_children fuel wip_fiber elements).
Proof.
  unfold reconcile_children.
  repeat first [apply preserves_reconcile_loop | preserves_step].
Qed.

Lemma preserves_next_sibling_up fuel :
  forall o, preserves inner_frame (next_sibling_up fuel o).
Proof.
  induction fuel as [|fuel IH]; intros o; simpl; repeat preserves_step.
Qed.

Lemma preserves_perform_unit_of_work component fuel fiber :
  preserves inner_frame (perform_unit_of_work component fuel fiber).
Proof.
  unfold perform_unit_of_work, update_function_component,
    update_host_component, create_dom.
  repeat first [apply preserves_reconcile_children
               |apply preserves_next_sibling_up
               |preserves_step].
Qed.

Lemma preserves_commit_deletion fuel :
  forall fiber dom_parent,
    preserves inner_frame (commit_deletion fuel fiber dom_parent).
Proof.
  induction fuel as [|fuel IH]; intros fiber dom_parent; simpl;
    repeat preserves_step.
Qed.

Lemma preserves_find_dom_parent fuel :
  forall o, preserves inner_frame (find_dom_parent fuel o).
Proof.
  induction fuel as [|fuel IH]; intros o; simpl; repeat preserves_step.
Qed.

Lemma preserves_commit_work fuel fiber :
  preserves inner_frame (commit_work fuel fiber).
Proof.
  unfold commit_work.
  repeat first [apply preserves_commit_deletion
               |apply preserves_find_dom_parent
               |preserves_step].
Qed.

Lemma preserves_commit_queue fuel :
  preserves inner_frame (commit_queue fuel).
Proof.
  induction fuel as [|fuel IH]; simpl.
  - apply preserves_out_of_fuel.
  - repeat first [exact IH
                 |apply preserves_commit_work
                 |apply (preserves_with_work (fun _ => _))
                 |preserves_step].
Qed.

(** ** The work loop in a mode that is true *)

Lemma pass_frame_refl g : pass_frame g g.
Proof.
  constructor; try reflexivity. exists []. now rewrite app_nil_r.
Qed.

Lemma pass_frame_trans g1 g2 g3 :
  pass_frame g1 g2 -> pass_frame g2 g3 -> pass_frame g1 g3.
Proof.
  intros [] []. constructor; try congruence; try lia.
  destruct pf_effects0 as (es1 & He1 & Hf1).
  destruct pf_effects1 as (es2 & He2 & Hf2).
  exists (es1 ++ es2). rewrite He2, He1, app_assoc. split; [reflexivity|].
  rewrite forallb_app, Hf1, Hf2. reflexivity.
Qed.

Lemma inner_pass_frame g g' : inner_frame g g' -> pass_frame g g'.
Proof. intros []. constructor; assumption. Qed.

Section TrueMode.
Variable component : nat -> nat -> Dict -> VNode.
Variable mode_truth : EventLoopType -> bool.

(** In a mode that is true, [should_yield] is false at every checkpoint,
    whatever the deadline and the time. *)
Lemma compute_should_yield_true_mode deadline now g :
  mode_truth (event_loop_type g) = true ->
  compute_should_yield mode_truth deadline now g = Ok false g.
Proof.
  intros Hm. unfold compute_should_yield, bind, gets. now rewrite Hm.
Qed.

(** The loop then stops only when no unit of work is left. *)
Lemma work_loop_while_exhausts perf_counter_ns fuel deadline g g' :
  mode_truth (event_loop_type g) = true ->
  work_loop_while component mode_truth perf_counter_ns fuel deadline false g
  = Ok tt g' ->
  _next_unit_of_work g' = None /\
  _wip_root g' = _wip_root g /\
  _current_root g' = _current_root g /\
  pass_frame g g'.
Proof.
  revert g. induction fuel as [|fuel IH]; intros g Hm H; [discriminate|].
  simpl in H. unfold bind at 1, gets at 1 in H.
  destruct (_next_unit_of_work g) as [u|] eqn:Hnext.
  - simpl in H.
    apply bind_Ok in H as (next' & g1 & H1 & H).
    apply preserves_perform_unit_of_work in H1 as Hfr.
    apply bind_Ok in H as ([] & g2 & H2 & H). injection H2 as <-.
    apply bind_Ok in H as (now & g3 & H3 & H). injection H3 as <- <-.
    apply bind_Ok in H as (sy & g4 & H4 & H).
    rewrite compute_should_yield_true_mode in H4
      by (simpl; now rewrite (fr_mode _ _ Hfr)).
    injection H4 as <- <-.
    apply IH in H as (Hn & Hw & Hc & Hpf);
      [|simpl; now rewrite (fr_mode _ _ Hfr)].
    simpl in Hw, Hc. rewrite Hw, Hc, (fr_wip _ _ Hfr), (fr_current _ _ Hfr).
    split; [exact Hn|]. split; [reflexivity|]. split; [reflexivity|].
    eapply pass_frame_trans; [apply inner_pass_frame, Hfr|].
    eapply pass_frame_trans; [|exact Hpf].
    constructor; try reflexivity. exists []. now rewrite app_nil_r.
  - injection H as <-.
    split; [exact Hnext|]. split; [reflexivity|]. split; [reflexivity|].
    apply pass_frame_refl.
Qed.

Lemma work_loop_while_step perf_counter_ns fuel deadline g :
  work_loop_while component mode_truth perf_counter_ns (S fuel) deadline
    false g
  = match _next_unit_of_work g with
    | None => Ok tt g
    | Some u =>
        match perform_unit_of_work component fuel u g with
        | Ok next' g1 =>
            match compute_should_yield mode_truth deadline
                    (perf_counter_ns (ticks g1))
                    (with_ticks (S (ticks g1))
                       (with_next_unit_of_work next' g1)) with
            | Ok should_yield g2 =>
                work_loop_while component mode_truth perf_counter_ns fuel
                  deadline should_yield g2
            | Raise e => Raise e
            | OutOfFuel => OutOfFuel
            end
        | Raise e => Raise e
        | OutOfFuel => OutOfFuel
        end
    end.
Proof.
  simpl. unfold bind at 1, gets at 1.
  destruct (_next_unit_of_work g) as [u|]; [|reflexivity]. simpl.
  unfold bind at 1.
  destruct (perform_unit_of_work component fuel u g); reflexivity.
Qed.

(** The loop does not depend on the clock or on the deadline. *)
Lemma work_loop_while_any_clock clock1 clock2 deadline1 deadline2 fuel g :
  mode_truth (event_loop_type g) = true ->
  work_loop_while component mode_truth clock1 fuel deadline1 false g
  = work_loop_while component mode_truth clock2 fuel deadline2 false g.
Proof.
  revert g. induction fuel as [|fuel IH]; intros g Hm; [reflexivity|].
  rewrite !work_loop_while_step.
  destruct (_next_unit_of_work g) as [u|]; [|reflexivity].
  destruct (perform_unit_of_work component fuel u g) as [next' g1| |] eqn:H1;
    [|reflexivity|reflexivity].
  apply preserves_perform_unit_of_work in H1 as Hfr.
  rewrite !compute_should_yield_true_mode
    by (simpl; now rewrite (fr_mode _ _ Hfr)).
  apply IH. simpl. now rewrite (fr_mode _ _ Hfr).
Qed.
End TrueMode.

Lemma commit_root_frame fuel g g' :
  commit_root fuel g = Ok tt g' ->
  _wip_root g' = None /\
  _current_root g' = _wip_root g /\
  _next_unit_of_work g' = _next_unit_of_work g /\
  pass_frame g g'.
Proof.
  unfold commit_root. unfold bind at 1, gets at 1.
  destruct (_deletions g) as [ds|]; [|discriminate].
  intros H.
  apply bind_Ok in H as ([] & g1 & H1 & H). injection H1 as <-.
  apply bind_Ok in H as ([] & g2 & H2 & H). injection H2 as <-.
  apply bind_Ok in H as (wip & g3 & H3 & H). injection H3 as <- <-.
  apply bind_Ok in H as (c & g4 & H4 & H).
  apply attr_Ok in H4 as (r & f & Hwip & Hf & -> & ->).
  apply bind_Ok in H as ([] & g5 & H5 & H). injection H5 as <-.
  apply bind_Ok in H as ([] & g6 & H6 & H).
  apply preserves_commit_queue in H6 as Hfr.
  apply bind_Ok in H as (wip' & g7 & H7 & H). injection H7 as <- <-.
  apply bind_Ok in H as ([] & g8 & H8 & H). injection H8 as <-.
  injection H as <-. simpl.
  destruct Hfr. simpl in *.
  split; [reflexivity|]. split; [congruence|]. split; [congruence|].
  constructor; simpl; try congruence.
Qed.

Section TrueModeWorkLoop.
Variable component : nat -> nat -> Dict -> VNode.
Variable mode_truth : EventLoopType -> bool.

(** After the [while] loop of [work_loop] has left no unit of work:
    the commit and the callback. *)
Lemma work_loop_tail perf_counter_ns fuel g1 :
  _next_unit_of_work g1 = None ->
  (let* next := gets _next_unit_of_work in
   let* wip := gets _wip_root in
   let* _ :=
     when (negb (is_some next) && is_some wip) (commit_root fuel) in
   let* next := gets _next_unit_of_work in
   match next with
   | Some _ =>
       request_idle_work_with perf_counter_ns
         (work_loop component mode_truth perf_counter_ns fuel) None
   | None =>
       let* callback := gets _render_callback in
       match callback with
       | Some cb => emit (RenderCallback cb)
       | None => ret tt
       end
   end) g1
  = match (match _wip_root g1 with
           | Some _ => commit_root fuel g1
           | None => Ok tt g1
           end) with
    | Ok _ g2 =>
        Ok tt (with_effects
                 (effects g2 ++ callback_effect (_render_callback g2)) g2)
    | Raise e => Raise e
    | OutOfFuel => OutOfFuel
    end.
Proof.
  intros Hnext. unfold bind at 1, gets at 1. rewrite Hnext.
  unfold bind at 1, gets at 1. simpl.
  assert (Hfin : forall g2, _next_unit_of_work g2 = None ->
    (let* next := gets _next_unit_of_work in
     match next with
     | Some _ =>
         request_idle_work_with perf_counter_ns
           (work_loop component mode_truth perf_counter_ns fuel) None
     | None =>
         let* callback := gets _render_callback in
         match callback with
         | Some cb => emit (RenderCallback cb)
         | None => ret tt
         end
     end) g2
    = Ok tt (with_effects
               (effects g2 ++ callback_effect (_render_callback g2)) g2)).
  { intros g2 Hn. unfold bind at 1, gets at 1. rewrite Hn.
    unfold bind, gets. destruct g2 as [? ? ? ? ? [cb|] ? ? ? ? ? ? ? ?];
      simpl; unfold ret; simpl; rewrite ?app_nil_r; reflexivity. }
  destruct (_wip_root g1) as [w|]; simpl.
  - unfold bind at 1.
    destruct (commit_root fuel g1) as [[] g2| |] eqn:Hc; try reflexivity.
    apply commit_root_frame in Hc as (_ & _ & Hn & _).
    apply Hfin. congruence.
  - unfold bind at 1, ret at 1. now apply Hfin.
Qed.

(** In a mode that is true, [work_loop] runs every unit of work, commits
    and calls the callback, in the one invocation. *)
Lemma work_loop_true_mode perf_counter_ns fuel deadline g g' :
  mode_truth (event_loop_type g) = true ->
  work_loop component mode_truth perf_counter_ns fuel deadline g = Ok tt g' ->
  _next_unit_of_work g' = None /\
  (forall w, _wip_root g = Some w ->
             _wip_root g' = None /\ _current_root g' = Some w) /\
  event_loop_type g' = event_loop_type g /\
  _request g' = _request g /\
  _qt_connections g' = _qt_connections g /\
  exists es,
    effects g' = effects g ++ es ++ callback_effect (_render_callback g) /\
    forallb is_inner_effect es = true.
Proof.
  intros Hm H. destruct fuel as [|fuel]; [discriminate|]. simpl in H.
  apply bind_Ok in H as ([] & g1 & H1 & H).
  apply work_loop_while_exhausts in H1 as (Hn1 & Hw1 & Hc1 & Hpf1);
    [|exact Hm].
  rewrite work_loop_tail in H by exact Hn1.
  destruct (_wip_root g1) as [w|] eqn:Hw.
  - destruct (commit_root fuel g1) as [[] g2| |] eqn:Hc; try discriminate.
    injection H as <-. simpl.
    apply commit_root_frame in Hc as (Hw2 & Hc2 & Hn2 & Hpf2).
    pose proof (pass_frame_trans _ _ _ Hpf1 Hpf2) as [].
    split; [congruence|]. split.
    { intros w' Hw'. split; [exact Hw2|]. congruence. }
    split; [congruence|]. split; [congruence|]. split; [congruence|].
    destruct pf_effects0 as (es & -> & Hes). exists es.
    rewrite pf_callback0, app_assoc. auto.
  - injection H as <-. simpl. destruct Hpf1.
    split; [exact Hn1|]. split.
    { intros w' Hw'. congruence. }
    split; [congruence|]. split; [congruence|]. split; [congruence|].
    destruct pf_effects0 as (es & -> & Hes). exists es.
    rewrite pf_callback0, app_assoc. auto.
Qed.

Lemma work_loop_any_clock clock1 clock2 deadline1 deadline2 fuel g :
  mode_truth (event_loop_type g) = true ->
  work_loop component mode_truth clock1 fuel deadline1 g
  = work_loop component mode_truth clock2 fuel deadline2 g.
Proof.
  intros Hm. destruct fuel as [|fuel]; [reflexivity|]. simpl.
  set (tail1 := bind (gets _next_unit_of_work) _).
  set (tail2 := bind (gets _next_unit_of_work) _).
  unfold bind.
  rewrite (work_loop_while_any_clock _ _ clock1 clock2 deadline1 deadline2)
    by exact Hm.
  destruct (work_loop_while component mode_truth clock2 fuel deadline2 false g)
    as [[] g1| |] eqn:H1; try reflexivity.
  apply work_loop_while_exhausts in H1 as (Hn1 & _); [|exact Hm].
  subst tail1 tail2. now rewrite !work_loop_tail by exact Hn1.
Qed.
End TrueModeWorkLoop.

(** ** The units as the loop runs them *)

Lemma unit_steps_work_loop_while component mode_truth g g' :
  unit_steps component g g' ->
  mode_truth (event_loop_type g) = true ->
  _next_unit_of_work g' = None ->
  exists fuel0, forall fuel clock deadline,
    fuel0 <= fuel ->
    work_loop_while component mode_truth clock fuel deadline false g
    = Ok tt g'.
Proof.
  induction 1 as [g|g g1 g' (u & fuel_u & next & g0 & Hu & Hrun & ->) _ IH];
    intros Hmode Hnone.
  - exists 1. intros [|fuel] clock deadline Hle; [lia|].
    rewrite work_loop_while_step, Hnone. reflexivity.
  - pose proof (preserves_perform_unit_of_work _ _ _ _ _ _ Hrun) as Hfr.
    assert (Hmode0 : mode_truth (event_loop_type g0) = true).
    { destruct Hfr as [-> _ _ _ _ _ _ _ _ _ _]. exact Hmode. }
    destruct (IH Hmode0 Hnone) as [fuel1 Hloop].
    exists (S (Nat.max fuel_u fuel1)).
    intros [|fuel] clock deadline Hle; [lia|].
    rewrite work_loop_while_step, Hu.
    rewrite (perform_unit_of_work_fuel component fuel_u fuel u ltac:(lia)
               _ _ _ Hrun).
    rewrite compute_should_yield_true_mode by exact Hmode0.
    apply Hloop. lia.
Qed.

Lemma work_loop_while_unit_steps component mode_truth clock fuel deadline
    g g' :
  mode_truth (event_loop_type g) = true ->
  work_loop_while component mode_truth clock fuel deadline false g
  = Ok tt g' ->
  unit_steps component g g' /\ _next_unit_of_work g' = None.
Proof.
  revert g. induction fuel as [|fuel IH]; intros g Hm H; [discriminate|].
  rewrite work_loop_while_step in H.
  destruct (_next_unit_of_work g) as [u|] eqn:Hu.
  - destruct (perform_unit_of_work component fuel u g) as [next g1| |]
      eqn:Hrun; try discriminate.
    pose proof (preserves_perform_unit_of_work _ _ _ _ _ _ Hrun) as Hfr.
    assert (Hm1 : mode_truth (event_loop_type g1) = true).
    { destruct Hfr as [-> _ _ _ _ _ _ _ _ _ _]. exact Hm. }
    rewrite compute_should_yield_true_mode in H by exact Hm1.
    apply IH in H as [Hsteps Hnone]; [|exact Hm1].
    split; [|exact Hnone]. eapply steps_step; [|exact Hsteps].
    exists u, fuel, next, g1. auto.
  - injection H as <-. split; [constructor|exact Hu].
Qed.

Lemma unit_steps_frame component g g' :
  unit_steps component g g' ->
  _wip_root g' = _wip_root g /\
  event_loop_type g' = event_loop_type g /\
  _render_callback g' = _render_callback g.
Proof.
  induction 1 as [g|g g1 g' (u & fuel & next & g0 & Hu & Hrun & ->) _ IH];
    [auto|].
  apply preserves_perform_unit_of_work in Hrun as [].
  simpl in IH. destruct IH as (-> & -> & ->). auto.
Qed.

(** ** More fuel for the commit and the loops *)

Lemma commit_deletion_fuel fuel fuel' :
  fuel <= fuel' ->
  forall fiber dom_parent,
    le_M (commit_deletion fuel fiber dom_parent)
         (commit_deletion fuel' fiber dom_parent).
Proof.
  revert fuel'. induction fuel as [|fuel IH]; intros fuel' Hle fiber dp.
  - apply le_M_out_of_fuel.
  - destruct fuel' as [|fuel']; [lia|]. simpl.
    apply le_M_bind; [apply le_M_refl|intros d].
    apply le_M_bind; [|intros; apply le_M_refl].
    destruct d; [apply le_M_refl|].
    apply le_M_bind; [apply le_M_refl|intros c]. apply IH. lia.
Qed.

Lemma find_dom_parent_fuel fuel fuel' :
  fuel <= fuel' ->
  forall o, le_M (find_dom_parent fuel o) (find_dom_parent fuel' o).
Proof.
  revert fuel'. induction fuel as [|fuel IH]; intros fuel' Hle o.
  - apply le_M_out_of_fuel.
  - destruct fuel' as [|fuel']; [lia|]. simpl.
    apply le_M_bind; [apply le_M_refl|intros d].
    destruct d; [apply le_M_refl|].
    apply le_M_bind; [apply le_M_refl|intros q]. apply IH. lia.
Qed.

Lemma commit_work_fuel fuel fuel' fiber :
  fuel <= fuel' -> le_M (commit_work fuel fiber) (commit_work fuel' fiber).
Proof.
  intros Hle. unfold commit_work. destruct fiber; [|apply le_M_refl].
  apply le_M_bind; [apply le_M_refl|intros q].
  apply le_M_bind; [now apply find_dom_parent_fuel|intros d].
  apply le_M_bind; [apply le_M_refl|intros f].
  apply le_M_bind; [|intros; apply le_M_refl].
  destruct (effect_tag f) as [[| |]|]; destruct (dom f);
    try apply le_M_refl; now apply commit_deletion_fuel.
Qed.

Lemma commit_queue_fuel fuel fuel' :
  fuel <= fuel' -> le_M (commit_queue fuel) (commit_queue fuel').
Proof.
  revert fuel'. induction fuel as [|fuel IH]; intros fuel' Hle.
  - apply le_M_out_of_fuel.
  - destruct fuel' as [|fuel']; [lia|]. simpl.
    apply le_M_bind; [apply le_M_refl|intros q].
    destruct q as [|work rest]; [apply le_M_refl|].
    apply le_M_bind; [apply le_M_refl|intros _].
    apply le_M_bind; [apply commit_work_fuel; lia|intros _].
    apply IH. lia.
Qed.

Lemma commit_root_fuel fuel fuel' :
  fuel <= fuel' -> le_M (commit_root fuel) (commit_root fuel').
Proof.
  intros Hle. unfold commit_root.
  apply le_M_bind; [apply le_M_refl|intros ds].
  destruct ds; [|apply le_M_refl].
  do 5 (apply le_M_bind; [apply le_M_refl|intros ?]).
  apply le_M_bind; [now apply commit_queue_fuel|intros _].
  apply le_M_refl.
Qed.

(** ** C7: synchronous mode *)

Lemma render_sync_work_loop component mode_truth perf_counter_ns fuel element
    container callback g :
  event_loop_type g = SYNC ->
  render component mode_truth perf_counter_ns fuel element container callback g
  = work_loop component mode_truth perf_counter_ns fuel None
      (with_ticks (S (ticks g))
         (with_render_callback callback
            (with_next_unit_of_work (Some (length (heap g)))
               (with_deletions (Some [])
                  (with_wip_root (Some (length (heap g)))
                     (with_heap
                        (heap g
                         ++ [mkFiber None (Some []) None (Some [element])
                               (Some container) None None None
                               (_current_root g) None None]) g)))))).
Proof.
  intros Hm. unfold render, request_idle_work, request_idle_work_with.
  unfold bind, gets, alloc, modify, read_clock. simpl. rewrite Hm. reflexivity.
Qed.

(** X26.  In synchronous mode [render] runs the whole pass in its own
    call, whatever the clock, and there is no deadline to reach.
    (1) It returns, for every large enough fuel, as soon as the units of
    work of the pass are finitely many and the commit returns: the state
    it leaves is that of the commit followed by the call of the callback.
    (2) When it returns, the units of work have been performed until none
    was left, the work-in-progress root it made has been committed and is
    the current root, nothing was requested of the host loop, and the
    last thing it did was to call the callback. *)
Theorem render_sync_completes component mode_truth perf_counter_ns
    element container callback g :
  event_loop_type g = SYNC ->
  mode_truth SYNC = true ->
  (forall g2 g3 fuel_c,
      unit_steps component (render_entered element container callback g) g2 ->
      _next_unit_of_work g2 = None ->
      commit_root fuel_c g2 = Ok tt g3 ->
      exists fuel0,
        forall fuel clock,
          fuel0 <= fuel ->
          render component mode_truth clock fuel element container callback g
          = Ok tt (with_effects (effects g3 ++ callback_effect callback) g3))
  /\
  (forall fuel g',
      render component mode_truth perf_counter_ns fuel element container
        callback g = Ok tt g' ->
      (exists g2 g3,
          unit_steps component (render_entered element container callback g)
            g2 /\
          _next_unit_of_work g2 = None /\
          commit_root (Nat.pred fuel) g2 = Ok tt g3 /\
          g' = with_effects (effects g3 ++ callback_effect callback) g3) /\
      _next_unit_of_work g' = None /\
      _wip_root g' = None /\
      _current_root g' = Some (length (heap g)) /\
      _request g' = _request g /\
      _qt_connections g' = _qt_connections g /\
      (exists es,
          effects g' = effects g ++ es ++ callback_effect callback /\
          forallb is_inner_effect es = true) /\
      (forall clock,
          render component mode_truth clock fuel element container callback g
          = Ok tt g')).
Proof.
  intros Hm Ht.
  assert (Hen : mode_truth
                  (event_loop_type
                     (render_entered element container callback g)) = true).
  { simpl. now rewrite Hm. }
  split.
  - intros g2 g3 fuel_c Hsteps Hnone Hcommit.
    destruct (unit_steps_work_loop_while component mode_truth _ g2 Hsteps Hen
                Hnone) as [fuel1 Hwhile].
    destruct (unit_steps_frame _ _ _ Hsteps) as (Hwip & _ & Hcb).
    apply commit_root_frame in Hcommit as Hfr.
    destruct Hfr as (_ & _ & _ & [_ Hcb3 _ _ _ _ _]).
    unfold render_entered in *. simpl in Hwip, Hcb.
    exists (S (Nat.max fuel1 fuel_c)). intros [|fuel] clock Hle; [lia|].
    rewrite render_sync_work_loop by exact Hm. simpl.
    rewrite (bind_eq _ _ _ _ _ (Hwhile fuel clock None ltac:(lia))).
    rewrite work_loop_tail by exact Hnone.
    rewrite Hwip.
    rewrite (commit_root_fuel fuel_c fuel ltac:(lia) _ _ _ Hcommit).
    now rewrite Hcb3, Hcb.
  - intros fuel g' H.
    assert (Hclock : forall clock,
        render component mode_truth clock fuel element container callback g
        = Ok tt g').
    { intros clock. rewrite <- H, !render_sync_work_loop by exact Hm.
      apply work_loop_any_clock. simpl. now rewrite Hm. }
    rewrite render_sync_work_loop in H by exact Hm.
    split.
    { destruct fuel as [|fuel]; [discriminate|]. simpl in H.
      apply bind_Ok in H as ([] & g2 & Hwhile & H).
      apply work_loop_while_unit_steps in Hwhile as [Hsteps Hnone];
        [|exact Hen].
      destruct (unit_steps_frame _ _ _ Hsteps) as (Hwip & _ & Hcb).
      simpl in Hwip, Hcb.
      rewrite work_loop_tail in H by exact Hnone. rewrite Hwip in H.
      destruct (commit_root fuel g2) as [[] g3| |] eqn:Hcommit;
        try discriminate.
      injection H as <-.
      apply commit_root_frame in Hcommit as Hfr.
      destruct Hfr as (_ & _ & _ & [_ Hcb3 _ _ _ _ _]).
      exists g2, g3. split; [exact Hsteps|]. split; [exact Hnone|].
      split; [exact Hcommit|]. now rewrite Hcb3, Hcb. }
    apply work_loop_true_mode in H; [|simpl; now rewrite Hm].
    destruct H as (Hn & Hw & _ & Hr & Hq & es & He & Hes).
    destruct (Hw _ eq_refl) as [Hw1 Hw2]. simpl in *.
    repeat (split; [assumption|]). split; [|exact Hclock]. eauto.
Qed.

Lemma render_sync_completes_witness :
  exists g',
    render no_components enum_truth (fun _ => 0%Z) 20 box_descriptor
      box_container (Some 7) (PyGui_init SYNC 0) = Ok tt g' /\
    _next_unit_of_work g' = None /\
    _wip_root g' = None /\
    exists es,
      effects g' = [] ++ es ++ [RenderCallback 7] /\
      forallb is_inner_effect es = true.
Proof.
  eexists. split; [vm_compute; reflexivity|].
  destruct (render_sync_completes no_components enum_truth (fun _ => 0%Z)
              box_descriptor box_container (Some 7) (PyGui_init SYNC 0)
              eq_refl eq_refl) as [_ Hret].
  destruct (Hret 20 _ ltac:(vm_compute; reflexivity))
    as (_ & Hn & Hw & _ & _ & _ & He & _).
  exact (conj Hn (conj Hw He)).
Defined.

(** C7: the code at the failing input.  In synchronous mode, after
    [render] has committed the box with [a] and [b], [render] is called
    with the box without children and a callback.  The units of work are
    performed until none is left, and the commit raises: [commit_work]
    enqueues the sibling of a deleted fiber, so [b], which is in the
    deletions and is the sibling of [a], is committed twice, the second
    time without a backend node and without a child.  [render] does not
    return and the callback is not called. *)
Theorem render_sync_raises_in_commit :
  render no_components enum_truth (fun _ => 0%Z) 20 box_descriptor
    box_container None (PyGui_init SYNC 0) = Ok tt box_committed /\
  render no_components enum_truth (fun _ => 0%Z) 20
    (create_element (Host "box") None []) box_container (Some 7)
    box_committed = Raise NoneError /\
  exists g2,
    work_loop_while no_components enum_truth (fun _ => 0%Z) 20 None false
      (render_entered (create_element (Host "box") None []) box_container
         (Some 7) box_committed) = Ok tt g2 /\
    _next_unit_of_work g2 = None /\
    _deletions g2 = Some [2; 3] /\
    effects g2 = effects box_committed /\
    commit_root 20 g2 = Raise NoneError.
Proof.
  split; [vm_compute; reflexivity|]. split; [vm_compute; reflexivity|].
  eexists. split; [vm_compute; reflexivity|].
  repeat split; vm_compute; reflexivity.
Qed.

(** ** C8: the deadline *)

(** In a mode that is true, a call of [work_loop] that returns has left
    no unit of work and has requested nothing of the host loop, whatever
    the deadline and the clock. *)
Lemma work_loop_never_yields component mode_truth perf_counter_ns fuel
    deadline g g' :
  mode_truth (event_loop_type g) = true ->
  work_loop component mode_truth perf_counter_ns fuel deadline g = Ok tt g' ->
  _next_unit_of_work g' = None /\
  forall e, In e (effects g') -> is_host_request e = true -> In e (effects g).
Proof.
  intros Hm H. apply work_loop_true_mode in H; [|exact Hm].
  destruct H as (Hn & _ & _ & _ & _ & es & He & Hes).
  split; [exact Hn|]. intros e Hin Hreq. rewrite He in Hin.
  rewrite !in_app_iff in Hin. destruct Hin as [Hin|[Hin|Hin]]; [exact Hin| |].
  - rewrite forallb_forall in Hes. apply Hes in Hin.
    destruct e; discriminate.
  - destruct (_render_callback g); simpl in Hin; [|contradiction].
    destruct Hin as [<-|[]]. discriminate.
Qed.

(** C8, on the code.  The default (asyncio) engine with the members of
    [EventLoopType] true, as those of an [Enum] are.  [render] at time 0
    asks the host loop for [work_loop] with the deadline 16 ms.  The host
    loop calls it when the clock is already at 20 ms: at the checkpoint
    after the first unit the deadline has passed, and still
    [should_yield] is false, the three other units are started in the
    same invocation, the tree is committed, and the host loop is not
    asked to resume anything. *)
Theorem work_loop_runs_past_deadline :
  exists g1 g2,
    render no_components enum_truth (fun _ => 0%Z) 20 box_descriptor
      box_container None (PyGui_init DEFAULT 0) = Ok tt g1 /\
    effects g1 = [CallSoon 16000000] /\
    _next_unit_of_work g1 = Some 0 /\
    (16000000 - 20000000 <? 1 * 1000000)%Z = true /\
    compute_should_yield enum_truth (Some 16000000%Z) 20000000%Z g1
    = Ok false g1 /\
    work_loop no_components enum_truth (fun _ => 20000000%Z) 20
      (Some 16000000%Z) g1 = Ok tt g2 /\
    ticks g2 = 4 + ticks g1 /\
    _next_unit_of_work g2 = None /\
    _current_root g2 = Some 0 /\
    effects g2
    = [CallSoon 16000000;
       Backend (Renderer.create_element (Some (Host "box")) 0);
       Backend (Renderer.create_element (Some (Host "a")) 1);
       Backend (Renderer.create_element (Some (Host "b")) 2);
       Backend (Renderer.insert 0 box_container);
       Backend (Renderer.insert 1 0);
       Backend (Renderer.insert 2 0)].
Proof.
  do 2 eexists.
  split; [vm_compute; reflexivity|].
  split; [reflexivity|].
  split; [reflexivity|].
  split; [reflexivity|].
  split; [reflexivity|].
  split; [vm_compute; reflexivity|].
  repeat split; reflexivity.
Qed.

(** ** C9: the render trigger *)

Lemma bind_gets {A B} (proj : PyGui -> A) (k : A -> M B) g :
  bind (gets proj) k g = k (proj g) g.
Proof. reflexivity. Qed.

Lemma bind_modify {B} (upd : PyGui -> PyGui) (k : unit -> M B) g :
  bind (modify upd) k g = k tt (upd g).
Proof. reflexivity. Qed.

Lemma bind_ret {A B} (a : A) (k : A -> M B) g :
  bind (ret a) k g = k a g.
Proof. reflexivity. Qed.

Lemma bind_alloc {B} f (k : ref -> M B) g :
  bind (alloc f) k g = k (length (heap g)) (with_heap (heap g ++ [f]) g).
Proof. reflexivity. Qed.

Lemma lookup_insert_fiber (h : list Fiber) r x r' :
  r < length h ->
  <[r := x]> h !! r' = if decide (r = r') then Some x else h !! r'.
Proof.
  intros Hlt. destruct (decide (r = r')) as [<-|Hne].
  - now apply list_lookup_insert_eq.
  - now apply list_lookup_insert_ne.
Qed.

Lemma lookup_alloc_fiber (h : list Fiber) x r :
  (h ++ [x]) !! r
  = if decide (r = length h) then Some x else h !! r.
Proof.
  destruct (decide (r = length h)) as [->|Hne].
  - rewrite lookup_app_r by lia. now rewrite Nat.sub_diag.
  - destruct (decide (r < length h)).
    + now rewrite lookup_app_l.
    + rewrite !lookup_ge_None_2; [reflexivity|lia|].
      rewrite length_app. simpl. lia.
Qed.

(** The attributes of the current root that [state_updated] copies do
    not change while it copies them, even when the work-in-progress root
    or the notified fiber is the current root itself. *)
Lemma copied_fields_insert (h : list Fiber) current fc r f upd :
  (exists f1, h !! current = Some f1 /\ dom f1 = dom fc /\
              props f1 = props fc /\ children f1 = children fc) ->
  h !! r = Some f ->
  (forall x, dom x = dom fc -> dom (upd x) = dom fc) ->
  (forall x, props x = props fc -> props (upd x) = props fc) ->
  (forall x, children x = children fc -> children (upd x) = children fc) ->
  exists f1, <[r := upd f]> h !! current = Some f1 /\ dom f1 = dom fc /\
             props f1 = props fc /\ children f1 = children fc.
Proof.
  intros (f1 & Hf1 & Hd & Hp & Hc) Hr Hud Hup Huc.
  rewrite lookup_insert_fiber by (eapply lookup_lt_Some; eauto).
  destruct (decide (r = current)) as [->|Hne].
  - assert (f = f1) as -> by congruence.
    exists (upd f1). auto.
  - exists f1. auto.
Qed.

Lemma cleared_watcher_insert (h : list Fiber) fiber r f upd :
  (exists f1, h !! fiber = Some f1 /\ watcher f1 = None) ->
  h !! r = Some f ->
  (forall x, watcher x = None -> watcher (upd x) = None) ->
  exists f1, <[r := upd f]> h !! fiber = Some f1 /\ watcher f1 = None.
Proof.
  intros (f1 & Hf1 & Hw) Hr Hu.
  rewrite lookup_insert_fiber by (eapply lookup_lt_Some; eauto).
  destruct (decide (r = fiber)) as [->|Hne].
  - assert (f = f1) as -> by congruence.
    exists (upd f1). auto.
  - exists f1. auto.
Qed.

Lemma state_updated_prepare_Ok fiber g g1 current fc :
  _current_root g = Some current ->
  heap g !! current = Some fc ->
  state_updated_prepare fiber g = Ok tt g1 ->
  exists wip fw,
    _wip_root g1 = Some wip /\
    heap g1 !! wip = Some fw /\
    dom fw = dom fc /\ props fw = props fc /\ children fw = children fc /\
    alternate fw = Some current /\
    (exists fc1, heap g1 !! current = Some fc1 /\ dom fc1 = dom fc /\
                 props fc1 = props fc /\ children fc1 = children fc) /\
    (exists ff1, heap g1 !! fiber = Some ff1 /\ watcher ff1 = None) /\
    _deletions g1 = Some [] /\
    _next_unit_of_work g1 = Some wip /\
    _current_root g1 = Some current /\
    event_loop_type g1 = event_loop_type g /\
    effects g1 = effects g /\
    _request g1 = _request g.
Proof.
  intros Hcur Hfc H. unfold state_updated_prepare in H.
  apply bind_Ok in H as ([] & g' & H1 & H).
  apply assign_Ok in H1 as (r & ff & [= <-] & Hff & ->).
  rewrite bind_gets in H. simpl in H. rewrite Hcur in H.
  apply bind_Ok in H as (alt & g' & H1 & H).
  unfold and_then in H1.
  apply attr_Ok in H1 as (r & fc0 & [= <-] & Hfc0 & -> & ->).
  simpl in Hfc0.
  set (h1 := <[fiber := set_watcher None ff]> (heap g)) in *.
  assert (Hinv1 : exists f1, h1 !! current = Some f1 /\ dom f1 = dom fc /\
                             props f1 = props fc /\ children f1 = children fc).
  { apply copied_fields_insert; eauto 6. }
  assert (Hw1 : exists f1, h1 !! fiber = Some f1 /\ watcher f1 = None).
  { subst h1. rewrite list_lookup_insert_eq
      by (eapply lookup_lt_Some; eauto). eauto. }
  apply bind_Ok in H as (wip & g' & H1 & H).
  assert (exists h2,
             g' = with_heap h2 (with_heap h1 g) /\
             (exists f1, h2 !! current = Some f1 /\ dom f1 = dom fc /\
                         props f1 = props fc /\ children f1 = children fc) /\
             (exists f1, h2 !! fiber = Some f1 /\ watcher f1 = None))
    as (h2 & -> & Hinv2 & Hw2).
  { destruct (alternate fc0) as [a|]; simpl in H1.
    - injection H1 as <- <-. exists h1. auto.
    - injection H1 as <- <-. simpl.
      exists (h1 ++ [Fiber_default]).
      split; [reflexivity|]. split.
      + destruct Hinv1 as (f1 & Hf1 & ?). exists f1.
        rewrite lookup_app_l by (eapply lookup_lt_Some; eauto). auto.
      + destruct Hw1 as (f1 & Hf1 & ?). exists f1.
        rewrite lookup_app_l by (eapply lookup_lt_Some; eauto). auto. }
  clear H1 Hinv1 Hw1.
  rewrite bind_modify in H.
  apply bind_Ok in H as (d & g' & H1 & H).
  apply attr_Ok in H1 as (r & f & [= <-] & Hf & -> & ->). simpl in Hf.
  apply bind_Ok in H as ([] & g' & H1 & H).
  apply assign_Ok in H1 as (r & fw1 & [= <-] & Hfw1 & ->). simpl in Hfw1.
  simpl in H.
  set (h3 := <[wip := set_dom (dom f) fw1]> h2) in *.
  assert (Hd : dom f = dom fc).
  { destruct Hinv2 as (f1 & Hf1 & ? & _). congruence. }
  assert (Hinv3 : exists f1, h3 !! current = Some f1 /\ dom f1 = dom fc /\
                             props f1 = props fc /\ children f1 = children fc).
  { apply copied_fields_insert; eauto. }
  assert (Hw3 : exists f1, h3 !! fiber = Some f1 /\ watcher f1 = None).
  { apply cleared_watcher_insert; eauto. }
  apply bind_Ok in H as (p & g' & H1 & H).
  apply attr_Ok in H1 as (r & f' & [= <-] & Hf' & -> & ->). simpl in Hf'.
  apply bind_Ok in H as ([] & g' & H1 & H).
  apply assign_Ok in H1 as (r & fw2 & [= <-] & Hfw2 & ->). simpl in Hfw2.
  simpl in H.
  set (h4 := <[wip := set_props (props f') fw2]> h3) in *.
  assert (Hp : props f' = props fc).
  { destruct Hinv3 as (f1 & Hf1 & _ & ? & _). congruence. }
  assert (Hinv4 : exists f1, h4 !! current = Some f1 /\ dom f1 = dom fc /\
                             props f1 = props fc /\ children f1 = children fc).
  { apply copied_fields_insert; eauto. }
  assert (Hw4 : exists f1, h4 !! fiber = Some f1 /\ watcher f1 = None).
  { apply cleared_watcher_insert; eauto. }
  apply bind_Ok in H as (c & g' & H1 & H).
  apply attr_Ok in H1 as (r & f'' & [= <-] & Hf'' & -> & ->). simpl in Hf''.
  apply bind_Ok in H as ([] & g' & H1 & H).
  apply assign_Ok in H1 as (r & fw3 & [= <-] & Hfw3 & ->). simpl in Hfw3.
  simpl in H.
  set (h5 := <[wip := set_children (children f'') fw3]> h4) in *.
  assert (Hc : children f'' = children fc).
  { destruct Hinv4 as (f1 & Hf1 & _ & _ & ?). congruence. }
  assert (Hinv5 : exists f1, h5 !! current = Some f1 /\ dom f1 = dom fc /\
                             props f1 = props fc /\ children f1 = children fc).
  { apply copied_fields_insert; eauto. }
  assert (Hw5 : exists f1, h5 !! fiber = Some f1 /\ watcher f1 = None).
  { apply cleared_watcher_insert; eauto. }
  apply bind_Ok in H as ([] & g' & H1 & H).
  apply assign_Ok in H1 as (r & fw4 & [= <-] & Hfw4 & ->). simpl in Hfw4.
  simpl in H. injection H as <-. simpl.
  assert (Hlt2 : wip < length h2) by (eapply lookup_lt_Some; eauto).
  assert (Hfw2' : fw2 = set_dom (dom f) fw1).
  { subst h3. rewrite list_lookup_insert_eq in Hfw2 by exact Hlt2.
    congruence. }
  assert (Hfw3' : fw3 = set_props (props f') fw2).
  { subst h4. rewrite list_lookup_insert_eq in Hfw3
      by (subst h3; now rewrite length_insert). congruence. }
  assert (Hfw4' : fw4 = set_children (children f'') fw3).
  { subst h5. rewrite list_lookup_insert_eq in Hfw4
      by (subst h4 h3; now rewrite !length_insert). congruence. }
  exists wip, (set_alternate (Some current) fw4).
  split; [reflexivity|]. split.
  { apply list_lookup_insert_eq. subst h5 h4 h3.
    now rewrite !length_insert. }
  subst fw4 fw3 fw2. simpl.
  split; [exact Hd|]. split; [exact Hp|]. split; [exact Hc|].
  split; [reflexivity|]. split.
  { apply copied_fields_insert; eauto. }
  split.
  { apply cleared_watcher_insert; eauto. }
  repeat split; try reflexivity. exact Hcur.
Qed.

Ltac heap_length :=
  simpl; repeat (rewrite length_insert || rewrite length_app); simpl; lia.

Ltac step_attr :=
  match goal with
  | |- context [bind (attr (Some ?r) ?p) ?k ?g] =>
      let f := fresh "f" in
      let Hf := fresh "Hf" in
      destruct (lookup_lt_is_Some_2 (heap g) r ltac:(heap_length)) as [f Hf];
      rewrite (bind_eq _ k g _ _ (attr_eq r p g f Hf))
  | |- context [bind (assign (Some ?r) ?u) ?k ?g] =>
      let f := fresh "f" in
      let Hf := fresh "Hf" in
      destruct (lookup_lt_is_Some_2 (heap g) r ltac:(heap_length)) as [f Hf];
      rewrite (bind_eq _ k g _ _ (assign_eq r u g f Hf))
  end.

Lemma state_updated_prepare_total fiber g current fc :
  _current_root g = Some current ->
  heap g !! current = Some fc ->
  is_Some (heap g !! fiber) ->
  (forall a, alternate fc = Some a -> a < length (heap g)) ->
  exists g1, state_updated_prepare fiber g = Ok tt g1.
Proof.
  intros Hcur Hfc [ff Hff] Halt.
  assert (Hc : current < length (heap g)) by (eapply lookup_lt_Some; eauto).
  assert (Hfl : fiber < length (heap g)) by (eapply lookup_lt_Some; eauto).
  unfold state_updated_prepare.
  step_attr. rewrite bind_gets. simpl _current_root. rewrite Hcur.
  unfold and_then.
  destruct (lookup_lt_is_Some_2
              (<[fiber := set_watcher None f]> (heap g)) current
              ltac:(heap_length)) as [fc1 Hfc1].
  erewrite bind_eq by (apply attr_eq; exact Hfc1).
  assert (Ha : alternate fc1 = alternate fc).
  { rewrite lookup_insert_fiber in Hfc1 by exact Hfl.
    case_decide as Heq.
    - injection Hfc1 as <-. subst fiber. simpl. congruence.
    - congruence. }
  rewrite Ha. destruct (alternate fc) as [a|] eqn:Halt'.
  - specialize (Halt a eq_refl). unfold or_Fiber. rewrite bind_ret.
    rewrite bind_modify. repeat step_attr. rewrite !bind_modify.
    eexists. reflexivity.
  - unfold or_Fiber. rewrite bind_alloc.
    rewrite bind_modify. repeat step_attr. rewrite !bind_modify.
    eexists. reflexivity.
Qed.

Lemma request_idle_work_async component mode_truth perf_counter_ns fuel g :
  event_loop_type g <> SYNC ->
  exists g',
    request_idle_work component mode_truth perf_counter_ns fuel None g
    = Ok tt g' /\
    heap g' = heap g /\
    _wip_root g' = _wip_root g /\
    _current_root g' = _current_root g /\
    _next_unit_of_work g' = _next_unit_of_work g /\
    _deletions g' = _deletions g /\
    exists e, effects g' = effects g ++ [e] /\ is_host_request e = true.
Proof.
  intros Hm. unfold request_idle_work, request_idle_work_with, call_request.
  unfold bind, gets, modify, read_clock, emit, when. simpl.
  destruct g as [mode ? ? ? ? ? [|] [|] ? ? ? ? ? ?]; simpl in *;
    destruct mode; try congruence; simpl;
    eexists; (split; [reflexivity|]); simpl; repeat split; eauto.
Qed.

Lemma request_idle_work_sync component mode_truth perf_counter_ns fuel g :
  event_loop_type g = SYNC ->
  request_idle_work component mode_truth perf_counter_ns fuel None g
  = work_loop component mode_truth perf_counter_ns fuel None
      (with_ticks (S (ticks g)) g).
Proof.
  intros Hm. unfold request_idle_work, request_idle_work_with.
  unfold bind, gets, modify, read_clock. simpl. rewrite Hm. reflexivity.
Qed.

(** C9 (amended).  Notified of a mutation on a fiber, with a current
    root, [state_updated] builds a work-in-progress root with the backend
    node, props and children of the current root and the current root as
    alternate, clears the watcher of the fiber, resets the deletions and
    makes the new root the next unit of work; in that state it calls
    [request_idle_work].  In the modes other than synchronous it returns
    leaving that state, with one more request to the host loop.  In
    synchronous mode it runs [work_loop] from that state in the same
    call: whenever it returns, the units of work have been performed
    until none was left and the root it built has been committed, so
    that this root is the current root and no work-in-progress root and
    no unit of work are left. *)
Theorem state_updated_builds_wip_root component mode_truth perf_counter_ns
    fuel fiber g current fc :
  _current_root g = Some current ->
  heap g !! current = Some fc ->
  is_Some (heap g !! fiber) ->
  (forall a, alternate fc = Some a -> a < length (heap g)) ->
  exists g1 wip fw,
    state_updated_prepare fiber g = Ok tt g1 /\
    state_updated component mode_truth perf_counter_ns fuel fiber g
    = request_idle_work component mode_truth perf_counter_ns fuel None g1 /\
    _wip_root g1 = Some wip /\
    heap g1 !! wip = Some fw /\
    dom fw = dom fc /\ props fw = props fc /\ children fw = children fc /\
    alternate fw = Some current /\
    (exists fc1, heap g1 !! current = Some fc1 /\ dom fc1 = dom fc /\
                 props fc1 = props fc /\ children fc1 = children fc) /\
    (exists ff1, heap g1 !! fiber = Some ff1 /\ watcher ff1 = None) /\
    _deletions g1 = Some [] /\
    _next_unit_of_work g1 = Some wip /\
    _current_root g1 = Some current /\
    (event_loop_type g <> SYNC ->
     exists g2 e,
       state_updated component mode_truth perf_counter_ns fuel fiber g
       = Ok tt g2 /\
       heap g2 = heap g1 /\
       _wip_root g2 = Some wip /\
       _next_unit_of_work g2 = Some wip /\
       _deletions g2 = Some [] /\
       _current_root g2 = Some current /\
       effects g2 = effects g ++ [e] /\ is_host_request e = true) /\
    (event_loop_type g = SYNC -> mode_truth SYNC = true ->
     state_updated component mode_truth perf_counter_ns fuel fiber g
     = work_loop component mode_truth perf_counter_ns fuel None
         (with_ticks (S (ticks g1)) g1) /\
     forall g',
       state_updated component mode_truth perf_counter_ns fuel fiber g
       = Ok tt g' ->
       _next_unit_of_work g' = None /\
       _wip_root g' = None /\
       _current_root g' = Some wip /\
       exists g2 g3,
         unit_steps component (with_ticks (S (ticks g1)) g1) g2 /\
         _next_unit_of_work g2 = None /\
         commit_root (Nat.pred fuel) g2 = Ok tt g3 /\
         g' = with_effects
                (effects g3 ++ callback_effect (_render_callback g1)) g3).
Proof.
  intros Hcur Hfc Hfiber Halt.
  destruct (state_updated_prepare_total fiber g current fc Hcur Hfc Hfiber Halt)
    as [g1 Hg1].
  destruct (state_updated_prepare_Ok fiber g g1 current fc Hcur Hfc Hg1)
    as (wip & fw & Hwip & Hfw & Hd & Hp & Hc & Ha & Hc1 & Hw & Hds & Hn & Hcr
        & Hmode & Heff & _).
  assert (Hrun : state_updated component mode_truth perf_counter_ns fuel fiber g
                 = request_idle_work component mode_truth perf_counter_ns fuel
                     None g1).
  { unfold state_updated. now rewrite (bind_eq _ _ _ _ _ Hg1). }
  exists g1, wip, fw.
  do 13 (split; [assumption|]).
  split.
  { intros Hm. rewrite <- Hmode in Hm.
    destruct (request_idle_work_async component mode_truth perf_counter_ns
                fuel g1 Hm)
      as (g2 & Hg2 & Hh & Hw2 & Hc2 & Hn2 & Hd2 & e & He & Hreq).
    exists g2, e. rewrite Hrun.
    repeat split; congruence. }
  intros Hm Ht. rewrite <- Hmode in Hm.
  assert (Hloop : state_updated component mode_truth perf_counter_ns fuel
                    fiber g
                  = work_loop component mode_truth perf_counter_ns fuel None
                      (with_ticks (S (ticks g1)) g1)).
  { rewrite Hrun. now apply request_idle_work_sync. }
  split; [exact Hloop|].
  intros g' H. rewrite Hloop in H.
  assert (Hen : mode_truth (event_loop_type (with_ticks (S (ticks g1)) g1))
                = true) by (simpl; now rewrite Hm).
  pose proof (work_loop_true_mode component mode_truth perf_counter_ns fuel
                None _ g' Hen H) as (Hn' & Hw' & _).
  destruct (Hw' wip Hwip) as [Hw1 Hw2].
  do 3 (split; [assumption|]).
  destruct fuel as [|fuel]; [discriminate|]. simpl in H.
  apply bind_Ok in H as ([] & g2 & Hwhile & H).
  apply work_loop_while_unit_steps in Hwhile as [Hsteps Hnone]; [|exact Hen].
  destruct (unit_steps_frame _ _ _ Hsteps) as (Hwip2 & _ & Hcb).
  simpl in Hwip2, Hcb.
  rewrite work_loop_tail in H by exact Hnone. rewrite Hwip2, Hwip in H.
  destruct (commit_root fuel g2) as [[] g3| |] eqn:Hcommit; try discriminate.
  injection H as <-.
  apply commit_root_frame in Hcommit as Hfr.
  destruct Hfr as (_ & _ & _ & [_ Hcb3 _ _ _ _ _]).
  exists g2, g3. split; [exact Hsteps|]. split; [exact Hnone|].
  split; [exact Hcommit|]. now rewrite Hcb3, Hcb.
Qed.

Lemma state_updated_builds_wip_root_witness :
  (exists g2 wip,
      state_updated no_components enum_truth (fun _ => 0%Z) 20 1
        label_committed_default = Ok tt g2 /\
      _wip_root g2 = Some wip /\
      _next_unit_of_work g2 = Some wip /\
      _deletions g2 = Some [] /\
      _current_root g2 = Some 0) /\
  (exists g',
      state_updated no_components enum_truth (fun _ => 0%Z) 20 1
        label_committed_sync = Ok tt g' /\
      _next_unit_of_work g' = None /\
      _wip_root g' = None /\
      _current_root g' = Some 2).
Proof.
  assert (Hfd : heap label_committed_default !! 0
                = Some (mkFiber None (Some []) None (Some [label_descriptor])
                          (Some 100) None (Some 1) None None None None))
    by reflexivity.
  assert (Hfs : heap label_committed_sync !! 0
                = Some (mkFiber None (Some []) None (Some [label_descriptor])
                          (Some 100) None (Some 1) None None None None))
    by reflexivity.
  split.
  - destruct (state_updated_builds_wip_root no_components enum_truth
                (fun _ => 0%Z) 20 1 label_committed_default 0 _
                eq_refl Hfd ltac:(eexists; reflexivity)
                ltac:(intros a H; discriminate H))
      as (g1 & wip & fw & _ & _ & _ & _ & _ & _ & _ & _ & _ & _ & _ & _ & _
          & H & _).
    destruct (H ltac:(discriminate))
      as (g2 & e & H1 & _ & H2 & H3 & H4 & H5 & _).
    exists g2, wip. auto.
  - destruct (state_updated_builds_wip_root no_components enum_truth
                (fun _ => 0%Z) 20 1 label_committed_sync 0 _
                eq_refl Hfs ltac:(eexists; reflexivity)
                ltac:(intros a H; discriminate H))
      as (g1 & wip & fw & Hg1 & _ & Hwip & _ & _ & _ & _ & _ & _ & _ & _ & _
          & _ & _ & H).
    destruct (H eq_refl eq_refl) as [_ Hret].
    assert (Hw : wip = 2).
    { vm_compute in Hg1. injection Hg1 as <-. now injection Hwip as <-. }
    subst wip. eexists. split; [vm_compute; reflexivity|].
    destruct (Hret _ ltac:(vm_compute; reflexivity)) as (Hn & Hw & Hc & _).
    auto.
Defined.

(** C9 as stated fails in synchronous mode: [request_idle_work] runs the
    whole pass before [state_updated] returns, and no work-in-progress
    root and no unit of work are left. *)
Lemma state_updated_sync_leaves_no_wip_root :
  (exists g',
      state_updated no_components enum_truth (fun _ => 0%Z) 20 1
        label_committed_sync = Ok tt g' /\
      _wip_root g' = None /\ _next_unit_of_work g' = None /\
      _current_root g' = Some 2) /\
  ~ state_updated_leaves_wip_root no_components enum_truth (fun _ => 0%Z).
Proof.
  assert (Hrun : exists g',
      state_updated no_components enum_truth (fun _ => 0%Z) 20 1
        label_committed_sync = Ok tt g' /\
      _wip_root g' = None /\ _next_unit_of_work g' = None /\
      _current_root g' = Some 2).
  { eexists. split; [vm_compute; reflexivity|]. repeat split. }
  split; [exact Hrun|].
  destruct Hrun as (g' & Hg' & Hwip & _).
  intros H.
  assert (Hcur : _current_root label_committed_sync = Some 0) by reflexivity.
  assert (Hfiber : is_Some (heap label_committed_sync !! 1))
    by (eexists; reflexivity).
  destruct (H 20 1 label_committed_sync g' 0 Hcur Hfiber Hg')
    as (wip & Hwip' & _).
  congruence.
Qed.

(** ** C1: one reconciliation *)

Lemma bind_assoc {A B C} (m : M A) (k : A -> M B) (k' : B -> M C) g :
  bind (bind m k) k' g = bind m (fun a => bind (k a) k') g.
Proof. unfold bind. destruct (m g); reflexivity. Qed.

Lemma bind_cong {A B} (m : M A) (k k' : A -> M B) g :
  (forall a g1, m g = Ok a g1 -> k a g1 = k' a g1) ->
  bind m k g = bind m k' g.
Proof. unfold bind. destruct (m g); auto. Qed.

Lemma reconcile_loop_step_update fuel wip es i o prev g fo e :
  es !! i = Some e -> heap g !! o = Some fo -> type fo = Some (vn_type e) ->
  reconcile_loop (S fuel) wip es i (Some o) prev g =
  (let* n := or_Fiber (alternate fo) in
   let* _ := assign (Some n) (fun _ => update_fiber e o fo wip) in
   let* old' := attr (Some o) sibling in
   let* _ := if (i =? 0)%nat then assign (Some wip) (set_child (Some n))
             else assign prev (set_sibling (Some n)) in
   reconcile_loop fuel wip es (S i) old' (Some n)) g.
Proof.
  intros He Ho Ht. simpl.
  rewrite orb_true_r. simpl.
  rewrite (bind_eq _ _ g (Some fo) g)
    by (erewrite bind_eq by (apply get_fiber_eq; eauto); reflexivity).
  rewrite He. unfold same_type_of. rewrite Ht.
  rewrite bool_decide_eq_true_2 by reflexivity. simpl.
  rewrite bind_assoc. apply bind_cong. intros n g1 _.
  rewrite bind_assoc. apply bind_cong. intros [] g2 _.
  rewrite !bind_ret. reflexivity.
Qed.

Lemma reconcile_loop_step_placement fuel wip es i prev g e :
  es !! i = Some e ->
  reconcile_loop (S fuel) wip es i None prev g =
  (let* n := alloc Fiber_default in
   let* _ := assign (Some n) (fun _ => placement_fiber e wip) in
   let* _ := if (i =? 0)%nat then assign (Some wip) (set_child (Some n))
             else assign prev (set_sibling (Some n)) in
   reconcile_loop fuel wip es (S i) None (Some n)) g.
Proof.
  intros He. simpl.
  assert (Hlt : (i <? length es)%nat = true).
  { apply Nat.ltb_lt. eapply lookup_lt_Some; eauto. }
  rewrite Hlt. simpl. rewrite He. simpl.
  rewrite !bind_ret. simpl.
  rewrite bind_assoc. apply bind_cong. intros n g1 _.
  rewrite bind_assoc. apply bind_cong. intros [] g2 _.
  rewrite !bind_ret. reflexivity.
Qed.

Lemma reconcile_loop_step_deletion fuel wip es i o prev g fo ds :
  length es <= i -> heap g !! o = Some fo -> _deletions g = Some ds ->
  reconcile_loop (S fuel) wip es i (Some o) prev g =
  (let* _ := if (i =? 0)%nat then assign (Some wip) (set_child None)
             else ret tt in
   reconcile_loop fuel wip es (S i) (sibling fo) None)
    (with_deletions (Some (ds ++ [o]))
       (with_heap (<[o := set_effect_tag (Some DELETION) fo]> (heap g)) g)).
Proof.
  intros Hle Ho Hds. simpl.
  rewrite orb_true_r. simpl.
  rewrite (bind_eq _ _ g (Some fo) g)
    by (erewrite bind_eq by (apply get_fiber_eq; eauto); reflexivity).
  rewrite (lookup_ge_None_2 es i) by exact Hle. simpl.
  rewrite !bind_ret.
  erewrite bind_eq.
  2:{ erewrite bind_eq by (apply assign_eq; eauto).
      rewrite bind_gets. simpl. rewrite Hds. reflexivity. }
  erewrite bind_eq.
  2:{ apply attr_eq. simpl. apply list_lookup_insert_eq.
      eapply lookup_lt_Some; eauto. }
  reflexivity.
Qed.

Lemma reconcile_loop_done fuel wip es i prev g :
  length es <= i ->
  reconcile_loop (S fuel) wip es i None prev g = Ok tt g.
Proof.
  intros Hle. simpl.
  assert (Hlt : (i <? length es)%nat = false) by (apply Nat.ltb_ge; lia).
  now rewrite Hlt.
Qed.

Lemma with_same_deletions g ds :
  _deletions g = Some ds ->
  with_deletions (Some (ds ++ [])) (with_heap (heap g) g) = g.
Proof. destruct g; simpl; intros ->. now rewrite app_nil_r. Qed.

Lemma sibling_chain_frame h h' o os :
  (forall r f, r ∈ os -> h !! r = Some f ->
               exists f', h' !! r = Some f' /\ sibling f' = sibling f) ->
  sibling_chain h o os -> sibling_chain h' o os.
Proof.
  intros Hfr Hch. induction Hch as [|r f rs Hf Hch IH].
  - constructor.
  - destruct (Hfr r f) as (f' & Hf' & Hs); [left|exact Hf|].
    econstructor; [exact Hf'|]. rewrite Hs. apply IH.
    intros r' f0 Hin. apply Hfr. now right.
Qed.

Lemma sibling_chain_lookup h o os j r :
  sibling_chain h o os -> os !! j = Some r -> is_Some (h !! r).
Proof.
  intros Hch. revert j. induction Hch as [|r0 f rs Hf Hch IH]; intros j Hj.
  - discriminate.
  - destruct j as [|j]; simpl in Hj.
    + injection Hj as <-. eauto.
    + eauto.
Qed.

Lemma sibling_chain_valid h o os r :
  sibling_chain h o os -> r ∈ os -> r < length h.
Proof.
  intros Hch Hin. apply list_elem_of_lookup in Hin as [j Hj].
  eapply lookup_lt_is_Some, sibling_chain_lookup; eauto.
Qed.

(** The iterations past the last descriptor: the old fibers that are
    left are tagged for deletion. *)
Lemma reconcile_loop_deletions os :
  forall wip es i prev o g ds,
    length es <= i ->
    sibling_chain (heap g) o os -> NoDup os ->
    wip < length (heap g) -> wip ∉ os ->
    _deletions g = Some ds ->
    exists h',
      reconcile_post (heap g) h' wip i prev [] os [] /\
      forall fuel,
        length os < fuel ->
        reconcile_loop fuel wip es i o prev g
        = Ok tt (with_deletions (Some (ds ++ os)) (with_heap h' g)).
Proof.
  induction os as [|o1 os IH]; intros wip es i prev o g ds Hle Hch Hnd Hw Hwo Hds.
  - inversion Hch; subst. exists (heap g). split.
    + constructor; simpl; try done.
      intros r f Hf _ _. unfold link_first.
      destruct (is_link_holder i wip prev r), (i =? 0)%nat; now rewrite Hf.
    + intros [|fuel] Hfuel; [simpl in Hfuel; lia|].
      rewrite reconcile_loop_done by exact Hle.
      now rewrite with_same_deletions.
  - inversion Hch as [|r fo rs Hfo Hch']; subst.
    apply NoDup_cons in Hnd as [Ho1 Hnd].
    apply not_elem_of_cons in Hwo as [Hwo1 Hwo].
    destruct (lookup_lt_is_Some_2 _ _ Hw) as [fw Hfw].
    assert (Hlt1 : o1 < length (heap g)) by (eapply lookup_lt_Some; eauto).
    set (h1 := <[o1 := set_effect_tag (Some DELETION) fo]> (heap g)).
    set (h2 := if (i =? 0)%nat then <[wip := set_child None fw]> h1 else h1).
    assert (Hlen : length h2 = length (heap g)).
    { subst h2 h1. destruct (i =? 0)%nat; now rewrite ?length_insert. }
    assert (Hh2 : forall r,
               h2 !! r
               = if decide (r = wip /\ i = 0) then Some (set_child None fw)
                 else if decide (r = o1)
                      then Some (set_effect_tag (Some DELETION) fo)
                      else heap g !! r).
    { intros r. subst h2 h1. destruct (Nat.eqb_spec i 0) as [->|Hi].
      - rewrite lookup_insert_fiber by now rewrite length_insert.
        rewrite lookup_insert_fiber by exact Hlt1.
        repeat case_decide; destruct_and?; simplify_eq; try reflexivity;
          exfalso; intuition congruence.
      - rewrite lookup_insert_fiber by exact Hlt1.
        repeat case_decide; destruct_and?; simplify_eq; try reflexivity;
          exfalso; intuition congruence. }
    set (g2 := with_heap h2
                 (with_deletions (Some (ds ++ [o1]))
                    (with_heap h1 g))).
    destruct (IH wip es (S i) None (sibling fo) g2 (ds ++ [o1]))
      as (h' & Hpost & Hrun); try done.
    + lia.
    + simpl. eapply sibling_chain_frame; [|exact Hch'].
      intros r f Hin Hf. exists f. split; [|reflexivity].
      rewrite Hh2. rewrite decide_False by (intros [-> _]; contradiction).
      rewrite decide_False by (intros ->; contradiction). exact Hf.
    + simpl. lia.
    + exists h'. destruct Hpost. simpl in *.
      assert (Hkeep : forall r f,
                 h2 !! r = Some f -> r ∉ os -> h' !! r = Some f).
      { intros r f Hf Hr.
        rewrite (post_frame0 r f Hf (not_elem_of_nil _) Hr).
        reflexivity. }
      split.
      * constructor; simpl; try done.
        -- lia.
        -- intros [|j] r f _ Hj Hf; simpl in Hj.
           ++ injection Hj as <-. assert (f = fo) as -> by congruence.
              apply Hkeep; [|exact Ho1].
              rewrite Hh2. rewrite decide_False by (intros [? _]; congruence).
              now rewrite decide_True.
           ++ eapply (post_deleted0 j); [lia|exact Hj|].
              rewrite Hh2.
              rewrite decide_False
                by (intros [-> _]; apply Hwo; eapply list_elem_of_lookup_2;
                    eauto).
              rewrite decide_False
                by (intros ->; apply Ho1; eapply list_elem_of_lookup_2; eauto).
              exact Hf.
        -- intros r f Hf _ Hr. apply not_elem_of_cons in Hr as [Hr1 Hr].
           apply Hkeep; [|exact Hr]. rewrite Hh2.
           unfold is_link_holder, link_first.
           destruct (Nat.eqb_spec i 0) as [->|Hi].
           ++ case_bool_decide as Hrw.
              ** subst r. assert (f = fw) as -> by congruence.
                 now rewrite decide_True.
              ** rewrite decide_False by (intros [? _]; contradiction).
                 now rewrite decide_False.
           ++ rewrite decide_False by (intros [_ ?]; contradiction).
              rewrite decide_False by exact Hr1.
              now destruct (bool_decide _).
      * intros [|fuel] Hfuel; [lia|].
        rewrite (reconcile_loop_step_deletion _ _ _ _ _ _ _ fo ds)
          by assumption.
        assert (Hlink :
          (if (i =? 0)%nat then assign (Some wip) (set_child None) else ret tt)
            (with_deletions (Some (ds ++ [o1])) (with_heap h1 g))
          = Ok tt g2).
        { subst g2 h2. destruct (Nat.eqb_spec i 0) as [->|Hi].
          - erewrite assign_eq; [reflexivity|]. simpl. subst h1.
            now rewrite list_lookup_insert_ne by congruence.
          - reflexivity. }
        rewrite (bind_eq _ _ _ _ _ Hlink).
        rewrite Hrun by lia. rewrite <- app_assoc. reflexivity.
Qed.

Lemma elem_of_drop_list {A} (l : list A) k x : x ∈ drop k l -> x ∈ l.
Proof.
  intros Hin. apply list_elem_of_lookup in Hin as [j Hj].
  rewrite lookup_drop in Hj. eapply list_elem_of_lookup_2; eauto.
Qed.

Lemma set_sibling_None_new h wip os j e :
  set_sibling None (new_fiber_record h wip os j e)
  = new_fiber_record h wip os j e.
Proof.
  unfold new_fiber_record.
  destruct (os !! j) as [r|]; [destruct (h !! r)|]; reflexivity.
Qed.

Lemma new_fiber_record_tail h h2 wip os j e :
  (forall r, r ∈ os -> h2 !! r = h !! r) ->
  new_fiber_record h2 wip (tail os) j e = new_fiber_record h wip os (S j) e.
Proof.
  intros Hold. unfold new_fiber_record. rewrite lookup_tail.
  destruct (os !! S j) as [r|] eqn:Hr; [|reflexivity].
  rewrite Hold by (eapply list_elem_of_lookup_2; eauto). reflexivity.
Qed.

(** One iteration that has configured the new fiber [n], followed by
    the rest of the loop. *)
Lemma reconcile_loop_continue e es' os wip es i prev o g ds h1 n o' :
  reconcile_loop_statement es' ->
  drop (S i) es = es' ->
  reconcile_pre (heap g) wip i prev (e :: es') o os ->
  _deletions g = Some ds ->
  length (heap g) <= length h1 ->
  h1 !! n = Some (new_fiber_record (heap g) wip os 0 e) ->
  (forall r, r <> n -> h1 !! r = heap g !! r) ->
  n <> wip -> n ∉ os -> prev <> Some n ->
  ((exists r f, os !! 0 = Some r /\ heap g !! r = Some f /\
                alternate f = Some n)
   \/ length (heap g) <= n) ->
  sibling_chain (heap g) o' (tail os) ->
  exists h' news,
    reconcile_post (heap g) h' wip i prev (e :: es') os news /\
    forall fuel,
      Nat.max (length es') (length (tail os)) < fuel ->
      (let* _ := if (i =? 0)%nat then assign (Some wip) (set_child (Some n))
                 else assign prev (set_sibling (Some n)) in
       reconcile_loop fuel wip es (S i) o' (Some n)) (with_heap h1 g)
      = Ok tt (with_deletions (Some (ds ++ drop (S (length es')) os))
                 (with_heap h' g)).
Proof.
  intros IH Hdrop Hpre Hds Hgrow Hn Hother Hnw Hno Hnp Hsrc Hch'.
  destruct Hpre.
  assert (Hnlt : n < length h1) by (eapply lookup_lt_Some; eauto).
  (* the holder of the link and the store after linking *)
  assert (exists hd fhd,
             hd <> n /\ (hd ∉ os) /\ heap g !! hd = Some fhd /\
             (if (i =? 0)%nat then hd = wip else prev = Some hd))
    as (hd & fhd & Hhdn & Hhdo & Hfhd & Hhd).
  { destruct (Nat.eqb_spec i 0) as [->|Hi].
    - destruct (lookup_lt_is_Some_2 _ _ pre_wip0) as [fw Hfw].
      exists wip, fw. auto.
    - destruct (pre_prev0 Hi) as [p Hp]; [discriminate|].
      destruct (pre_prev_valid0 p Hp) as (Hplt & Hpo & Hpw).
      destruct (lookup_lt_is_Some_2 _ _ Hplt) as [fp Hfp].
      exists p, fp. repeat split; auto. congruence. }
  set (upd := if (i =? 0)%nat then set_child (Some n) else set_sibling (Some n)).
  set (h2 := <[hd := upd fhd]> h1).
  assert (Hhd1 : h1 !! hd = Some fhd) by (rewrite Hother; auto).
  assert (Hlink :
    (if (i =? 0)%nat then assign (Some wip) (set_child (Some n))
     else assign prev (set_sibling (Some n))) (with_heap h1 g)
    = Ok tt (with_heap h2 g)).
  { subst h2 upd. destruct (i =? 0)%nat.
    - rewrite <- Hhd. erewrite assign_eq by exact Hhd1. reflexivity.
    - rewrite Hhd. erewrite assign_eq by exact Hhd1. reflexivity. }
  assert (Hh2 : forall r,
             h2 !! r = if decide (r = hd) then Some (upd fhd)
                       else if decide (r = n)
                            then Some (new_fiber_record (heap g) wip os 0 e)
                            else heap g !! r).
  { intros r. subst h2.
    rewrite lookup_insert_fiber by (eapply lookup_lt_Some; eauto).
    repeat case_decide; simplify_eq; auto. }
  assert (Hlen2 : length h2 = length h1) by (subst h2; apply length_insert).
  assert (Hold : forall r, r ∈ os -> h2 !! r = heap g !! r).
  { intros r Hr. rewrite Hh2.
    rewrite decide_False by (intros ->; contradiction).
    rewrite decide_False by (intros ->; contradiction). reflexivity. }
  assert (Htl : forall j r, tail os !! j = Some r -> os !! S j = Some r).
  { intros j r. destruct os; simpl; [discriminate|auto]. }
  assert (Htl_in : forall r, r ∈ tail os -> r ∈ os).
  { intros r. destruct os; simpl; [auto|]. intros. now right. }
  (* the rest of the loop *)
  destruct (IH (tail os) wip es (S i) (Some n) o' (with_heap h2 g) ds Hdrop)
    as (h' & news' & Hpost & Hrun); [|exact Hds|].
  { simpl. constructor.
    - eapply sibling_chain_frame; [|exact Hch'].
      intros r f Hr Hf. exists f. split; [|reflexivity].
      rewrite Hold by auto. exact Hf.
    - destruct os; simpl; [constructor|].
      now apply NoDup_cons in pre_nodup0 as [_ ?].
    - lia.
    - intros Hin. apply pre_wip_old0. auto.
    - intros j e' r f He' Hr Hf. apply (pre_types0 (S j) e' r f); auto.
      rewrite <- Hold; [exact Hf|].
      apply Htl_in. eapply list_elem_of_lookup_2; eauto.
    - intros j e' r f n' He' Hr Hf Hn'.
      assert (Hf' : heap g !! r = Some f).
      { rewrite <- Hold; [exact Hf|].
        apply Htl_in. eapply list_elem_of_lookup_2; eauto. }
      destruct (pre_alt0 (S j) e' r f n' He' (Htl _ _ Hr) Hf' Hn')
        as (H1 & H2 & H3 & H4).
      split; [lia|]. split; [intros Hin; apply H2; auto|].
      split; [exact H3|].
      intros [= <-]. destruct Hsrc as [(r0 & f0 & Hr0 & Hf0 & Ha0)|Hfresh].
      + discriminate (pre_alt_inj0 0 (S j) e e' r0 r f0 f n eq_refl He' Hr0
                        (Htl _ _ Hr) Hf0 Hf' Ha0 Hn').
      + lia.
    - intros j j' e1 e2 r r' f f' n' He1 He2 Hr Hr' Hf Hf' Ha Ha'.
      assert (S j = S j'); [|lia].
      eapply (pre_alt_inj0 (S j) (S j') e1 e2 r r' f f' n'); eauto.
      + rewrite <- Hold; [exact Hf|].
        apply Htl_in. eapply list_elem_of_lookup_2; eauto.
      + rewrite <- Hold; [exact Hf'|].
        apply Htl_in. eapply list_elem_of_lookup_2; eauto.
    - intros p [= <-]. split; [lia|]. split; [|exact Hnw].
      intros Hin. apply Hno. auto.
    - intros _ _. eauto. }
  destruct Hpost. simpl in *.
  assert (Hdrop_tl : drop (length es') (tail os) = drop (S (length es')) os).
  { destruct os; simpl; [now rewrite drop_nil|reflexivity]. }
  assert (Hn_new : n ∉ news').
  { intros Hin. apply list_elem_of_lookup in Hin as [j Hj].
    destruct (post_source0 j n Hj) as (_ & Hp & _). now apply Hp. }
  exists h', (n :: news'). split.
  - constructor; simpl.
    + now rewrite post_length0.
    + lia.
    + apply NoDup_cons. auto.
    + intros [|j] n' Hj; simpl in Hj.
      * injection Hj as <-. auto.
      * destruct (post_source0 j n' Hj) as (H1 & H2 & H3 & H4).
        assert (Hj' : is_Some (es' !! j)).
        { apply lookup_lt_is_Some. rewrite <- post_length0.
          eapply lookup_lt_Some; eauto. }
        destruct Hj' as [e' He'].
        assert (Hsrc' :
          (exists r f, os !! S j = Some r /\ heap g !! r = Some f /\
                       alternate f = Some n')
          \/ length (heap g) <= n').
        { destruct H4 as [(r & f & Hr & Hf & Ha)|Hfresh]; [left|right; lia].
          exists r, f. split; [auto|]. split; [|exact Ha].
          rewrite <- Hold; [exact Hf|].
          apply Htl_in. eapply list_elem_of_lookup_2; eauto. }
        split; [exact H1|]. split; [|split; [|exact Hsrc']].
        -- intros Hp. destruct Hsrc' as [(r & f & Hr & Hf & Ha)|Hfresh].
           ++ destruct (pre_alt0 (S j) e' r f n' He' Hr Hf Ha)
                as (_ & _ & _ & Hp'). contradiction.
           ++ destruct (pre_prev_valid0 n' Hp) as (Hlt & _). lia.
        -- destruct Hsrc' as [(r & f & Hr & Hf & Ha)|Hfresh].
           ++ now destruct (pre_alt0 (S j) e' r f n' He' Hr Hf Ha)
                as (_ & ? & _).
           ++ intros Hin.
              pose proof (sibling_chain_valid _ _ _ _ pre_chain0 Hin). lia.
    + intros [|j] n' e' Hj He'; simpl in Hj, He'.
      * injection Hj as <-. injection He' as <-.
        assert (Hn2 : h2 !! n = Some (new_fiber_record (heap g) wip os 0 e)).
        { rewrite Hh2. rewrite decide_False by congruence.
          now rewrite decide_True. }
        rewrite (post_frame0 _ _ Hn2 Hn_new).
        2:{ intros Hin. apply Hno. apply Htl_in.
            eapply elem_of_drop_list; eauto. }
        unfold is_link_holder, link_first. simpl.
        rewrite bool_decide_eq_true_2 by reflexivity.
        destruct es' as [|e2 es'].
        -- destruct news'; [|discriminate]. simpl.
           now rewrite set_sibling_None_new.
        -- now rewrite head_lookup.
      * rewrite (post_new0 j n' e' Hj He').
        now rewrite (new_fiber_record_tail (heap g)).
    + intros [|j] r f Hle Hr Hf; [lia|].
      apply (post_deleted0 j r f); [lia|now rewrite lookup_tail|].
      rewrite Hold; [exact Hf|]. eapply list_elem_of_lookup_2; eauto.
    + intros r f Hf Hr Hrd. apply not_elem_of_cons in Hr as [Hrn Hr].
      assert (Hr2 : h2 !! r = Some (if decide (r = hd) then upd f else f)).
      { rewrite Hh2. case_decide as Hrh.
        - subst r. congruence.
        - now rewrite decide_False. }
      rewrite (post_frame0 _ _ Hr2 Hr) by now rewrite Hdrop_tl.
      unfold is_link_holder at 1. simpl.
      rewrite bool_decide_eq_false_2 by congruence.
      f_equal. unfold is_link_holder, link_first. subst upd.
      destruct (i =? 0)%nat; simpl.
      * subst hd. case_decide; case_bool_decide; congruence.
      * case_decide; case_bool_decide; congruence.
  - intros fuel Hfuel. rewrite (bind_eq _ _ _ _ _ Hlink).
    rewrite Hrun by exact Hfuel. now rewrite Hdrop_tl.
Qed.

Lemma drop_cons_inv {A} (l : list A) i x l' :
  drop i l = x :: l' -> l !! i = Some x /\ drop (S i) l = l'.
Proof.
  intros H. split.
  - rewrite <- (Nat.add_0_r i), <- lookup_drop, H. reflexivity.
  - replace (S i) with (i + 1) by lia.
    rewrite <- drop_drop, H. reflexivity.
Qed.

Lemma lookup_config_fiber (h : list Fiber) n x r :
  n < length h -> r <> n -> <[n := x]> h !! r = h !! r.
Proof. intros _ Hne. apply list_lookup_insert_ne. congruence. Qed.

Lemma lookup_fresh_fiber (h : list Fiber) x r :
  r <> length h ->
  <[length h := x]> (h ++ [Fiber_default]) !! r = h !! r.
Proof.
  intros Hne. rewrite list_lookup_insert_ne by congruence.
  rewrite lookup_alloc_fiber. now rewrite decide_False.
Qed.

(** The loop of [reconcile_children], entered at any index. *)
Lemma reconcile_loop_spec es_r : reconcile_loop_statement es_r.
Proof.
  induction es_r as [|e es' IH];
    intros os wip es i prev o g ds Hdrop Hpre Hds.
  - assert (Hle : length es <= i).
    { apply (f_equal length) in Hdrop. rewrite length_drop in Hdrop.
      simpl in Hdrop. lia. }
    destruct Hpre.
    destruct (reconcile_loop_deletions os wip es i prev o g ds)
      as (h' & Hpost & Hrun); auto.
    exists h', []. split; [exact Hpost|].
    intros fuel Hfuel. simpl in *. now apply Hrun.
  - apply drop_cons_inv in Hdrop as [He Hdrop].
    pose proof Hpre as Hpre'. destruct Hpre'.
    destruct os as [|o1 os].
    + (* no old fiber: a placement *)
      assert (o = None) as -> by (inversion pre_chain0; reflexivity).
      set (n := length (heap g)).
      set (h1 := <[n := placement_fiber e wip]> (heap g ++ [Fiber_default])).
      destruct (reconcile_loop_continue e es' [] wip es i prev None g ds h1 n
                  None IH Hdrop Hpre Hds)
        as (h' & news & Hpost & Hrun).
      * subst h1. rewrite length_insert, length_app. lia.
      * subst h1 n. apply list_lookup_insert_eq. rewrite length_app.
        simpl. lia.
      * intros r Hr. subst h1 n. now apply lookup_fresh_fiber.
      * subst n. lia.
      * apply not_elem_of_nil.
      * intros Hp. destruct (pre_prev_valid0 n Hp) as [Hlt _].
        subst n. lia.
      * right. reflexivity.
      * constructor.
      * exists h', news. split; [exact Hpost|].
        intros [|fuel] Hfuel; [simpl in Hfuel; lia|].
        rewrite (reconcile_loop_step_placement _ _ _ _ _ _ e) by exact He.
        rewrite bind_alloc.
        erewrite bind_eq.
        2:{ apply assign_eq. simpl. rewrite lookup_alloc_fiber.
            now rewrite decide_True. }
        apply Hrun. simpl in *. lia.
    + (* an old fiber of the same type: an update *)
      assert (exists fo, o = Some o1 /\ heap g !! o1 = Some fo /\
                         sibling_chain (heap g) (sibling fo) os)
        as (fo & -> & Hfo & Hch') by (inversion pre_chain0; eauto).
      assert (Ht : type fo = Some (vn_type e)).
      { apply (pre_types0 0 e o1 fo); auto. }
      assert (Ho1 : o1 < length (heap g)) by (eapply lookup_lt_Some; eauto).
      destruct (alternate fo) as [n|] eqn:Halt.
      * destruct (pre_alt0 0 e o1 fo n eq_refl eq_refl Hfo Halt)
          as (Hnlt & Hno & Hnw & Hnp).
        set (h1 := <[n := update_fiber e o1 fo wip]> (heap g)).
        destruct (reconcile_loop_continue e es' (o1 :: os) wip es i prev
                    (Some o1) g ds h1 n (sibling fo) IH Hdrop Hpre Hds)
          as (h' & news & Hpost & Hrun); auto.
        -- subst h1. rewrite length_insert. lia.
        -- subst h1. unfold new_fiber_record. simpl. rewrite Hfo.
           now apply list_lookup_insert_eq.
        -- intros r Hr. subst h1. now apply lookup_config_fiber.
        -- left. exists o1, fo. auto.
        -- exists h', news. split; [exact Hpost|].
           intros [|fuel] Hfuel; [simpl in Hfuel; lia|].
           rewrite (reconcile_loop_step_update _ _ _ _ _ _ _ fo e)
             by assumption.
           rewrite Halt. unfold or_Fiber. rewrite bind_ret.
           destruct (lookup_lt_is_Some_2 _ _ Hnlt) as [fn Hfn].
           erewrite bind_eq by (apply assign_eq; exact Hfn).
           erewrite bind_eq.
           2:{ apply attr_eq. simpl. rewrite list_lookup_insert_ne.
               - exact Hfo.
               - intros ->. apply Hno. left. }
           apply Hrun. simpl in *. lia.
      * set (n := length (heap g)).
        set (h1 := <[n := update_fiber e o1 fo wip]>
                     (heap g ++ [Fiber_default])).
        destruct (reconcile_loop_continue e es' (o1 :: os) wip es i prev
                    (Some o1) g ds h1 n (sibling fo) IH Hdrop Hpre Hds)
          as (h' & news & Hpost & Hrun); auto.
        -- subst h1. rewrite length_insert, length_app. lia.
        -- subst h1 n. unfold new_fiber_record. simpl. rewrite Hfo.
           apply list_lookup_insert_eq. rewrite length_app. simpl. lia.
        -- intros r Hr. subst h1 n. now apply lookup_fresh_fiber.
        -- subst n. lia.
        -- intros Hin.
           pose proof (sibling_chain_valid _ _ _ _ pre_chain0 Hin).
           subst n. lia.
        -- intros Hp. destruct (pre_prev_valid0 n Hp) as [Hlt _].
           subst n. lia.
        -- exists h', news. split; [exact Hpost|].
           intros [|fuel] Hfuel; [simpl in Hfuel; lia|].
           rewrite (reconcile_loop_step_update _ _ _ _ _ _ _ fo e)
             by assumption.
           rewrite Halt. unfold or_Fiber. rewrite bind_alloc.
           erewrite bind_eq.
           2:{ apply assign_eq. simpl. rewrite lookup_alloc_fiber.
               now rewrite decide_True. }
           erewrite bind_eq.
           2:{ apply attr_eq. simpl. rewrite list_lookup_insert_ne by lia.
               rewrite lookup_app_l by exact Ho1. exact Hfo. }
           apply Hrun. simpl in *. lia.
Qed.

Lemma set_watcher_same f : set_watcher (watcher f) f = f.
Proof. now destruct f. Qed.

Lemma same_but_watcher_refl h : same_but_watcher h h.
Proof.
  split; [reflexivity|]. intros r f Hf. exists (watcher f).
  now rewrite set_watcher_same.
Qed.

Lemma same_but_watcher_trans h1 h2 h3 :
  same_but_watcher h1 h2 -> same_but_watcher h2 h3 -> same_but_watcher h1 h3.
Proof.
  intros [Hl1 H1] [Hl2 H2]. split; [congruence|].
  intros r f Hf. destruct (H1 r f Hf) as [w Hw].
  destruct (H2 r _ Hw) as [w' Hw']. exists w'. rewrite Hw'. reflexivity.
Qed.

Lemma same_but_watcher_insert h r f w :
  h !! r = Some f -> same_but_watcher h (<[r := set_watcher w f]> h).
Proof.
  intros Hf. split; [apply length_insert|].
  intros r' f' Hf'.
  rewrite lookup_insert_fiber by (eapply lookup_lt_Some; eauto).
  case_decide as Heq.
  - subst r'. assert (f' = f) as -> by congruence. eauto.
  - exists (watcher f'). now rewrite set_watcher_same.
Qed.

Lemma same_but_watcher_inv h h0 r f0 :
  same_but_watcher h h0 -> h0 !! r = Some f0 ->
  exists f w, h !! r = Some f /\ f0 = set_watcher w f.
Proof.
  intros [Hlen H] Hf0.
  assert (Hlt : r < length h).
  { rewrite <- Hlen. eapply lookup_lt_Some; eauto. }
  destruct (lookup_lt_is_Some_2 _ _ Hlt) as [f Hf].
  destruct (H r f Hf) as [w Hw]. exists f, w. split; [exact Hf|congruence].
Qed.

Lemma reconcile_pre_same_but_watcher h h0 wip i prev es o os :
  same_but_watcher h h0 ->
  reconcile_pre h wip i prev es o os -> reconcile_pre h0 wip i prev es o os.
Proof.
  intros Hs []. pose proof Hs as [Hlen Hsame]. constructor; auto.
  - eapply sibling_chain_frame; [|exact pre_chain0].
    intros r f _ Hf. destruct (Hsame r f Hf) as [w Hw]. eauto.
  - lia.
  - intros j e r f0 He Hr Hf0.
    destruct (same_but_watcher_inv _ _ _ _ Hs Hf0) as (f & w & Hf & ->).
    simpl. eauto.
  - intros j e r f0 n He Hr Hf0 Ha.
    destruct (same_but_watcher_inv _ _ _ _ Hs Hf0) as (f & w & Hf & ->).
    rewrite Hlen. eauto.
  - intros j j' e e' r r' f0 f0' n He He' Hr Hr' Hf0 Hf0' Ha Ha'.
    destruct (same_but_watcher_inv _ _ _ _ Hs Hf0) as (f & w & Hf & ->).
    destruct (same_but_watcher_inv _ _ _ _ Hs Hf0') as (f' & w' & Hf' & ->).
    eauto.
  - intros p Hp. rewrite Hlen. auto.
Qed.

(** The whole of [reconcile_children]: the subscription of the parent,
    the release of the watcher of the first old fiber, then the loop. *)
Lemma reconcile_children_spec wip es g fw os ds :
  heap g !! wip = Some fw ->
  (forall a, alternate fw = Some a -> is_Some (heap g !! a)) ->
  reconcile_pre (heap g) wip 0 None es (old_child (heap g) fw) os ->
  _deletions g = Some ds ->
  exists h0 h' news,
    same_but_watcher (heap g) h0 /\
    h0 !! wip
    = Some (match watch_of (event_loop_type g) wip fw with
            | Some w => set_watcher (Some w) fw
            | None => fw
            end) /\
    reconcile_post h0 h' wip 0 None es os news /\
    forall fuel,
      Nat.max (length es) (length os) < fuel ->
      reconcile_children fuel wip (Some es) g
      = Ok tt (with_deletions (Some (ds ++ drop (length es) os))
                 (with_heap h'
                    (with_effects
                       (effects g
                        ++ watch_effect (watch_of (event_loop_type g) wip fw))
                       g))).
Proof.
  intros Hfw Halt Hpre Hds.
  pose proof Hpre as Hpre'. destruct Hpre'.
  set (w := watch_of (event_loop_type g) wip fw).
  set (fw1 := match w with Some w => set_watcher (Some w) fw | None => fw end).
  set (ha := match w with Some _ => <[wip := fw1]> (heap g) | None => heap g end).
  set (ga := with_heap ha (with_effects (effects g ++ watch_effect w) g)).
  assert (Hsa : same_but_watcher (heap g) ha).
  { subst ha fw1. destruct w; [|apply same_but_watcher_refl].
    now apply same_but_watcher_insert. }
  assert (Hwa : ha !! wip = Some fw1).
  { subst ha fw1. destruct w; [|exact Hfw].
    apply list_lookup_insert_eq. exact pre_wip0. }
  assert (Hwatch :
    when (props_truthy (props fw))
      (when (is_some (dom fw) && negb (is_some (watcher fw)))
         (let* mode := gets event_loop_type in
          let w := mkWatcher wip true (bool_decide (mode = SYNC)) in
          let* _ := emit (Watch w) in
          assign (Some wip) (set_watcher (Some w)))) g = Ok tt ga).
  { subst ga ha fw1 w. unfold watch_of, when.
    destruct (props_truthy (props fw)); simpl.
    - destruct (is_some (dom fw) && negb (is_some (watcher fw))); simpl.
      + rewrite bind_gets. unfold emit. rewrite bind_modify.
        erewrite assign_eq by exact Hfw. reflexivity.
      + destruct g; simpl. now rewrite app_nil_r.
    - destruct g; simpl. now rewrite app_nil_r. }
  (* the first old fiber *)
  assert (exists h0,
             same_but_watcher ha h0 /\ h0 !! wip = Some fw1 /\
             (match old_child (heap g) fw with
              | Some _ =>
                  let* p := attr (old_child (heap g) fw) props in
                  when (props_truthy p)
                    (assign (old_child (heap g) fw) (set_watcher None))
              | None => ret tt
              end) ga = Ok tt (with_heap h0 ga))
    as (h0 & Hs0 & Hw0 & Hold).
  { destruct (old_child (heap g) fw) as [o1|] eqn:Ho.
    - assert (Hin : o1 ∈ os) by (inversion pre_chain0; left).
      assert (Hne : o1 <> wip) by (intros ->; contradiction).
      destruct (lookup_lt_is_Some_2 (heap g) o1) as [fo Hfo].
      { eapply sibling_chain_valid; eauto. }
      destruct Hsa as [Hlen Hsame].
      destruct (Hsame o1 fo Hfo) as [wo Hfoa].
      erewrite bind_eq by (apply attr_eq; exact Hfoa). simpl.
      destruct (props_truthy (props fo)); simpl.
      + exists (<[o1 := set_watcher None (set_watcher wo fo)]> ha).
        split; [now apply same_but_watcher_insert|]. split.
        * rewrite list_lookup_insert_ne by congruence. exact Hwa.
        * erewrite assign_eq by exact Hfoa. reflexivity.
      + exists ha. split; [apply same_but_watcher_refl|]. split; [exact Hwa|].
        subst ga. reflexivity.
    - exists ha. split; [apply same_but_watcher_refl|]. split; [exact Hwa|].
      subst ga. reflexivity. }
  pose proof (same_but_watcher_trans _ _ _ Hsa Hs0) as Hs.
  destruct (reconcile_loop_spec es os wip es 0 None (old_child (heap g) fw)
              (with_heap h0 ga) ds eq_refl)
    as (h' & news & Hpost & Hrun).
  { simpl. eapply reconcile_pre_same_but_watcher; eauto. }
  { exact Hds. }
  exists h0, h', news. split; [exact Hs|]. split; [exact Hw0|].
  split; [exact Hpost|].
  intros fuel Hfuel. unfold reconcile_children.
  erewrite bind_eq by (apply get_fiber_eq; exact Hfw).
  assert (Hoc : and_then (alternate fw) (attr (alternate fw) child) g
                = Ok (old_child (heap g) fw) g).
  { unfold and_then, old_child. destruct (alternate fw) as [a|] eqn:Ha.
    - destruct (Halt a eq_refl) as [fa Hfa]. rewrite Hfa.
      apply attr_eq. exact Hfa.
    - reflexivity. }
  rewrite (bind_eq _ _ _ _ _ Hoc).
  rewrite (bind_eq _ _ _ _ _ Hwatch).
  rewrite (bind_eq _ _ _ _ _ Hold).
  rewrite Hrun by exact Hfuel. reflexivity.
Qed.

(** *** Counting the tags *)

Lemma count_tag_app h t rs1 rs2 :
  count_tag h t (rs1 ++ rs2) = count_tag h t rs1 + count_tag h t rs2.
Proof. unfold count_tag. now rewrite List.filter_app, length_app. Qed.

Lemma count_tag_all h t rs :
  (forall r, r ∈ rs -> tag_of h r = Some t) -> count_tag h t rs = length rs.
Proof.
  unfold count_tag. induction rs as [|r rs IH]; intros H; [reflexivity|].
  simpl. rewrite bool_decide_eq_true_2 by (apply H; left).
  simpl. f_equal. apply IH. intros r' Hr'. apply H. now right.
Qed.

Lemma count_tag_none h t rs :
  (forall r, r ∈ rs -> tag_of h r <> Some t) -> count_tag h t rs = 0.
Proof.
  unfold count_tag. induction rs as [|r rs IH]; intros H; [reflexivity|].
  simpl. rewrite bool_decide_eq_false_2 by (apply H; left).
  apply IH. intros r' Hr'. apply H. now right.
Qed.

Lemma new_fiber_record_tag h0 wip os j e :
  (forall r, os !! j = Some r -> is_Some (h0 !! r)) ->
  effect_tag (new_fiber_record h0 wip os j e)
  = Some (if decide (j < length os) then UPDATE else PLACEMENT).
Proof.
  intros Hvalid. unfold new_fiber_record.
  destruct (os !! j) as [r|] eqn:Hr.
  - destruct (Hvalid r eq_refl) as [f Hf]. rewrite Hf.
    rewrite decide_True by (eapply lookup_lt_Some; eauto). reflexivity.
  - rewrite decide_False; [reflexivity|].
    apply lookup_ge_None in Hr. lia.
Qed.

Lemma sibling_chain_of_links h (news : list ref) :
  (forall j n, news !! j = Some n ->
               exists f, h !! n = Some f /\ sibling f = news !! S j) ->
  sibling_chain h (head news) news.
Proof.
  induction news as [|n news IH]; intros H; simpl.
  - constructor.
  - destruct (H 0 n eq_refl) as (f & Hf & Hs). simpl in Hs.
    econstructor; [exact Hf|]. rewrite Hs, <- head_lookup.
    apply IH. intros j n' Hj. apply (H (S j) n' Hj).
Qed.

(** C1.  Reconciling [N] descriptors against an old chain of [M] fibers
    whose types are those of the descriptors at the common positions
    ([reconcile_pre], which also asks that the alternates to be reused
    be fibers apart): with fuel for [max N M] iterations the call
    returns; it has made [N] new fibers, linked in order from the child
    of the parent, of which [min N M] are tagged UPDATE, [N - M]
    PLACEMENT and none DELETION; and it has appended to the deletions
    the [M - N] old fibers past the descriptors, now tagged DELETION. *)
Theorem reconcile_children_effect_counts wip es g fw os ds :
  heap g !! wip = Some fw ->
  (forall a, alternate fw = Some a -> is_Some (heap g !! a)) ->
  reconcile_pre (heap g) wip 0 None es (old_child (heap g) fw) os ->
  _deletions g = Some ds ->
  exists g' news,
    (forall fuel,
        Nat.max (length es) (length os) < fuel ->
        reconcile_children fuel wip (Some es) g = Ok tt g') /\
    length news = length es /\
    NoDup news /\
    (es <> [] \/ os <> [] ->
     exists fw', heap g' !! wip = Some fw' /\
                 sibling_chain (heap g') (child fw') news) /\
    count_tag (heap g') UPDATE news = Nat.min (length es) (length os) /\
    count_tag (heap g') PLACEMENT news = length es - length os /\
    count_tag (heap g') DELETION news = 0 /\
    _deletions g' = Some (ds ++ drop (length es) os) /\
    length (drop (length es) os) = length os - length es /\
    (forall r, r ∈ drop (length es) os ->
               tag_of (heap g') r = Some DELETION).
Proof.
  intros Hfw Halt Hpre Hds.
  destruct (reconcile_children_spec wip es g fw os ds Hfw Halt Hpre Hds)
    as (h0 & h' & news & Hs & Hw0 & Hpost & Hrun).
  pose proof (reconcile_pre_same_but_watcher _ _ _ _ _ _ _ _ Hs Hpre) as Hpre0.
  destruct Hpost, Hpre0.
  assert (Hvalid : forall j r, os !! j = Some r -> is_Some (h0 !! r)).
  { intros j r Hr. eapply sibling_chain_lookup; eauto. }
  assert (Htag : forall j n,
             news !! j = Some n ->
             tag_of h' n
             = Some (if decide (j < length os) then UPDATE else PLACEMENT)).
  { intros j n Hj.
    destruct (lookup_lt_is_Some_2 es j) as [e He].
    { rewrite <- post_length0. eapply lookup_lt_Some; eauto. }
    unfold tag_of. rewrite (post_new0 j n e Hj He). simpl.
    apply new_fiber_record_tag. eauto. }
  eexists _, news. split; [exact Hrun|]. simpl.
  split; [exact post_length0|]. split; [exact post_nodup0|].
  split; [|split; [|split; [|split; [|split; [|split]]]]].
  - intros Hne.
    assert (Hnw : wip ∉ news).
    { intros Hin. apply list_elem_of_lookup in Hin as [j Hj].
      now destruct (post_source0 j wip Hj). }
    assert (Hnd : wip ∉ drop (length es) os).
    { intros Hin. apply pre_wip_old0. eapply elem_of_drop_list; eauto. }
    rewrite (post_frame0 wip _ Hw0 Hnw Hnd).
    eexists. split; [reflexivity|].
    assert (Hc : child
                   (link_first 0 es os news
                      match watch_of (event_loop_type g) wip fw with
                      | Some w => set_watcher (Some w) fw
                      | None => fw
                      end) = head news).
    { unfold link_first. simpl.
      destruct es, os; try reflexivity. destruct Hne; congruence. }
    unfold is_link_holder. simpl. rewrite bool_decide_eq_true_2 by reflexivity.
    rewrite Hc. apply sibling_chain_of_links.
    intros j n Hj.
    destruct (lookup_lt_is_Some_2 es j) as [e He].
    { rewrite <- post_length0. eapply lookup_lt_Some; eauto. }
    rewrite (post_new0 j n e Hj He). eauto.
  - rewrite <- (take_drop (length os) news) at 1.
    rewrite count_tag_app, count_tag_all, count_tag_none.
    + rewrite length_take, post_length0. lia.
    + intros n Hin. apply list_elem_of_lookup in Hin as [j Hj].
      rewrite lookup_drop in Hj. rewrite (Htag _ _ Hj).
      rewrite decide_False by lia. discriminate.
    + intros n Hin. apply list_elem_of_lookup in Hin as [j Hj].
      apply lookup_take_Some in Hj as [Hj Hlt]. rewrite (Htag _ _ Hj).
      now rewrite decide_True.
  - rewrite <- (take_drop (length os) news) at 1.
    rewrite count_tag_app, count_tag_none, count_tag_all.
    + rewrite length_drop, post_length0. lia.
    + intros n Hin. apply list_elem_of_lookup in Hin as [j Hj].
      rewrite lookup_drop in Hj. rewrite (Htag _ _ Hj).
      now rewrite decide_False by lia.
    + intros n Hin. apply list_elem_of_lookup in Hin as [j Hj].
      apply lookup_take_Some in Hj as [Hj Hlt]. rewrite (Htag _ _ Hj).
      rewrite decide_True by exact Hlt. discriminate.
  - apply count_tag_none. intros n Hin.
    apply list_elem_of_lookup in Hin as [j Hj]. rewrite (Htag _ _ Hj).
    destruct (decide _); discriminate.
  - reflexivity.
  - apply length_drop.
  - intros r Hin. apply list_elem_of_lookup in Hin as [j Hj].
    rewrite lookup_drop in Hj.
    destruct (Hvalid _ _ Hj) as [f Hf]. unfold tag_of.
    rewrite (post_deleted0 (length es + j) r f); [reflexivity|lia|exact Hj|].
    exact Hf.
Qed.

Lemma reconcile_children_effect_counts_witness :
  exists g' news,
    reconcile_children 3 5 (Some [create_element (Host "a") None []])
      box_second_pass = Ok tt g' /\
    length news = 1 /\
    count_tag (heap g') UPDATE news = 1 /\
    count_tag (heap g') PLACEMENT news = 0 /\
    _deletions g' = Some [3] /\
    tag_of (heap g') 3 = Some DELETION.
Proof.
  set (es := [create_element (Host "a") None []]).
  set (fw := mkFiber (Some (Host "box")) (Some []) (Some [])
               (Some [create_element (Host "a") None [];
                      create_element (Host "b") None []])
               (Some 0) (Some 4) None None (Some 1) (Some UPDATE) None).
  assert (Hfw : heap box_second_pass !! 5 = Some fw) by reflexivity.
  assert (Halt : forall a, alternate fw = Some a ->
                           is_Some (heap box_second_pass !! a)).
  { intros a [= <-]. eexists. reflexivity. }
  assert (Hpre : reconcile_pre (heap box_second_pass) 5 0 None es
                   (old_child (heap box_second_pass) fw) [2; 3]).
  { constructor.
    - repeat (econstructor; [reflexivity|]). constructor.
    - apply NoDup_ListNoDup. repeat constructor; simpl; intuition lia.
    - simpl. lia.
    - rewrite list_elem_of_In. simpl. intuition lia.
    - intros [|[|j]] e r f He Hr Hf; try discriminate He.
      injection He as <-. injection Hr as <-. injection Hf as <-.
      reflexivity.
    - intros [|[|j]] e r f n He Hr Hf Ha; try discriminate He.
      injection Hr as <-. injection Hf as <-. discriminate Ha.
    - intros [|[|j]] [|[|j']] e e' r r' f f' n He He' Hr Hr' Hf Hf' Ha Ha';
        try discriminate He; try discriminate He'. reflexivity.
    - intros p Hp. discriminate.
    - intros Hi. contradiction. }
  destruct (reconcile_children_effect_counts 5 es box_second_pass fw [2; 3] []
              Hfw Halt Hpre eq_refl)
    as (g' & news & Hrun & Hlen & _ & _ & Hu & Hp & _ & Hd & _ & Htag).
  exists g', news.
  split; [apply Hrun; simpl; lia|].
  split; [exact Hlen|]. split; [exact Hu|]. split; [exact Hp|].
  split; [exact Hd|]. apply Htag. simpl. left.
Defined.

(** ** C2: a pass over an unchanged tree *)

(** *** The committed forest *)

Section OldForest.
Variable body : nat -> Dict -> VNode.

Lemma old_forest_length h os es rs :
  old_forest body h os es rs -> length os = length es.
Proof. induction 1; simpl; auto. Qed.

Lemma old_forest_chain h os es rs :
  old_forest body h os es rs -> sibling_chain h (head os) os.
Proof.
  induction 1 as [|o fo e os es cs rs_c rs_s Hfo _ _ _ _ _ _ _ Hs _ IH];
    simpl.
  - constructor.
  - econstructor; [exact Hfo|]. now rewrite Hs.
Qed.

Lemma old_forest_roots h os es rs o :
  old_forest body h os es rs -> o ∈ os -> o ∈ rs.
Proof.
  induction 1 as [|o1 fo e os es cs rs_c rs_s _ _ _ _ _ _ _ _ _ _ IH];
    intros Hin.
  - exact Hin.
  - apply elem_of_cons in Hin as [->|Hin]; [left|].
    right. apply elem_of_app. right. auto.
Qed.

Lemma old_forest_valid h os es rs r :
  old_forest body h os es rs -> r ∈ rs -> is_Some (h !! r).
Proof.
  induction 1 as [|o1 fo e os es cs rs_c rs_s Hfo _ _ _ _ _ _ IHc _ _ IHs];
    intros Hin.
  - now apply elem_of_nil in Hin.
  - apply elem_of_cons in Hin as [->|Hin]; [eauto|].
    apply elem_of_app in Hin as [Hin|Hin]; auto.
Qed.

Lemma old_forest_roots_nodup h os es rs :
  old_forest body h os es rs -> NoDup rs -> NoDup os.
Proof.
  induction 1 as [|o1 fo e os es cs rs_c rs_s _ _ _ _ _ _ H1 _ _ H2 IH];
    intros Hnd.
  - constructor.
  - apply NoDup_cons in Hnd as [Ho Hnd].
    apply NoDup_app in Hnd as (_ & _ & Hnd).
    apply NoDup_cons. split; [|auto].
    intros Hin. apply Ho, elem_of_app. right.
    eapply old_forest_roots; eauto.
Qed.

Lemma old_forest_lookup h os es rs j o e :
  old_forest body h os es rs ->
  os !! j = Some o -> es !! j = Some e ->
  exists fo,
    h !! o = Some fo /\ type fo = Some (vn_type e) /\
    props_snapshot fo = Some (vn_props e) /\ dict_wf (vn_props e) /\
    (callable (type fo) = false -> is_Some (dom fo)).
Proof.
  intros H. revert j.
  induction H as [|o1 fo e1 os es cs rs_c rs_s Hfo Ht Hp Hwf Hd _ _ _ _ _ IH];
    intros j Ho He.
  - discriminate.
  - destruct j as [|j]; simpl in Ho, He.
    + injection Ho as <-. injection He as <-. eauto 6.
    + eauto.
Qed.

(** The committed forest is not affected by a change of watchers. *)
Lemma old_forest_frame h h' os es rs :
  old_forest body h os es rs ->
  (forall r f, r ∈ rs -> h !! r = Some f ->
               exists w, h' !! r = Some (set_watcher w f)) ->
  old_forest body h' os es rs.
Proof.
  induction 1
    as [|o fo e os es cs rs_c rs_s Hfo Ht Hp Hwf Hd Hc _ IHc Hs _ IHs];
    intros Hfr.
  - constructor.
  - destruct (Hfr o fo) as [w Hw]; [left|exact Hfo|].
    eapply (old_cons _ _ _ (set_watcher w fo)); eauto.
    + apply IHc. intros r f Hin. apply Hfr. right.
      apply elem_of_app. now left.
    + apply IHs. intros r f Hin. apply Hfr. right.
      apply elem_of_app. now right.
Qed.
End OldForest.

(** *** One unit of work *)

Lemma up_path_first_sibling_up h o res path :
  up_path h o res path -> first_sibling_up h o res.
Proof.
  induction 1; [constructor|eapply fsu_sibling; eauto|
                eapply fsu_parent; eauto].
Qed.

Lemma up_path_frame h h' o res path :
  up_path h o res path ->
  (forall r f, r ∈ path -> h !! r = Some f ->
               exists f', h' !! r = Some f' /\ sibling f' = sibling f /\
                          parent f' = parent f) ->
  up_path h' o res path.
Proof.
  induction 1 as [|r f s Hf Hs|r f next path Hf Hs Hup IH]; intros Hfr.
  - constructor.
  - destruct (Hfr r f) as (f' & Hf' & Hs' & _); [left|exact Hf|].
    eapply up_sibling; [exact Hf'|congruence].
  - destruct (Hfr r f) as (f' & Hf' & Hs' & Hp'); [left|exact Hf|].
    eapply up_parent; [exact Hf'|congruence|].
    rewrite Hp'. apply IH. intros r' f0 Hin. apply Hfr. now right.
Qed.

Lemma up_path_valid h o res path r :
  up_path h o res path -> r ∈ path -> r < length h.
Proof.
  induction 1 as [|r0 f s Hf Hs|r0 f next path Hf Hs Hup IH]; intros Hin.
  - now apply elem_of_nil in Hin.
  - apply list_elem_of_singleton in Hin as ->. eapply lookup_lt_Some; eauto.
  - apply elem_of_cons in Hin as [->|Hin]; [|auto].
    eapply lookup_lt_Some; eauto.
Qed.

Lemma backend_calls_app es1 es2 :
  backend_calls (es1 ++ es2) = backend_calls es1 ++ backend_calls es2.
Proof. unfold backend_calls. apply flat_map_app. Qed.

Lemma quiet_refl g : quiet g g.
Proof. constructor; reflexivity. Qed.

Lemma quiet_trans g1 g2 g3 : quiet g1 g2 -> quiet g2 g3 -> quiet g1 g3.
Proof. intros [] []. constructor; congruence. Qed.

Lemma up_path_head h w res path :
  up_path h (Some w) res path -> w ∈ path.
Proof. inversion 1; left. Qed.

Lemma reconcile_pre_of_forest body h w fw o fo cs es rs path :
  h !! w = Some fw ->
  alternate fw = Some o ->
  h !! o = Some fo ->
  child fo = head cs ->
  old_forest body h cs es rs ->
  NoDup rs ->
  w ∉ rs ->
  w ∈ path ->
  spare_alternates h rs path ->
  reconcile_pre h w 0 None es (old_child h fw) cs.
Proof.
  intros Hw Ha Ho Hc Hold Hnd Hwrs Hwp [Hapart Hinj].
  assert (Hroots : forall r, r ∈ cs -> r ∈ rs)
    by (intros; eapply old_forest_roots; eauto).
  constructor.
  - unfold old_child. rewrite Ha, Ho, Hc.
    eapply old_forest_chain; eauto.
  - eapply old_forest_roots_nodup; eauto.
  - eapply lookup_lt_Some; eauto.
  - intros Hin. apply Hwrs. auto.
  - intros j e r f He Hr Hf.
    destruct (old_forest_lookup _ _ _ _ _ _ _ _ Hold Hr He)
      as (f' & Hf' & Ht & _). congruence.
  - intros j e r f n He Hr Hf Hn.
    destruct (Hapart r f n) as (H1 & H2 & H3); auto.
    { apply Hroots. eapply list_elem_of_lookup_2; eauto. }
    split; [exact H1|]. split; [intros Hin; apply H2; auto|].
    split; [intros ->; contradiction|discriminate].
  - intros j j' e e' r r' f f' n He He' Hr Hr' Hf Hf' Hn Hn'.
    assert (r = r').
    { eapply (Hinj r r' f f' n); eauto;
        apply Hroots; eapply list_elem_of_lookup_2; eauto. }
    subst r'.
    eapply NoDup_lookup; [|exact Hr|exact Hr'].
    eapply old_forest_roots_nodup; eauto.
  - intros p Hp. discriminate.
  - intros Hi. contradiction.
Qed.

Lemma perform_unit_of_work_children component body fuel w g fw es :
  stable component body ->
  heap g !! w = Some fw ->
  unit_children body fw es ->
  perform_unit_of_work component fuel w g
  = (let* _ := reconcile_children fuel w (Some es) in
     let* c := attr (Some w) child in
     match c with
     | Some c => ret (Some c)
     | None => next_sibling_up fuel (Some w)
     end) (called fw g).
Proof.
  intros Hst Hw Hu. unfold perform_unit_of_work, unit_children, called in *.
  erewrite bind_eq by (apply get_fiber_eq; exact Hw).
  assert (Hwork :
    (if callable (type fw)
     then update_function_component component fuel w
     else update_host_component fuel w) g
    = reconcile_children fuel w (Some es)
        (if callable (type fw) then with_calls (S (calls g)) g else g)).
  { destruct (type fw) as [[tag|id]|] eqn:Ht; simpl.
    - destruct Hu as [Hc [d Hd]].
      unfold update_host_component.
      erewrite bind_eq by (apply get_fiber_eq; exact Hw).
      rewrite Hd. simpl. unfold when. rewrite bind_ret.
      erewrite bind_eq by (apply get_fiber_eq; exact Hw).
      now rewrite Hc.
    - destruct Hu as (p & Hp & ->).
      unfold update_function_component.
      erewrite bind_eq by (apply get_fiber_eq; exact Hw).
      now rewrite Ht, Hp, bind_call_component, Hst.
    - destruct Hu as [Hc [d Hd]].
      unfold update_host_component.
      erewrite bind_eq by (apply get_fiber_eq; exact Hw).
      rewrite Hd. simpl. unfold when. rewrite bind_ret.
      erewrite bind_eq by (apply get_fiber_eq; exact Hw).
      now rewrite Hc. }
  unfold bind at 1. rewrite Hwork. reflexivity.
Qed.

Lemma set_child_None_same f wt :
  child f = None -> set_child None (set_watcher wt f) = set_watcher wt f.
Proof. destruct f; simpl; intros ->; reflexivity. Qed.

Lemma backend_calls_watch_effect w : backend_calls (watch_effect w) = [].
Proof. now destruct w. Qed.

Lemma host_requests_watch_effect es w :
  List.filter is_host_request (es ++ watch_effect w)
  = List.filter is_host_request es.
Proof.
  rewrite List.filter_app. destruct w; simpl; now rewrite app_nil_r.
Qed.

(** What follows the call of the type in a unit of work on a fiber
    whose alternate heads a committed forest for the descriptors [es]:
    the reconciliation of [es] and the search of the next unit. *)
Lemma unit_rest_spec body g w fw o fo cs es rs res path :
  heap g !! w = Some fw ->
  child fw = None ->
  alternate fw = Some o ->
  heap g !! o = Some fo ->
  child fo = head cs ->
  old_forest body (heap g) cs es rs ->
  NoDup rs ->
  w ∉ rs ->
  spare_alternates (heap g) rs path ->
  up_path (heap g) (Some w) res path ->
  _deletions g = Some [] ->
  exists fuel g1 ws,
    (let* _ := reconcile_children fuel w (Some es) in
     let* c := attr (Some w) child in
     match c with
     | Some c => ret (Some c)
     | None => next_sibling_up fuel (Some w)
     end) g = Ok (next_or ws res) g1 /\
    unit_post (heap g) (heap g1) w ws cs es /\
    quiet g g1 /\
    _next_unit_of_work g1 = _next_unit_of_work g /\
    ticks g1 = ticks g.
Proof.
  intros Hw Hchild Ha Ho Hc Hold Hnd Hwrs Hsp Hup Hds.
  pose proof (up_path_head _ _ _ _ Hup) as Hwp.
  pose proof (reconcile_pre_of_forest body _ _ _ _ _ _ _ _ _
                Hw Ha Ho Hc Hold Hnd Hwrs Hwp Hsp) as Hpre.
  destruct (reconcile_children_spec w es g fw cs [] Hw) as
    (h0 & h' & news & Hs & Hw0 & Hpost & Hrun); auto.
  { intros a Ha'. assert (a = o) as -> by congruence. eauto. }
  pose proof (old_forest_length _ _ _ _ _ Hold) as Hlen.
  assert (Hdrop : drop (length es) cs = []) by (apply drop_ge; lia).
  rewrite Hdrop in Hrun. simpl in Hrun.
  set (fw0 := match watch_of (event_loop_type g) w fw with
              | Some w0 => set_watcher (Some w0) fw
              | None => fw
              end) in *.
  destruct Hpost. destruct Hs as [Hlen0 Hsame].
  rewrite Hdrop in post_frame0.
  assert (Hroots : forall r, r ∈ cs -> r ∈ rs)
    by (intros; eapply old_forest_roots; eauto).
  assert (Hwn : w ∉ news).
  { intros Hin. apply list_elem_of_lookup in Hin as [j Hj].
    now destruct (post_source0 j w Hj). }
  (* the parent after the reconciliation *)
  assert (Hw' : exists wt, h' !! w = Some (set_child (head news)
                                              (set_watcher wt fw))).
  { rewrite (post_frame0 w fw0 Hw0 Hwn (not_elem_of_nil _)).
    unfold is_link_holder. simpl. rewrite bool_decide_eq_true_2 by reflexivity.
    unfold link_first. simpl.
    assert (Hfw0 : exists wt, fw0 = set_watcher wt fw).
    { subst fw0. destruct (watch_of _ _ _); eauto.
      exists (watcher fw). now rewrite set_watcher_same. }
    destruct Hfw0 as [wt ->]. exists wt.
    destruct es, cs; try discriminate; try reflexivity.
    destruct news; [|discriminate]. simpl.
    now rewrite set_child_None_same. }
  destruct Hw' as [wt Hw'].
  (* every other fiber *)
  assert (Hframe : forall r f,
             heap g !! r = Some f -> r ∉ news ->
             exists wt,
               h' !! r = Some (if decide (r = w)
                               then set_child (head news) (set_watcher wt f)
                               else set_watcher wt f)).
  { intros r f Hf Hr. case_decide as Hrw.
    - subst r. assert (f = fw) as -> by congruence. eauto.
    - destruct (Hsame r f Hf) as [wt' Hf0]. exists wt'.
      rewrite (post_frame0 r _ Hf0 Hr (not_elem_of_nil _)).
      unfold is_link_holder. simpl.
      now rewrite bool_decide_eq_false_2. }
  (* the walk up from the parent *)
  assert (Hup' : first_sibling_up h' (Some w) res).
  { eapply up_path_first_sibling_up, up_path_frame; [exact Hup|].
    intros r f Hin Hf.
    assert (Hr : r ∉ news).
    { intros Hn. apply list_elem_of_lookup in Hn as [j Hj].
      destruct (post_source0 j r Hj) as (_ & _ & _ & Hsrc).
      destruct Hsrc as [(r0 & f0 & Hr0 & Hf0 & Ha0)|Hfresh].
      - destruct (same_but_watcher_inv (heap g) h0 r0 f0) as (f1 & w1 & Hf1 & ->);
          [split; assumption|exact Hf0|].
        destruct Hsp as [Hapart _].
        destruct (Hapart r0 f1 r) as (_ & _ & Hav); auto.
        apply Hroots. eapply list_elem_of_lookup_2; eauto.
      - apply lookup_lt_Some in Hf. lia. }
    destruct (Hframe r f Hf Hr) as [wt' Hf'].
    eexists. split; [exact Hf'|]. case_decide; now destruct f. }
  set (g1 := with_deletions (Some [])
               (with_heap h'
                  (with_effects
                     (effects g
                      ++ watch_effect (watch_of (event_loop_type g) w fw))
                     g))) in *.
  destruct (next_sibling_up_complete g1 (Some w) res Hup')
    as [fuel_up Hnext].
  remember (S (Nat.max (Nat.max (length es) (length cs)) fuel_up)) as fuel
    eqn:Hfuel.
  exists fuel, g1, news. split; [|split; [|split; [|split]]].
  - rewrite (bind_eq _ _ _ _ _ (Hrun fuel ltac:(lia))).
    erewrite bind_eq by (apply attr_eq; simpl; exact Hw').
    simpl. destruct news as [|w1 news]; simpl.
    + apply (next_sibling_up_fuel fuel_up); [lia|exact Hnext].
    + reflexivity.
  - simpl. constructor.
    + lia.
    + lia.
    + exact post_nodup0.
    + intros j wc Hj.
      destruct (lookup_lt_is_Some_2 es j) as [e He].
      { rewrite <- post_length0. eapply lookup_lt_Some; eauto. }
      destruct (lookup_lt_is_Some_2 cs j) as [oc Hoc].
      { rewrite Hlen. eapply lookup_lt_Some; eauto. }
      exists e, oc. split; [exact He|]. split; [exact Hoc|].
      destruct (old_forest_lookup _ _ _ _ _ _ _ _ Hold Hoc He)
        as (foc & Hfoc & Ht & Hp & Hwf & Hd).
      destruct (Hsame oc foc Hfoc) as [wo Hfoc0].
      assert (Hocn : oc ∉ news).
      { intros Hin. apply list_elem_of_lookup in Hin as [j' Hj'].
        destruct (post_source0 j' oc Hj') as (_ & _ & Hn & _).
        apply Hn. eapply list_elem_of_lookup_2; eauto. }
      assert (Hocw : oc <> w).
      { intros ->. apply Hwrs, Hroots. eapply list_elem_of_lookup_2; eauto. }
      eexists _, (set_watcher wo foc).
      split; [exact (post_new0 j wc e Hj He)|]. split.
      { rewrite (post_frame0 oc _ Hfoc0 Hocn (not_elem_of_nil _)).
        unfold is_link_holder. simpl.
        now rewrite bool_decide_eq_false_2. }
      unfold new_fiber_record. rewrite Hoc, Hfoc0. simpl.
      repeat split; reflexivity.
    + intros j wc Hj.
      destruct (post_source0 j wc Hj) as (Hne & _ & _ & Hsrc).
      split; [exact Hne|].
      destruct Hsrc as [(r0 & f0 & Hr0 & Hf0 & Ha0)|Hfresh]; [left|right; lia].
      destruct (same_but_watcher_inv (heap g) h0 r0 f0) as (f1 & w1 & Hf1 & ->);
        [split; assumption|exact Hf0|].
      exists r0, f1. auto.
    + exact Hframe.
  - constructor; simpl; try reflexivity.
    + now rewrite Hds.
    + now rewrite backend_calls_app, backend_calls_watch_effect, app_nil_r.
    + apply host_requests_watch_effect.
  - reflexivity.
  - reflexivity.
Qed.

(** A unit of work on a fiber whose alternate heads a committed forest
    for the descriptors that the fiber reconciles, when the components
    are functions of their props. *)
Lemma perform_unit_spec component body g w fw o fo cs es rs res path :
  stable component body ->
  heap g !! w = Some fw ->
  child fw = None ->
  alternate fw = Some o ->
  heap g !! o = Some fo ->
  child fo = head cs ->
  unit_children body fw es ->
  old_forest body (heap g) cs es rs ->
  NoDup rs ->
  w ∉ rs ->
  spare_alternates (heap g) rs path ->
  up_path (heap g) (Some w) res path ->
  _deletions g = Some [] ->
  exists fuel g1 ws,
    perform_unit_of_work component fuel w g = Ok (next_or ws res) g1 /\
    unit_post (heap g) (heap g1) w ws cs es /\
    quiet g g1 /\
    _next_unit_of_work g1 = _next_unit_of_work g /\
    ticks g1 = ticks g.
Proof.
  intros Hst Hw Hchild Ha Ho Hc Hu Hold Hnd Hwrs Hsp Hup Hds.
  assert (Hg0 : heap (called fw g) = heap g /\
                quiet g (called fw g) /\
                _next_unit_of_work (called fw g) = _next_unit_of_work g /\
                ticks (called fw g) = ticks g).
  { unfold called. destruct (callable (type fw)); repeat split. }
  destruct Hg0 as (Hh & Hq0 & Hn0 & Ht0).
  destruct (unit_rest_spec body (called fw g) w fw o fo cs es rs res path)
    as (fuel & g1 & ws & Hrun & Hpost & Hq & Hn & Ht);
    rewrite ?Hh; try assumption.
  { destruct Hq0. congruence. }
  exists fuel, g1, ws.
  rewrite (perform_unit_of_work_children component body fuel w g fw es
             Hst Hw Hu).
  rewrite Hh in Hpost.
  split; [exact Hrun|]. split; [exact Hpost|].
  split; [|split; congruence].
  destruct Hq0, Hq. constructor; congruence.
Qed.

(** *** A forest of units *)

Lemma keeps_refl h r : keeps h h r.
Proof. intros f Hf. exists (watcher f). now rewrite set_watcher_same. Qed.

Lemma keeps_trans h1 h2 h3 r :
  keeps h1 h2 r -> keeps h2 h3 r -> keeps h1 h3 r.
Proof.
  intros H1 H2 f Hf. destruct (H1 f Hf) as [wt Hf2].
  destruct (H2 _ Hf2) as [wt' Hf3]. exists wt'. rewrite Hf3. reflexivity.
Qed.

Lemma keeps_inv h h' r f' :
  length h <= length h' -> r < length h -> keeps h h' r ->
  h' !! r = Some f' ->
  exists f wt, h !! r = Some f /\ f' = set_watcher wt f.
Proof.
  intros Hlen Hr Hk Hf'.
  destruct (lookup_lt_is_Some_2 _ _ Hr) as [f Hf].
  destruct (Hk f Hf) as [wt Hwt]. exists f, wt. split; [exact Hf|congruence].
Qed.

Lemma is_alternate_keeps h h' rs r :
  (forall o, o ∈ rs -> o < length h /\ keeps h h' o) ->
  length h <= length h' ->
  is_alternate h' rs r -> is_alternate h rs r.
Proof.
  intros Hk Hlen (o & fo' & Hin & Hfo' & Ha).
  destruct (Hk o Hin) as [Hlt Hko].
  destruct (keeps_inv h h' o fo' Hlen Hlt Hko Hfo') as (fo & wt & Hfo & ->).
  exists o, fo. auto.
Qed.

Lemma unit_steps_trans component g1 g2 g3 :
  unit_steps component g1 g2 -> unit_steps component g2 g3 ->
  unit_steps component g1 g3.
Proof.
  induction 1; [auto|]. intros. econstructor; eauto.
Qed.

Lemma ready_keeps h h' wpar w e o s :
  ready h wpar w e o s -> keeps h h' w -> keeps h h' o ->
  ready h' wpar w e o s.
Proof.
  intros (fw & fo & Hw & Ho & H) Hkw Hko.
  destruct (Hkw fw Hw) as [wt Hw']. destruct (Hko fo Ho) as [wt' Ho'].
  exists (set_watcher wt fw), (set_watcher wt' fo).
  split; [exact Hw'|]. split; [exact Ho'|]. exact H.
Qed.

Lemma built_keeps h h' p c ns rs :
  built h p c ns rs ->
  (forall r, r ∈ ns \/ r ∈ rs -> keeps h h' r) ->
  built h' p c ns rs.
Proof.
  induction 1
    as [p|p r f o fo pr ns_c rs_c ns_s rs_s
          Hf Hp Ht Ha Hfo Hs Hso Hwf _ IHc _ IHs];
    intros Hk.
  - constructor.
  - assert (Hr : r ∈ r :: ns_c ++ ns_s) by left.
    assert (Ho : o ∈ o :: rs_c ++ rs_s) by left.
    destruct (Hk r (or_introl Hr) f Hf) as [wt Hf'].
    destruct (Hk o (or_intror Ho) fo Hfo) as [wt' Hfo'].
    eapply (built_cons _ _ _ (set_watcher wt f) o (set_watcher wt' fo) pr);
      eauto.
    + apply IHc. intros r' [Hin|Hin]; apply Hk.
      * left. right. apply elem_of_app. now left.
      * right. right. apply elem_of_app. now left.
    + apply IHs. intros r' [Hin|Hin]; apply Hk.
      * left. right. apply elem_of_app. now right.
      * right. right. apply elem_of_app. now right.
Qed.

Lemma up_path_keeps h h' o res path :
  up_path h o res path ->
  (forall r, r ∈ path -> keeps h h' r) ->
  up_path h' o res path.
Proof.
  intros Hup Hk. eapply up_path_frame; [exact Hup|].
  intros r f Hin Hf. destruct (Hk r Hin f Hf) as [wt Hf'].
  eexists. split; [exact Hf'|]. now destruct f.
Qed.

Lemma old_forest_keeps body h h' os es rs :
  old_forest body h os es rs ->
  (forall r, r ∈ rs -> keeps h h' r) ->
  old_forest body h' os es rs.
Proof.
  intros Hold Hk. eapply old_forest_frame; [exact Hold|].
  intros r f Hin Hf. exact (Hk r Hin f Hf).
Qed.

Lemma is_alternate_mono h rs rs' n :
  (forall r, r ∈ rs -> r ∈ rs') -> is_alternate h rs n ->
  is_alternate h rs' n.
Proof. intros Hsub (o & fo & Hin & H). exists o, fo. auto. Qed.

Lemma unit_post_keeps h h1 w ws cs es r :
  unit_post h h1 w ws cs es -> r ∉ ws -> r <> w -> keeps h h1 r.
Proof.
  intros [_ _ _ _ _ Hframe] Hr Hw f Hf.
  destruct (Hframe r f Hf Hr) as [wt Hwt]. exists wt.
  now rewrite decide_False in Hwt.
Qed.

Lemma unit_post_source body h h1 w ws cs es rs n :
  unit_post h h1 w ws cs es -> old_forest body h cs es rs ->
  n ∈ ws -> n <> w /\ (is_alternate h rs n \/ length h <= n).
Proof.
  intros [_ _ _ _ Hsrc _] Hold Hin.
  apply list_elem_of_lookup_1 in Hin as [j Hj].
  destruct (Hsrc j n Hj) as [Hw [(o & fo & Ho & Hfo & Ha)|Hnew]].
  - split; [exact Hw|]. left. exists o, fo. split; [|auto].
    eapply old_forest_roots; [exact Hold|].
    eapply list_elem_of_lookup_2; exact Ho.
  - auto.
Qed.

Lemma unit_post_forest_pre body h h1 w ws cs es rs res path :
  old_forest body h cs es rs -> NoDup rs -> w ∉ rs ->
  spare_alternates h rs path ->
  up_path h (Some w) res path ->
  unit_post h h1 w ws cs es ->
  forest_pre body h1 w ws cs es rs res path.
Proof.
  intros Hold Hnd Hw [Hap Hinj] Hup Hpost.
  pose proof (fun n => unit_post_source body _ _ _ _ _ _ _ n Hpost Hold)
    as Hsrc.
  assert (Halt : forall n, is_alternate h rs n ->
                           n < length h /\ (n ∉ rs) /\ (n ∉ path)).
  { intros n (o & fo & Hin & Hfo & Ha). eauto. }
  assert (Hvalid : forall r, r ∈ rs -> r < length h).
  { intros r Hin.
    destruct (old_forest_valid body _ _ _ _ r Hold Hin) as [f Hf].
    eapply lookup_lt_Some; exact Hf. }
  assert (Hws : forall n, n ∈ ws -> n ∉ rs).
  { intros n Hin Hin'. destruct (Hsrc n Hin) as [_ [Ha|Hnew]].
    - destruct (Halt n Ha) as (_ & Hn & _). contradiction.
    - pose proof (Hvalid n Hin'). lia. }
  assert (Hwp : forall n, n ∈ ws -> n ∉ path).
  { intros n Hin Hin'. destruct (Hsrc n Hin) as [_ [Ha|Hnew]].
    - destruct (Halt n Ha) as (_ & _ & Hn). contradiction.
    - pose proof (up_path_valid _ _ _ _ n Hup Hin'). lia. }
  assert (Hk : forall r, r ∈ rs -> keeps h h1 r).
  { intros r Hin. eapply unit_post_keeps; [exact Hpost| |].
    - intros Hin'. exact (Hws r Hin' Hin).
    - intros ->. contradiction. }
  assert (Hgrow : length h <= length h1) by (now destruct Hpost).
  assert (Hback : forall r f', r ∈ rs -> h1 !! r = Some f' ->
            exists f, h !! r = Some f /\ alternate f = alternate f').
  { intros r f' Hin Hf'.
    destruct (keeps_inv h h1 r f' Hgrow (Hvalid r Hin) (Hk r Hin) Hf')
      as (f & wt & Hf & ->).
    exists f. split; [exact Hf|]. now destruct f. }
  split.
  - eapply old_forest_keeps; [exact Hold|exact Hk].
  - exact Hnd.
  - now destruct Hpost.
  - now destruct Hpost.
  - now destruct Hpost.
  - exact Hws.
  - intros r f' n Hin Hf' Ha.
    destruct (Hback r f' Hin Hf') as (f & Hf & Heq). rewrite <- Heq in Ha.
    destruct (Hap r f n Hin Hf Ha) as (Hlt & Hnrs & Hnp).
    split; [lia|]. split; [exact Hnrs|]. split; [exact Hnp|].
    intros Hn. apply list_elem_of_lookup_1 in Hn as [j Hj]. exists j.
    split; [|exact Hj].
    destruct Hpost as [_ _ _ _ Hsource _].
    destruct (Hsource j n Hj) as [_ [(o & fo' & Ho & Hfo' & Halt')|Hnew]];
      [|lia].
    rewrite Ho. f_equal.
    eapply Hinj; [|exact Hin|exact Hfo'|exact Hf|exact Halt'|exact Ha].
    eapply old_forest_roots; [exact Hold|].
    eapply list_elem_of_lookup_2; exact Ho.
  - intros r r' f1 f1' n Hin Hin' Hf1 Hf1' Ha Ha'.
    destruct (Hback r f1 Hin Hf1) as (f & Hf & Heq). rewrite <- Heq in Ha.
    destruct (Hback r' f1' Hin' Hf1') as (f' & Hf' & Heq').
    rewrite <- Heq' in Ha'. eauto.
  - eapply up_path_frame; [exact Hup|]. intros r f Hin Hf.
    destruct Hpost as [_ _ _ _ _ Hframe].
    destruct (Hframe r f Hf) as [wt Hwt].
    { intros Hr. exact (Hwp r Hr Hin). }
    eexists. split; [exact Hwt|]. now destruct (decide (r = w)), f.
  - intros p Hin Hp. exact (Hwp p Hp Hin).
Qed.

(** The step of the pass: the forest starts with the ready fiber [w1],
    facing the committed fiber [o1] whose children are [cs]. *)
Section ForestStep.
Context (body : nat -> Dict -> VNode) (h : list Fiber).
Context (wpar w1 : nat) (ws' : list nat) (o1 : nat) (os' : list nat).
Context (e1 : VNode) (es' : list VNode) (fo : Fiber).
Context (cs rs_c rs_s : list nat) (res : option nat) (path : list nat).
Hypothesis Hpre :
  forest_pre body h wpar (w1 :: ws') (o1 :: os') (e1 :: es')
    (o1 :: rs_c ++ rs_s) res path.
Hypothesis Hfo : h !! o1 = Some fo.
Hypothesis Hcs : child fo = head cs.
Hypothesis Hc : old_forest body h cs (expand body e1) rs_c.
Hypothesis Hs : old_forest body h os' es' rs_s.

Lemma step_nodup :
  (o1 ∉ rs_c) /\ (o1 ∉ rs_s) /\ NoDup rs_c /\ NoDup rs_s /\
  (forall r, r ∈ rs_c -> r ∉ rs_s).
Proof using All.
  destruct Hpre as [_ Hnd _ _ _ _ _ _ _ _].
  apply NoDup_cons in Hnd as [Ho Hnd].
  apply NoDup_app in Hnd as (Hnc & Hd & Hns).
  rewrite elem_of_app in Ho. tauto.
Qed.

Lemma step_in_c r : r ∈ rs_c -> r ∈ o1 :: rs_c ++ rs_s.
Proof using All. intros. right. apply elem_of_app. now left. Qed.

Lemma step_in_s r : r ∈ rs_s -> r ∈ o1 :: rs_c ++ rs_s.
Proof using All. intros. right. apply elem_of_app. now right. Qed.

Lemma step_alt_rs n :
  is_alternate h (o1 :: rs_c ++ rs_s) n ->
  n < length h /\ (n ∉ o1 :: rs_c ++ rs_s) /\ (n ∉ path).
Proof using All.
  intros (o & f & Hin & Hf & Ha).
  destruct Hpre as [_ _ _ _ _ _ Hap _ _ _].
  destruct (Hap o f n Hin Hf Ha) as (? & ? & ? & _). auto.
Qed.

Lemma step_alt_c_ws n : is_alternate h rs_c n -> n ∉ w1 :: ws'.
Proof using All.
  intros (o & f & Hin & Hf & Ha) Hn.
  destruct step_nodup as (Ho1 & _ & _ & _ & Hd).
  destruct Hpre as [_ _ _ _ _ _ Hap _ _ _].
  destruct (Hap o f n (step_in_c o Hin) Hf Ha) as (_ & _ & _ & Hws).
  destruct (Hws Hn) as (j & Hj & _).
  destruct j as [|j]; simpl in Hj.
  - simplify_eq. contradiction.
  - apply (Hd o Hin). eapply old_forest_roots; [exact Hs|].
    eapply list_elem_of_lookup_2; exact Hj.
Qed.

Lemma step_alt_s_ws n :
  is_alternate h rs_s n -> n ∈ w1 :: ws' ->
  exists j o f, os' !! j = Some o /\ ws' !! j = Some n /\ o ∈ rs_s /\
                h !! o = Some f /\ alternate f = Some n.
Proof using All.
  intros (o & f & Hin & Hf & Ha) Hn.
  destruct step_nodup as (_ & Ho1 & _ & _ & _).
  destruct Hpre as [_ _ _ _ _ _ Hap _ _ _].
  destruct (Hap o f n (step_in_s o Hin) Hf Ha) as (_ & _ & _ & Hws).
  destruct (Hws Hn) as (j & Hj & Hj').
  destruct j as [|j]; simpl in Hj, Hj'.
  - simplify_eq. contradiction.
  - exists j, o, f. auto.
Qed.

Lemma step_alt_s_w1 : ~ is_alternate h rs_s w1.
Proof using All.
  intros Ha.
  destruct (step_alt_s_ws w1 Ha) as (j & o & f & _ & Hj & _); [left|].
  destruct Hpre as [_ _ _ _ Hnd _ _ _ _ _].
  apply NoDup_cons in Hnd as [Hw _]. apply Hw.
  eapply list_elem_of_lookup_2; exact Hj.
Qed.

Lemma step_alt_c_s n : is_alternate h rs_c n -> ~ is_alternate h rs_s n.
Proof using All.
  intros (o & f & Hin & Hf & Ha) (o' & f' & Hin' & Hf' & Ha').
  destruct step_nodup as (_ & _ & _ & _ & Hd).
  destruct Hpre as [_ _ _ _ _ _ _ Hinj _ _].
  pose proof (Hinj o o' f f' n (step_in_c o Hin) (step_in_s o' Hin')
                Hf Hf' Ha Ha') as ->.
  exact (Hd o' Hin Hin').
Qed.

Lemma step_rs_valid r : r ∈ o1 :: rs_c ++ rs_s -> r < length h.
Proof using All.
  intros Hin. destruct Hpre as [Hold _ _ _ _ _ _ _ _ _].
  destruct (old_forest_valid body _ _ _ _ r Hold Hin) as [f Hf].
  eapply lookup_lt_Some; exact Hf.
Qed.

Lemma step_rs_not_alt r :
  r ∈ o1 :: rs_c ++ rs_s -> ~ is_alternate h (o1 :: rs_c ++ rs_s) r.
Proof using All.
  intros Hin Ha. destruct (step_alt_rs r Ha) as (_ & Hn & _). contradiction.
Qed.

Lemma step_ws_valid w : w ∈ w1 :: ws' -> w < length h.
Proof using All.
  intros Hin. apply list_elem_of_lookup_1 in Hin as [j Hj].
  destruct Hpre as [_ _ _ Hready _ _ _ _ _ _].
  destruct (Hready j w Hj) as (e & o & _ & _ & fw & _ & Hw & _).
  eapply lookup_lt_Some; exact Hw.
Qed.

Lemma step_unit_pre :
  exists fw path1,
    h !! w1 = Some fw /\ child fw = None /\ alternate fw = Some o1 /\
    parent fw = Some wpar /\ sibling fw = head ws' /\
    effect_tag fw = Some UPDATE /\
    props_snapshot fw = Some (vn_props e1) /\
    props_snapshot fo = Some (vn_props e1) /\
    dict_wf (vn_props e1) /\
    unit_children body fw (expand body e1) /\
    (w1 ∉ rs_c) /\
    up_path h (Some w1) (next_or ws' res) path1 /\
    (forall p, p ∈ path1 -> p = w1 \/ p ∈ path) /\
    spare_alternates h rs_c path1.
Proof using All.
  pose proof step_alt_rs as Hrs. pose proof step_alt_c_ws as Hcw.
  destruct Hpre as [Hold _ _ Hready _ Hwo Hap Hinj Hup _].
  destruct (Hready 0 w1 eq_refl)
    as (e & o & He & Ho & fw & fo' & Hw & Ho' & Hty & Hpr & Hsn & Hch
        & Hdom & Hpar & Halt & Hchild & Hsib & Htag).
  simpl in He, Ho, Hsib. injection He as <-. injection Ho as <-.
  rewrite Hfo in Ho'. injection Ho' as <-.
  destruct (old_forest_lookup body _ _ _ _ 0 o1 e1 Hold eq_refl eq_refl)
    as (fo'' & Hfo'' & Htyo & Hsno & Hwf & Hdomo).
  rewrite Hfo in Hfo''. injection Hfo'' as <-.
  assert (Hpath : exists path1,
             up_path h (Some w1) (next_or ws' res) path1 /\
             (forall p, p ∈ path1 -> p = w1 \/ p ∈ path)).
  { destruct ws' as [|w2 ws2]; simpl in *.
    - exists (w1 :: path). split.
      + eapply up_parent; [exact Hw|exact Hsib|]. rewrite Hpar. exact Hup.
      + intros p Hp. apply elem_of_cons in Hp. exact Hp.
    - exists [w1]. split.
      + eapply up_sibling; [exact Hw|exact Hsib].
      + intros p Hp. apply list_elem_of_singleton in Hp. now left. }
  destruct Hpath as (path1 & Hup1 & Hsub).
  exists fw, path1.
  split; [exact Hw|]. split; [exact Hchild|]. split; [exact Halt|].
  split; [exact Hpar|]. split; [now rewrite Hsib, head_lookup|].
  split; [exact Htag|]. split; [exact Hsn|]. split; [exact Hsno|].
  split; [exact Hwf|].
  split.
  { unfold unit_children, expand. rewrite Hty.
    destruct (vn_type e1) as [tag|id] eqn:Hvt.
    - split; [exact Hch|]. rewrite Hdom. apply Hdomo. now rewrite Htyo.
    - exists (vn_props e1). auto. }
  split.
  { intros Hin. apply (Hwo w1); [left|]. right. apply elem_of_app. now left. }
  split; [exact Hup1|]. split; [exact Hsub|].
  split.
  - intros r f n Hin Hf Ha.
    assert (Hc' : is_alternate h rs_c n) by (exists r, f; auto).
    destruct (Hrs n) as (Hlt & Hnrs & Hnp).
    { eapply is_alternate_mono; [|exact Hc']. apply step_in_c. }
    split; [exact Hlt|]. split.
    + intros Hn. apply Hnrs. now apply step_in_c.
    + intros Hn. destruct (Hsub n Hn) as [->|Hp]; [|contradiction].
      apply (Hcw w1 Hc'). left.
  - intros r r' f f' n Hin Hin' Hf Hf' Ha Ha'.
    eapply Hinj; [| |exact Hf|exact Hf'|exact Ha|exact Ha'];
      now apply step_in_c.
Qed.

Lemma step_unit_rs_kept h1 ws_c r :
  unit_post h h1 w1 ws_c cs (expand body e1) ->
  r <> w1 -> ~ is_alternate h rs_c r -> keeps h h1 r.
Proof using All.
  intros Hpost Hr Ha f Hf.
  eapply unit_post_keeps; [exact Hpost| |exact Hr|exact Hf].
  intros Hin.
  destruct (unit_post_source body _ _ _ _ _ _ _ r Hpost Hc Hin)
    as [_ [Ha'|Hnew]]; [contradiction|].
  apply lookup_lt_Some in Hf. lia.
Qed.

Lemma step_unit_kept_rs h1 ws_c r :
  unit_post h h1 w1 ws_c cs (expand body e1) ->
  r ∈ o1 :: rs_c ++ rs_s -> keeps h h1 r.
Proof using All.
  intros Hpost Hin. eapply step_unit_rs_kept; [exact Hpost| |].
  - intros ->. destruct Hpre as [_ _ _ _ _ Hwo _ _ _ _].
    apply (Hwo w1); [left|exact Hin].
  - intros Ha. apply (step_rs_not_alt r Hin).
    eapply is_alternate_mono; [|exact Ha]. apply step_in_c.
Qed.

Lemma step_alt_back h1 ws_c n :
  unit_post h h1 w1 ws_c cs (expand body e1) ->
  is_alternate h1 rs_c n -> is_alternate h rs_c n.
Proof using All.
  intros Hpost. apply is_alternate_keeps; [|now destruct Hpost].
  intros o Hin. split; [now apply step_rs_valid, step_in_c|].
  eapply step_unit_kept_rs; [exact Hpost|now apply step_in_c].
Qed.

Lemma step_kept h1 ws_c h2 ns_c r :
  unit_post h h1 w1 ws_c cs (expand body e1) ->
  forest_post h1 h2 w1 ws_c rs_c ns_c ->
  r <> w1 -> ~ is_alternate h rs_c r -> keeps h h2 r.
Proof using All.
  intros Hpost HB Hr Ha.
  destruct (decide (r < length h)) as [Hlt|Hge].
  2:{ intros f Hf. apply lookup_lt_Some in Hf. lia. }
  assert (Hws : r ∉ ws_c).
  { intros Hin.
    destruct (unit_post_source body _ _ _ _ _ _ _ r Hpost Hc Hin)
      as [_ [Ha'|Hnew]]; [contradiction|lia]. }
  eapply keeps_trans.
  - eapply step_unit_rs_kept; [exact Hpost|exact Hr|exact Ha].
  - destruct HB as [_ Hframe _ _]. apply Hframe; [exact Hws|].
    intros Ha'. apply Ha. eapply step_alt_back; [exact Hpost|exact Ha'].
Qed.

Lemma step_kept_rs h1 ws_c h2 ns_c r :
  unit_post h h1 w1 ws_c cs (expand body e1) ->
  forest_post h1 h2 w1 ws_c rs_c ns_c ->
  r ∈ o1 :: rs_c ++ rs_s -> keeps h h2 r.
Proof using All.
  intros Hpost HB Hin. eapply step_kept; [exact Hpost|exact HB| |].
  - intros ->. destruct Hpre as [_ _ _ _ _ Hwo _ _ _ _].
    apply (Hwo w1); [left|exact Hin].
  - intros Ha. apply (step_rs_not_alt r Hin).
    eapply is_alternate_mono; [|exact Ha]. apply step_in_c.
Qed.

Lemma step_siblings_pre h1 ws_c h2 ns_c :
  unit_post h h1 w1 ws_c cs (expand body e1) ->
  forest_post h1 h2 w1 ws_c rs_c ns_c ->
  forest_pre body h2 wpar ws' os' es' rs_s res path.
Proof using All.
  intros Hpost HB.
  pose proof (fun r => step_kept h1 ws_c h2 ns_c r Hpost HB) as Hk.
  pose proof (fun r => step_kept_rs h1 ws_c h2 ns_c r Hpost HB) as Hkr.
  destruct step_nodup as (_ & Ho1 & _ & Hnds & _).
  assert (Hgrow : length h <= length h2).
  { destruct Hpost, HB. lia. }
  assert (Hback : forall r f', r ∈ rs_s -> h2 !! r = Some f' ->
            exists f, h !! r = Some f /\ alternate f = alternate f').
  { intros r f' Hin Hf'.
    destruct (keeps_inv h h2 r f' Hgrow (step_rs_valid r (step_in_s r Hin))
                (Hkr r (step_in_s r Hin)) Hf') as (f & wt & Hf & ->).
    exists f. split; [exact Hf|]. now destruct f. }
  pose proof Hpre as [_ _ Hlen Hready Hndw Hwo _ Hinj Hup Hpw].
  apply NoDup_cons in Hndw as [Hw1 Hndw].
  split.
  - eapply old_forest_keeps; [exact Hs|]. intros r Hin. apply Hkr.
    now apply step_in_s.
  - exact Hnds.
  - simpl in Hlen. lia.
  - intros j w Hj.
    destruct (Hready (S j) w Hj) as (e & o & He & Ho & Hr).
    exists e, o. split; [exact He|]. split; [exact Ho|]. simpl in Hr.
    assert (Hin : w ∈ ws') by (eapply list_elem_of_lookup_2; exact Hj).
    eapply ready_keeps; [exact Hr| |].
    + apply Hk.
      * intros ->. contradiction.
      * intros Ha. apply (step_alt_c_ws w Ha). now right.
    + apply Hkr, step_in_s. eapply old_forest_roots; [exact Hs|].
      eapply list_elem_of_lookup_2; exact Ho.
  - exact Hndw.
  - intros w Hin Hin'. apply (Hwo w); [now right|now apply step_in_s].
  - intros r f' n Hin Hf' Ha.
    destruct (Hback r f' Hin Hf') as (f & Hf & Heq). rewrite <- Heq in Ha.
    assert (Hs' : is_alternate h rs_s n) by (exists r, f; auto).
    destruct (step_alt_rs n) as (Hlt & Hnrs & Hnp).
    { eapply is_alternate_mono; [|exact Hs']. apply step_in_s. }
    split; [lia|]. split; [|split].
    + intros Hn. apply Hnrs. now apply step_in_s.
    + exact Hnp.
    + intros Hn.
      destruct (step_alt_s_ws n Hs') as (j & o & f0 & Ho & Hj & Hos & Hf0 & Ha0);
        [now right|].
      exists j. split; [|exact Hj]. rewrite Ho. f_equal.
      eapply Hinj; [| |exact Hf0|exact Hf|exact Ha0|exact Ha];
        now apply step_in_s.
  - intros r r' f1 f1' n Hin Hin' Hf1 Hf1' Ha Ha'.
    destruct (Hback r f1 Hin Hf1) as (f & Hf & Heq). rewrite <- Heq in Ha.
    destruct (Hback r' f1' Hin' Hf1') as (f' & Hf' & Heq').
    rewrite <- Heq' in Ha'.
    eapply Hinj; [| |exact Hf|exact Hf'|exact Ha|exact Ha'];
      now apply step_in_s.
  - eapply up_path_keeps; [exact Hup|]. intros p Hp. apply Hk.
    + intros ->. apply (Hpw w1 Hp). left.
    + intros Ha. destruct (step_alt_rs p) as (_ & _ & Hn); [|contradiction].
      eapply is_alternate_mono; [|exact Ha]. apply step_in_c.
  - intros p Hp Hin. apply (Hpw p Hp). now right.
Qed.

Lemma step_kept_last h1 ws_c h2 ns_c h3 ns_s r :
  unit_post h h1 w1 ws_c cs (expand body e1) ->
  forest_post h1 h2 w1 ws_c rs_c ns_c ->
  forest_post h2 h3 wpar ws' rs_s ns_s ->
  r ∉ ws' -> ~ is_alternate h rs_s r -> keeps h2 h3 r.
Proof using All.
  intros Hpost HB HC Hr Ha. destruct HC as [_ Hframe _ _].
  apply Hframe; [exact Hr|]. intros Ha'. apply Ha.
  eapply is_alternate_keeps; [| |exact Ha'].
  - intros o Hin. split; [now apply step_rs_valid, step_in_s|].
    eapply step_kept_rs; [exact Hpost|exact HB|now apply step_in_s].
  - destruct Hpost, HB. lia.
Qed.

Lemma step_children_source h1 ws_c h2 ns_c n :
  unit_post h h1 w1 ws_c cs (expand body e1) ->
  forest_post h1 h2 w1 ws_c rs_c ns_c ->
  n ∈ ns_c -> is_alternate h rs_c n \/ length h <= n.
Proof using All.
  intros Hpost HB Hin. pose proof HB as [_ _ _ Hsrc].
  destruct (Hsrc n Hin) as [Hw|[Ha|Hnew]].
  - now destruct (unit_post_source body _ _ _ _ _ _ _ n Hpost Hc Hw).
  - left. eapply step_alt_back; [exact Hpost|exact Ha].
  - right. destruct Hpost. lia.
Qed.

Lemma step_post h1 ws_c h2 ns_c h3 ns_s :
  unit_post h h1 w1 ws_c cs (expand body e1) ->
  forest_post h1 h2 w1 ws_c rs_c ns_c ->
  forest_post h2 h3 wpar ws' rs_s ns_s ->
  forest_post h h3 wpar (w1 :: ws') (o1 :: rs_c ++ rs_s)
    (w1 :: ns_c ++ ns_s).
Proof using All.
  intros Hpost HB HC.
  pose proof (fun r => step_kept h1 ws_c h2 ns_c r Hpost HB) as Hk.
  pose proof (fun r => step_kept_rs h1 ws_c h2 ns_c r Hpost HB) as Hkr.
  pose proof (fun r => step_kept_last h1 ws_c h2 ns_c h3 ns_s r Hpost HB HC)
    as Hk3.
  pose proof (fun n => step_children_source h1 ws_c h2 ns_c n Hpost HB)
    as Hsrc_c.
  pose proof Hpre as [_ _ _ _ Hndw Hwo _ _ _ _].
  apply NoDup_cons in Hndw as [Hw1 Hndw].
  assert (Hk3rs : forall r, r ∈ o1 :: rs_c ++ rs_s -> keeps h2 h3 r).
  { intros r Hin. apply Hk3.
    - intros Hr. apply (Hwo r); [now right|exact Hin].
    - intros Ha. apply (step_rs_not_alt r Hin).
      eapply is_alternate_mono; [|exact Ha]. apply step_in_s. }
  split.
  - destruct Hpost, HB, HC. lia.
  - intros r Hr Ha. eapply keeps_trans.
    + apply Hk.
      * intros ->. apply Hr. left.
      * intros Ha'. apply Ha. eapply is_alternate_mono; [|exact Ha'].
        apply step_in_c.
    + apply Hk3.
      * intros Hin. apply Hr. now right.
      * intros Ha'. apply Ha. eapply is_alternate_mono; [|exact Ha'].
        apply step_in_s.
  - destruct step_unit_pre
      as (fw & path1 & Hw & Hchild & Halt & Hpar & Hsib & Htag & Hsn & Hsno
          & Hwf & _).
    assert (Hw1c : w1 ∉ ws_c).
    { intros Hin.
      now destruct (unit_post_source body _ _ _ _ _ _ _ w1 Hpost Hc Hin). }
    pose proof Hpost as [_ _ _ _ _ Hframe].
    destruct (Hframe w1 fw Hw Hw1c) as [wt Hw'].
    rewrite decide_True in Hw' by reflexivity.
    pose proof HB as [_ HframeB HbuiltB _].
    assert (Hnb : ~ is_alternate h1 rs_c w1).
    { intros Ha. apply (step_alt_c_ws w1); [|left].
      eapply step_alt_back; [exact Hpost|exact Ha]. }
    destruct (HframeB w1 Hw1c Hnb _ Hw') as [wt' Hw''].
    destruct (Hk3 w1 Hw1 step_alt_s_w1 _ Hw'') as [wt'' Hw3].
    destruct (Hkr o1 ltac:(left) fo Hfo) as [wto Hfo2].
    destruct (Hk3rs o1 ltac:(left) _ Hfo2) as [wto' Hfo3].
    simpl.
    eapply built_cons with (pr := vn_props e1);
      [exact Hw3|exact Hpar|exact Htag|exact Halt|exact Hfo3|exact Hsn
      |exact Hsno|exact Hwf| |].
    + simpl. eapply built_keeps; [exact HbuiltB|].
      intros r [Hin|Hin].
      * apply Hk3.
        -- intros Hr. destruct (Hsrc_c r Hin) as [Ha|Hnew].
           ++ apply (step_alt_c_ws r Ha). now right.
           ++ pose proof (step_ws_valid r ltac:(now right)). lia.
        -- intros Ha'. destruct (Hsrc_c r Hin) as [Ha|Hnew].
           ++ exact (step_alt_c_s r Ha Ha').
           ++ destruct (step_alt_rs r) as (Hlt & _); [|lia].
              eapply is_alternate_mono; [|exact Ha']. apply step_in_s.
      * apply Hk3rs. now apply step_in_c.
    + simpl. rewrite Hsib. now destruct HC.
  - intros n Hin. apply elem_of_cons in Hin as [->|Hin]; [left; left|].
    apply elem_of_app in Hin as [Hin|Hin].
    + destruct (Hsrc_c n Hin) as [Ha|Hnew]; [|auto].
      right. left. eapply is_alternate_mono; [|exact Ha]. apply step_in_c.
    + pose proof HC as [_ _ _ Hsrc]. destruct (Hsrc n Hin) as [Hw|[Ha|Hnew]].
      * left. now right.
      * right. left. eapply is_alternate_mono; [apply step_in_s|].
        eapply is_alternate_keeps; [| |exact Ha].
        -- intros o Ho. split; [now apply step_rs_valid, step_in_s|].
           apply Hkr. now apply step_in_s.
        -- destruct Hpost, HB. lia.
      * right. right. destruct Hpost, HB. lia.
Qed.

End ForestStep.

Lemma old_forest_inv body h os es rs :
  old_forest body h os es rs ->
  (os = [] /\ es = [] /\ rs = []) \/
  (exists o fo e os' es' cs rs_c rs_s,
      os = o :: os' /\ es = e :: es' /\ rs = o :: rs_c ++ rs_s /\
      h !! o = Some fo /\ child fo = head cs /\
      old_forest body h cs (expand body e) rs_c /\
      old_forest body h os' es' rs_s).
Proof.
  intros [|o fo e os' es' cs rs_c rs_s Hfo _ _ _ _ Hcs Hc _ Hs].
  - left. auto.
  - right. exists o, fo, e, os', es', cs, rs_c, rs_s. auto 10.
Qed.

Lemma forest_pass_nil component body g wpar ws res path :
  forest_pre body (heap g) wpar ws [] [] [] res path ->
  _next_unit_of_work g = next_or ws res ->
  exists g' ns,
    unit_steps component g g' /\
    _next_unit_of_work g' = res /\
    forest_post (heap g) (heap g') wpar ws [] ns /\
    quiet g g'.
Proof.
  intros [_ _ Hlen _ _ _ _ _ _ _] Hnext.
  destruct ws; [|discriminate]. exists g, [].
  split; [constructor|]. split; [exact Hnext|]. split; [|apply quiet_refl].
  split.
  - lia.
  - intros. apply keeps_refl.
  - constructor.
  - intros n Hn. inversion Hn.
Qed.

Lemma forest_pass component body n :
  stable component body -> forest_pass_statement component body n.
Proof.
  intros Hst. induction n as [|n IH];
    intros rs Hlen g wpar ws os es res path Hpre Hdel Hnext.
  { destruct rs; [|simpl in Hlen; lia].
    pose proof Hpre as [Hold _ _ _ _ _ _ _ _ _].
    apply old_forest_inv in Hold
        as [(-> & -> & _)|(? & ? & ? & ? & ? & ? & ? & ? & _ & _ & ? & _)];
      [|discriminate].
    eapply forest_pass_nil; eauto. }
  pose proof Hpre as [Hold _ Hlenw _ _ _ _ _ _ _].
  apply old_forest_inv in Hold
      as [(-> & -> & ->)
         |(o1 & fo & e1 & os' & es' & cs & rs_c & rs_s
           & -> & -> & -> & Hfo & Hcs & Hc & Hs)].
  { eapply forest_pass_nil; eauto. }
  destruct ws as [|w1 ws']; [discriminate|].
  simpl in Hlen. rewrite length_app in Hlen.
  destruct (step_unit_pre body _ _ _ _ _ _ _ _ _ _ _ _ _ _
              Hpre Hfo Hcs Hc Hs)
    as (fw & path1 & Hw & Hchild & Halt & Hpar & Hsibw & Htag & Hsn & Hsno
        & Hwf & Huc & Hw1c & Hup1 & Hsub & Hspare).
  destruct (step_nodup body _ _ _ _ _ _ _ _ _ _ _ _ _ _
              Hpre Hfo Hcs Hc Hs) as (_ & _ & Hndc & _ & _).
  destruct (perform_unit_spec component body g w1 fw o1 fo cs
              (expand body e1) rs_c (next_or ws' res) path1
              Hst Hw Hchild Halt Hfo Hcs Huc Hc Hndc Hw1c Hspare Hup1 Hdel)
    as (fuel & g1 & ws_c & Hrun & Hpost & Hq & Hn1 & Ht1).
  remember (with_ticks (S (ticks g1))
              (with_next_unit_of_work (next_or ws_c (next_or ws' res)) g1))
    as gA eqn:HgA.
  assert (HheapA : heap gA = heap g1) by (now subst gA).
  assert (HstepA : unit_step component g gA).
  { exists w1, fuel, (next_or ws_c (next_or ws' res)), g1.
    split; [now rewrite Hnext|]. split; [exact Hrun|exact HgA]. }
  assert (HqA : quiet g gA).
  { subst gA. destruct Hq. split; simpl; assumption. }
  destruct (IH rs_c ltac:(lia) gA w1 ws_c cs (expand body e1)
              (next_or ws' res) path1)
    as (gB & ns_c & HstepsB & HnextB & HB & HqB).
  { rewrite HheapA. eapply unit_post_forest_pre; eassumption. }
  { destruct HqA as [-> _ _ _ _ _ _ _ _ _]. exact Hdel. }
  { now subst gA. }
  rewrite HheapA in HB.
  destruct (IH rs_s ltac:(lia) gB wpar ws' os' es' res path)
    as (gC & ns_s & HstepsC & HnextC & HC & HqC).
  { eapply (step_siblings_pre body _ _ _ _ _ _ _ _ _ _ _ _ _ _
              Hpre Hfo Hcs Hc Hs); eassumption. }
  { destruct HqB as [-> _ _ _ _ _ _ _ _ _].
    destruct HqA as [-> _ _ _ _ _ _ _ _ _]. exact Hdel. }
  { exact HnextB. }
  exists gC, (w1 :: ns_c ++ ns_s).
  split.
  { eapply steps_step; [exact HstepA|].
    eapply unit_steps_trans; [exact HstepsB|exact HstepsC]. }
  split; [exact HnextC|]. split.
  - eapply (step_post body _ _ _ _ _ _ _ _ _ _ _ _ _ _
              Hpre Hfo Hcs Hc Hs); eassumption.
  - eapply quiet_trans; [exact HqA|].
    eapply quiet_trans; [exact HqB|exact HqC].
Qed.

(** *** The commit of a built tree *)

Lemma update_dom_same dom p : dict_wf p -> update_dom dom p p = [].
Proof.
  intros Hwf. destruct (update_dom dom p p) as [|c l] eqn:E; [reflexivity|].
  exfalso.
  assert (Hin : In c (update_dom dom p p)) by (rewrite E; now left).
  unfold update_dom in Hin. rewrite !in_app_iff, !in_flat_map in Hin.
  destruct Hin as [([k v] & Hi & Hc)|[(key & Hk & Hc)
                  |[([k v] & Hi & Hc)|(name & Hn & Hc)]]].
  - apply remove_old_listener_calls in Hc as (_ & _ & Hne & _).
    apply Hne. simpl. unfold dict_get.
    now rewrite (dict_In_lookup p k v Hwf Hi).
  - apply remove_old_property_calls in Hc as (_ & Hc & _).
    unfold dict_contains in Hc.
    destruct (dict_lookup p key) eqn:E2; [discriminate|].
    apply dict_lookup_None in E2. contradiction.
  - apply set_new_property_calls in Hc as (_ & Hne & _).
    apply Hne. simpl. unfold dict_get.
    now rewrite (dict_In_lookup p k v Hwf Hi).
  - apply add_new_listener_calls in Hc as (_ & Hne & _). now apply Hne.
Qed.

Lemma find_dom_parent_above h p k d :
  dom_above h p k d ->
  forall fuel g, k < fuel -> heap g = h ->
    find_dom_parent fuel (Some p) g = Ok d g.
Proof.
  induction 1 as [p f d Hf Hd|p f q k d Hf Hd Hp _ IH];
    intros fuel g Hlt <-; (destruct fuel as [|fuel]; [lia|]); simpl.
  - rewrite (bind_eq _ _ _ _ _ (attr_eq p dom g f Hf)), Hd. reflexivity.
  - rewrite (bind_eq _ _ _ _ _ (attr_eq p dom g f Hf)), Hd.
    rewrite (bind_eq _ _ _ _ _ (attr_eq p parent g f Hf)), Hp.
    apply IH; [lia|reflexivity].
Qed.

Lemma with_effects_same g : with_effects (effects g ++ map Backend []) g = g.
Proof. destruct g; simpl. now rewrite app_nil_r. Qed.

Lemma commit_work_built h p r ns rs k d fuel g :
  built h p (Some r) ns rs -> dom_above h p k d -> k < fuel -> heap g = h ->
  exists f,
    h !! r = Some f /\
    commit_work fuel (Some r) g
    = Ok tt (with_work (_work g ++ [child f; sibling f]) g).
Proof.
  intros Hb Hd Hlt <-.
  inversion Hb
    as [|? f o fo pr nc rc nsb rsb Hf Hp Ht Ha Hfo Hs Hso Hwf Hbc Hbs];
    subst.
  exists f. split; [exact Hf|].
  unfold commit_work.
  rewrite (bind_eq _ _ _ _ _ (attr_eq r parent g f Hf)), Hp.
  rewrite (bind_eq _ _ _ _ _
             (find_dom_parent_above _ _ _ _ Hd fuel g Hlt eq_refl)).
  rewrite (bind_eq _ _ _ _ _ (get_fiber_eq r g f Hf)).
  assert (Hin :
    match effect_tag f, dom f with
    | Some PLACEMENT, Some d0 => renderer_calls [Renderer.insert d0 d]
    | Some UPDATE, Some d0 =>
        let* a := attr (alternate f) props_snapshot in
        update_dom_call d0 a (props_snapshot f)
    | Some DELETION, _ => commit_deletion fuel (Some r) d
    | _, _ => ret tt
    end g = Ok tt g).
  { rewrite Ht. destruct (dom f) as [d0|]; [|reflexivity].
    rewrite Ha, (bind_eq _ _ _ _ _ (attr_eq o props_snapshot g fo Hfo)).
    rewrite Hso, Hs. unfold update_dom_call, renderer_calls.
    rewrite update_dom_same by exact Hwf. unfold modify.
    now rewrite with_effects_same. }
  rewrite (bind_eq _ _ _ _ _ Hin).
  rewrite (bind_eq _ _ _ _ _ (attr_eq r child g f Hf)).
  unfold work_put. rewrite bind_modify.
  rewrite (bind_eq _ _ _ _ _
             (attr_eq r sibling (with_work (_work g ++ [child f]) g) f Hf)).
  unfold modify. destruct g; simpl. now rewrite <- app_assoc.
Qed.

Lemma queue_built_app h K q1 m1 q2 m2 :
  queue_built h K q1 m1 -> queue_built h K q2 m2 ->
  queue_built h K (q1 ++ q2) (m1 + m2).
Proof.
  induction 1 as [|p c ns rs k d q m m' Hb Hd Hk _ IH ->]; intros H2.
  - exact H2.
  - simpl. eapply qb_cons; [exact Hb|exact Hd|exact Hk|exact (IH H2)|lia].
Qed.

Lemma with_work_same g q : _work g = q -> with_work q g = g.
Proof. intros <-. now destruct g. Qed.

Lemma with_work_twice g q1 q2 :
  with_work q2 (with_work q1 g) = with_work q2 g.
Proof. now destruct g. Qed.

Lemma commit_queue_built h K :
  forall fuel m q g,
    queue_built h K q m -> heap g = h -> _work g = q ->
    K + m + 1 < fuel ->
    commit_queue fuel g = Ok tt (with_work [] g).
Proof.
  induction fuel as [|fuel IH]; intros m q g Hq Hh Hw Hlt; [lia|].
  simpl. rewrite bind_gets, Hw.
  destruct Hq as [|p c ns rs k d q m m' Hb Hd Hk Hq ->].
  - now rewrite (with_work_same g []).
  - rewrite bind_modify. destruct c as [r|].
    + destruct (commit_work_built h p r ns rs k d fuel (with_work q g)
                  Hb Hd ltac:(lia)) as (f & Hf & Hrun).
      { rewrite <- Hh. now destruct g. }
      rewrite (bind_eq _ _ _ _ _ Hrun).
      inversion Hb
        as [|? f' o fo pr nc rc nsb rsb Hf' Hp Ht Ha Hfo Hs Hso Hwf Hbc Hbs];
        subst.
      rewrite Hf in Hf'. injection Hf' as <-.
      assert (Hdr : exists k' d', dom_above (heap g) r k' d' /\
                                  k' + length nc <= K).
      { simpl in Hk. rewrite length_app in Hk.
        destruct (dom f) as [d0|] eqn:Hdom.
        - exists 0, d0. split; [eapply dom_here; eassumption|lia].
        - exists (S k), d. split; [eapply dom_up; eassumption|lia]. }
      destruct Hdr as (k' & d' & Hdr & Hk').
      simpl in Hk, Hlt. rewrite length_app in Hk, Hlt.
      rewrite (IH (m + (2 * length nc + 1 + (2 * length nsb + 1 + 0)))
                 (q ++ [child f; sibling f])).
      * now rewrite !with_work_twice.
      * apply queue_built_app; [exact Hq|].
        eapply qb_cons; [exact Hbc|exact Hdr|exact Hk'| |reflexivity].
        eapply qb_cons; [exact Hbs|exact Hd|lia|constructor|reflexivity].
      * now destruct g.
      * now destruct g.
      * lia.
    + inversion Hb; subst. unfold commit_work. rewrite bind_ret.
      rewrite (IH m q).
      * now rewrite with_work_twice.
      * exact Hq.
      * now destruct g.
      * now destruct g.
      * simpl in Hlt. lia.
Qed.

Lemma commit_root_built w0 f0 d ns rs g fuel :
  _wip_root g = Some w0 ->
  heap g !! w0 = Some f0 ->
  dom f0 = Some d ->
  built (heap g) w0 (child f0) ns rs ->
  _deletions g = Some [] ->
  _work g = [] ->
  3 * length ns + 2 < fuel ->
  commit_root fuel g
  = Ok tt (with_wip_root None (with_current_root (Some w0) g)).
Proof.
  intros Hwip Hf0 Hd Hb Hdel Hwork Hlt.
  unfold commit_root. rewrite bind_gets, Hdel.
  rewrite bind_modify, bind_modify, bind_gets. simpl. rewrite Hwip.
  set (g1 := with_deletions (Some []) (with_work (_work g ++ []) g)).
  assert (Hh1 : heap g1 = heap g) by (now destruct g).
  rewrite (bind_eq _ _ _ _ _
             (attr_eq w0 child g1 f0 ltac:(rewrite Hh1; exact Hf0))).
  unfold work_put. rewrite bind_modify.
  rewrite (bind_eq _ _ _ _ _
             (commit_queue_built (heap g) (0 + length ns) fuel
                (2 * length ns + 1 + 0) [child f0]
                (with_work (_work g1 ++ [child f0]) g1)
                ltac:(eapply qb_cons;
                        [exact Hb|eapply dom_here; eassumption|lia
                        |constructor|reflexivity])
                ltac:(now destruct g)
                ltac:(subst g1; destruct g; simpl in *; subst; reflexivity)
                ltac:(lia))).
  rewrite bind_gets, bind_modify.
  unfold modify. subst g1. destruct g; simpl in *. subst. reflexivity.
Qed.

(** *** The pass over a committed tree *)

Lemma rerender_units component body g g1 e cur rs container :
  stable component body ->
  committed body g e cur rs ->
  heap g1
  = heap g ++ [mkFiber None (Some []) None (Some [e]) (Some container)
                 None None None (Some cur) None None] ->
  _next_unit_of_work g1 = Some (length (heap g)) ->
  _deletions g1 = Some [] ->
  exists g2 root ns,
    unit_steps component g1 g2 /\
    _next_unit_of_work g2 = None /\
    quiet g1 g2 /\
    heap g2 !! length (heap g) = Some root /\
    dom root = Some container /\
    built (heap g2) (length (heap g)) (child root) ns rs /\
    (forall r, r ∈ rs -> keeps (heap g) (heap g2) r).
Proof.
  intros Hst
    [Hcur (fcur & cs & Hfcur & Hchild & Hold) Hnd [Hap Hinj] Hwork]
    Hheap Hnext Hdel.
  remember (length (heap g)) as w0 eqn:Hw0.
  remember (mkFiber None (Some []) None (Some [e]) (Some container)
              None None None (Some cur) None None) as root eqn:Hroot_eq.
  assert (Hroot : heap g1 !! w0 = Some root).
  { rewrite Hheap. now apply list_lookup_middle. }
  assert (Hk0 : forall r, keeps (heap g) (heap g1) r).
  { intros r f Hf. exists (watcher f). rewrite set_watcher_same, Hheap.
    now apply lookup_app_l_Some. }
  assert (Hvalid : forall r, r ∈ rs -> r < w0).
  { intros r Hin.
    destruct (old_forest_valid body _ _ _ _ r Hold Hin) as [f Hf].
    subst w0. eapply lookup_lt_Some; exact Hf. }
  assert (Hback : forall r f, r ∈ rs -> heap g1 !! r = Some f ->
                              heap g !! r = Some f).
  { intros r f Hin Hf. rewrite Hheap, lookup_app_l in Hf; [exact Hf|].
    rewrite <- Hw0. now apply Hvalid. }
  assert (Hold1 : old_forest body (heap g1) cs [e] rs).
  { eapply old_forest_keeps; [exact Hold|]. intros r _. apply Hk0. }
  assert (Hfcur1 : heap g1 !! cur = Some fcur).
  { rewrite Hheap. now apply lookup_app_l_Some. }
  assert (Hw0rs : w0 ∉ rs).
  { intros Hin. pose proof (Hvalid w0 Hin). lia. }
  assert (Hspare : spare_alternates (heap g1) rs [w0]).
  { split.
    - intros r f n Hin Hf Ha.
      destruct (Hap r f n Hin (Hback r f Hin Hf) Ha) as (Hlt & Hnrs & _).
      split; [rewrite Hheap, length_app; lia|]. split; [exact Hnrs|].
      intros Hn. apply list_elem_of_singleton in Hn. lia.
    - intros r r' f f' n Hin Hin' Hf Hf' Ha Ha'.
      eapply Hinj; [exact Hin|exact Hin'| | |exact Ha|exact Ha'];
        now apply Hback. }
  assert (Hup : up_path (heap g1) (Some w0) None [w0]).
  { eapply up_parent; [exact Hroot|now subst root|].
    subst root. simpl. constructor. }
  assert (Huc : unit_children body root [e]).
  { subst root. unfold unit_children. simpl. split; [reflexivity|eauto]. }
  destruct (perform_unit_spec component body g1 w0 root cur fcur cs [e] rs
              None [w0] Hst Hroot ltac:(now subst root)
              ltac:(now subst root)
              Hfcur1 Hchild Huc Hold1 Hnd Hw0rs Hspare Hup Hdel)
    as (fuel & g1' & ws & Hrun & Hpost & Hq & Hn1 & Ht1).
  remember (with_ticks (S (ticks g1'))
              (with_next_unit_of_work (next_or ws None) g1'))
    as gA eqn:HgA.
  assert (HheapA : heap gA = heap g1') by (now subst gA).
  assert (HstepA : unit_step component g1 gA).
  { exists w0, fuel, (next_or ws None), g1'.
    split; [exact Hnext|]. split; [exact Hrun|exact HgA]. }
  assert (HqA : quiet g1 gA).
  { subst gA. destruct Hq. split; simpl; assumption. }
  assert (HpreA : forest_pre body (heap gA) w0 ws cs [e] rs None [w0]).
  { rewrite HheapA. eapply unit_post_forest_pre; eassumption. }
  destruct (forest_pass component body (length rs) Hst rs (le_n _) gA w0
              ws cs [e] None [w0] HpreA)
    as (gB & ns & HstepsB & HnextB & HB & HqB).
  { destruct HqA as [-> _ _ _ _ _ _ _ _ _]. exact Hdel. }
  { now subst gA. }
  rewrite HheapA in HB, HpreA.
  assert (Hw0ws : w0 ∉ ws).
  { intros Hin.
    now destruct (unit_post_source body _ _ _ _ _ _ _ w0 Hpost Hold1
                    Hin). }
  assert (Hk1 : forall r, r ∈ rs -> keeps (heap g1) (heap g1') r).
  { intros r Hin. eapply unit_post_keeps; [exact Hpost| |].
    - intros Hin'. destruct HpreA as [_ _ _ _ _ Hwo _ _ _ _].
      exact (Hwo r Hin' Hin).
    - intros ->. contradiction. }
  assert (Halt : forall r, is_alternate (heap g1') rs r ->
                           r <> w0 /\ (r ∉ rs)).
  { intros r Ha.
    apply (is_alternate_keeps (heap g1) (heap g1')) in Ha.
    - destruct Ha as (o & fo & Hin & Hfo & Ha).
      destruct Hspare as [Hap1 _].
      destruct (Hap1 o fo r Hin Hfo Ha) as (_ & Hnrs & Hnp).
      split; [|exact Hnrs]. intros ->. apply Hnp. left.
    - intros o Hin. split; [|now apply Hk1].
      rewrite Hheap, length_app. pose proof (Hvalid o Hin). lia.
    - now destruct Hpost. }
  pose proof Hpost as [_ _ _ _ _ Hframe].
  destruct (Hframe w0 root Hroot Hw0ws) as [wt Hroot1].
  rewrite decide_True in Hroot1 by reflexivity.
  pose proof HB as [_ HframeB HbuiltB _].
  destruct (HframeB w0 Hw0ws ltac:(intros Ha; now destruct (Halt w0 Ha))
              _ Hroot1) as [wt' HrootB].
  exists gB, (set_watcher wt' (set_child (head ws) (set_watcher wt root))), ns.
  split; [eapply steps_step; [exact HstepA|exact HstepsB]|].
  split; [exact HnextB|].
  split; [eapply quiet_trans; [exact HqA|exact HqB]|].
  split; [exact HrootB|]. split; [now subst root|].
  split; [exact HbuiltB|].
  intros r Hin. eapply keeps_trans; [apply Hk0|].
  eapply keeps_trans; [now apply Hk1|]. apply HframeB.
  - intros Hin'. destruct HpreA as [_ _ _ _ _ Hwo _ _ _ _].
    exact (Hwo r Hin' Hin).
  - intros Ha. now destruct (Halt r Ha).
Qed.

Lemma backend_calls_callback cb : backend_calls (callback_effect cb) = [].
Proof. now destruct cb. Qed.

Lemma rerender_work_loop component body mode_truth g g1 e cur rs
    container :
  stable component body ->
  committed body g e cur rs ->
  heap g1
  = heap g ++ [mkFiber None (Some []) None (Some [e]) (Some container)
                 None None None (Some cur) None None] ->
  _next_unit_of_work g1 = Some (length (heap g)) ->
  _wip_root g1 = Some (length (heap g)) ->
  _deletions g1 = Some [] ->
  _work g1 = [] ->
  mode_truth (event_loop_type g1) = true ->
  exists fuel0 g' root ns,
    (forall fuel clock deadline,
        fuel0 <= fuel ->
        work_loop component mode_truth clock fuel deadline g1 = Ok tt g') /\
    backend_calls (effects g') = backend_calls (effects g1) /\
    _current_root g' = Some (length (heap g)) /\
    heap g' !! length (heap g) = Some root /\
    built (heap g') (length (heap g)) (child root) ns rs /\
    (forall r, r ∈ rs -> keeps (heap g) (heap g') r).
Proof.
  intros Hst Hcm Hheap Hnext Hwip Hdel Hwork Hmode.
  destruct (rerender_units component body g g1 e cur rs container Hst Hcm
              Hheap Hnext Hdel)
    as (g2 & root & ns & Hsteps & Hnone & Hq & Hroot & Hdom & Hbuilt & Hkeep).
  destruct (unit_steps_work_loop_while component mode_truth g1 g2 Hsteps
              Hmode Hnone) as [fuel1 Hwhile].
  pose proof Hq as [Hqd Hqb _ _ Hqw _ _ _ Hqq _].
  exists (S (Nat.max fuel1 (3 * length ns + 3))).
  exists (with_effects
            (effects g2 ++ callback_effect (_render_callback g2))
            (with_wip_root None
               (with_current_root (Some (length (heap g))) g2))).
  exists root, ns.
  split.
  { intros [|fuel] clock deadline Hle; [lia|]. simpl.
    rewrite (bind_eq _ _ _ _ _ (Hwhile fuel clock deadline ltac:(lia))).
    rewrite work_loop_tail by exact Hnone.
    rewrite Hqw, Hwip.
    rewrite (commit_root_built (length (heap g)) root container ns rs g2
               fuel); [reflexivity| | | | | | |lia]; try assumption;
      congruence. }
  simpl. rewrite backend_calls_app, backend_calls_callback, app_nil_r.
  auto.
Qed.

Lemma request_idle_work_async_state component mode_truth perf_counter_ns g :
  event_loop_type g <> SYNC ->
  exists g',
    (forall fuel,
        request_idle_work component mode_truth perf_counter_ns fuel None g
        = Ok tt g') /\
    heap g' = heap g /\
    _wip_root g' = _wip_root g /\
    _next_unit_of_work g' = _next_unit_of_work g /\
    _deletions g' = _deletions g /\
    _work g' = _work g /\
    event_loop_type g' = event_loop_type g /\
    backend_calls (effects g') = backend_calls (effects g).
Proof.
  intros Hm. unfold request_idle_work, request_idle_work_with, call_request.
  unfold bind, gets, modify, read_clock, emit, when. simpl.
  destruct g as [mode ? ? ? ? ? [|] [|] ? ? ? ? ? ?]; simpl in *;
    destruct mode; try congruence; simpl;
    eexists; (split; [intros fuel; reflexivity|]); simpl;
    rewrite backend_calls_app, app_nil_r; repeat split; reflexivity.
Qed.

Lemma render_async component mode_truth perf_counter_ns element container
    callback g :
  event_loop_type g <> SYNC ->
  exists g1,
    (forall fuel,
        render component mode_truth perf_counter_ns fuel element container
          callback g = Ok tt g1) /\
    heap g1
    = heap g ++ [mkFiber None (Some []) None (Some [element])
                   (Some container) None None None (_current_root g)
                   None None] /\
    _next_unit_of_work g1 = Some (length (heap g)) /\
    _wip_root g1 = Some (length (heap g)) /\
    _deletions g1 = Some [] /\
    _work g1 = _work g /\
    event_loop_type g1 = event_loop_type g /\
    backend_calls (effects g1) = backend_calls (effects g).
Proof.
  intros Hm.
  destruct (request_idle_work_async_state component mode_truth
              perf_counter_ns
              (with_render_callback callback
                 (with_next_unit_of_work (Some (length (heap g)))
                    (with_deletions (Some [])
                       (with_wip_root (Some (length (heap g)))
                          (with_heap
                             (heap g
                              ++ [mkFiber None (Some []) None
                                    (Some [element]) (Some container) None
                                    None None (_current_root g) None None])
                             g))))))
    as (g1 & Hrun & Hh & Hw & Hn & Hd & Hq & Hmo & Hb); [exact Hm|].
  exists g1. split; [|simpl in *; auto 10].
  intros fuel. unfold render.
  rewrite bind_gets, bind_alloc, !bind_modify. apply Hrun.
Qed.

Lemma built_tag h p c ns rs n :
  built h p c ns rs -> n ∈ ns -> tag_of h n = Some UPDATE.
Proof.
  induction 1 as [p|p r f o fo pr nc rc nsb rsb
                    Hf Hp Ht Ha Hfo Hs Hso Hwf _ IHc _ IHs]; intros Hin.
  - inversion Hin.
  - apply elem_of_cons in Hin as [->|Hin].
    + unfold tag_of. now rewrite Hf.
    + apply elem_of_app in Hin as [Hin|Hin]; auto.
Qed.

Lemma keeps_tag h h' r : r < length h -> keeps h h' r -> tag_of h' r = tag_of h r.
Proof.
  intros Hlt Hk. destruct (lookup_lt_is_Some_2 _ _ Hlt) as [f Hf].
  destruct (Hk f Hf) as [wt Hf']. unfold tag_of. rewrite Hf, Hf'.
  now destruct f.
Qed.

(** ** C2: re-rendering an unchanged tree *)

(** C2 (amended). For every committed tree (the committed fibers [rs]
    of the descriptor [e] below the current root) of components that
    are functions of their props (every call of a component on the same
    props returns an equal descriptor), rendering [e] again runs a
    pass that makes no backend call at all, so no [set_attribute],
    [clear_attribute], [add_event_listener] or [remove_event_listener]
    call: the backend calls among the effects are the same after the pass
    as before it.  The pass returns for every large enough fuel; in
    synchronous mode it runs within [render], in the other modes in the
    call of [work_loop] that the host loop makes, whatever the clock and
    the deadline.  The new current root has below it a tree [ns] of
    fibers paired with the committed ones, every one tagged UPDATE (none
    PLACEMENT), and every committed fiber keeps the tag it had (none is
    tagged DELETION).  The mode is true, as every member of an [Enum]
    is. *)
Theorem rerender_unchanged_makes_no_call component body mode_truth
    perf_counter_ns g e cur rs container callback :
  stable component body ->
  committed body g e cur rs ->
  mode_truth (event_loop_type g) = true ->
  exists fuel0 g1 g' root ns,
    (forall fuel,
        fuel0 <= fuel ->
        render component mode_truth perf_counter_ns fuel e container callback g
        = Ok tt g1) /\
    (event_loop_type g = SYNC -> g' = g1) /\
    (event_loop_type g <> SYNC ->
     forall fuel clock deadline,
       fuel0 <= fuel ->
       work_loop component mode_truth clock fuel deadline g1 = Ok tt g') /\
    backend_calls (effects g') = backend_calls (effects g) /\
    _current_root g' = Some (length (heap g)) /\
    heap g' !! length (heap g) = Some root /\
    built (heap g') (length (heap g)) (child root) ns rs /\
    (forall n, n ∈ ns -> tag_of (heap g') n = Some UPDATE) /\
    (forall r, r ∈ rs -> tag_of (heap g') r = tag_of (heap g) r).
Proof.
  intros Hst Hcm Hmode.
  assert (Hvalid : forall r, r ∈ rs -> r < length (heap g)).
  { intros r Hin. destruct Hcm as [_ (fcur & cs & _ & _ & Hold) _ _ _].
    destruct (old_forest_valid body _ _ _ _ r Hold Hin) as [f Hf].
    eapply lookup_lt_Some; exact Hf. }
  pose proof Hcm as [Hcur _ _ _ Hwork].
  destruct (decide (event_loop_type g = SYNC)) as [Hsync|Hasync].
  - pose proof (render_sync_work_loop component mode_truth perf_counter_ns)
      as Hrender.
    destruct (rerender_work_loop component body mode_truth g
                (with_ticks (S (ticks g))
                   (with_render_callback callback
                      (with_next_unit_of_work (Some (length (heap g)))
                         (with_deletions (Some [])
                            (with_wip_root (Some (length (heap g)))
                               (with_heap
                                  (heap g
                                   ++ [mkFiber None (Some []) None (Some [e])
                                         (Some container) None None None
                                         (_current_root g) None None])
                                  g))))))
                e cur rs container Hst Hcm)
      as (fuel0 & g' & root & ns & Hloop & Hb & Hc & Hroot & Hbuilt & Hkeep);
      try (simpl; congruence).
    exists fuel0, g', g', root, ns.
    split.
    { intros fuel Hle. rewrite Hrender by exact Hsync. now apply Hloop. }
    split; [reflexivity|]. split; [contradiction|].
    split; [exact Hb|]. split; [exact Hc|]. split; [exact Hroot|].
    split; [exact Hbuilt|]. split.
    + intros n Hin. eapply built_tag; eassumption.
    + intros r Hin. apply keeps_tag; auto.
  - destruct (render_async component mode_truth perf_counter_ns e container
                callback g Hasync)
      as (g1 & Hrender & Hheap & Hnext & Hwip & Hdel & Hwork1 & Hmode1 & Hb1).
    destruct (rerender_work_loop component body mode_truth g g1 e cur rs
                container Hst Hcm)
      as (fuel0 & g' & root & ns & Hloop & Hb & Hc & Hroot & Hbuilt & Hkeep);
      try congruence.
    exists fuel0, g1, g', root, ns.
    split; [intros fuel _; apply Hrender|].
    split; [contradiction|]. split; [intros _; exact Hloop|].
    split; [congruence|]. split; [exact Hc|]. split; [exact Hroot|].
    split; [exact Hbuilt|]. split.
    + intros n Hin. eapply built_tag; eassumption.
    + intros r Hin. apply keeps_tag; auto.
Qed.

Lemma rerender_unchanged_makes_no_call_witness :
  exists fuel0 g' (ns : list nat),
    (forall fuel,
        fuel0 <= fuel ->
        render dialog_with_function enum_truth (fun _ => 0%Z) fuel
          dialog_descriptor 100 None function_committed = Ok tt g') /\
    backend_calls (effects g') = backend_calls (effects function_committed) /\
    _current_root g' = Some 3 /\
    (forall n, n ∈ ns -> tag_of (heap g') n = Some UPDATE) /\
    (forall r, r ∈ [1; 2] ->
               tag_of (heap g') r = tag_of (heap function_committed) r).
Proof.
  assert (Hwf : dict_wf []) by constructor.
  assert (Hwfb : dict_wf [("text", VStr "Select all"); ("on_clicked", VFn 7)]).
  { repeat constructor; simpl; intuition discriminate. }
  assert (Hcm : committed (dialog_with_function 0) function_committed
                  dialog_descriptor 0 [1; 2]).
  { split.
    - reflexivity.
    - eexists _, [1]. split; [reflexivity|]. split; [reflexivity|].
      eapply (old_cons _ _ 1 _ dialog_descriptor [] [] [2] [2] []);
        [reflexivity|reflexivity|reflexivity|exact Hwf|discriminate
        |reflexivity| |reflexivity|constructor].
      eapply (old_cons _ _ 2 _ (dialog_button (VFn 7)) [] [] [] [] []);
        [reflexivity|reflexivity|reflexivity|exact Hwfb|eauto|reflexivity
        |constructor|reflexivity|constructor].
    - apply NoDup_ListNoDup. repeat constructor; simpl; intuition lia.
    - split.
      + intros r f n Hin Hf Ha.
        apply list_elem_of_In in Hin. simpl in Hin.
        destruct Hin as [<-|[<-|[]]]; injection Hf as <-;
          discriminate Ha.
      + intros r r' f f' n Hin Hin' Hf Hf' Ha Ha'.
        apply list_elem_of_In in Hin. simpl in Hin.
        destruct Hin as [<-|[<-|[]]]; injection Hf as <-;
          discriminate Ha.
    - reflexivity. }
  destruct (rerender_unchanged_makes_no_call dialog_with_function
              (dialog_with_function 0) enum_truth
              (fun _ => 0%Z) function_committed dialog_descriptor 0 [1; 2]
              100 None (fun _ _ _ => eq_refl) Hcm eq_refl)
    as (fuel0 & g1 & g' & root & ns & Hrender & Hsync & _ & Hb & Hc & _ & _
        & Htag & Hold).
  exists fuel0, g', ns.
  split; [rewrite (Hsync eq_refl); exact Hrender|].
  split; [exact Hb|]. split; [exact Hc|]. split; [exact Htag|exact Hold].
Defined.

(** C2 as stated fails for a component that defines a handler in its
    body, as [LayoutExample] does: the component is called again in the
    second pass and returns a descriptor with a new function object,
    which [update_dom] finds different from the one committed.  After
    [render] has committed [h(Dialog, {})], [render] of the identical
    descriptor removes the listener of the button and adds the new
    one. *)
Lemma rerender_closure_component_calls :
  render dialog_with_closure enum_truth (fun _ => 0%Z) 20 dialog_descriptor
    100 None (PyGui_init SYNC 0) = Ok tt closure_committed /\
  exists g',
    render dialog_with_closure enum_truth (fun _ => 0%Z) 20
      dialog_descriptor 100 None closure_committed = Ok tt g' /\
    backend_calls (effects g')
    = backend_calls (effects closure_committed)
      ++ [Renderer.remove_event_listener 0 "_clicked" (VFn 0);
          Renderer.add_event_listener 0 "_clicked" (VFn 1)].
Proof.
  split; [vm_compute; reflexivity|].
  eexists. split; [vm_compute; reflexivity|]. reflexivity.
Qed.

(** The engine that has rendered the box twice holds a committed tree
    whose fibers have alternates, and a third call of [render] reuses
    them: it returns and the backend calls are those of the first pass. *)
Example box_committed_twice_committed :
  committed (no_components 0) box_committed_twice box_descriptor 4
    [5; 6; 7].
Proof.
  assert (Hwf : dict_wf []) by constructor.
  split.
  - reflexivity.
  - eexists _, [5]. split; [reflexivity|]. split; [reflexivity|].
    eapply (old_cons _ _ 5 _ box_descriptor [] [] [6; 7] [6; 7] []);
      [reflexivity|reflexivity|reflexivity|exact Hwf|eauto|reflexivity
      | |reflexivity|constructor].
    eapply (old_cons _ _ 6 _ (create_element (Host "a") None [])
              [7] [create_element (Host "b") None []] [] [] [7]);
      [reflexivity|reflexivity|reflexivity|exact Hwf|eauto|reflexivity
      |constructor|reflexivity|].
    eapply (old_cons _ _ 7 _ (create_element (Host "b") None [])
              [] [] [] [] []);
      [reflexivity|reflexivity|reflexivity|exact Hwf|eauto|reflexivity
      |constructor|reflexivity|constructor].
  - apply NoDup_ListNoDup. repeat constructor; simpl; intuition lia.
  - split.
    + intros r f n Hin Hf Ha.
      apply list_elem_of_In in Hin. simpl in Hin.
      destruct Hin as [<-|[<-|[<-|[]]]]; injection Hf as <-;
        injection Ha as <-; (split; [simpl; lia|]);
        (split; [|apply not_elem_of_nil]);
        rewrite list_elem_of_In; simpl; intuition lia.
    + intros r r' f f' n Hin Hin' Hf Hf' Ha Ha'.
      apply list_elem_of_In in Hin, Hin'. simpl in Hin, Hin'.
      destruct Hin as [<-|[<-|[<-|[]]]]; injection Hf as <-;
        injection Ha as <-;
        destruct Hin' as [<-|[<-|[<-|[]]]]; injection Hf' as <-;
        (reflexivity || discriminate Ha').
  - reflexivity.
Qed.

Example box_third_render_makes_no_call :
  exists g',
    render no_components enum_truth (fun _ => 0%Z) 20 box_descriptor
      box_container None box_committed_twice = Ok tt g' /\
    _current_root g' = Some 8 /\
    backend_calls (effects g')
    = [Renderer.create_element (Some (Host "box")) 0;
       Renderer.create_element (Some (Host "a")) 1;
       Renderer.create_element (Some (Host "b")) 2;
       Renderer.insert 0 box_container;
       Renderer.insert 1 0;
       Renderer.insert 2 0].
Proof.
  eexists. split; [vm_compute; reflexivity|]. split; reflexivity.
Qed.

(** * Beyond the claims *)

(** ** [update_dom] *)

Lemma flat_map_nil_iff {A B} (f : A -> list B) (l : list A) :
  flat_map f l = [] <-> forall a, In a l -> f a = [].
Proof.
  induction l as [|a l IH]; simpl.
  - split; [intros _ a []|reflexivity].
  - split.
    + intros H. apply app_eq_nil in H as [Ha Hl].
      intros b [<-|Hb]; [exact Ha|]. now apply IH.
    + intros H. rewrite (H a) by now left. simpl. apply IH.
      intros b Hb. apply H. now right.
Qed.

Lemma dict_get_In d k v : dict_wf d -> In (k, v) d -> dict_get d k = v.
Proof.
  intros Hwf Hin. unfold dict_get. now rewrite (dict_In_lookup d k v Hwf Hin).
Qed.

Lemma In_keys_lookup d k : In k (keys d) -> exists v, dict_lookup d k = Some v.
Proof.
  intros Hin. destruct (dict_lookup d k) as [v|] eqn:E; [eauto|].
  apply dict_lookup_None in E. contradiction.
Qed.

(** X1.  [update_dom] makes no call exactly when every key of the next
    snapshot has, under [get], the value it has in the previous one, and
    no property key of the previous snapshot is missing from the next. *)
Theorem update_dom_silent_iff dom prev_props next_props :
  dict_wf prev_props -> dict_wf next_props ->
  update_dom dom prev_props next_props = [] <->
  (forall k, In k (keys next_props) ->
             dict_get next_props k = dict_get prev_props k) /\
  (forall k, In k (keys prev_props) -> is_property k = true ->
             In k (keys next_props)).
Proof.
  intros Hp Hn. unfold update_dom.
  split.
  - intros H.
    apply app_eq_nil in H as [_ H]. apply app_eq_nil in H as [H2 H].
    apply app_eq_nil in H as [H3 H4].
    pose proof (proj1 (flat_map_nil_iff _ _) H2) as H2'.
    pose proof (proj1 (flat_map_nil_iff _ _) H3) as H3'.
    pose proof (proj1 (flat_map_nil_iff _ _) H4) as H4'.
    clear H2 H3 H4. rename H2' into H2, H3' into H3, H4' into H4.
    split.
    + intros k Hk. destruct (In_keys_lookup _ _ Hk) as [v Hv].
      pose proof (dict_lookup_In _ _ _ Hv) as Hin.
      destruct (is_event k) eqn:He.
      * specialize (H4 k Hk). unfold add_new_listener in H4.
        rewrite He, Hv in H4. simpl in H4. unfold is_new in H4.
        destruct (bool_decide _) eqn:Hb in H4; [discriminate|].
        apply bool_decide_eq_false in Hb.
        destruct (decide (dict_get next_props k = dict_get prev_props k))
          as [Heq|Hne]; [exact Heq|].
        exfalso. apply Hb. congruence.
      * specialize (H3 (k, v) Hin). unfold set_new_property, is_property in H3.
        rewrite He in H3. simpl in H3. unfold is_new in H3.
        destruct (bool_decide _) eqn:Hb in H3; [discriminate|].
        apply bool_decide_eq_false in Hb.
        unfold dict_get at 1. rewrite Hv.
        destruct (decide (v = dict_get prev_props k)) as [Heq|Hne];
          [exact Heq|]. exfalso. now apply Hb.
    + intros k Hk Hprop. specialize (H2 k Hk).
      unfold remove_old_property in H2. rewrite Hprop in H2. simpl in H2.
      destruct (In_keys_lookup _ _ Hk) as [v Hv]. rewrite Hv in H2.
      unfold dict_contains in H2.
      destruct (dict_lookup next_props k) eqn:E; [|discriminate].
      eapply In_keys, dict_lookup_In; exact E.
  - intros [Hsame Hkeep].
    assert (H1 : flat_map (remove_old_listener dom next_props) prev_props = []).
    { apply flat_map_nil_iff. intros [k v] Hin.
      destruct (remove_old_listener dom next_props (k, v)) as [|c l] eqn:E;
        [reflexivity|]. exfalso.
      assert (Hc : In c (remove_old_listener dom next_props (k, v)))
        by (rewrite E; now left).
      apply remove_old_listener_calls in Hc as (_ & Hcon & Hne & _).
      simpl in Hcon, Hne. apply Hne.
      unfold dict_contains in Hcon.
      destruct (dict_lookup next_props k) eqn:E2; [|discriminate].
      rewrite Hsame by (eapply In_keys, dict_lookup_In; exact E2).
      symmetry. now apply dict_get_In. }
    assert (H2 : flat_map (remove_old_property dom prev_props next_props)
                   (keys prev_props) = []).
    { apply flat_map_nil_iff. intros k Hin.
      destruct (remove_old_property dom prev_props next_props k) as [|c l]
        eqn:E; [reflexivity|]. exfalso.
      assert (Hc : In c (remove_old_property dom prev_props next_props k))
        by (rewrite E; now left).
      apply remove_old_property_calls in Hc as (Hprop & Hcon & _).
      destruct (In_keys_lookup _ _ (Hkeep k Hin Hprop)) as [v Hv].
      unfold dict_contains in Hcon. now rewrite Hv in Hcon. }
    assert (H3 : flat_map (set_new_property dom prev_props) next_props = []).
    { apply flat_map_nil_iff. intros [k v] Hin.
      destruct (set_new_property dom prev_props (k, v)) as [|c l] eqn:E;
        [reflexivity|]. exfalso.
      assert (Hc : In c (set_new_property dom prev_props (k, v)))
        by (rewrite E; now left).
      apply set_new_property_calls in Hc as (_ & Hne & _). simpl in Hne.
      apply Hne. rewrite <- Hsame by (eapply In_keys; exact Hin).
      symmetry. now apply dict_get_In. }
    assert (H4 : flat_map (add_new_listener dom prev_props next_props)
                   (keys next_props) = []).
    { apply flat_map_nil_iff. intros k Hin.
      destruct (add_new_listener dom prev_props next_props k) as [|c l]
        eqn:E; [reflexivity|]. exfalso.
      assert (Hc : In c (add_new_listener dom prev_props next_props k))
        by (rewrite E; now left).
      apply add_new_listener_calls in Hc as (_ & Hne & _).
      apply Hne. symmetry. now apply Hsame. }
    now rewrite H1, H2, H3, H4.
Qed.

Lemma update_dom_silent_iff_witness :
  update_dom 0 [("text", VStr "a"); ("onClick", VFn 1)]
    [("text", VStr "a"); ("hint", VNone)] = [].
Proof.
  apply (update_dom_silent_iff 0 [("text", VStr "a"); ("onClick", VFn 1)]
           [("text", VStr "a"); ("hint", VNone)]).
  - repeat constructor; simpl; intuition discriminate.
  - repeat constructor; simpl; intuition discriminate.
  - split.
    + intros k [<-|[<-|[]]]; reflexivity.
    + intros k [<-|[<-|[]]] Hprop; [now left|discriminate Hprop].
Defined.

(** X2.  On a new node, [update_dom(dom, {}, props)] as [create_dom]
    calls it: one [set_attribute] for every property whose value is not
    [None], in the order of the dict, then one [add_event_listener] for
    every listener-shaped key whose value is not [None]; nothing else. *)
Theorem update_dom_on_new_node dom props :
  dict_wf props ->
  update_dom dom [] props
  = map (fun kv => Renderer.set_attribute dom (fst kv) (snd kv))
      (List.filter
         (fun kv => is_property (fst kv) && bool_decide (snd kv <> VNone))
         props)
    ++ map (fun kv => Renderer.add_event_listener dom
                        (event_type_of (fst kv)) (snd kv))
         (List.filter
            (fun kv => is_event (fst kv) && bool_decide (snd kv <> VNone))
            props).
Proof.
  intros Hwf. unfold update_dom. simpl. f_equal.
  - clear Hwf. induction props as [|[k v] l IH]; [reflexivity|].
    simpl. rewrite IH. unfold is_new, dict_get. simpl.
    destruct (is_property k); simpl; [|reflexivity].
    destruct (bool_decide (v <> VNone)); reflexivity.
  - assert (H : forall l,
               (forall k v, In (k, v) l -> dict_lookup props k = Some v) ->
               flat_map (add_new_listener dom [] props) (keys l)
               = map (fun kv => Renderer.add_event_listener dom
                                  (event_type_of (fst kv)) (snd kv))
                   (List.filter
                      (fun kv => is_event (fst kv)
                                 && bool_decide (snd kv <> VNone)) l)).
    { induction l as [|[k v] l IH]; intros Hl; [reflexivity|].
      simpl. rewrite IH by (intros; apply Hl; now right).
      unfold add_new_listener, is_new, dict_get. simpl.
      rewrite (Hl k v) by now left.
      destruct (is_event k); simpl; [|reflexivity].
      destruct (decide (v = VNone)) as [->|Hne].
      - rewrite !bool_decide_eq_false_2 by (intros H; now apply H).
        reflexivity.
      - rewrite bool_decide_eq_true_2 by congruence.
        rewrite (bool_decide_eq_true_2 (v <> VNone)) by exact Hne.
        reflexivity. }
    apply H. intros k v Hin. now apply dict_In_lookup.
Qed.

Lemma update_dom_on_new_node_witness :
  update_dom 3 [] [("text", VStr "a"); ("onClick", VFn 1); ("hint", VNone)]
  = [Renderer.set_attribute 3 "text" (VStr "a");
     Renderer.add_event_listener 3 "click" (VFn 1)].
Proof.
  rewrite (update_dom_on_new_node 3
             [("text", VStr "a"); ("onClick", VFn 1); ("hint", VNone)]).
  - reflexivity.
  - repeat constructor; simpl; intuition discriminate.
Defined.

(** X3.  Every call of [update_dom] is a [set_attribute],
    [clear_attribute], [add_event_listener] or [remove_event_listener]
    on the node it was given: it never creates, inserts or removes a
    node and never touches another one. *)
Theorem update_dom_only_its_node dom prev_props next_props :
  forallb (is_update_call dom) (update_dom dom prev_props next_props) = true.
Proof.
  apply forallb_forall. intros c Hc.
  apply update_dom_In in Hc
    as [(item & _ & Hc)|[(key & _ & Hc)|[(item & _ & Hc)|(name & _ & Hc)]]].
  - apply remove_old_listener_calls in Hc as (_ & _ & _ & ->).
    simpl. now apply bool_decide_eq_true_2.
  - apply remove_old_property_calls in Hc as (_ & _ & v & _ & ->).
    simpl. now apply bool_decide_eq_true_2.
  - apply set_new_property_calls in Hc as (_ & _ & ->).
    simpl. now apply bool_decide_eq_true_2.
  - apply add_new_listener_calls in Hc as (_ & _ & v & _ & ->).
    simpl. now apply bool_decide_eq_true_2.
Qed.




(** ** [create_element] *)

Lemma dict_lookup_filter_neq d key k :
  k <> key ->
  dict_lookup (List.filter (fun kv => negb (String.eqb (fst kv) key)) d) k
  = dict_lookup d k.
Proof.
  intros Hne. induction d as [|[k' v] d IH]; [reflexivity|].
  simpl. destruct (String.eqb k' key) eqn:E; simpl.
  - apply String.eqb_eq in E. subst k'.
    destruct (String.eqb key k) eqn:E2; [|exact IH].
    apply String.eqb_eq in E2. congruence.
  - now rewrite IH.
Qed.

Lemma dict_lookup_filter_eq d key :
  dict_lookup (List.filter (fun kv => negb (String.eqb (fst kv) key)) d) key
  = None.
Proof.
  induction d as [|[k' v] d IH]; [reflexivity|].
  simpl. destruct (String.eqb k' key) eqn:E; simpl; [exact IH|].
  now rewrite E.
Qed.

Lemma keys_filter_incl (P : string * Value -> bool) d k :
  In k (keys (List.filter P d)) -> In k (keys d).
Proof.
  unfold keys. rewrite !in_map_iff. intros (kv & <- & Hin).
  apply filter_In in Hin as [Hin _]. eauto.
Qed.

Lemma dict_wf_filter (P : string * Value -> bool) d :
  dict_wf d -> dict_wf (List.filter P d).
Proof.
  unfold dict_wf. induction d as [|[k v] d IH]; intros Hwf; [exact Hwf|].
  simpl in *. inversion Hwf as [|? ? Hk Hd]; subst.
  destruct (P (k, v)); [|now apply IH].
  simpl. constructor; [|now apply IH].
  intros Hin. apply Hk. eapply keys_filter_incl; exact Hin.
Qed.

(** X5.  [create_element] pops ["key"] out of the props: the descriptor
    carries the value as its key, its props no longer have the key
    ["key"] and have every other key with the value it had, and they are
    still a dict; type and children are those given. *)
Theorem create_element_pops_key type props children :
  let e := create_element type (Some props) children in
  vn_key e = dict_lookup props "key" /\
  dict_lookup (vn_props e) "key" = None /\
  (forall k, k <> "key" -> dict_lookup (vn_props e) k = dict_lookup props k) /\
  (dict_wf props -> dict_wf (vn_props e)) /\
  vn_type e = type /\ vn_children e = children.
Proof.
  simpl. split; [reflexivity|]. split; [apply dict_lookup_filter_eq|].
  split; [intros k Hk; now apply dict_lookup_filter_neq|].
  split; [apply dict_wf_filter|]. split; reflexivity.
Qed.

(** ** The committer *)

Lemma set_fade_same f : set_child (child f) (set_dom (dom f) f) = f.
Proof. now destruct f. Qed.

Lemma fades_refl h : fades h h.
Proof.
  split; [reflexivity|]. intros r f Hf. exists (dom f), (child f).
  rewrite set_fade_same. auto.
Qed.

Lemma fades_trans h1 h2 h3 : fades h1 h2 -> fades h2 h3 -> fades h1 h3.
Proof.
  intros [Hl1 H1] [Hl2 H2]. split; [congruence|].
  intros r f Hf. destruct (H1 r f Hf) as (d1 & c1 & Hf1 & Hd1 & Hc1).
  destruct (H2 _ _ Hf1) as (d2 & c2 & Hf2 & Hd2 & Hc2).
  exists d2, c2. split.
  - rewrite Hf2. now destruct f.
  - destruct f; simpl in *. intuition congruence.
Qed.

Lemma fades_insert h r f d c :
  h !! r = Some f -> d = dom f \/ d = None -> c = child f \/ c = None ->
  fades h (<[r := set_child c (set_dom d f)]> h).
Proof.
  intros Hf Hd Hc. split; [apply length_insert|].
  intros r' f' Hf'. rewrite lookup_insert_fiber by (eapply lookup_lt_Some; eauto).
  destruct (decide (r = r')) as [<-|Hne].
  - exists d, c. rewrite Hf in Hf'. injection Hf' as <-. auto.
  - exists (dom f'), (child f'). rewrite set_fade_same. auto.
Qed.

Lemma dead_fades h h' b : fades h h' -> dead h b -> dead h' b.
Proof.
  intros [_ H] (f & Hf & Ht & Hd & Hc).
  destruct (H b f Hf) as (d & c & Hf' & Hd' & Hc').
  eexists. split; [exact Hf'|]. destruct f; simpl in *.
  intuition congruence.
Qed.

Lemma fades_links h h' r f :
  fades h h' -> h !! r = Some f ->
  exists f', h' !! r = Some f' /\ effect_tag f' = effect_tag f /\
             sibling f' = sibling f /\ parent f' = parent f /\
             (dom f = None -> dom f' = None).
Proof.
  intros [_ H] Hf. destruct (H r f Hf) as (d & c & Hf' & Hd & _).
  eexists. split; [exact Hf'|]. destruct f; simpl in *.
  intuition congruence.
Qed.

Lemma find_dom_parent_Ok fuel :
  forall o g d g', find_dom_parent fuel o g = Ok d g' -> g' = g.
Proof.
  induction fuel as [|fuel IH]; intros o g d g' H; [discriminate|].
  simpl in H. apply bind_Ok in H as (x & g1 & H1 & H).
  apply attr_Ok in H1 as (r & f & -> & Hf & -> & ->).
  destruct (dom f); [now injection H as _ <-|].
  apply bind_Ok in H as (q & g1 & H1 & H).
  apply attr_Ok in H1 as (r' & f' & _ & _ & _ & ->). eauto.
Qed.

Lemma commit_deletion_Ok fuel :
  forall r dom_parent g g',
    commit_deletion fuel (Some r) dom_parent g = Ok tt g' ->
    fades (heap g) (heap g') /\ _work g' = _work g /\
    exists f', heap g' !! r = Some f' /\ dom f' = None /\ child f' = None.
Proof.
  induction fuel as [|fuel IH]; intros r dp g g' H; [discriminate|].
  simpl in H. apply bind_Ok in H as (d & g1 & H1 & H).
  apply attr_Ok in H1 as (r0 & f & [= <-] & Hf & -> & ->).
  apply bind_Ok in H as ([] & g2 & H2 & H).
  apply assign_Ok in H as (r0 & f2 & [= <-] & Hf2 & ->). simpl.
  assert (Hmid : fades (heap g) (heap g2) /\ _work g2 = _work g /\
                 dom f2 = None).
  { destruct (dom f) as [d|] eqn:Hd.
    - apply bind_Ok in H2 as ([] & g3 & H3 & H2). injection H3 as <-.
      apply assign_Ok in H2 as (r0 & f3 & [= <-] & Hf3 & ->).
      simpl in *. rewrite Hf in Hf3. injection Hf3 as <-.
      rewrite lookup_insert_fiber in Hf2 by (eapply lookup_lt_Some; eauto).
      rewrite decide_True in Hf2 by reflexivity. injection Hf2 as <-.
      split; [|now split].
      rewrite <- (set_fade_same (set_dom None f)). simpl.
      replace (set_child (child f) (set_dom None (set_dom None f)))
        with (set_child (child f) (set_dom None f)) by now destruct f.
      apply fades_insert; auto.
    - apply bind_Ok in H2 as (c & g3 & H3 & H2).
      apply attr_Ok in H3 as (r0 & f3 & [= <-] & Hf3 & -> & ->).
      rewrite Hf in Hf3. injection Hf3 as <-.
      destruct (child f) as [c|].
      + apply IH in H2 as (Hfade & Hw & _).
        split; [exact Hfade|]. split; [exact Hw|].
        destruct (fades_links _ _ _ _ Hfade Hf) as (f' & Hf' & _ & _ & _ & Hn).
        rewrite Hf2 in Hf'. injection Hf' as <-. now apply Hn.
      + destruct fuel; [discriminate|]. simpl in H2.
        apply bind_Ok in H2 as (x & g3 & H3 & _).
        apply attr_Ok in H3 as (? & ? & [=] & _). }
  destruct Hmid as (Hfade & Hw & Hd2).
  split; [|split; [exact Hw|]].
  - eapply fades_trans; [exact Hfade|].
    replace (set_child None f2) with (set_child None (set_dom (dom f2) f2))
      by now destruct f2.
    apply fades_insert; auto.
  - eexists. rewrite lookup_insert_fiber by (eapply lookup_lt_Some; eauto).
    rewrite decide_True by reflexivity. split; [reflexivity|].
    now destruct f2.
Qed.

Lemma commit_deletion_dead fuel b dom_parent g g' :
  dead (heap g) b -> commit_deletion fuel (Some b) dom_parent g <> Ok tt g'.
Proof.
  intros (f & Hf & _ & Hd & Hc) H.
  destruct fuel as [|fuel]; [discriminate|]. simpl in H.
  apply bind_Ok in H as (d & g1 & H1 & H).
  apply attr_Ok in H1 as (r0 & f0 & [= <-] & Hf0 & -> & ->).
  rewrite Hf in Hf0. injection Hf0 as <-. rewrite Hd in H.
  apply bind_Ok in H as ([] & g2 & H2 & _).
  apply bind_Ok in H2 as (c & g3 & H3 & H2).
  apply attr_Ok in H3 as (r0 & f3 & [= <-] & Hf3 & -> & ->).
  rewrite Hf in Hf3. injection Hf3 as <-. rewrite Hc in H2.
  destruct fuel; [discriminate|]. simpl in H2.
  apply bind_Ok in H2 as (x & g3 & H3 & _).
  apply attr_Ok in H3 as (? & ? & [=] & _).
Qed.

Lemma commit_work_Ok fuel r g g' f :
  commit_work fuel (Some r) g = Ok tt g' ->
  heap g !! r = Some f ->
  fades (heap g) (heap g') /\
  (exists c, _work g' = _work g ++ [c; sibling f]) /\
  (effect_tag f = Some DELETION -> dead (heap g') r).
Proof.
  intros H Hf. unfold commit_work in H.
  apply bind_Ok in H as (q & g1 & H1 & H).
  apply attr_Ok in H1 as (r0 & f0 & [= <-] & Hf0 & -> & ->).
  rewrite Hf in Hf0. injection Hf0 as <-.
  apply bind_Ok in H as (dp & g1 & H1 & H).
  apply find_dom_parent_Ok in H1 as ->.
  apply bind_Ok in H as (f0 & g1 & H1 & H).
  apply get_fiber_Ok in H1 as [Hf0 ->].
  rewrite Hf in Hf0. injection Hf0 as <-.
  apply bind_Ok in H as ([] & g2 & H2 & H).
  assert (Hmid : fades (heap g) (heap g2) /\ _work g2 = _work g /\
                 (effect_tag f = Some DELETION ->
                  exists f', heap g2 !! r = Some f' /\ dom f' = None /\
                             child f' = None)).
  { destruct (effect_tag f) as [[| |]|] eqn:Ht.
    - destruct (dom f) as [d|].
      + apply bind_Ok in H2 as (a & g3 & H3 & H2).
        apply attr_Ok in H3 as (? & ? & _ & _ & _ & ->).
        unfold update_dom_call in H2.
        destruct a; [|discriminate]. destruct (props_snapshot f); [|discriminate].
        injection H2 as <-. simpl.
        split; [apply fades_refl|]. split; [reflexivity|discriminate].
      + injection H2 as <-.
        split; [apply fades_refl|]. split; [reflexivity|discriminate].
    - destruct (dom f) as [d|]; injection H2 as <-; simpl;
        (split; [apply fades_refl|]); (split; [reflexivity|discriminate]).
    - assert (H3 : commit_deletion fuel (Some r) dp g = Ok tt g2)
        by (destruct (dom f); exact H2).
      apply commit_deletion_Ok in H3 as (Hfade & Hw & Hclear). auto.
    - injection H2 as <-.
      split; [apply fades_refl|]. split; [reflexivity|discriminate]. }
  destruct Hmid as (Hfade & Hw & Hclear).
  apply bind_Ok in H as (c & g3 & H3 & H).
  apply attr_Ok in H3 as (r0 & f2 & [= <-] & Hf2 & -> & ->).
  unfold work_put in H. apply bind_Ok in H as ([] & g3 & H3 & H).
  injection H3 as <-.
  apply bind_Ok in H as (s & g3 & H3 & H).
  apply attr_Ok in H3 as (r0 & f3 & [= <-] & Hf3 & -> & ->).
  simpl in Hf3. rewrite Hf2 in Hf3. injection Hf3 as <-.
  injection H as <-. simpl.
  destruct (fades_links _ _ _ _ Hfade Hf) as (f' & Hf' & Ht' & Hs' & _).
  rewrite Hf2 in Hf'. injection Hf' as <-.
  split; [exact Hfade|]. split.
  - exists (child f2). now rewrite Hw, Hs', <- app_assoc.
  - intros Ht. destruct (Hclear Ht) as (f' & Hf' & Hd & Hc).
    rewrite Hf2 in Hf'. injection Hf' as <-.
    exists f2. rewrite Ht', Ht. auto.
Qed.

Lemma commit_work_dead fuel b g g' :
  dead (heap g) b -> commit_work fuel (Some b) g <> Ok tt g'.
Proof.
  intros Hdead H. pose proof Hdead as (f & Hf & Ht & Hd & Hc).
  unfold commit_work in H.
  apply bind_Ok in H as (q & g1 & H1 & H).
  apply attr_Ok in H1 as (r0 & f0 & [= <-] & Hf0 & -> & ->).
  apply bind_Ok in H as (dp & g1 & H1 & H).
  apply find_dom_parent_Ok in H1 as ->.
  apply bind_Ok in H as (f1 & g1 & H1 & H).
  apply get_fiber_Ok in H1 as [Hf1 ->].
  rewrite Hf in Hf1. injection Hf1 as <-.
  apply bind_Ok in H as ([] & g2 & H2 & _).
  rewrite Ht in H2. simpl in H2. now apply commit_deletion_dead in H2.
Qed.

Lemma occurrences_app b q1 q2 :
  occurrences b (q1 ++ q2) = occurrences b q1 + occurrences b q2.
Proof. unfold occurrences. now rewrite List.filter_app, length_app. Qed.

Lemma occurrences_cons b x q :
  occurrences b (x :: q)
  = (if bool_decide (x = Some b) then 1 else 0) + occurrences b q.
Proof. unfold occurrences. simpl. now destruct (bool_decide _). Qed.

Lemma occurrences_In b ds : In b ds -> 1 <= occurrences b (map Some ds).
Proof.
  induction ds as [|d ds IH]; intros Hin; [contradiction|].
  simpl. rewrite occurrences_cons. destruct Hin as [->|Hin].
  - rewrite bool_decide_eq_true_2 by reflexivity. lia.
  - specialize (IH Hin). lia.
Qed.

(** The queue of a commit in which the fiber [a], marked for deletion,
    still has as sibling the fiber [b], marked for deletion too: while
    the two are in the queue twice in all, or once with [b] already
    cleared, the loop cannot come to its end. *)
Lemma commit_queue_two_deletions a b :
  a <> b ->
  forall fuel g fa fb,
    heap g !! a = Some fa -> effect_tag fa = Some DELETION ->
    sibling fa = Some b ->
    heap g !! b = Some fb -> effect_tag fb = Some DELETION ->
    2 <= occurrences a (_work g) + occurrences b (_work g)
    \/ (dead (heap g) b /\
        1 <= occurrences a (_work g) + occurrences b (_work g)) ->
    forall g', commit_queue fuel g <> Ok tt g'.
Proof.
  intros Hab. induction fuel as [|fuel IH];
    intros g fa fb Hfa Hta Hsa Hfb Htb Hocc g' H; [discriminate|].
  simpl in H. rewrite bind_gets in H.
  destruct (_work g) as [|x rest] eqn:Hq.
  { unfold occurrences in Hocc. simpl in Hocc. lia. }
  rewrite bind_modify in H.
  apply bind_Ok in H as ([] & g1 & H1 & H).
  rewrite !occurrences_cons in Hocc.
  destruct x as [x|].
  2:{ injection H1 as <-. revert H.
      eapply (IH _ fa fb); simpl; eassumption. }
  destruct (decide (x = b)) as [->|Hxb].
  - (* the queue hands out [b] *)
    rewrite bool_decide_eq_false_2 in Hocc by congruence.
    rewrite (bool_decide_eq_true_2 (Some b = Some b)) in Hocc by reflexivity.
    destruct Hocc as [Hocc|[Hdead _]].
    2:{ revert H1. now apply commit_work_dead. }
    apply (commit_work_Ok _ _ _ _ fb) in H1 as (Hfade & (c & Hw) & Hdead);
      [|exact Hfb].
    destruct (fades_links _ _ _ _ Hfade Hfa) as (fa' & Hfa' & Hta' & Hsa' & _).
    destruct (fades_links _ _ _ _ Hfade Hfb) as (fb' & Hfb' & Htb' & _).
    simpl in *. revert H.
    eapply (IH _ fa' fb'); try eassumption; try congruence.
    right. split; [now apply Hdead|].
    rewrite Hw, !occurrences_app. lia.
  - destruct (fades_links (heap g) (heap g1) a fa) as (fa' & Hfa' & Hta' & Hsa' & _);
      [|exact Hfa|].
    { destruct (heap g !! x) as [fx|] eqn:Hfx.
      - now apply (commit_work_Ok _ _ _ _ fx) in H1 as (Hfade & _).
      - unfold commit_work in H1. apply bind_Ok in H1 as (? & ? & H1 & _).
        apply attr_Ok in H1 as (? & ? & [= <-] & Hf & _). simpl in Hf.
        congruence. }
    destruct (heap g !! x) as [fx|] eqn:Hfx.
    2:{ unfold commit_work in H1. apply bind_Ok in H1 as (? & ? & H1 & _).
        apply attr_Ok in H1 as (? & ? & [= <-] & Hf & _). simpl in Hf.
        congruence. }
    apply (commit_work_Ok _ _ _ _ fx) in H1 as (Hfade & (c & Hw) & _);
      [|exact Hfx].
    destruct (fades_links _ _ _ _ Hfade Hfb) as (fb' & Hfb' & Htb' & _).
    simpl in *. revert H.
    eapply (IH _ fa' fb'); try eassumption; try congruence.
    rewrite (bool_decide_eq_false_2 (Some x = Some b)) in Hocc by congruence.
    assert (Hge : (if bool_decide (Some x = Some a) then 1 else 0)
                  + occurrences a rest + occurrences b rest
                  <= occurrences a (_work g1) + occurrences b (_work g1)).
    { rewrite Hw, !occurrences_app, !occurrences_cons.
      destruct (decide (x = a)) as [->|Hxa].
      - rewrite Hfx in Hfa. injection Hfa as ->. rewrite Hsa.
        rewrite (bool_decide_eq_true_2 (Some b = Some b)) by reflexivity.
        destruct (bool_decide (Some a = Some a)); lia.
      - rewrite (bool_decide_eq_false_2 (Some x = Some a)) by congruence.
        lia. }
    destruct Hocc as [Hocc|[Hdead Hocc]].
    + left. lia.
    + right. split; [eapply dead_fades; eassumption|lia].
Qed.

(** X6.  When two fibers marked for deletion are siblings, the first
    still linked to the second (as [reconcile_children] leaves the old
    children that have no descriptor any more), [commit_root] cannot
    return: the first one enqueues its sibling, which the queue then
    hands out a second time, after [commit_deletion] has cleared its
    backend node and its child. *)
Theorem commit_root_adjacent_deletions fuel g ds a b fa fb :
  _deletions g = Some ds ->
  In a ds -> In b ds -> a <> b ->
  heap g !! a = Some fa -> effect_tag fa = Some DELETION ->
  sibling fa = Some b ->
  heap g !! b = Some fb -> effect_tag fb = Some DELETION ->
  forall g', commit_root fuel g <> Ok tt g'.
Proof.
  intros Hds Ha Hb Hab Hfa Hta Hsa Hfb Htb g' H.
  unfold commit_root in H. rewrite bind_gets, Hds in H.
  rewrite !bind_modify, bind_gets in H.
  apply bind_Ok in H as (c & g1 & H1 & H).
  apply attr_Ok in H1 as (w & fw & _ & _ & -> & ->).
  unfold work_put in H. rewrite bind_modify in H.
  apply bind_Ok in H as ([] & g2 & H2 & _).
  revert H2.
  eapply (commit_queue_two_deletions a b Hab fuel _ fa fb); simpl;
    try eassumption.
  left. rewrite !occurrences_app.
  pose proof (occurrences_In a ds Ha). pose proof (occurrences_In b ds Hb).
  lia.
Qed.

Lemma commit_root_adjacent_deletions_witness :
  _deletions box_children_removed = Some [2; 3] /\
  (forall g', commit_root 20 box_children_removed <> Ok tt g') /\
  commit_root 20 box_children_removed = Raise NoneError /\
  render no_components enum_truth (fun _ => 0%Z) 20
    (create_element (Host "box") None []) box_container None box_committed
  = Raise NoneError.
Proof.
  split; [reflexivity|]. split; [|split; vm_compute; reflexivity].
  eapply (commit_root_adjacent_deletions 20 box_children_removed [2; 3] 2 3);
    try reflexivity; simpl; auto.
Defined.

(** X7.  [commit_work] on a fiber marked for deletion that has a backend
    node makes one call, the removal of that node from the node of the
    nearest ancestor that has one, clears the node and the child link of
    the fiber, and enqueues [None] for its child and its sibling as it
    is: no descendant of the fiber is visited, its old sibling is. *)
Theorem commit_work_deletion fuel r g f d p k dom_parent :
  heap g !! r = Some f ->
  effect_tag f = Some DELETION ->
  dom f = Some d ->
  parent f = Some p ->
  dom_above (heap g) p k dom_parent ->
  k < fuel ->
  commit_work fuel (Some r) g
  = Ok tt (with_work (_work g ++ [None; sibling f])
             (with_heap (<[r := set_child None (set_dom None f)]> (heap g))
                (with_effects
                   (effects g ++ [Backend (Renderer.remove d dom_parent)])
                   g))).
Proof.
  intros Hf Ht Hd Hp Habove Hlt. unfold commit_work.
  rewrite (bind_eq _ _ _ _ _ (attr_eq r parent g f Hf)), Hp.
  rewrite (bind_eq _ _ _ _ _
             (find_dom_parent_above _ _ _ _ Habove fuel g Hlt eq_refl)).
  rewrite (bind_eq _ _ _ _ _ (get_fiber_eq r g f Hf)).
  rewrite Ht. simpl.
  destruct fuel as [|fuel]; [lia|]. simpl.
  rewrite bind_assoc, (bind_eq _ _ _ _ _ (attr_eq r dom g f Hf)), Hd.
  rewrite !bind_assoc. unfold renderer_calls at 1. rewrite bind_modify.
  set (g1 := with_effects _ g).
  assert (Hf1 : heap g1 !! r = Some f) by exact Hf.
  rewrite (bind_eq _ _ _ _ _ (assign_eq r (set_dom None) g1 f Hf1)).
  set (g2 := with_heap _ g1).
  assert (Hlen : r < length (heap g)) by (eapply lookup_lt_Some; eauto).
  assert (Hf2 : heap g2 !! r = Some (set_dom None f)).
  { subst g2 g1. simpl. rewrite lookup_insert_fiber by exact Hlen.
    now rewrite decide_True. }
  rewrite (bind_eq _ _ _ _ _ (assign_eq r (set_child None) g2 _ Hf2)).
  set (g3 := with_heap _ g2).
  assert (Hf3 : heap g3 !! r = Some (set_child None (set_dom None f))).
  { subst g3. simpl. rewrite lookup_insert_fiber
      by (subst g2 g1; simpl; now rewrite length_insert).
    now rewrite decide_True. }
  rewrite (bind_eq _ _ _ _ _ (attr_eq r child g3 _ Hf3)).
  unfold work_put. rewrite bind_modify.
  rewrite (bind_eq _ _ _ _ _
             (attr_eq r sibling (with_work (_work g3 ++ [None]) g3) _ Hf3)).
  unfold modify. subst g3 g2 g1. simpl.
  rewrite list_insert_insert_eq, <- app_assoc. reflexivity.
Qed.

Lemma commit_work_deletion_witness :
  commit_work 20 (Some 3)
    (with_work [] (with_deletions (Some []) box_children_removed))
  = Ok tt
      (with_work [None; None]
         (with_heap
            (<[3 := mkFiber (Some (Host "b")) (Some []) (Some []) (Some [])
                      None (Some 1) None None None (Some DELETION) None]>
               (heap box_children_removed))
            (with_effects
               (effects box_children_removed ++ [Backend (Renderer.remove 2 0)])
               (with_deletions (Some []) box_children_removed)))).
Proof.
  rewrite (commit_work_deletion 20 3 _
             (mkFiber (Some (Host "b")) (Some []) (Some []) (Some [])
                (Some 2) (Some 1) None None None (Some DELETION) None)
             2 1 0 0); try reflexivity.
  - eapply dom_here; reflexivity.
  - lia.
Defined.

(** X8.  [commit_work] on a placed fiber inserts its backend node into
    the node of the nearest ancestor that has one, passing over the
    component fibers in between; a placed fiber without a node (a
    component) makes no call.  Either way the child and the sibling are
    enqueued, in this order. *)
Theorem commit_work_placement fuel r g f p k dom_parent :
  heap g !! r = Some f ->
  effect_tag f = Some PLACEMENT ->
  parent f = Some p ->
  dom_above (heap g) p k dom_parent ->
  k < fuel ->
  commit_work fuel (Some r) g
  = Ok tt (with_work (_work g ++ [child f; sibling f])
             (with_effects
                (effects g
                 ++ match dom f with
                    | Some d => [Backend (Renderer.insert d dom_parent)]
                    | None => []
                    end) g)).
Proof.
  intros Hf Ht Hp Habove Hlt. unfold commit_work.
  rewrite (bind_eq _ _ _ _ _ (attr_eq r parent g f Hf)), Hp.
  rewrite (bind_eq _ _ _ _ _
             (find_dom_parent_above _ _ _ _ Habove fuel g Hlt eq_refl)).
  rewrite (bind_eq _ _ _ _ _ (get_fiber_eq r g f Hf)).
  rewrite Ht. simpl.
  assert (Hsame : with_effects (effects g ++ []) g = g).
  { destruct g; simpl. now rewrite app_nil_r. }
  destruct (dom f) as [d|].
  - unfold renderer_calls. rewrite bind_modify.
    set (g1 := with_effects _ g).
    assert (Hf1 : heap g1 !! r = Some f) by exact Hf.
    rewrite (bind_eq _ _ _ _ _ (attr_eq r child g1 f Hf1)).
    unfold work_put. rewrite bind_modify.
    rewrite (bind_eq _ _ _ _ _
               (attr_eq r sibling (with_work (_work g1 ++ [child f]) g1) f
                  Hf1)).
    unfold modify. subst g1. simpl. now rewrite <- app_assoc.
  - rewrite bind_ret, Hsame.
    rewrite (bind_eq _ _ _ _ _ (attr_eq r child g f Hf)).
    unfold work_put. rewrite bind_modify.
    rewrite (bind_eq _ _ _ _ _
               (attr_eq r sibling (with_work (_work g ++ [child f]) g) f Hf)).
    unfold modify. destruct g; simpl. now rewrite <- app_assoc.
Qed.

Lemma commit_work_placement_witness :
  commit_work 20 (Some 1) box_units_done
  = Ok tt (with_work [Some 2; None]
             (with_effects
                (effects box_units_done
                 ++ [Backend (Renderer.insert 0 box_container)])
                box_units_done)).
Proof.
  rewrite (commit_work_placement 20 1 box_units_done
             (mkFiber (Some (Host "box")) (Some []) (Some [])
                (Some [create_element (Host "a") None [];
                       create_element (Host "b") None []])
                (Some 0) (Some 0) (Some 2) None None (Some PLACEMENT) None)
             0 0 box_container); try reflexivity.
  - eapply dom_here; reflexivity.
  - lia.
Defined.

(** ** Relations kept by every step *)

Section Preserves.
Context (R : PyGui -> PyGui -> Prop).
Hypothesis R_refl : forall g, R g g.
Hypothesis R_trans : forall g1 g2 g3, R g1 g2 -> R g2 g3 -> R g1 g3.

Lemma pres_ret {A} (a : A) : preserves R (ret a).
Proof using R_refl. intros g a' g' [= <- <-]. apply R_refl. Qed.

Lemma pres_bind {A B} (m : M A) (k : A -> M B) :
  preserves R m -> (forall a, preserves R (k a)) -> preserves R (bind m k).
Proof using R_trans.
  intros Hm Hk g b g' H. apply bind_Ok in H as (a & g1 & H1 & H2).
  eapply R_trans; [eapply Hm|eapply Hk]; eauto.
Qed.

Lemma pres_raise {A} e : preserves R (@raise A e).
Proof. intros g a g' H. discriminate. Qed.

Lemma pres_out_of_fuel {A} : preserves R (@out_of_fuel A).
Proof. intros g a g' H. discriminate. Qed.

Lemma pres_gets {A} (proj : PyGui -> A) : preserves R (gets proj).
Proof using R_refl. intros g a g' [= <- <-]. apply R_refl. Qed.

Lemma pres_get_fiber r : preserves R (get_fiber r).
Proof using R_refl.
  intros g a g' H. apply get_fiber_Ok in H as [_ ->]. apply R_refl.
Qed.

Lemma pres_attr {A} o (proj : Fiber -> A) : preserves R (attr o proj).
Proof using R_refl.
  intros g a g' H. apply attr_Ok in H as (r & f & _ & _ & _ & ->).
  apply R_refl.
Qed.

Lemma pres_modify upd : (forall g, R g (upd g)) -> preserves R (modify upd).
Proof. intros H g a g' [= <- <-]. apply H. Qed.

Lemma pres_assign o upd :
  (forall g r f, heap g !! r = Some f ->
                 R g (with_heap (<[r := upd f]> (heap g)) g)) ->
  preserves R (assign o upd).
Proof.
  intros H g a g' H1. apply assign_Ok in H1 as (r & f & _ & Hf & ->). eauto.
Qed.

Lemma pres_alloc f :
  (forall g, R g (with_heap (heap g ++ [f]) g)) -> preserves R (alloc f).
Proof. intros H g a g' [= <- <-]. apply H. Qed.

End Preserves.

Ltac pres_step rf tr :=
  match goal with
  | |- preserves _ (bind _ _) => apply (pres_bind _ tr); [|intros ?]
  | |- preserves _ (ret _) => apply (pres_ret _ rf)
  | |- preserves _ (raise _) => apply pres_raise
  | |- preserves _ out_of_fuel => apply pres_out_of_fuel
  | |- preserves _ (gets _) => apply (pres_gets _ rf)
  | |- preserves _ (get_fiber _) => apply (pres_get_fiber _ rf)
  | |- preserves _ (attr _ _) => apply (pres_attr _ rf)
  | |- preserves _ (when ?b _) => destruct b; unfold when
  | |- preserves _ (and_then ?a _) => destruct a; unfold and_then
  | |- preserves _ (or_Fiber ?a) => destruct a; unfold or_Fiber
  | |- preserves _ (update_dom_call _ ?p ?n) =>
      destruct p, n; unfold update_dom_call
  | |- preserves _ (match ?x with _ => _ end) => destruct x
  | H : forall _, preserves _ _ |- preserves _ _ => apply H
  | H : forall _ _, preserves _ _ |- preserves _ _ => apply H
  | H : forall _ _ _, preserves _ _ |- preserves _ _ => apply H
  end.

Lemma commit_keeps_refl g : commit_keeps g g.
Proof. repeat split; apply fades_refl. Qed.

Lemma commit_keeps_trans g1 g2 g3 :
  commit_keeps g1 g2 -> commit_keeps g2 g3 -> commit_keeps g1 g3.
Proof.
  intros (? & ? & ?) (? & ? & ?).
  split; [congruence|]. split; [congruence|]. eapply fades_trans; eauto.
Qed.

Lemma commit_keeps_assign_dom o :
  preserves commit_keeps (assign o (set_dom None)).
Proof.
  apply pres_assign. intros g r f Hf. split; [reflexivity|].
  split; [reflexivity|]. simpl.
  replace (set_dom None f) with (set_child (child f) (set_dom None f))
    by now destruct f.
  apply fades_insert; auto.
Qed.

Lemma commit_keeps_assign_child o :
  preserves commit_keeps (assign o (set_child None)).
Proof.
  apply pres_assign. intros g r f Hf. split; [reflexivity|].
  split; [reflexivity|]. simpl.
  replace (set_child None f) with (set_child None (set_dom (dom f) f))
    by now destruct f.
  apply fades_insert; auto.
Qed.

Lemma commit_keeps_renderer_calls cs :
  preserves commit_keeps (renderer_calls cs).
Proof.
  apply pres_modify. intros g. repeat split; simpl; apply fades_refl.
Qed.

Lemma commit_keeps_work_put c : preserves commit_keeps (work_put c).
Proof.
  apply pres_modify. intros g. repeat split; simpl; apply fades_refl.
Qed.

Ltac commit_keeps_step :=
  first [apply commit_keeps_assign_dom
        |apply commit_keeps_assign_child
        |apply commit_keeps_renderer_calls
        |apply commit_keeps_work_put
        |pres_step commit_keeps_refl commit_keeps_trans].

Lemma commit_keeps_commit_deletion fuel :
  forall fiber dom_parent,
    preserves commit_keeps (commit_deletion fuel fiber dom_parent).
Proof.
  induction fuel as [|fuel IH]; intros fiber dp; simpl;
    repeat commit_keeps_step.
Qed.

Lemma commit_keeps_find_dom_parent fuel :
  forall o, preserves commit_keeps (find_dom_parent fuel o).
Proof.
  induction fuel as [|fuel IH]; intros o; simpl; repeat commit_keeps_step.
Qed.

Lemma commit_keeps_commit_work fuel fiber :
  preserves commit_keeps (commit_work fuel fiber).
Proof.
  unfold commit_work.
  repeat first [apply commit_keeps_commit_deletion
               |apply commit_keeps_find_dom_parent
               |commit_keeps_step].
Qed.

Lemma commit_queue_Ok fuel :
  forall g g', commit_queue fuel g = Ok tt g' ->
               _work g' = [] /\ commit_keeps g g'.
Proof.
  induction fuel as [|fuel IH]; intros g g' H; [discriminate|].
  simpl in H. rewrite bind_gets in H.
  destruct (_work g) as [|work rest] eqn:Hq.
  - injection H as <-. split; [exact Hq|apply commit_keeps_refl].
  - rewrite bind_modify in H. apply bind_Ok in H as ([] & g1 & H1 & H).
    apply commit_keeps_commit_work in H1. apply IH in H as [Hw Hk].
    split; [exact Hw|]. eapply commit_keeps_trans; [|exact Hk].
    eapply commit_keeps_trans; [|exact H1].
    repeat split; simpl; apply fades_refl.
Qed.

(** X9.  A commit that returns has emptied the work queue and the
    deletions, has made the work-in-progress root the current root and
    left no work-in-progress root; it has taken no node from the
    renderer, and all it has done to the store is to clear backend nodes
    and child links. *)
Theorem commit_root_leaves fuel g g' :
  commit_root fuel g = Ok tt g' ->
  _work g' = [] /\
  _deletions g' = Some [] /\
  _current_root g' = _wip_root g /\
  _wip_root g' = None /\
  _next_unit_of_work g' = _next_unit_of_work g /\
  next_dom g' = next_dom g /\
  fades (heap g) (heap g').
Proof.
  intros H. pose proof (commit_root_frame _ _ _ H) as (Hw & Hc & Hn & _).
  unfold commit_root in H. rewrite bind_gets in H.
  destruct (_deletions g) as [ds|]; [|discriminate].
  rewrite !bind_modify, bind_gets in H.
  apply bind_Ok in H as (c & g1 & H1 & H).
  apply attr_Ok in H1 as (w & fw & _ & _ & -> & ->).
  unfold work_put in H. rewrite bind_modify in H.
  apply bind_Ok in H as ([] & g2 & H2 & H).
  apply commit_queue_Ok in H2 as (Hq & Hd & Hnd & Hfade).
  rewrite bind_gets, !bind_modify in H. injection H as <-. simpl in *.
  auto 10.
Qed.

Lemma commit_root_leaves_witness :
  exists g',
    commit_root 20 box_units_done = Ok tt g' /\
    _work g' = [] /\ _deletions g' = Some [] /\
    _current_root g' = Some 0 /\ _wip_root g' = None.
Proof.
  eexists. split; [vm_compute; reflexivity|].
  destruct (commit_root_leaves 20 box_units_done _
              ltac:(vm_compute; reflexivity))
    as (Hw & Hd & Hc & Hwip & _).
  split; [exact Hw|]. split; [exact Hd|]. split; [exact Hc|exact Hwip].
Defined.

(** X10.  [commit_deletion] goes down the child links to the first
    fiber that has a backend node and removes that one node from the
    given parent node, whatever lies below or beside it; the node of
    that fiber and the child link of every fiber on the way are cleared,
    and nothing else changes. *)
Theorem commit_deletion_first_node dom_parent :
  forall h r l x d,
    node_below h r l x d ->
    forall fuel g,
      heap g = h -> length l < fuel ->
      exists h',
        commit_deletion fuel (Some r) dom_parent g
        = Ok tt (with_heap h'
                   (with_effects
                      (effects g ++ [Backend (Renderer.remove d dom_parent)])
                      g)) /\
        (forall y, In y (l ++ [x]) ->
                   exists fy, h' !! y = Some fy /\ child fy = None) /\
        (exists fx, h' !! x = Some fx /\ dom fx = None) /\
        (forall z, ~ In z (l ++ [x]) -> h' !! z = h !! z) /\
        fades h h'.
Proof.
  induction 1 as [r f d Hf Hd|r f c l x d Hf Hd Hc _ IH];
    intros fuel g <- Hlt; (destruct fuel as [|fuel]; [simpl in Hlt; lia|]);
    simpl.
  - rewrite (bind_eq _ _ _ _ _ (attr_eq r dom g f Hf)), Hd.
    rewrite bind_assoc. unfold renderer_calls. rewrite bind_modify.
    set (g1 := with_effects _ g).
    assert (Hf1 : heap g1 !! r = Some f) by exact Hf.
    rewrite (bind_eq _ _ _ _ _ (assign_eq r (set_dom None) g1 f Hf1)).
    assert (Hlen : r < length (heap g)) by (eapply lookup_lt_Some; eauto).
    set (g2 := with_heap _ g1).
    assert (Hf2 : heap g2 !! r = Some (set_dom None f)).
    { subst g2 g1. simpl. rewrite lookup_insert_fiber by exact Hlen.
      now rewrite decide_True. }
    rewrite (assign_eq r (set_child None) g2 _ Hf2).
    subst g2 g1. simpl. rewrite list_insert_insert_eq.
    exists (<[r := set_child None (set_dom None f)]> (heap g)).
    split; [reflexivity|].
    assert (Hr : <[r := set_child None (set_dom None f)]> (heap g) !! r
                 = Some (set_child None (set_dom None f))).
    { rewrite lookup_insert_fiber by exact Hlen. now rewrite decide_True. }
    split; [|split; [|split]].
    + intros y [<-|[]]. eauto.
    + eauto.
    + intros z Hz. rewrite lookup_insert_fiber by exact Hlen.
      rewrite decide_False; [reflexivity|]. intros <-. apply Hz. now left.
    + apply fades_insert; auto.
  - rewrite (bind_eq _ _ _ _ _ (attr_eq r dom g f Hf)), Hd.
    rewrite bind_assoc, (bind_eq _ _ _ _ _ (attr_eq r child g f Hf)), Hc.
    destruct (IH fuel g eq_refl ltac:(simpl in Hlt; lia))
      as (h1 & Hrun & Hchild & Hx & Hframe & Hfade).
    rewrite (bind_eq _ _ _ _ _ Hrun).
    destruct (fades_links _ _ _ _ Hfade Hf) as (f1 & Hf1 & _ & _ & _ & Hd1).
    set (g1 := with_heap h1 _).
    assert (Hf1' : heap g1 !! r = Some f1) by exact Hf1.
    rewrite (assign_eq r (set_child None) g1 f1 Hf1').
    subst g1. simpl.
    assert (Hlen : r < length h1) by (eapply lookup_lt_Some; eauto).
    exists (<[r := set_child None f1]> h1).
    split; [reflexivity|]. split; [|split; [|split]].
    + intros y Hy. rewrite lookup_insert_fiber by exact Hlen.
      destruct (decide (r = y)) as [<-|Hne]; [eauto|].
      apply Hchild. simpl in Hy. destruct Hy as [->|Hy]; [contradiction|].
      exact Hy.
    + rewrite lookup_insert_fiber by exact Hlen.
      destruct (decide (r = x)) as [<-|Hne]; [|exact Hx].
      eexists. split; [reflexivity|]. simpl.
      specialize (Hd1 Hd). now destruct f1.
    + intros z Hz. rewrite lookup_insert_fiber by exact Hlen.
      rewrite decide_False by (intros <-; apply Hz; now left).
      apply Hframe. intros Hin. apply Hz. now right.
    + eapply fades_trans; [exact Hfade|].
      replace (set_child None f1) with (set_child None (set_dom (dom f1) f1))
        by now destruct f1.
      apply fades_insert; auto.
Qed.

Lemma commit_deletion_first_node_witness :
  exists h',
    commit_deletion 3 (Some 1) 5 component_deleted
    = Ok tt (with_heap h'
               (with_effects [Backend (Renderer.remove 7 5)]
                  component_deleted)) /\
    (exists f1, h' !! 1 = Some f1 /\ child f1 = None) /\
    (exists f2, h' !! 2 = Some f2 /\ dom f2 = None).
Proof.
  destruct (commit_deletion_first_node 5 (heap component_deleted) 1 [1] 2 7)
    with (fuel := 3) (g := component_deleted)
    as (h' & Hrun & Hchild & Hx & _).
  - eapply nb_down; [reflexivity|reflexivity|reflexivity|].
    eapply nb_here; reflexivity.
  - reflexivity.
  - simpl. lia.
  - exists h'. split; [exact Hrun|]. split; [|exact Hx].
    apply Hchild. now left.
Defined.

(** ** The reconciler and the units of work *)

Lemma silent_refl g : silent g g.
Proof. repeat split. Qed.

Lemma silent_trans g1 g2 g3 : silent g1 g2 -> silent g2 g3 -> silent g1 g3.
Proof. intros (? & ? & ?) (? & ? & ?). repeat split; congruence. Qed.

Lemma silent_assign o upd : preserves silent (assign o upd).
Proof. apply pres_assign. intros g r f _. repeat split. Qed.

Lemma silent_alloc f : preserves silent (alloc f).
Proof. apply pres_alloc. intros g. repeat split. Qed.

Lemma silent_with_deletions ds : preserves silent (modify (with_deletions ds)).
Proof. apply pres_modify. intros g. repeat split. Qed.

Ltac silent_step :=
  first [apply silent_assign
        |apply silent_alloc
        |apply silent_with_deletions
        |pres_step silent_refl silent_trans].

Lemma silent_reconcile_loop fuel wip_fiber elements :
  forall index old_fiber prev_sibling,
    preserves silent
      (reconcile_loop fuel wip_fiber elements index old_fiber prev_sibling).
Proof.
  induction fuel as [|fuel IH]; intros index old prev; simpl;
    repeat silent_step.
Qed.

Lemma reconcile_children_watch fuel wip_fiber elements g g' fw :
  reconcile_children fuel wip_fiber elements g = Ok tt g' ->
  heap g !! wip_fiber = Some fw ->
  effects g'
  = effects g ++ watch_effect (watch_of (event_loop_type g) wip_fiber fw) /\
  next_dom g' = next_dom g /\
  _work g' = _work g.
Proof.
  intros H Hfw. unfold reconcile_children in H.
  rewrite (bind_eq _ _ _ _ _ (get_fiber_eq _ _ _ Hfw)) in H.
  apply bind_Ok in H as (old & g1 & H1 & H).
  assert (Hg1 : g1 = g).
  { destruct (alternate fw); simpl in H1.
    - now apply attr_Ok in H1 as (? & ? & _ & _ & _ & ->).
    - now injection H1 as _ <-. }
  subst g1. clear H1.
  apply bind_Ok in H as ([] & g2 & H2 & H).
  assert (Hg2 : effects g2
                = effects g
                  ++ watch_effect (watch_of (event_loop_type g) wip_fiber fw)
                /\ next_dom g2 = next_dom g /\ _work g2 = _work g).
  { unfold watch_of. unfold when in H2.
    destruct (props_truthy (props fw)); simpl.
    - destruct (is_some (dom fw) && negb (is_some (watcher fw))); simpl.
      + rewrite bind_gets in H2. unfold emit in H2. rewrite bind_modify in H2.
        apply assign_Ok in H2 as (? & ? & _ & _ & ->). simpl. auto.
      + injection H2 as <-. now rewrite app_nil_r.
    - injection H2 as <-. now rewrite app_nil_r. }
  destruct Hg2 as (He2 & Hn2 & Hw2).
  apply bind_Ok in H as ([] & g3 & H3 & H).
  assert (Hg3 : silent g2 g3).
  { assert (Hp : preserves silent
                   (match old with
                    | Some _ =>
                        let* p := attr old props in
                        when (props_truthy p) (assign old (set_watcher None))
                    | None => ret tt
                    end)) by repeat silent_step.
    exact (Hp _ _ _ H3). }
  assert (Hg' : silent g3 g').
  { destruct elements as [es|]; [|discriminate].
    eapply silent_reconcile_loop; exact H. }
  destruct (silent_trans _ _ _ Hg3 Hg') as (He & Hn & Hw).
  rewrite He, He2, Hn, Hn2, Hw, Hw2. auto.
Qed.

(** X11.  [reconcile_children] makes no backend call, takes no node
    from the renderer and leaves the work queue alone; its one effect
    outside the store and the deletions is the subscription to the props
    of the fiber it works on, made exactly when that fiber has props
    that are not empty, has a backend node and has no watcher yet. *)
Theorem reconcile_children_effects fuel wip_fiber elements g g' fw :
  reconcile_children fuel wip_fiber elements g = Ok tt g' ->
  heap g !! wip_fiber = Some fw ->
  effects g'
  = effects g ++ watch_effect (watch_of (event_loop_type g) wip_fiber fw) /\
  backend_calls (effects g') = backend_calls (effects g) /\
  next_dom g' = next_dom g /\
  _work g' = _work g.
Proof.
  intros H Hfw.
  destruct (reconcile_children_watch _ _ _ _ _ _ H Hfw) as (He & Hn & Hw).
  split; [exact He|]. split; [|auto].
  rewrite He, backend_calls_app, backend_calls_watch_effect.
  apply app_nil_r.
Qed.

Lemma reconcile_children_effects_witness :
  exists g',
    reconcile_children 5 3 (Some []) label_second_pass = Ok tt g' /\
    effects g'
    = effects label_second_pass ++ [Watch (mkWatcher 3 true true)] /\
    backend_calls (effects g') = backend_calls (effects label_second_pass).
Proof.
  eexists. split; [vm_compute; reflexivity|].
  destruct (reconcile_children_effects 5 3 (Some []) label_second_pass _
              (mkFiber (Some (Host "label")) (Some [("text", VStr "a")])
                 (Some [("text", VStr "a")]) (Some []) (Some 0) (Some 2)
                 None None (Some 1) (Some UPDATE) None)
              ltac:(vm_compute; reflexivity) eq_refl)
    as (He & Hb & _).
  split; [exact He|exact Hb].
Defined.

Lemma backend_calls_map cs : backend_calls (map Backend cs) = cs.
Proof. induction cs as [|c cs IH]; [reflexivity|]. simpl. now rewrite IH. Qed.

(** X12.  A unit of work calls the backend only to make the node of a
    host fiber that has none: then it makes one [create_element] call
    with the type of the fiber, followed by the calls of [update_dom]
    from no props to the props of the fiber, and takes one node from
    the renderer.  On a component fiber, or on a fiber that has its
    node, it makes no backend call. *)
Theorem perform_unit_of_work_calls component fuel fiber g next g' f :
  perform_unit_of_work component fuel fiber g = Ok next g' ->
  heap g !! fiber = Some f ->
  (callable (type f) = true \/ is_Some (dom f) ->
   backend_calls (effects g') = backend_calls (effects g) /\
   next_dom g' = next_dom g) /\
  (callable (type f) = false -> dom f = None ->
   exists p,
     props f = Some p /\
     backend_calls (effects g')
     = backend_calls (effects g)
       ++ Renderer.create_element (type f) (next_dom g)
          :: update_dom (next_dom g) [] p /\
     next_dom g' = S (next_dom g)).
Proof.
  intros H Hf. unfold perform_unit_of_work in H.
  rewrite (bind_eq _ _ _ _ _ (get_fiber_eq _ _ _ Hf)) in H.
  apply bind_Ok in H as ([] & g1 & H1 & H).
  assert (Hg' : g' = g1).
  { apply bind_Ok in H as (c & g2 & H2 & H).
    apply attr_Ok in H2 as (? & ? & _ & _ & _ & ->).
    destruct c; [now injection H as _ <-|].
    now apply next_sibling_up_sound in H as [-> _]. }
  subst g1. clear H.
  assert (Hwork : unit_work component fuel fiber f g g').
  { destruct (callable (type f)) eqn:Hc.
    - now apply (update_function_component_work component fuel fiber f g g' Hf Hc).
    - now apply (update_host_component_work component fuel fiber f g g' Hf Hc). }
  unfold unit_work in Hwork.
  assert (Hquiet : forall es g0 f0,
             reconcile_children fuel fiber es g0 = Ok tt g' ->
             heap g0 !! fiber = Some f0 ->
             backend_calls (effects g') = backend_calls (effects g0) /\
             next_dom g' = next_dom g0).
  { intros es g0 f0 Hr Hf0.
    destruct (reconcile_children_watch _ _ _ _ _ _ Hr Hf0)
      as (He & Hn & _).
    split; [|exact Hn].
    rewrite He, backend_calls_app, backend_calls_watch_effect.
    apply app_nil_r. }
  split.
  - intros Hcase. destruct (type f) as [[tag|id]|] eqn:Ht.
    + destruct Hcase as [Hc|[d Hd]]; [discriminate|]. rewrite Hd in Hwork.
      eapply Hquiet; eassumption.
    + destruct Hwork as (p & _ & Hr).
      apply (Hquiet _ (with_calls (S (calls g)) g) f Hr Hf).
    + destruct Hcase as [Hc|[d Hd]]; [discriminate|]. rewrite Hd in Hwork.
      eapply Hquiet; eassumption.
  - intros Hc Hd.
    assert (Hr : exists p, props f = Some p /\
                   reconcile_children fuel fiber (children f)
                     (realized fiber f p g) = Ok tt g').
    { destruct (type f) as [[tag|id]|]; [|discriminate|];
        now rewrite Hd in Hwork. }
    destruct Hr as (p & Hp & Hr). exists p. split; [exact Hp|].
    assert (Hlt : fiber < length (heap g)) by (eapply lookup_lt_Some; eauto).
    destruct (Hquiet _ _ (set_dom (Some (next_dom g)) f) Hr) as [Hb Hn].
    { simpl. now apply list_lookup_insert_eq. }
    rewrite Hb, Hn. simpl.
    rewrite !backend_calls_app, backend_calls_map. simpl.
    now rewrite <- app_assoc.
Qed.

Lemma perform_unit_of_work_calls_witness :
  exists next g',
    perform_unit_of_work no_components 5 0 box_start = Ok next g' /\
    backend_calls (effects g') = [] /\
    exists next' g'',
      perform_unit_of_work no_components 5 1 g' = Ok next' g'' /\
      backend_calls (effects g'')
      = [Renderer.create_element (Some (Host "box")) 0].
Proof.
  eexists _, _. split; [vm_compute; reflexivity|]. split; [reflexivity|].
  eexists _, _. split; [vm_compute; reflexivity|].
  match goal with
  | |- backend_calls (effects ?g2) = _ =>
      destruct (perform_unit_of_work_calls no_components 5 1
                  (final_state box_start
                     (let* _ := perform_unit_of_work no_components 5 0 in
                      ret tt))
                  (Some 2) g2
                  (mkFiber (Some (Host "box")) (Some []) (Some [])
                     (Some [create_element (Host "a") None [];
                            create_element (Host "b") None []])
                     None (Some 0) None None None (Some PLACEMENT) None)
                  ltac:(vm_compute; reflexivity)
                  ltac:(vm_compute; reflexivity)) as [_ Hcalls]
  end.
  destruct (Hcalls eq_refl eq_refl) as (p & [= <-] & Hb & _).
  exact Hb.
Defined.

Lemma Forall2_lookup_both {A} (P : A -> A -> Prop) (l l' : list A) i :
  List.Forall2 P l l' ->
  match l !! i, l' !! i with
  | Some a, Some a' => P a a'
  | None, None => True
  | _, _ => False
  end.
Proof.
  intros H. revert i. induction H as [|a a' l l' Ha _ IH]; intros i.
  - now destruct i.
  - destruct i as [|i]; [exact Ha|apply IH].
Qed.

Lemma reconcile_loop_ignores_keys fuel wip_fiber es es' :
  List.Forall2
    (fun e e' => vn_type e = vn_type e' /\ vn_props e = vn_props e' /\
                 vn_children e = vn_children e') es es' ->
  forall index old_fiber prev_sibling g,
    reconcile_loop fuel wip_fiber es index old_fiber prev_sibling g
    = reconcile_loop fuel wip_fiber es' index old_fiber prev_sibling g.
Proof.
  intros Hes. induction fuel as [|fuel IH]; intros index old prev g;
    [reflexivity|].
  simpl. rewrite (Forall2_length _ _ _ Hes).
  destruct (negb _); [reflexivity|].
  pose proof (Forall2_lookup_both _ _ _ index Hes) as Hi.
  destruct (es !! index) as [[t p c k]|], (es' !! index) as [[t' p' c' k']|];
    try contradiction.
  - simpl in Hi. destruct Hi as (<- & <- & <-).
    apply bind_cong. intros o g1 _.
    unfold same_type_of, update_fiber, placement_fiber. simpl.
    repeat (apply bind_cong; intros ? ? _). apply IH.
  - repeat (apply bind_cong; intros ? ? _). apply IH.
Qed.

(** X13.  Reconciliation never reads the key of a descriptor: two
    lists of descriptors that agree, position by position, on type,
    props and children are reconciled to the same result, whatever their
    keys; children are matched by position only. *)
Theorem reconcile_children_ignores_keys fuel wip_fiber es es' g :
  List.Forall2
    (fun e e' => vn_type e = vn_type e' /\ vn_props e = vn_props e' /\
                 vn_children e = vn_children e') es es' ->
  reconcile_children fuel wip_fiber (Some es) g
  = reconcile_children fuel wip_fiber (Some es') g.
Proof.
  intros Hes. unfold reconcile_children.
  repeat (apply bind_cong; intros ? ? _).
  now apply reconcile_loop_ignores_keys.
Qed.

Lemma reconcile_children_ignores_keys_witness :
  reconcile_children 5 5
    (Some [mkVNode (Host "a") [] [] (Some (VInt 1));
           mkVNode (Host "b") [] [] (Some (VInt 2))]) box_second_pass
  = reconcile_children 5 5
      (Some [mkVNode (Host "a") [] [] (Some (VInt 2));
             mkVNode (Host "b") [] [] None]) box_second_pass.
Proof.
  apply (reconcile_children_ignores_keys 5 5).
  repeat constructor.
Defined.





(** ** The scheduler *)

(** X15.  In Qt mode the handlers connected to the timer are never
    disconnected: [_qt_first_run] is set when the timer is made and
    stays set, so every call of [request_idle_work] connects one more
    handler, with the deadline of that call, and starts the timer. *)
Theorem qt_requests_accumulate component mode_truth perf_counter_ns fuel
    deadline g :
  event_loop_type g = QT ->
  (_request g = true -> _qt_first_run g = true) ->
  exists g',
    request_idle_work component mode_truth perf_counter_ns fuel deadline g
    = Ok tt g' /\
    let d := match deadline with
             | Some d0 =>
                 if (d0 =? 0)%Z
                 then (perf_counter_ns (ticks g) + 16 * 1000000)%Z
                 else d0
             | None => (perf_counter_ns (ticks g) + 16 * 1000000)%Z
             end in
    _qt_connections g'
    = (if _request g then _qt_connections g else []) ++ [d] /\
    _qt_first_run g' = true /\
    _request g' = true /\
    effects g' = effects g ++ [QtTimerStart d] /\
    event_loop_type g' = QT.
Proof.
  intros Hm Hinv.
  unfold request_idle_work, request_idle_work_with, call_request.
  unfold bind, gets, modify, read_clock, emit, when, ret.
  destruct g as [mode ? ? ? ? ? req first ? ? ? ? ? ?]; simpl in *.
  subst mode.
  destruct deadline as [d0|]; [destruct (d0 =? 0)%Z|]; simpl;
    (destruct req; simpl;
     [rewrite (Hinv eq_refl); simpl; eexists; split; [reflexivity|];
      simpl; auto
     |eexists; split; [reflexivity|]; simpl; auto]).
Qed.

Lemma qt_requests_accumulate_witness :
  exists g1 g2,
    request_idle_work no_components enum_truth (fun _ => 0%Z) 5 None
      (PyGui_init QT 0) = Ok tt g1 /\
    request_idle_work no_components enum_truth (fun _ => 0%Z) 5
      (Some 7%Z) g1 = Ok tt g2 /\
    _qt_connections g2 = [16000000%Z; 7%Z].
Proof.
  destruct (qt_requests_accumulate no_components enum_truth (fun _ => 0%Z) 5
              None (PyGui_init QT 0) eq_refl ltac:(discriminate))
    as (g1 & Hrun1 & Hc1 & Hf1 & Hr1 & _ & Hm1).
  destruct (qt_requests_accumulate no_components enum_truth (fun _ => 0%Z) 5
              (Some 7%Z) g1)
    as (g2 & Hrun2 & Hc2 & _).
  - exact Hm1.
  - intros _. exact Hf1.
  - exists g1, g2. split; [exact Hrun1|]. split; [exact Hrun2|].
    simpl in Hc1, Hc2. rewrite Hc2, Hr1, Hc1. reflexivity.
Defined.

Lemma work_loop_idle component mode_truth perf_counter_ns fuel deadline g :
  _next_unit_of_work g = None -> _wip_root g = None ->
  work_loop component mode_truth perf_counter_ns (S (S fuel)) deadline g
  = Ok tt (with_effects (effects g ++ callback_effect (_render_callback g)) g).
Proof.
  intros Hn Hw.
  change (work_loop component mode_truth perf_counter_ns (S (S fuel))
            deadline g)
    with (bind (work_loop_while component mode_truth perf_counter_ns
                  (S fuel) deadline false)
            (fun _ =>
               let* next := gets _next_unit_of_work in
               let* wip := gets _wip_root in
               let* _ :=
                 when (negb (is_some next) && is_some wip)
                   (commit_root (S fuel)) in
               let* next := gets _next_unit_of_work in
               match next with
               | Some _ =>
                   request_idle_work_with perf_counter_ns
                     (work_loop component mode_truth perf_counter_ns
                        (S fuel)) None
               | None =>
                   let* callback := gets _render_callback in
                   match callback with
                   | Some cb => emit (RenderCallback cb)
                   | None => ret tt
                   end
               end) g).
  rewrite (bind_eq _ _ g tt g)
    by (rewrite work_loop_while_step, Hn; reflexivity).
  rewrite work_loop_tail by exact Hn. now rewrite Hw.
Qed.

(** X16.  The render callback is kept after it has been called: once a
    call of [work_loop] has returned, every further call, on the engine
    that has no work left, does nothing but call the callback again. *)
Theorem work_loop_calls_callback_again component mode_truth perf_counter_ns
    fuel deadline g g' :
  mode_truth (event_loop_type g) = true ->
  work_loop component mode_truth perf_counter_ns fuel deadline g = Ok tt g' ->
  forall clock fuel' deadline',
    work_loop component mode_truth clock (S (S fuel')) deadline' g'
    = Ok tt (with_effects
               (effects g' ++ callback_effect (_render_callback g)) g').
Proof.
  intros Hm H clock fuel' deadline'.
  destruct fuel as [|fuel]; [discriminate|]. simpl in H.
  apply bind_Ok in H as ([] & g1 & H1 & H).
  apply work_loop_while_exhausts in H1 as (Hn1 & Hw1 & _ & Hpf1);
    [|exact Hm].
  rewrite work_loop_tail in H by exact Hn1.
  assert (Hend : _next_unit_of_work g' = None /\ _wip_root g' = None /\
                 _render_callback g' = _render_callback g).
  { destruct Hpf1 as [_ Hcb1 _ _ _ _ _].
    destruct (_wip_root g1) as [w|] eqn:Hw.
    - destruct (commit_root fuel g1) as [[] g2| |] eqn:Hc; try discriminate.
      injection H as <-. simpl.
      apply commit_root_frame in Hc
        as (Hw2 & _ & Hn2 & [_ Hcb2 _ _ _ _ _]).
      split; [congruence|]. split; [exact Hw2|congruence].
    - injection H as <-. simpl. auto. }
  destruct Hend as (Hn & Hw & Hcb).
  rewrite work_loop_idle by assumption. now rewrite Hcb.
Qed.

Lemma work_loop_calls_callback_again_witness :
  exists g' g'',
    work_loop no_components enum_truth (fun _ => 0%Z) 20 None
      (render_entered box_descriptor box_container (Some 7)
         (PyGui_init SYNC 0)) = Ok tt g' /\
    work_loop no_components enum_truth (fun _ => 0%Z) 2 None g' = Ok tt g'' /\
    effects g'' = effects g' ++ [RenderCallback 7].
Proof.
  eexists _, _. split; [vm_compute; reflexivity|].
  rewrite (work_loop_calls_callback_again no_components enum_truth
             (fun _ => 0%Z) 20 None
             (render_entered box_descriptor box_container (Some 7)
                (PyGui_init SYNC 0)) _ eq_refl
             ltac:(vm_compute; reflexivity)).
  split; reflexivity.
Defined.

(** X17.  [state_updated] before anything has been committed raises:
    with no current root it makes a fresh work-in-progress root and
    then reads the [dom] of the current root, which is [None]. *)
Theorem state_updated_without_current_root component mode_truth
    perf_counter_ns fuel fiber g :
  _current_root g = None ->
  is_Some (heap g !! fiber) ->
  state_updated component mode_truth perf_counter_ns fuel fiber g
  = Raise NoneError.
Proof.
  intros Hc [f Hf].
  assert (H : state_updated_prepare fiber g = Raise NoneError).
  { unfold state_updated_prepare.
    rewrite (bind_eq _ _ g tt
               (with_heap (<[fiber := set_watcher None f]> (heap g)) g))
      by (now apply assign_eq).
    rewrite bind_gets. simpl _current_root. rewrite Hc.
    unfold and_then. rewrite bind_ret. unfold or_Fiber.
    rewrite bind_alloc, bind_modify. reflexivity. }
  unfold state_updated, bind. now rewrite H.
Qed.

Lemma state_updated_without_current_root_witness :
  state_updated no_components enum_truth (fun _ => 0%Z) 20 1 box_units_done
  = Raise NoneError.
Proof.
  apply state_updated_without_current_root; [reflexivity|].
  eexists. reflexivity.
Defined.

(** X18.  In the modes other than the synchronous one [render] does no
    work itself: it makes the root fiber, work-in-progress root and next
    unit of work, resets the deletions, makes no backend call and hands
    one request to the host loop, with the deadline 16 ms after the time
    it reads; it returns whatever the fuel. *)
Theorem render_defers_to_host component mode_truth perf_counter_ns element
    container callback g :
  event_loop_type g <> SYNC ->
  exists g1,
    (forall fuel,
        render component mode_truth perf_counter_ns fuel element container
          callback g = Ok tt g1) /\
    heap g1
    = heap g ++ [mkFiber None (Some []) None (Some [element])
                   (Some container) None None None (_current_root g)
                   None None] /\
    _next_unit_of_work g1 = Some (length (heap g)) /\
    _wip_root g1 = Some (length (heap g)) /\
    _current_root g1 = _current_root g /\
    _deletions g1 = Some [] /\
    _render_callback g1 = callback /\
    effects g1
    = effects g
      ++ [match event_loop_type g with
          | QT => QtTimerStart (perf_counter_ns (ticks g) + 16 * 1000000)%Z
          | _ => CallSoon (perf_counter_ns (ticks g) + 16 * 1000000)%Z
          end].
Proof.
  intros Hm.
  assert (Hreq : forall g0,
             event_loop_type g0 <> SYNC ->
             exists g1,
               (forall fuel,
                   request_idle_work component mode_truth perf_counter_ns
                     fuel None g0 = Ok tt g1) /\
               heap g1 = heap g0 /\
               _next_unit_of_work g1 = _next_unit_of_work g0 /\
               _wip_root g1 = _wip_root g0 /\
               _current_root g1 = _current_root g0 /\
               _deletions g1 = _deletions g0 /\
               _render_callback g1 = _render_callback g0 /\
               effects g1
               = effects g0
                 ++ [match event_loop_type g0 with
                     | QT => QtTimerStart
                               (perf_counter_ns (ticks g0) + 16 * 1000000)%Z
                     | _ => CallSoon
                              (perf_counter_ns (ticks g0) + 16 * 1000000)%Z
                     end]).
  { intros g0 Hm0.
    unfold request_idle_work, request_idle_work_with, call_request.
    unfold bind, gets, modify, read_clock, emit, when. simpl.
    destruct g0 as [mode ? ? ? ? ? [|] [|] ? ? ? ? ? ?]; simpl in *;
      destruct mode; try congruence; simpl;
      eexists; (split; [intros fuel; reflexivity|]); simpl;
      repeat split; reflexivity. }
  destruct (Hreq
              (with_render_callback callback
                 (with_next_unit_of_work (Some (length (heap g)))
                    (with_deletions (Some [])
                       (with_wip_root (Some (length (heap g)))
                          (with_heap
                             (heap g
                              ++ [mkFiber None (Some []) None
                                    (Some [element]) (Some container) None
                                    None None (_current_root g) None None])
                             g))))) Hm)
    as (g1 & Hrun & Hh & Hn & Hw & Hc & Hd & Hcb & He).
  exists g1. split; [|simpl in *; auto 10].
  intros fuel. unfold render.
  rewrite bind_gets, bind_alloc, !bind_modify. apply Hrun.
Qed.

Lemma render_defers_to_host_witness :
  exists g1,
    render no_components enum_truth (fun _ => 5%Z) 0 box_descriptor
      box_container None (PyGui_init DEFAULT 0) = Ok tt g1 /\
    _next_unit_of_work g1 = Some 0 /\
    effects g1 = [CallSoon 16000005%Z].
Proof.
  destruct (render_defers_to_host no_components enum_truth (fun _ => 5%Z)
              box_descriptor box_container None (PyGui_init DEFAULT 0))
    as (g1 & Hrun & _ & Hn & _ & _ & _ & _ & He); [discriminate|].
  exists g1. split; [apply Hrun|]. split; [exact Hn|exact He].
Defined.

(** ** CGX templates *)

Lemma bindR_Return {A B} (m : CGX.Result A) (k : A -> CGX.Result B) b :
  CGX.bindR m k = CGX.Return b ->
  exists a, m = CGX.Return a /\ k a = CGX.Return b.
Proof. destruct m; simpl; [eauto|discriminate]. Qed.

Lemma convert_attributes_loop_app component xs ys acc :
  CGX.convert_attributes_loop component (xs ++ ys) acc
  = CGX.bindR (CGX.convert_attributes_loop component xs acc)
      (CGX.convert_attributes_loop component ys).
Proof.
  revert acc. induction xs as [|x xs IH]; intros acc; simpl; [reflexivity|].
  destruct (CGX.convert_attribute component acc x); simpl; auto.
Qed.

Lemma cgx_dict_set_fresh {A} (d : list (string * A)) key v :
  ~ In key (map fst d) -> CGX.dict_set d key v = d ++ [(key, v)].
Proof.
  induction d as [|[k x] d IH]; simpl; intros Hn; [reflexivity|].
  destruct (String.eqb_spec k key) as [->|Hne]; [tauto|].
  rewrite IH by tauto. reflexivity.
Qed.

Lemma cgx_dict_find_set {A} (d : list (string * A)) key v k :
  CGX.dict_find (CGX.dict_set d key v) k
  = if String.eqb key k then Some v else CGX.dict_find d k.
Proof.
  induction d as [|[k0 x] d IH]; simpl.
  - reflexivity.
  - destruct (String.eqb_spec k0 key) as [->|Hne]; simpl.
    + destruct (String.eqb key k); reflexivity.
    + rewrite IH. destruct (String.eqb_spec k0 k) as [->|Hne'].
      * destruct (String.eqb_spec key k); congruence.
      * reflexivity.
Qed.

Lemma startswith_cons s p c :
  startswith s (String c p) = true ->
  exists s', s = String c s' /\ startswith s' p = true.
Proof.
  unfold startswith. destruct s as [|c' s]; simpl; [discriminate|].
  destruct (ascii_dec c c'); [subst; eauto|discriminate].
Qed.

Lemma startswith_v_bind key :
  startswith key "v-bind:" = true -> startswith key "v-" = true.
Proof.
  intros H. apply startswith_cons in H as (s1 & -> & H).
  apply startswith_cons in H as (s2 & -> & H).
  unfold startswith. simpl. destruct s2; reflexivity.
Qed.

Lemma not_directive_key key :
  startswith key "v-" = false ->
  String.eqb key "v-if" = false /\ String.eqb key "v-else-if" = false /\
  String.eqb key "v-else" = false.
Proof.
  intros H. repeat split;
    match goal with
    | |- String.eqb key ?k = false =>
        destruct (String.eqb_spec key k) as [->|];
        [vm_compute in H; discriminate|reflexivity]
    end.
Qed.

Lemma convert_attribute_plain component acc key v :
  CGX.plain_key key = true ->
  CGX.convert_attribute component acc (key, v)
  = CGX.Return (CGX.dict_set (fst acc) key v, snd acc).
Proof.
  unfold CGX.plain_key. intros H. apply negb_true_iff in H.
  pose proof H as H'. apply orb_false_iff in H' as [Hv Hc].
  destruct (not_directive_key key Hv) as (H1 & H2 & H3).
  assert (Hb : startswith key "v-bind:" = false).
  { destruct (startswith key "v-bind:") eqn:E; [|reflexivity].
    apply startswith_v_bind in E. congruence. }
  unfold CGX.convert_attribute. simpl fst. simpl snd.
  rewrite H, Hb, Hc, H1, H2, H3. reflexivity.
Qed.

Lemma convert_attributes_loop_plain component items a d :
  forallb CGX.plain_key (keys items) = true ->
  List.NoDup (keys a ++ keys items) ->
  CGX.convert_attributes_loop component items (a, d)
  = CGX.Return (a ++ items, d).
Proof.
  revert a. induction items as [|[k v] items IH]; intros a Hp Hn; simpl.
  - now rewrite app_nil_r.
  - simpl in Hp. apply andb_true_iff in Hp as [Hk Hp].
    rewrite convert_attribute_plain by exact Hk. simpl.
    simpl in Hn. pose proof Hn as Hn'.
    apply List.NoDup_remove_2 in Hn'.
    rewrite cgx_dict_set_fresh
      by (intros Hin; apply Hn'; apply in_or_app; left; exact Hin).
    rewrite IH.
    + now rewrite <- app_assoc.
    + exact Hp.
    + unfold keys in *. rewrite map_app. simpl. now rewrite <- app_assoc.
Qed.

(** X19.  Attributes without directives and bindings come out as they
    went in: when no key starts with [v-] or with a colon,
    [convert_attributes] returns the attributes, in their order, and no
    directive, whatever the component. *)
Theorem convert_attributes_plain attrs component :
  dict_wf attrs ->
  forallb CGX.plain_key (keys attrs) = true ->
  CGX.convert_attributes attrs component = CGX.Return (attrs, []).
Proof.
  intros Hwf Hp. unfold CGX.convert_attributes.
  now rewrite convert_attributes_loop_plain.
Qed.

Lemma convert_attributes_plain_witness :
  CGX.convert_attributes [("foo", VStr "bar"); ("@click", VFn 1)]
    (two_flags VNone VNone)
  = CGX.Return ([("foo", VStr "bar"); ("@click", VFn 1)], []).
Proof.
  apply convert_attributes_plain; [|reflexivity].
  repeat constructor; simpl; intuition discriminate.
Defined.

Lemma convert_attribute_bind_forms component acc name v :
  CGX.convert_attribute component acc (String.append ":" name, v)
  = CGX.convert_attribute component acc (String.append "v-bind:" name, v).
Proof.
  change (String.append ":" name) with (String ":" name).
  change (String.append "v-bind:" name)
    with (String "v" (String "-" (String "b" (String "i" (String "n"
            (String "d" (String ":" name))))))).
  assert (Hp : String.prefix "" name = true) by (now destruct name).
  unfold CGX.convert_attribute, startswith. simpl. rewrite Hp. simpl.
  destruct (CGX.split ":" name) as [|p ps] eqn:E; reflexivity.
Qed.

Lemma convert_attributes_middle component pre item post :
  CGX.convert_attributes (pre ++ item :: post) component
  = CGX.bindR (CGX.convert_attributes_loop component pre ([], []))
      (fun acc =>
         CGX.bindR (CGX.convert_attribute component acc item)
           (CGX.convert_attributes_loop component post)).
Proof.
  unfold CGX.convert_attributes. now rewrite convert_attributes_loop_app.
Qed.

(** X20.  The two ways of writing a binding are the same to
    [convert_attributes]: with [:name] in the place of [v-bind:name], at
    any place among the attributes, it returns or raises the same. *)
Theorem bind_shorthand_agrees pre name v post component :
  CGX.convert_attributes (pre ++ (String.append ":" name, v) :: post)
    component
  = CGX.convert_attributes (pre ++ (String.append "v-bind:" name, v) :: post)
      component.
Proof.
  rewrite !convert_attributes_middle.
  destruct (CGX.convert_attributes_loop component pre ([], [])) as [acc|e];
    simpl; [|reflexivity].
  now rewrite convert_attribute_bind_forms.
Qed.

Lemma convert_attribute_unknown_directive component acc key v :
  startswith key "v-" = true ->
  startswith key "v-bind:" = false ->
  key <> "v-if" -> key <> "v-else-if" -> key <> "v-else" ->
  CGX.convert_attribute component acc (key, v) = CGX.Return acc.
Proof.
  intros Hv Hb H1 H2 H3.
  assert (Hc : startswith key ":" = false).
  { apply startswith_cons in Hv as (s & -> & _). reflexivity. }
  apply String.eqb_neq in H1, H2, H3.
  unfold CGX.convert_attribute. simpl fst. simpl snd.
  rewrite Hv, Hb, Hc, H1, H2, H3. simpl. now destruct acc.
Qed.

(** X21.  A directive that [convert_attributes] does not know is left
    out without a word: an attribute whose key starts with [v-], but not
    with [v-bind:], and is none of [v-if], [v-else-if] and [v-else]
    ([v-for], [v-on:click], [v-model], ...) changes neither the
    attributes nor the directives nor what is raised. *)
Theorem unknown_directive_is_dropped pre key v post component :
  startswith key "v-" = true ->
  startswith key "v-bind:" = false ->
  key <> "v-if" -> key <> "v-else-if" -> key <> "v-else" ->
  CGX.convert_attributes (pre ++ (key, v) :: post) component
  = CGX.convert_attributes (pre ++ post) component.
Proof.
  intros Hv Hb H1 H2 H3. rewrite convert_attributes_middle.
  unfold CGX.convert_attributes. rewrite convert_attributes_loop_app.
  destruct (CGX.convert_attributes_loop component pre ([], [])) as [acc|e];
    simpl; [|reflexivity].
  now rewrite convert_attribute_unknown_directive.
Qed.

Lemma unknown_directive_is_dropped_witness :
  CGX.convert_attributes
    [("foo", VStr "bar"); ("v-on:click", VStr "handler");
     (":text", VStr "title")]
    (two_flags VNone VNone)
  = CGX.Return ([("foo", VStr "bar"); ("text", VStr "Hello")], []).
Proof.
  rewrite (unknown_directive_is_dropped [("foo", VStr "bar")] "v-on:click"
             (VStr "handler") [(":text", VStr "title")]);
    [reflexivity|reflexivity|reflexivity|discriminate..].
Defined.

Lemma Node_forall_ind (P : CGX.Node -> Prop) :
  (forall tag attrs data cs,
      Forall P cs -> P (CGX.mkNode tag attrs data cs)) ->
  forall node, P node.
Proof.
  intros H. fix IH 1. intros [tag attrs data cs]. apply H.
  induction cs as [|c cs IHcs]; constructor; [apply IH|exact IHcs].
Qed.

Lemma control_flow_of_no_directive Element cf :
  CGX.control_flow_of Element [] cf = CGX.Return (inr cf).
Proof. reflexivity. Qed.

Section PlainTemplate.

Variable Element : Type.
Variable create_element : string -> Dict -> list Element -> Element.
Variable element_truth : Element -> bool.
Variable component : CGX.Component.
Hypothesis elements_true : forall e, element_truth e = true.

Lemma _convert_node_plain node :
  CGX.plain node ->
  forall cf,
    CGX._convert_node Element create_element element_truth component node cf
    = CGX.Return (Some (CGX.element_of Element create_element node), cf).
Proof using elements_true.
  induction node as [tag attrs data cs IH] using Node_forall_ind.
  intros (Hwf & Hp & Hcs) cf. simpl. unfold CGX.convert_attributes.
  rewrite convert_attributes_loop_plain by assumption. simpl.
  assert (Hloop : forall acc ccf,
             CGX.convert_children Element element_truth
               (CGX._convert_node Element create_element element_truth
                  component) cs acc ccf
             = CGX.Return
                 (acc ++ map (CGX.element_of Element create_element) cs)).
  { clear Hwf Hp. induction cs as [|c cs IHl]; intros acc ccf; simpl.
    - now rewrite app_nil_r.
    - destruct Hcs as [Hc Hcs]. apply Forall_cons in IH as [IHc IH].
      rewrite (IHc Hc). simpl. unfold CGX.append_child.
      rewrite elements_true, (IHl IH Hcs), <- app_assoc. reflexivity. }
  rewrite Hloop. reflexivity.
Qed.

End PlainTemplate.

(** X22.  A template without directives and bindings is converted as it
    is written: when in every node the attributes have distinct keys,
    none of which starts with [v-] or a colon, and elements are true,
    [convert_node] returns the element of the node's tag and attributes
    whose children are the converted children, in their order, whatever
    the component. *)
Theorem convert_node_plain Element create_element element_truth component
    node :
  (forall e : Element, element_truth e = true) ->
  CGX.plain node ->
  CGX.convert_node Element create_element element_truth component node
  = CGX.Return (Some (CGX.element_of Element create_element node)).
Proof.
  intros Ht Hp. unfold CGX.convert_node.
  now rewrite _convert_node_plain.
Qed.

Lemma convert_node_plain_witness :
  CGX.convert_node VNode host_element element_truth (two_flags VNone VNone)
    item_template
  = CGX.Return
      (Some (mkVNode (Host "item") [("foo", VStr "bar")]
               [mkVNode (Host "item") [("baz", VStr "bla")] [] None] None)).
Proof.
  rewrite convert_node_plain; [reflexivity|reflexivity|].
  simpl. repeat split; repeat constructor; simpl; intuition discriminate.
Defined.

(** The keys that are directives to [_convert_node]. *)
Lemma convert_attribute_directives component acc key v acc1 k :
  CGX.convert_attribute component acc (key, v) = CGX.Return acc1 ->
  In k ["v-if"; "v-else-if"; "v-else"] ->
  CGX.dict_find (snd acc1) k = None
  <-> CGX.dict_find (snd acc) k = None /\ key <> k.
Proof.
  intros H Hk. unfold CGX.convert_attribute in H. simpl fst in H.
  simpl snd in H.
  apply bindR_Return in H as (a & _ & H).
  apply bindR_Return in H as (d & H & [= <-]). simpl.
  assert (Hd : (exists x, d = CGX.dict_set (snd acc) key x)
               \/ (d = snd acc /\ ~ In key ["v-if"; "v-else-if"; "v-else"])).
  { destruct (String.eqb_spec key "v-if") as [->|N1].
    { simpl in H. apply bindR_Return in H as (x & _ & [= <-]). eauto. }
    destruct (String.eqb_spec key "v-else-if") as [->|N2].
    { simpl in H. apply bindR_Return in H as (x & _ & [= <-]). eauto. }
    simpl in H.
    destruct (String.eqb_spec key "v-else") as [->|N3].
    { injection H as <-. eauto. }
    injection H as <-. right. split; [reflexivity|].
    simpl. intuition congruence. }
  destruct Hd as [[x ->]|[-> Hn]].
  - rewrite cgx_dict_find_set.
    destruct (String.eqb_spec key k) as [->|Hne].
    + split; [discriminate|]. intros [_ N]. congruence.
    + tauto.
  - split; [|tauto]. intros Hf. split; [exact Hf|]. congruence.
Qed.

Lemma convert_attributes_loop_directives component items acc acc1 k :
  CGX.convert_attributes_loop component items acc = CGX.Return acc1 ->
  In k ["v-if"; "v-else-if"; "v-else"] ->
  CGX.dict_find (snd acc1) k = None
  <-> CGX.dict_find (snd acc) k = None /\ ~ In k (keys items).
Proof.
  revert acc. induction items as [|[key v] items IH]; intros acc H Hk.
  - simpl in H. injection H as <-. simpl. tauto.
  - simpl in H. apply bindR_Return in H as (acc2 & H2 & H).
    rewrite (IH _ H Hk).
    rewrite (convert_attribute_directives _ _ _ _ _ _ H2 Hk).
    simpl. intuition congruence.
Qed.

Lemma convert_attributes_directives attrs component a d k :
  CGX.convert_attributes attrs component = CGX.Return (a, d) ->
  In k ["v-if"; "v-else-if"; "v-else"] ->
  CGX.dict_find d k = None <-> dict_contains attrs k = false.
Proof.
  intros H Hk. unfold CGX.convert_attributes in H.
  rewrite (convert_attributes_loop_directives _ _ _ _ _ H Hk
           : CGX.dict_find (snd (a, d)) k = None <-> _).
  simpl. unfold dict_contains.
  pose proof (dict_lookup_None attrs k) as Hl.
  destruct (dict_lookup attrs k) eqn:E.
  - split; [|discriminate]. intros [_ Hn]. apply Hl in Hn. discriminate.
  - split; [reflexivity|]. intros _. split; [reflexivity|]. now apply Hl.
Qed.

Section Branches.

Variable Element : Type.
Variable create_element : string -> Dict -> list Element -> Element.
Variable element_truth : Element -> bool.
Variable component : CGX.Component.

#[local] Abbreviation convert :=
  (CGX._convert_node Element create_element element_truth component).

Lemma directive_present node a d k :
  CGX.convert_attributes (CGX.attrs node) component = CGX.Return (a, d) ->
  In k ["v-if"; "v-else-if"; "v-else"] ->
  dict_contains (CGX.attrs node) k = true ->
  exists dv, CGX.dict_find d k = Some dv.
Proof.
  intros H Hk Hc. destruct (CGX.dict_find d k) as [dv|] eqn:E; [eauto|].
  apply (convert_attributes_directives _ _ _ _ _ H Hk) in E. congruence.
Qed.

Lemma directive_absent node a d k :
  CGX.convert_attributes (CGX.attrs node) component = CGX.Return (a, d) ->
  In k ["v-if"; "v-else-if"; "v-else"] ->
  dict_contains (CGX.attrs node) k = false ->
  CGX.dict_find d k = None.
Proof.
  intros H Hk Hc. now apply (convert_attributes_directives _ _ _ _ _ H Hk).
Qed.

Lemma _convert_node_Return node cf r :
  convert node cf = CGX.Return r ->
  exists a d c,
    CGX.convert_attributes (CGX.attrs node) component = CGX.Return (a, d) /\
    CGX.control_flow_of Element d cf = CGX.Return c /\
    match c with
    | inl r' => r = r'
    | inr cf' => exists e, r = (Some e, cf')
    end.
Proof.
  destruct node as [tag attrs data cs]. simpl. intros H.
  apply bindR_Return in H as ([a d] & Ha & H).
  apply bindR_Return in H as (c & Hc & H). simpl in Hc.
  exists a, d, c. repeat split; [exact Ha|exact Hc|].
  destruct c as [r'|cf'].
  - now injection H as <-.
  - apply bindR_Return in H as (children & _ & [= <-]). eauto.
Qed.

Lemma _convert_node_if node cf r :
  CGX.is_if node = true ->
  convert node cf = CGX.Return r ->
  r = (None, Some (CGX.mkControlFlow false))
  \/ exists e, r = (Some e, Some (CGX.mkControlFlow true)).
Proof.
  unfold CGX.is_if. intros Hif H.
  apply _convert_node_Return in H as (a & d & c & Ha & Hc & Hr).
  destruct (directive_present _ _ _ "v-if" Ha ltac:(simpl; auto) Hif)
    as [dv Hdv].
  unfold CGX.control_flow_of in Hc. rewrite Hdv in Hc. simpl in Hc.
  destruct (CGX.directive_truth dv); simpl in Hc; injection Hc as <-;
    [right; exact Hr|left; exact Hr].
Qed.

Lemma _convert_node_else_if node cf r :
  CGX.is_else_if node = true ->
  convert node (Some cf) = CGX.Return r ->
  if CGX.result cf then r = (None, Some (CGX.mkControlFlow true))
  else r = (None, Some (CGX.mkControlFlow false))
       \/ exists e, r = (Some e, Some (CGX.mkControlFlow true)).
Proof.
  unfold CGX.is_else_if. intros Hn H.
  apply andb_true_iff in Hn as [H1 H2]. apply negb_true_iff in H1.
  apply _convert_node_Return in H as (a & d & c & Ha & Hc & Hr).
  pose proof (directive_absent _ _ _ "v-if" Ha ltac:(simpl; auto) H1) as E1.
  destruct (directive_present _ _ _ "v-else-if" Ha ltac:(simpl; auto) H2)
    as [dv Hdv].
  unfold CGX.control_flow_of in Hc. rewrite E1, Hdv in Hc.
  destruct cf as [[|]]; simpl in *.
  - injection Hc as <-. exact Hr.
  - destruct (CGX.directive_truth dv); simpl in Hc; injection Hc as <-;
      [right; exact Hr|left; exact Hr].
Qed.

Lemma _convert_node_else node cf r :
  CGX.is_else node = true ->
  convert node (Some cf) = CGX.Return r ->
  if CGX.result cf then r = (None, None)
  else exists e, r = (Some e, Some (CGX.mkControlFlow false)).
Proof.
  unfold CGX.is_else. intros Hn H.
  apply andb_true_iff in Hn as [Hn H3].
  apply andb_true_iff in Hn as [H1 H2].
  apply negb_true_iff in H1, H2.
  apply _convert_node_Return in H as (a & d & c & Ha & Hc & Hr).
  pose proof (directive_absent _ _ _ "v-if" Ha ltac:(simpl; auto) H1) as E1.
  pose proof (directive_absent _ _ _ "v-else-if" Ha ltac:(simpl; auto 6) H2)
    as E2.
  destruct (directive_present _ _ _ "v-else" Ha ltac:(simpl; auto 6) H3)
    as [dv Hdv].
  unfold CGX.control_flow_of in Hc. rewrite E1, E2, Hdv in Hc.
  destruct cf as [[|]]; simpl in *; injection Hc as <-; exact Hr.
Qed.

Lemma _convert_node_no_control_flow node a d :
  (CGX.is_else_if node || CGX.is_else node) = true ->
  CGX.convert_attributes (CGX.attrs node) component = CGX.Return (a, d) ->
  convert node None = CGX.Raised CGX.AttributeError.
Proof.
  intros Hn Ha.
  assert (Hc : CGX.control_flow_of Element d None
               = CGX.Raised CGX.AttributeError).
  { unfold CGX.is_else_if, CGX.is_else in Hn.
    destruct (dict_contains (CGX.attrs node) "v-if") eqn:H1;
      [discriminate|].
    unfold CGX.control_flow_of.
    rewrite (directive_absent _ _ _ "v-if" Ha ltac:(simpl; auto) H1).
    destruct (dict_contains (CGX.attrs node) "v-else-if") eqn:H2.
    - destruct (directive_present _ _ _ "v-else-if" Ha
                  ltac:(simpl; auto) H2) as [dv ->]. reflexivity.
    - rewrite (directive_absent _ _ _ "v-else-if" Ha
                 ltac:(simpl; auto 6) H2).
      simpl in Hn.
      destruct (directive_present _ _ _ "v-else" Ha
                  ltac:(simpl; auto 6) Hn) as [dv ->]. reflexivity. }
  destruct node as [tag attrs data cs]. simpl in *.
  rewrite Ha. simpl. rewrite Hc. reflexivity.
Qed.

Hypothesis elements_true : forall e, element_truth e = true.

Lemma convert_children_branches elifs n_else :
  forallb CGX.is_else_if elifs = true ->
  CGX.is_else n_else = true ->
  forall acc cf acc',
    CGX.convert_children Element element_truth convert
      (elifs ++ [n_else]) acc (Some cf) = CGX.Return acc' ->
    if CGX.result cf then acc' = acc else exists e, acc' = acc ++ [e].
Proof using elements_true.
  intros He Hl. induction elifs as [|n elifs IH]; intros acc cf acc' H.
  - simpl in H. apply bindR_Return in H as (r & Hr & H).
    apply (_convert_node_else _ _ _ Hl) in Hr.
    destruct (CGX.result cf).
    + subst r. simpl in H. now injection H as <-.
    + destruct Hr as [e ->]. simpl in H. rewrite elements_true in H.
      injection H as <-. eauto.
  - simpl in He. apply andb_true_iff in He as [Hn He].
    simpl in H. apply bindR_Return in H as (r & Hr & H).
    apply (_convert_node_else_if _ _ _ Hn) in Hr.
    destruct (CGX.result cf) eqn:Hb.
    + subst r. simpl in H. apply (IH He) in H. exact H.
    + destruct Hr as [->|[e ->]]; simpl in H.
      * apply (IH He) in H. exact H.
      * rewrite elements_true in H. apply (IH He) in H. simpl in H.
        subst acc'. eauto.
Qed.

End Branches.

Lemma control_flow_of_early Element d cf r :
  CGX.control_flow_of Element d cf = CGX.Return (inl r) -> fst r = None.
Proof.
  unfold CGX.control_flow_of. intros H.
  repeat match type of H with
         | context [match ?x with _ => _ end] => destruct x; simpl in H
         end; try discriminate; now injection H as <-.
Qed.

(** X23.  Of a chain of branches one is rendered.  When the children of
    a node are a [v-if] node, then any number of [v-else-if] nodes, then
    a [v-else] node, elements are true and [_convert_node] returns an
    element for the node, that element has exactly one child. *)
Theorem if_chain_renders_one_branch Element create_element element_truth
    component tag attrs data n_if elifs n_else cf el cf' :
  (forall e : Element, element_truth e = true) ->
  CGX.is_if n_if = true ->
  forallb CGX.is_else_if elifs = true ->
  CGX.is_else n_else = true ->
  CGX._convert_node Element create_element element_truth component
    (CGX.mkNode tag attrs data (n_if :: elifs ++ [n_else])) cf
  = CGX.Return (Some el, cf') ->
  exists a d e,
    CGX.convert_attributes attrs component = CGX.Return (a, d) /\
    el = create_element tag a [e].
Proof.
  intros Ht Hif Helifs Helse H. simpl in H.
  apply bindR_Return in H as ([a d] & Ha & H).
  apply bindR_Return in H as (c & Hc & H).
  destruct c as [r|cf0].
  - apply control_flow_of_early in Hc. injection H as ->. discriminate.
  - apply bindR_Return in H as (cs & Hcs & H). injection H as <- <-.
    exists a, d. simpl in Hcs.
    apply bindR_Return in Hcs as (r & Hr & Hcs).
    apply (_convert_node_if _ _ _ _ _ _ _ Hif) in Hr as [->|[e ->]];
      simpl in Hcs.
    + apply (convert_children_branches _ _ _ _ Ht _ _ Helifs Helse) in Hcs
        as [e ->].
      exists e. split; [exact Ha|reflexivity].
    + rewrite Ht in Hcs.
      apply (convert_children_branches _ _ _ _ Ht _ _ Helifs Helse) in Hcs
        as ->.
      exists e. split; [exact Ha|reflexivity].
Qed.

Lemma if_chain_renders_one_branch_witness :
  exists a d e,
    CGX.convert_attributes [] (two_flags (VInt 0) (VStr "yes"))
    = CGX.Return (a, d) /\
    mkVNode (Host "box") [] [mkVNode (Host "b") [] [] None] None
    = host_element "box" a [e].
Proof.
  apply (if_chain_renders_one_branch VNode host_element element_truth
           (two_flags (VInt 0) (VStr "yes")) "box" [] None
           (CGX.mkNode "a" [("v-if", VStr "first")] None [])
           [CGX.mkNode "b" [("v-else-if", VStr "second")] None []]
           (CGX.mkNode "c" [("v-else", VNone)] None [])
           None _ None); reflexivity.
Defined.

(** X24.  A [v-else-if] or [v-else] needs a branch before it.  A node
    that carries one of them and no [v-if], and whose attributes convert,
    makes [convert_node] raise [AttributeError] when it is the root of
    the template, and makes [_convert_node] raise it when it is the first
    child of a node without directives and bindings. *)
Theorem else_without_if_raises Element create_element element_truth
    component node a d :
  (CGX.is_else_if node || CGX.is_else node) = true ->
  CGX.convert_attributes (CGX.attrs node) component = CGX.Return (a, d) ->
  CGX.convert_node Element create_element element_truth component node
  = CGX.Raised CGX.AttributeError /\
  forall tag attrs data siblings cf,
    dict_wf attrs ->
    forallb CGX.plain_key (keys attrs) = true ->
    CGX._convert_node Element create_element element_truth component
      (CGX.mkNode tag attrs data (node :: siblings)) cf
    = CGX.Raised CGX.AttributeError.
Proof.
  intros Hn Ha.
  pose proof (_convert_node_no_control_flow Element create_element
                element_truth component node a d Hn Ha) as Hr.
  split.
  - unfold CGX.convert_node. now rewrite Hr.
  - intros tag attrs data siblings cf Hwf Hp. simpl.
    unfold CGX.convert_attributes at 1.
    rewrite convert_attributes_loop_plain by assumption. simpl.
    now rewrite Hr.
Qed.

Lemma else_without_if_raises_witness :
  CGX.convert_node VNode host_element element_truth (two_flags VNone VNone)
    (CGX.mkNode "c" [("v-else", VNone)] None [])
  = CGX.Raised CGX.AttributeError /\
  CGX.convert_node VNode host_element element_truth (two_flags VNone VNone)
    (CGX.mkNode "box" [("foo", VStr "bar")] None
       [CGX.mkNode "c" [("v-else", VNone)] None [];
        CGX.mkNode "d" [] None []])
  = CGX.Raised CGX.AttributeError.
Proof.
  destruct (else_without_if_raises VNode host_element element_truth
              (two_flags VNone VNone)
              (CGX.mkNode "c" [("v-else", VNone)] None []) []
              [("v-else", CGX.PyTrue)] eq_refl eq_refl) as [H1 H2].
  split; [exact H1|].
  unfold CGX.convert_node. rewrite H2; [reflexivity| |reflexivity].
  repeat constructor; simpl; intuition discriminate.
Defined.
